(** * DBS3 client library (UAMP / MVISP): a shallow embedding and its properties

    The development follows the C sources of the client library:
    - [errors.h]           the error codes and the ERROR / ERROR_CHECK / ASSERT idiom,
    - [socketWrapper.c]    callSocket, socketRead, socketWrite,
    - [ioBuffer.c]         the framed I/O buffer,
    - [states.c]           state names and the state-change batcher,
    - [queues.c]           the per-agent update ring and its prefetch,
    - [uampClient.c]       connect, handshake, commands, cursors, terminate.

    C integers are integers of [Z]; unsigned 32- and 64-bit arithmetic is
    written with its wrap-around ([to_u32], [to_u64]).  A [double] is an IEEE
    binary64 number of [PrimFloat].  The socket, the heap and the caller's
    memory reached through out-pointers form the [world]. *)

From Stdlib Require Import ZArith Lia List String Bool.
From Stdlib Require Import Strings.Byte.
From Stdlib Require Import Floats.PrimFloat Floats.FloatOps Floats.SpecFloat.
From Stdlib Require Import Numbers.Cyclic.Int63.Uint63.
From stdpp Require Import base list.

Local Open Scope Z_scope.

(* ===================================================================== *)
(** ** Constants (uampClient.h, errors.h, states.c, uampClient.c) *)
(* ===================================================================== *)

Definition UAMP_UPDATE_QUEUE_SIZE : Z := 6.
Definition UAMP_STATE_BUFFER_SIZE : Z := 128.
Definition UAMP_IO_BUFFER_SIZE : Z := 2048.
Definition MAX_NAME_LEN : Z := 1024.
Definition SUPPORTED_VERSION : Z := 0x80.

Definition UAMP_NO_EXTRAS : Z := 0x00000000.
Definition UAMP_SUPPORTS_3D : Z := 0x80000000.
Definition UAMP_SUPPORTS_ADD_REMOVE : Z := 0x40000000.

Definition UINT32_MAX : Z := 4294967295.
Definition INT_MAX : Z := 2147483647.

(** [UAMP_MAX_TIME] is the double nearest to 4294967.295. *)
Definition UAMP_MAX_TIME : float := 0x1.0624dd2e147aep+22%float.

Definition ERROR_INVALID_PORT : Z := -1.
Definition ERROR_HOSTNAME_INFORMATION : Z := -2.
Definition ERROR_CREATE_SOCKET : Z := -3.
Definition ERROR_CONNECT_SOCKET : Z := -4.
Definition ERROR_SOCKET_DRY : Z := -5.
Definition ERROR_SOCKET_READ : Z := -6.
Definition ERROR_SOCKET_WRITE : Z := -7.
Definition ERROR_OUT_OF_MEMORY : Z := -8.
Definition ERROR_INVALID_NUMBER_STATES : Z := -9.
Definition ERROR_ZERO_STATE_LENGTH : Z := -10.
Definition ERROR_STATE_LENGTH_LONG : Z := -11.
Definition ERROR_DUPLICATE_STATE : Z := -12.
Definition ERROR_INVALID_NUM_AGENTS : Z := -13.
Definition ERROR_INVALID_TIME_LIMIT : Z := -14.
Definition ERROR_UAMP_CLIENT_MVISP_SERVER : Z := -15.
Definition ERROR_MVISP_CLIENT_UAMP_SERVER : Z := -16.
Definition ERROR_SERVER_UNKNOWN_HANDSHAKE : Z := -17.
Definition ERROR_SIMULATION_DENIED : Z := -18.
Definition ERROR_SIMULATION_RESPONSE_BAD : Z := -19.
Definition ERROR_NO_MORE_DATA : Z := -20.
Definition ERROR_INVALID_CHANGE_TIME : Z := -21.
Definition ERROR_INVALID_CHANGE_STATE : Z := -22.
Definition ERROR_NO_INTERSECTION : Z := -23.
Definition ERROR_NO_SHARED_VERSION : Z := -24.
Definition ERROR_2D_CLIENT_3D_SERVER : Z := -25.
Definition ERROR_ADD_REMOVE_UNSUPPORTED : Z := -26.
Definition ERROR_INVALID_FEATURES : Z := -27.
Definition ERROR_SERVER_REJECTED_HANDSHAKE : Z := -28.
Definition ERROR_SERVER_CLIENT_VERSION_DISAGREE : Z := -29.
Definition ERROR_MVISP_NO_AGENTS : Z := -30.
Definition ERROR_FIRST_UPDATE_TIME : Z := -31.
Definition ERROR_NON_EQUAL_FINAL_UPDATES : Z := -32.
Definition ERROR_TIMESTAMP_TOO_LARGE : Z := -33.
Definition ERROR_TIMESTAMP_NOT_INCREMENTED : Z := -34.
Definition ERROR_INVALID_PRESENT_FLAG : Z := -35.

(* ===================================================================== *)
(** ** Machine arithmetic *)
(* ===================================================================== *)

(** Conversion to [uint32_t], [uint64_t], [uint8_t]: reduction modulo 2^w. *)
Definition to_u32 (v : Z) : Z := v mod 2 ^ 32.
Definition to_u64 (v : Z) : Z := v mod 2 ^ 64.
Definition to_u8 (v : Z) : Z := v mod 2 ^ 8.

(** Conversion of an out-of-range value to [int] (two's complement). *)
Definition to_int (v : Z) : Z := (v + 2 ^ 31) mod 2 ^ 32 - 2 ^ 31.

(** A byte ([unsigned char]) and its value. *)
Definition byte_val (b : byte) : Z := Z.of_N (Byte.to_N b).
Definition to_byte (v : Z) : byte :=
  match Byte.of_N (Z.to_N (to_u8 v)) with Some b => b | None => x00 end.

(** htonl followed by the byte-wise copy: the four bytes of a 32-bit value
    in network order. *)
Definition encode32 (v : Z) : list byte :=
  [to_byte (v / 2 ^ 24); to_byte (v / 2 ^ 16); to_byte (v / 2 ^ 8); to_byte v].

(** The byte-wise copy into a [uint32_t] followed by ntohl. *)
Definition decode32 (bs : list byte) : Z :=
  match bs with
  | [b0; b1; b2; b3] =>
      byte_val b0 * 2 ^ 24 + byte_val b1 * 2 ^ 16 + byte_val b2 * 2 ^ 8 + byte_val b3
  | _ => 0
  end.

(** [(double)v] for a 32-bit unsigned [v], and [v / 1000.0]. *)
Definition u32_to_double (v : Z) : float := PrimFloat.of_uint63 (Uint63.of_Z v).
Definition thousandth (v : Z) : float := PrimFloat.div (u32_to_double v) 1000%float.

Definition LLONG_MIN : Z := - 2 ^ 63.

(** [llround]: the nearest integer, halves away from zero.  C leaves the
    result unspecified on NaN and infinities: [None]. *)
Definition llround (f : float) : option Z :=
  match Prim2SF f with
  | S754_zero _ => Some 0
  | S754_finite s m e =>
      let mag :=
        if 0 <=? e then Z.pos m * 2 ^ e
        else
          let d := 2 ^ (- e) in
          let q := Z.pos m / d in
          let r := Z.pos m mod d in
          if d <=? 2 * r then q + 1 else q in
      Some (if s then - mag else mag)
  | S754_infinity _ | S754_nan => None
  end.

(* ===================================================================== *)
(** ** Data model (uampClient.h) *)
(* ===================================================================== *)

Record uampCommand := mkCommand {
  agentID : Z;
  fromX : float; fromY : float; fromZ : float; fromTime : float;
  toX : float; toY : float; toZ : float; toTime : float;
  present : Z
}.

Record uampUpdate := mkUpdate {
  u_time : Z;   (* uint32_t *)
  u_x : Z;      (* uint32_t *)
  u_y : Z;      (* uint32_t *)
  u_z : Z;      (* uint32_t *)
  u_present : Z (* uint8_t *)
}.

Record uampAgent := mkAgent {
  updates : list uampUpdate;   (* UAMP_UPDATE_QUEUE_SIZE slots *)
  currentIndex : Z;
  aliveInQueue : Z;
  recvIndex : Z;
  receivedFinal : Z
}.

Record uampState := mkState {
  s_agentID : Z;
  s_time : Z;
  s_newState : Z
}.

(** The I/O buffer.  [buffer] holds the live bytes only, so that the C field
    [inBuffer] is its length: for a read they are the bytes at the high end
    of the C array, from offset [UAMP_IO_BUFFER_SIZE - inBuffer]; for a write
    they are the bytes at its low end, below offset [inBuffer]. *)
Record uampIOBuffer := mkIOBuffer {
  total : Z;    (* uint64_t *)
  passed : Z;   (* uint64_t *)
  buffer : list byte
}.

Definition inBuffer (b : uampIOBuffer) : Z := Z.of_nat (length (buffer b)).

Record uampClient := mkClient {
  fd : Z;
  commBuf : uampIOBuffer;
  serverFeatures : Z;
  numAgents : Z;
  timeLimit : Z;
  numStates : Z;
  agents : option (list uampAgent);   (* None is the NULL pointer *)
  largestLastTime : Z;
  smallestCurrentTime : Z;
  changes : list uampState;           (* UAMP_STATE_BUFFER_SIZE entries *)
  numChanges : Z
}.

Definition set_fd (v : Z) (c : uampClient) : uampClient :=
  mkClient v (commBuf c) (serverFeatures c) (numAgents c) (timeLimit c) (numStates c)
           (agents c) (largestLastTime c) (smallestCurrentTime c) (changes c) (numChanges c).
Definition set_commBuf (v : uampIOBuffer) (c : uampClient) : uampClient :=
  mkClient (fd c) v (serverFeatures c) (numAgents c) (timeLimit c) (numStates c)
           (agents c) (largestLastTime c) (smallestCurrentTime c) (changes c) (numChanges c).
Definition set_serverFeatures (v : Z) (c : uampClient) : uampClient :=
  mkClient (fd c) (commBuf c) v (numAgents c) (timeLimit c) (numStates c)
           (agents c) (largestLastTime c) (smallestCurrentTime c) (changes c) (numChanges c).
Definition set_numAgents (v : Z) (c : uampClient) : uampClient :=
  mkClient (fd c) (commBuf c) (serverFeatures c) v (timeLimit c) (numStates c)
           (agents c) (largestLastTime c) (smallestCurrentTime c) (changes c) (numChanges c).
Definition set_timeLimit (v : Z) (c : uampClient) : uampClient :=
  mkClient (fd c) (commBuf c) (serverFeatures c) (numAgents c) v (numStates c)
           (agents c) (largestLastTime c) (smallestCurrentTime c) (changes c) (numChanges c).
Definition set_numStates (v : Z) (c : uampClient) : uampClient :=
  mkClient (fd c) (commBuf c) (serverFeatures c) (numAgents c) (timeLimit c) v
           (agents c) (largestLastTime c) (smallestCurrentTime c) (changes c) (numChanges c).
Definition set_agents (v : option (list uampAgent)) (c : uampClient) : uampClient :=
  mkClient (fd c) (commBuf c) (serverFeatures c) (numAgents c) (timeLimit c) (numStates c)
           v (largestLastTime c) (smallestCurrentTime c) (changes c) (numChanges c).
Definition set_largestLastTime (v : Z) (c : uampClient) : uampClient :=
  mkClient (fd c) (commBuf c) (serverFeatures c) (numAgents c) (timeLimit c) (numStates c)
           (agents c) v (smallestCurrentTime c) (changes c) (numChanges c).
Definition set_smallestCurrentTime (v : Z) (c : uampClient) : uampClient :=
  mkClient (fd c) (commBuf c) (serverFeatures c) (numAgents c) (timeLimit c) (numStates c)
           (agents c) (largestLastTime c) v (changes c) (numChanges c).
Definition set_changes (v : list uampState) (c : uampClient) : uampClient :=
  mkClient (fd c) (commBuf c) (serverFeatures c) (numAgents c) (timeLimit c) (numStates c)
           (agents c) (largestLastTime c) (smallestCurrentTime c) v (numChanges c).
Definition set_numChanges (v : Z) (c : uampClient) : uampClient :=
  mkClient (fd c) (commBuf c) (serverFeatures c) (numAgents c) (timeLimit c) (numStates c)
           (agents c) (largestLastTime c) (smallestCurrentTime c) (changes c) v.

(** What calloc hands back: every byte zero. *)
Definition zeroUpdate : uampUpdate := mkUpdate 0 0 0 0 0.
Definition zeroAgent : uampAgent :=
  mkAgent (replicate (Z.to_nat UAMP_UPDATE_QUEUE_SIZE) zeroUpdate) 0 0 0 0.

(* ===================================================================== *)
(** ** The world outside the client structure *)
(* ===================================================================== *)

Inductive heapObject := AgentStorage | NameLengths.

(** What the library does to its environment, oldest event first. *)
Inductive event :=
| EvWrite (sock : Z) (bytes : list byte)   (* bytes the socket accepted from one socketWrite *)
| EvClose (sock : Z)                    (* close() *)
| EvFree (what : heapObject)            (* free() *)
| EvStoreNumAgents (v : Z)              (* *numAgents = v *)
| EvStoreTimeLimit (v : float)          (* *timeLimit = v *)
| EvAccept (na : Z) (tl : float).       (* acceptFunc(na, tl) was called *)

Record world := mkWorld {
  w_resolves : bool;          (* gethostbyname finds the host *)
  w_socket : option N;        (* socket(): a descriptor, or None for -1 *)
  w_connects : bool;          (* connect() succeeds *)
  w_calloc : list bool;       (* the next calloc results (true: memory); then always memory *)
  w_rx : list byte;            (* the bytes the server still sends *)
  w_rx_fails : bool;          (* after them read() fails (true) or returns 0 (false) *)
  w_tx_room : option nat;     (* bytes write() still accepts before it fails; None: no limit *)
  w_log : list event
}.

Definition set_w_calloc (v : list bool) (w : world) : world :=
  mkWorld (w_resolves w) (w_socket w) (w_connects w) v (w_rx w) (w_rx_fails w)
          (w_tx_room w) (w_log w).
Definition set_w_rx (v : list byte) (w : world) : world :=
  mkWorld (w_resolves w) (w_socket w) (w_connects w) (w_calloc w) v (w_rx_fails w)
          (w_tx_room w) (w_log w).
Definition set_w_tx_room (v : option nat) (w : world) : world :=
  mkWorld (w_resolves w) (w_socket w) (w_connects w) (w_calloc w) (w_rx w) (w_rx_fails w)
          v (w_log w).
Definition set_w_log (v : list event) (w : world) : world :=
  mkWorld (w_resolves w) (w_socket w) (w_connects w) (w_calloc w) (w_rx w) (w_rx_fails w)
          (w_tx_room w) v.
Definition log_event (e : event) (w : world) : world := set_w_log (w_log w ++ [e]) w.

Record machine := mkMachine {
  client : uampClient;
  env : world
}.

(* ===================================================================== *)
(** ** Control flow (errors.h) *)
(* ===================================================================== *)

Inductive fault :=
| AssertionFailed (msg : string)      (* ASSERT: message on stderr, abort() *)
| UndefinedBehaviour (what : string). (* an access outside an array, a NULL dereference *)

(** A function body either runs to its end, jumps to its [isErr] label with
    [wasErr] set, or the process dies.  The machine survives the jump. *)
Inductive outcome (A : Type) : Type :=
| Val (a : A) (m : machine)
| Err (wasErr : Z) (m : machine)
| Fault (f : fault).
Arguments Val {A} a m.
Arguments Err {A} wasErr m.
Arguments Fault {A} f.

Definition M (A : Type) : Type := machine -> outcome A.

Definition ret {A} (a : A) : M A := fun m => Val a m.

Definition bind {A B} (x : M A) (f : A -> M B) : M B :=
  fun m =>
    match x m with
    | Val a m' => f a m'
    | Err e m' => Err e m'
    | Fault f => Fault f
    end.

Declare Scope c_scope.
Delimit Scope c_scope with C.
Notation "x <- c1 ;; c2" := (bind c1 (fun x => c2))
  (at level 100, c1 at next level, right associativity) : c_scope.
Notation "c1 ;; c2" := (bind c1 (fun _ => c2))
  (at level 100, right associativity) : c_scope.
Local Open Scope c_scope.

Definition getClient : M uampClient := fun m => Val (client m) m.
Definition modClient (f : uampClient -> uampClient) : M unit :=
  fun m => Val tt (mkMachine (f (client m)) (env m)).
Definition getWorld : M world := fun m => Val (env m) m.
Definition modWorld (f : world -> world) : M unit :=
  fun m => Val tt (mkMachine (client m) (f (env m))).
Definition emit (e : event) : M unit := modWorld (log_event e).
Definition undefined {A} (what : string) : M A := fun _ => Fault (UndefinedBehaviour what).

(** ERROR(isErr, wasErr, code) *)
Definition ERROR {A} (code : Z) : M A := fun m => Err code m.

(** ERROR_CHECK(isErr, wasErr, code) *)
Definition ERROR_CHECK (code : Z) : M unit :=
  if code <? 0 then ERROR code else ret tt.

(** ASSERT(condition, message) *)
Definition ASSERT (condition : bool) (msg : string) : M unit :=
  if condition then ret tt else fun _ => Fault (AssertionFailed msg).

(** A function whose [isErr] label runs [cleanup] and returns [wasErr]
    (0 when the body ran to its end). *)
Definition returning (body : M unit) (cleanup : Z -> M unit) : M Z :=
  fun m =>
    match body m with
    | Val _ m' => (cleanup 0 ;; ret 0) m'
    | Err e m' => (cleanup e ;; ret e) m'
    | Fault f => Fault f
    end.

(** [isErr: return wasErr;] *)
Definition function (body : M unit) : M Z := returning body (fun _ => ret tt).

(** A [for] loop that runs [n] times from [i], with counter step 1. *)
Fixpoint for_loop (n : nat) (i : Z) (body : Z -> M unit) : M unit :=
  match n with
  | O => ret tt
  | S n' => body i ;; for_loop n' (i + 1) body
  end.

(** A call [ret = f(..., &out)]: the function's body computes the value it
    stores through the pointer; on a jump to [isErr] nothing is stored that
    the caller reads. *)
Definition function_with {A} (body : M A) (dflt : A) : M (Z * A) :=
  fun m =>
    match body m with
    | Val a m' => Val (0, a) m'
    | Err e m' => Val (e, dflt) m'
    | Fault f => Fault f
    end.

(* ===================================================================== *)
(** ** socketWrapper.c *)
(* ===================================================================== *)

Definition callSocket (hostname : string) (portnum : Z) : M Z :=
  w <- getWorld ;;
  if portnum =? 0 then ret ERROR_INVALID_PORT
  else if negb (w_resolves w) then ret ERROR_HOSTNAME_INFORMATION
  else
    match w_socket w with
    | None => ret ERROR_CREATE_SOCKET
    | Some conn =>
        if w_connects w then ret (Z.of_N conn)
        else emit (EvClose (Z.of_N conn)) ;; ret ERROR_CONNECT_SOCKET
    end.

(** [socketRead] loops on read() until [nBytes] bytes arrived; it fails when
    the stream ends first (ERROR_SOCKET_DRY on end of file, ERROR_SOCKET_READ
    on a failing read(), as on a descriptor that is not open).  The second
    component is what was placed in the caller's buffer. *)
Definition socketRead (sock : Z) (nBytes : Z) : M (Z * list byte) :=
  w <- getWorld ;;
  let n := Z.to_nat nBytes in
  if nBytes <=? 0 then ret (0, [])
  else if sock <? 0 then ret (ERROR_SOCKET_READ, [])
  else if (length (w_rx w) <? n)%nat then
    modWorld (set_w_rx []) ;;
    ret (if w_rx_fails w then ERROR_SOCKET_READ else ERROR_SOCKET_DRY, w_rx w)
  else
    modWorld (set_w_rx (drop n (w_rx w))) ;;
    ret (0, take n (w_rx w)).

(** [socketWrite] loops on write() until all of [bytes] is accepted; it
    fails with ERROR_SOCKET_WRITE when write() does. *)
Definition socketWrite (sock : Z) (bytes : list byte) : M Z :=
  w <- getWorld ;;
  match bytes with
  | [] => ret 0
  | _ =>
      if sock <? 0 then ret ERROR_SOCKET_WRITE
      else
        match w_tx_room w with
        | None => emit (EvWrite sock bytes) ;; ret 0
        | Some room =>
            if (length bytes <=? room)%nat then
              modWorld (set_w_tx_room (Some (room - length bytes)%nat)) ;;
              emit (EvWrite sock bytes) ;;
              ret 0
            else
              modWorld (set_w_tx_room (Some O)) ;;
              (if (0 <? room)%nat then emit (EvWrite sock (take room bytes)) else ret tt) ;;
              ret ERROR_SOCKET_WRITE
        end
  end.

(* ===================================================================== *)
(** ** ioBuffer.c *)
(* ===================================================================== *)

Definition getBuf : M uampIOBuffer := c <- getClient ;; ret (commBuf c).
Definition setBuf (b : uampIOBuffer) : M unit := modClient (set_commBuf b).

Definition beginRead (total : Z) : M unit := setBuf (mkIOBuffer total 0 []).

(** The [while (length > 0)] loop of socketReadRaw.  Every round copies at
    least one byte once the ASSERT of [socketReadRaw] has passed, so
    [length] rounds are enough. *)
Fixpoint socketReadRaw_loop (fuel : nat) (sock : Z) (length : Z) (data : list byte)
  : M (list byte) :=
  if length <=? 0 then ret data
  else
    match fuel with
    | O => undefined "socketReadRaw: no progress"
    | S fuel' =>
        buf <- getBuf ;;
        (if inBuffer buf =? 0 then
           let remaining := to_u64 (total buf - passed buf) in
           let thisTime :=
             if remaining <? UAMP_IO_BUFFER_SIZE then remaining else UAMP_IO_BUFFER_SIZE in
           r <- socketRead sock (to_u32 thisTime) ;;
           ERROR_CHECK (fst r) ;;
           setBuf (mkIOBuffer (total buf) (passed buf) (snd r))
         else ret tt) ;;
        buf <- getBuf ;;
        let thisTime := if length <? inBuffer buf then length else inBuffer buf in
        let n := Z.to_nat thisTime in
        setBuf (mkIOBuffer (total buf) (to_u64 (passed buf + thisTime)) (drop n (buffer buf))) ;;
        socketReadRaw_loop fuel' sock (length - thisTime) (data ++ take n (buffer buf))
    end.

Definition socketReadRaw (sock : Z) (length : Z) : M (Z * list byte) :=
  buf <- getBuf ;;
  let totalPassed := to_u64 (passed buf + length) in
  ASSERT ((passed buf <=? totalPassed) && (length <=? totalPassed)
          && (totalPassed <=? total buf))
         "Too much data from read buffer" ;;
  function_with (socketReadRaw_loop (Z.to_nat length) sock length []) [].

Definition socketRead8 (sock : Z) : M (Z * Z) :=
  r <- socketReadRaw sock 1 ;;
  ret (fst r, match snd r with b :: _ => byte_val b | [] => 0 end).

Definition socketRead32 (sock : Z) : M (Z * Z) :=
  r <- socketReadRaw sock 4 ;;
  if negb (fst r =? 0) then ret (fst r, 0)
  else ret (0, decode32 (snd r)).

Definition beginWrite (total : Z) : M unit := setBuf (mkIOBuffer total 0 []).

(** The [while (length > 0)] loop of socketWriteRaw; [data] is what is left
    to place in the buffer, [length] its length. *)
Fixpoint socketWriteRaw_loop (fuel : nat) (sock : Z) (data : list byte) : M unit :=
  match data with
  | [] => ret tt
  | _ :: _ =>
      match fuel with
      | O => undefined "socketWriteRaw: no progress"
      | S fuel' =>
          buf <- getBuf ;;
          let len := Z.of_nat (length data) in
          let room := UAMP_IO_BUFFER_SIZE - inBuffer buf in
          let thisTime := if len <? room then len else room in
          let n := Z.to_nat thisTime in
          let buf' := mkIOBuffer (total buf) (to_u64 (passed buf + thisTime))
                                 (buffer buf ++ take n data) in
          setBuf buf' ;;
          (if (inBuffer buf' =? UAMP_IO_BUFFER_SIZE) || (passed buf' =? total buf') then
             writeRet <- socketWrite sock (buffer buf') ;;
             ERROR_CHECK writeRet ;;
             setBuf (mkIOBuffer (total buf') (passed buf') [])
           else ret tt) ;;
          socketWriteRaw_loop fuel' sock (drop n data)
      end
  end.

Definition socketWriteRaw (sock : Z) (data : list byte) : M Z :=
  buf <- getBuf ;;
  let len := Z.of_nat (length data) in
  let totalPassed := to_u64 (passed buf + len) in
  ASSERT ((passed buf <=? totalPassed) && (len <=? totalPassed)
          && (totalPassed <=? total buf))
         "Too much data to write buffer" ;;
  function (socketWriteRaw_loop (length data) sock data).

Definition socketWrite8 (sock : Z) (output : Z) : M Z :=
  socketWriteRaw sock [to_byte output].

Definition socketWrite32 (sock : Z) (output : Z) : M Z :=
  socketWriteRaw sock (encode32 output).

(** [ret = f(...); ERROR_CHECK(isErr, wasErr, ret);] *)
Definition checked (f : M Z) : M unit := r <- f ;; ERROR_CHECK r.

(** [ret = f(..., &out); ERROR_CHECK(isErr, wasErr, ret);] then [out]. *)
Definition checked_with {A} (f : M (Z * A)) : M A :=
  r <- f ;; ERROR_CHECK (fst r) ;; ret (snd r).

(** calloc: the world decides whether memory is left. *)
Definition calloc : M bool :=
  w <- getWorld ;;
  match w_calloc w with
  | [] => ret true
  | ok :: rest => modWorld (set_w_calloc rest) ;; ret ok
  end.

(** [memcmp(a, b, n) == 0] on two byte strings. *)
#[global] Instance byte_eq_dec : EqDecision byte := Byte.byte_eq_dec.

Definition memcmp_equal (a b : list byte) (n : Z) : bool :=
  bool_decide (take (Z.to_nat n) a = take (Z.to_nat n) b).

(* ===================================================================== *)
(** ** states.c *)
(* ===================================================================== *)

(** A state name is the list of its bytes; as a C string it ends at its
    first zero byte, or at the end of the list. *)
Fixpoint stateNameLength_scan (fuel : nat) (s : list byte) (l : Z) : Z :=
  match fuel with
  | O => l
  | S fuel' =>
      match s with
      | [] => l
      | ch :: s' => if byte_val ch =? 0 then l else stateNameLength_scan fuel' s' (l + 1)
      end
  end.

Definition stateNameLength (s : list byte) : Z * Z :=
  let l := stateNameLength_scan (Z.to_nat (MAX_NAME_LEN + 1)) s 0 in
  if l =? 0 then (ERROR_ZERO_STATE_LENGTH, 0)
  else if MAX_NAME_LEN <? l then (ERROR_STATE_LENGTH_LONG, 0)
  else (0, l).

(** The outer loop of verifyStates; [lens] holds the entries of the C array
    [lens] filled so far, [lens[0 .. onState-1]]. *)
Fixpoint verifyStates_loop (n : nat) (onState : Z) (stateNames : list (list byte))
    (lens : list Z) : M (list Z) :=
  match n with
  | O => ret lens
  | S n' =>
      match stateNames !! Z.to_nat onState with
      | None => undefined "stateNames[onState]"
      | Some name =>
          let r := stateNameLength name in
          ERROR_CHECK (fst r) ;;
          let len := snd r in
          for_loop (Z.to_nat onState) 0 (fun prev =>
            match lens !! Z.to_nat prev, stateNames !! Z.to_nat prev with
            | Some lenPrev, Some namePrev =>
                if negb (len =? lenPrev) then ret tt
                else if memcmp_equal name namePrev len then ERROR ERROR_DUPLICATE_STATE
                else ret tt
            | _, _ => undefined "lens[prev]"
            end) ;;
          verifyStates_loop n' (onState + 1) stateNames (lens ++ [len])
      end
  end.

(** Returns [wasErr] and what is saved to [*nameLengths] (None: NULL). *)
Definition verifyStates (stateNames : list (list byte)) (numStates : Z)
  : M (Z * option (list Z)) :=
  if (numStates <=? 0) || (UINT32_MAX <? to_u32 numStates) then
    ret (ERROR_INVALID_NUMBER_STATES, None)
  else
    ok <- calloc ;;
    if negb ok then ret (ERROR_OUT_OF_MEMORY, None)
    else
      fun m =>
        match verifyStates_loop (Z.to_nat numStates) 0 stateNames [] m with
        | Val lens m' => Val (0, Some lens) m'
        | Err e m' => (emit (EvFree NameLengths) ;; ret (e, None)) m'
        | Fault f => Fault f
        end.

Definition writeStates (stateNames : list (list byte)) (numStates : Z)
    (nameLengths : list Z) : M Z :=
  function (
    c <- getClient ;;
    let totalLen :=
      to_u64 (4 + 4 * to_u64 numStates
              + foldr Z.add 0 (take (Z.to_nat numStates) nameLengths)) in
    beginWrite totalLen ;;
    checked (socketWrite32 (fd c) (to_u32 numStates)) ;;
    for_loop (Z.to_nat numStates) 0 (fun onState =>
      match nameLengths !! Z.to_nat onState with
      | Some len => checked (socketWrite32 (fd c) len)
      | None => undefined "nameLengths[onState]"
      end) ;;
    for_loop (Z.to_nat numStates) 0 (fun onState =>
      match nameLengths !! Z.to_nat onState, stateNames !! Z.to_nat onState with
      | Some len, Some name => checked (socketWriteRaw (fd c) (take (Z.to_nat len) name))
      | _, _ => undefined "stateNames[onState]"
      end)).

Definition flushStateChanges : M Z :=
  function (
    c <- getClient ;;
    let totalLen := to_u64 (5 + 12 * to_u64 (numChanges c)) in
    beginWrite totalLen ;;
    checked (socketWrite8 (fd c) 0x02) ;;
    checked (socketWrite32 (fd c) (to_u32 (numChanges c))) ;;
    for_loop (Z.to_nat (numChanges c)) 0 (fun onChange =>
      match changes c !! Z.to_nat onChange with
      | Some ch =>
          checked (socketWrite32 (fd c) (s_agentID ch)) ;;
          checked (socketWrite32 (fd c) (s_time ch)) ;;
          checked (socketWrite32 (fd c) (s_newState ch))
      | None => undefined "changes[onChange]"
      end) ;;
    modClient (set_numChanges 0)).

Definition addStateChange (agentID time newState : Z) : M Z :=
  function (
    c <- getClient ;;
    (if (0 <=? numChanges c) && (numChanges c <? UAMP_STATE_BUFFER_SIZE)
        && (numChanges c <? Z.of_nat (length (changes c)))
     then
       modClient (set_changes
         (<[Z.to_nat (numChanges c) := mkState agentID time newState]> (changes c)))
     else undefined "changes[numChanges]") ;;
    modClient (set_numChanges (numChanges c + 1)) ;;
    c <- getClient ;;
    if numChanges c =? UAMP_STATE_BUFFER_SIZE then checked flushStateChanges
    else ret tt).

(* ===================================================================== *)
(** ** queues.c *)
(* ===================================================================== *)

Definition set_updates (v : list uampUpdate) (a : uampAgent) : uampAgent :=
  mkAgent v (currentIndex a) (aliveInQueue a) (recvIndex a) (receivedFinal a).
Definition set_currentIndex (v : Z) (a : uampAgent) : uampAgent :=
  mkAgent (updates a) v (aliveInQueue a) (recvIndex a) (receivedFinal a).
Definition set_aliveInQueue (v : Z) (a : uampAgent) : uampAgent :=
  mkAgent (updates a) (currentIndex a) v (recvIndex a) (receivedFinal a).
Definition set_recvIndex (v : Z) (a : uampAgent) : uampAgent :=
  mkAgent (updates a) (currentIndex a) (aliveInQueue a) v (receivedFinal a).
Definition set_receivedFinal (v : Z) (a : uampAgent) : uampAgent :=
  mkAgent (updates a) (currentIndex a) (aliveInQueue a) (recvIndex a) v.

Definition set_u_time (v : Z) (u : uampUpdate) : uampUpdate :=
  mkUpdate v (u_x u) (u_y u) (u_z u) (u_present u).
Definition set_u_x (v : Z) (u : uampUpdate) : uampUpdate :=
  mkUpdate (u_time u) v (u_y u) (u_z u) (u_present u).
Definition set_u_y (v : Z) (u : uampUpdate) : uampUpdate :=
  mkUpdate (u_time u) (u_x u) v (u_z u) (u_present u).
Definition set_u_z (v : Z) (u : uampUpdate) : uampUpdate :=
  mkUpdate (u_time u) (u_x u) (u_y u) v (u_present u).
Definition set_u_present (v : Z) (u : uampUpdate) : uampUpdate :=
  mkUpdate (u_time u) (u_x u) (u_y u) (u_z u) v.

(** [list !! i] for a C index. *)
Definition at_index {A} (l : list A) (i : Z) : option A :=
  if i <? 0 then None else l !! Z.to_nat i.

(** [(client->agents) + agentID], read and written.  Outside the array, or
    with [client->agents == NULL], the access is undefined. *)
Definition getAgent (agentID : Z) : M uampAgent :=
  c <- getClient ;;
  match agents c with
  | None => undefined "client->agents is NULL"
  | Some ags =>
      match at_index ags agentID with
      | Some a => ret a
      | None => undefined "client->agents[agentID]"
      end
  end.

Definition setAgent (agentID : Z) (a : uampAgent) : M unit :=
  modClient (fun c =>
    set_agents (option_map (fun ags => <[Z.to_nat agentID := a]> ags) (agents c)) c).

(** [agent->updates[i]] *)
Definition getUpdate (a : uampAgent) (i : Z) : M uampUpdate :=
  match at_index (updates a) i with
  | Some u => ret u
  | None => undefined "agent->updates[i]"
  end.

(** A [struct uampUpdate *] into the agent array: the agent and the slot. *)
Definition updatePtr : Type := Z * Z.

Definition deref (p : updatePtr) : M uampUpdate :=
  a <- getAgent (fst p) ;; getUpdate a (snd p).

(** memcmp over two [struct uampUpdate]: the fields agree.  (The padding
    bytes of the structure are those calloc zeroed; member stores leave
    them alone.) *)
Definition update_equal (a b : uampUpdate) : bool :=
  (u_time a =? u_time b) && (u_x a =? u_x b) && (u_y a =? u_y b)
  && (u_z a =? u_z b) && (u_present a =? u_present b).

Definition has_feature (features flag : Z) : bool := negb (Z.land features flag =? 0).

Definition numToRequest (agentID : Z) : M Z :=
  agent <- getAgent agentID ;;
  if negb (receivedFinal agent =? 0) then ret 0
  else ret (UAMP_UPDATE_QUEUE_SIZE - aliveInQueue agent).

(** A store through [storeReply = (agent->updates) + (agent->recvIndex)]. *)
Definition storeReply_set (agentID : Z) (f : uampUpdate -> uampUpdate) : M unit :=
  agent <- getAgent agentID ;;
  u <- getUpdate agent (recvIndex agent) ;;
  setAgent agentID
    (set_updates (<[Z.to_nat (recvIndex agent) := f u]> (updates agent)) agent).

(** receiveReply, first half (queues.c lines 198-215): the reply is read
    field by field into the slot at [recvIndex]. *)
Definition receiveReply_read (agentID : Z) : M unit :=
  c <- getClient ;;
  time <- checked_with (socketRead32 (fd c)) ;;
  storeReply_set agentID (set_u_time time) ;;
  x <- checked_with (socketRead32 (fd c)) ;;
  storeReply_set agentID (set_u_x x) ;;
  y <- checked_with (socketRead32 (fd c)) ;;
  storeReply_set agentID (set_u_y y) ;;
  (if has_feature (serverFeatures c) UAMP_SUPPORTS_3D then
     z <- checked_with (socketRead32 (fd c)) ;;
     storeReply_set agentID (set_u_z z)
   else storeReply_set agentID (set_u_z 0)) ;;
  (if has_feature (serverFeatures c) UAMP_SUPPORTS_ADD_REMOVE then
     p <- checked_with (socketRead8 (fd c)) ;;
     storeReply_set agentID (set_u_present p)
   else storeReply_set agentID (set_u_present 0x01)).

(** receiveReply, second half (queues.c lines 217-253): the verification of
    the stored reply and the producer cursor. *)
Definition receiveReply_verify (agentID : Z) : M unit :=
  c <- getClient ;;
  agent <- getAgent agentID ;;
  storeReply <- getUpdate agent (recvIndex agent) ;;
  (if aliveInQueue agent =? 0 then
     if negb (u_time storeReply =? 0) then ERROR ERROR_FIRST_UPDATE_TIME else ret tt
   else
     previousStore <- getUpdate agent
       (if recvIndex agent =? 0 then UAMP_UPDATE_QUEUE_SIZE - 1 else recvIndex agent - 1) ;;
     if negb (receivedFinal agent =? 0) then
       if negb (update_equal storeReply previousStore)
       then ERROR ERROR_NON_EQUAL_FINAL_UPDATES else ret tt
     else
       (if u_time storeReply <=? u_time previousStore
        then ERROR ERROR_TIMESTAMP_NOT_INCREMENTED
        else if timeLimit c <? u_time storeReply
        then ERROR ERROR_TIMESTAMP_TOO_LARGE else ret tt) ;;
       if u_time storeReply =? timeLimit c
       then setAgent agentID (set_receivedFinal 1 agent) else ret tt) ;;
  (if negb (u_present storeReply =? 0x00) && negb (u_present storeReply =? 0x01)
   then ERROR ERROR_INVALID_PRESENT_FLAG else ret tt) ;;
  agent <- getAgent agentID ;;
  setAgent agentID
    (set_recvIndex
       (if recvIndex agent =? UAMP_UPDATE_QUEUE_SIZE - 1 then 0 else recvIndex agent + 1)
       (set_aliveInQueue (aliveInQueue agent + 1) agent)).

(** [receiveReply(client, client->agents + agentID)] *)
Definition receiveReply (agentID : Z) : M Z :=
  function (receiveReply_read agentID ;; receiveReply_verify agentID).

(** The first [while (onRequest < totalRequests)] loop of requestUpdates.
    [onAgent] grows by one each round and [numToRequest] reads
    [client->agents[onAgent]], so a round past the array is undefined
    before [fuel] (one more than the number of agents) runs out. *)
Fixpoint requestUpdates_send (fuel : nat) (onAgent onRequest totalRequests : Z)
  : M unit :=
  if onRequest <? totalRequests then
    match fuel with
    | O => undefined "requestUpdates: past the agent array"
    | S fuel' =>
        requestsForAgent <- numToRequest onAgent ;;
        c <- getClient ;;
        for_loop (Z.to_nat requestsForAgent) 0 (fun _ =>
          checked (socketWrite32 (fd c) (to_u32 onAgent))) ;;
        requestUpdates_send fuel' (onAgent + 1) (to_u32 (onRequest + requestsForAgent))
                            totalRequests
    end
  else ret tt.

(** The second [while] loop of requestUpdates. *)
Fixpoint requestUpdates_recv (fuel : nat) (onAgent onRequest totalRequests : Z)
  : M unit :=
  if onRequest <? totalRequests then
    match fuel with
    | O => undefined "requestUpdates: past the agent array"
    | S fuel' =>
        requestsForAgent <- numToRequest onAgent ;;
        for_loop (Z.to_nat requestsForAgent) 0 (fun _ =>
          checked (receiveReply onAgent)) ;;
        requestUpdates_recv fuel' (onAgent + 1) (to_u32 (onRequest + requestsForAgent))
                            totalRequests
    end
  else ret tt.

Definition agentCount (c : uampClient) : nat :=
  match agents c with Some ags => length ags | None => O end.

Definition requestUpdates (startAgent : Z) (totalRequests : Z) : M Z :=
  function (
    c <- getClient ;;
    let totalWrite := to_u64 (5 + 4 * totalRequests) in
    let totalRead :=
      to_u64 ((if has_feature (serverFeatures c) UAMP_SUPPORTS_3D
               then to_u64 (16 * totalRequests) else to_u64 (12 * totalRequests))
              + (if has_feature (serverFeatures c) UAMP_SUPPORTS_ADD_REMOVE
                 then totalRequests else 0)) in
    beginWrite totalWrite ;;
    checked (socketWrite8 (fd c) 0x01) ;;
    checked (socketWrite32 (fd c) totalRequests) ;;
    requestUpdates_send (S (agentCount c)) startAgent 0 totalRequests ;;
    beginRead totalRead ;;
    requestUpdates_recv (S (agentCount c)) startAgent 0 totalRequests).

(** The [for] loop of fillUpdateQueues, from [onAgent] for [n] rounds;
    it ends with the values of [startAgent] and [totalRequests]. *)
Fixpoint fillUpdateQueues_loop (n : nat) (onAgent startAgent totalRequests : Z)
  : M (Z * Z) :=
  match n with
  | O => ret (startAgent, totalRequests)
  | S n' =>
      r <- numToRequest onAgent ;;
      let requestsForAgent := to_u32 r in
      let sum := to_u32 (totalRequests + requestsForAgent) in
      if (sum <? totalRequests) || (sum <? requestsForAgent) then
        checked (requestUpdates startAgent totalRequests) ;;
        fillUpdateQueues_loop n' (onAgent + 1) onAgent requestsForAgent
      else
        fillUpdateQueues_loop n' (onAgent + 1) startAgent sum
  end.

(** [client->numAgents] is at most INT_MAX on every session the connect
    functions set up, so the [int] counter [onAgent] of the loop does not
    overflow. *)
Definition fillUpdateQueues : M Z :=
  function (
    c <- getClient ;;
    st <- fillUpdateQueues_loop (Z.to_nat (numAgents c)) 0 0 0 ;;
    if negb (snd st =? 0) then checked (requestUpdates (fst st) (snd st))
    else ret tt).

Definition initializeQueues : M Z := fillUpdateQueues.

Definition advanceAgent (agentID : Z) : M Z :=
  agent <- getAgent agentID ;;
  cur <- getUpdate agent (currentIndex agent) ;;
  let alive :=
    if negb (u_time cur =? 0) then aliveInQueue agent - 1 else aliveInQueue agent in
  let index :=
    if currentIndex agent =? UAMP_UPDATE_QUEUE_SIZE - 1 then 0
    else currentIndex agent + 1 in
  setAgent agentID (set_currentIndex index (set_aliveInQueue alive agent)) ;;
  if alive =? 1 then fillUpdateQueues else ret 0.

Definition getCurrentUpdate (agentID : Z) : M updatePtr :=
  agent <- getAgent agentID ;;
  ret (agentID, currentIndex agent).

Definition getPreviousUpdate (agentID : Z) : M updatePtr :=
  agent <- getAgent agentID ;;
  cur <- getUpdate agent (currentIndex agent) ;;
  let prevIndex :=
    if u_time cur =? 0 then currentIndex agent
    else if currentIndex agent =? 0 then UAMP_UPDATE_QUEUE_SIZE - 1
    else currentIndex agent - 1 in
  ret (agentID, prevIndex).

(* ===================================================================== *)
(** ** uampClient.c *)
(* ===================================================================== *)

Definition tag_UAMP : list byte := ["U"; "A"; "M"; "P"]%byte.
Definition tag_MVIS : list byte := ["M"; "V"; "I"; "S"]%byte.

Definition uampInitialize : M unit :=
  modClient (fun c => set_numChanges 0 (set_agents None (set_fd (-1) c))).

(** performHandshake, up to the server's nine bytes (lines 431-461): an
    error here leaves [sendReject] at 0.  Yields [id] and [ver]. *)
Definition performHandshake_exchange (isUAMP : bool) (supportedFeatures : Z)
  : M (list byte * Z) :=
  (if negb (Z.land (Z.lxor (Z.lor UAMP_SUPPORTS_3D UAMP_SUPPORTS_ADD_REMOVE) UINT32_MAX)
                   supportedFeatures =? 0)
   then ERROR ERROR_INVALID_FEATURES else ret tt) ;;
  c <- getClient ;;
  beginWrite 9 ;;
  checked (socketWriteRaw (fd c) (if isUAMP then tag_UAMP else tag_MVIS)) ;;
  checked (socketWrite8 (fd c) SUPPORTED_VERSION) ;;
  checked (socketWrite32 (fd c) supportedFeatures) ;;
  beginRead 9 ;;
  id <- checked_with (socketReadRaw (fd c) 4) ;;
  ver <- checked_with (socketRead8 (fd c)) ;;
  features <- checked_with (socketRead32 (fd c)) ;;
  modClient (set_serverFeatures features) ;;
  ret (id, ver).

(** performHandshake, the checks of lines 463-497: every error raised here
    has set [sendReject] to 1. *)
Definition performHandshake_verify (isUAMP : bool) (supportedFeatures : Z)
    (id : list byte) (ver : Z) : M unit :=
  c <- getClient ;;
  (if isUAMP then
     if memcmp_equal id tag_MVIS 4 then ERROR ERROR_UAMP_CLIENT_MVISP_SERVER
     else if negb (memcmp_equal id tag_UAMP 4) then ERROR ERROR_SERVER_UNKNOWN_HANDSHAKE
     else ret tt
   else
     if memcmp_equal id tag_UAMP 4 then ERROR ERROR_MVISP_CLIENT_UAMP_SERVER
     else if negb (memcmp_equal id tag_MVIS 4) then ERROR ERROR_SERVER_UNKNOWN_HANDSHAKE
     else ret tt) ;;
  (if Z.land ver SUPPORTED_VERSION =? 0 then ERROR ERROR_NO_SHARED_VERSION else ret tt) ;;
  if has_feature (serverFeatures c) UAMP_SUPPORTS_3D
     && negb (has_feature supportedFeatures UAMP_SUPPORTS_3D)
  then ERROR ERROR_2D_CLIENT_3D_SERVER
  else if has_feature (serverFeatures c) UAMP_SUPPORTS_ADD_REMOVE
          && negb (has_feature supportedFeatures UAMP_SUPPORTS_ADD_REMOVE)
  then ERROR ERROR_ADD_REMOVE_UNSUPPORTED
  else ret tt.

(** performHandshake, the version choice of lines 499-513: again with
    [sendReject] at 0. *)
Definition performHandshake_choice : M unit :=
  c <- getClient ;;
  checked (socketWrite (fd c) [to_byte SUPPORTED_VERSION]) ;;
  r <- checked_with (socketRead (fd c) 1) ;;
  let ver := match r with b :: _ => byte_val b | [] => 0 end in
  if ver =? 0 then ERROR ERROR_SERVER_REJECTED_HANDSHAKE
  else if negb (ver =? SUPPORTED_VERSION) then ERROR ERROR_SERVER_CLIENT_VERSION_DISAGREE
  else ret tt.

(** The [isErr] label of performHandshake with [sendReject] set: the reject
    byte is written and the result of that write is dropped. *)
Definition performHandshake_reject (wasErr : Z) : M Z :=
  c <- getClient ;;
  _ <- socketWrite (fd c) [to_byte 0x00] ;;
  ret wasErr.

Definition performHandshake (isUAMP : bool) (supportedFeatures : Z) : M Z :=
  fun m =>
    match performHandshake_exchange isUAMP supportedFeatures m with
    | Fault f => Fault f
    | Err e m1 => Val e m1
    | Val (id, ver) m1 =>
        match performHandshake_verify isUAMP supportedFeatures id ver m1 with
        | Fault f => Fault f
        | Err e m2 => performHandshake_reject e m2
        | Val _ m2 => function performHandshake_choice m2
        end
    end.

(** The [isErr] label of uampConnect and mvispConnect. *)
Definition connect_cleanup (wasErr : Z) : M unit :=
  if negb (wasErr =? 0) then
    c <- getClient ;;
    (if 0 <=? fd c then emit (EvClose (fd c)) else ret tt) ;;
    modClient (set_fd (-1)) ;;
    match agents c with
    | Some _ => emit (EvFree AgentStorage) ;; modClient (set_agents None)
    | None => ret tt
    end
  else ret tt.

(** [(uint32_t)llround(seconds * 1000.0)].  Where C leaves the result of
    llround unspecified nothing is raised: the call goes on with the value
    the C library gives.  Both callers compare the time with 0 and with
    UAMP_MAX_TIME first, so this is reached by a NaN only; glibc converts it
    with the machine's instruction, which gives LLONG_MIN on x86-64, that is
    0 as a [uint32_t]. *)
Definition to_millis (seconds : float) : M Z :=
  match llround (PrimFloat.mul seconds 1000%float) with
  | Some v => ret (to_u32 v)
  | None => ret (to_u32 LLONG_MIN)
  end.

Definition uampConnect (hostname : string) (port : Z) (nAgents : Z) (tLimit : float)
    (seed : Z) (supportedFeatures : Z) : M Z :=
  returning (
    uampInitialize ;;
    (if (nAgents <=? 0) || (UINT32_MAX <? to_u32 nAgents)
     then ERROR ERROR_INVALID_NUM_AGENTS else ret tt) ;;
    (if PrimFloat.ltb tLimit 0%float || PrimFloat.ltb UAMP_MAX_TIME tLimit
     then ERROR ERROR_INVALID_TIME_LIMIT else ret tt) ;;
    ok <- calloc ;;
    (if ok then modClient (set_agents (Some (replicate (Z.to_nat nAgents) zeroAgent)))
     else ERROR ERROR_OUT_OF_MEMORY) ;;
    modClient (set_numAgents (to_u32 nAgents)) ;;
    ms <- to_millis tLimit ;;
    modClient (set_timeLimit ms) ;;
    modClient (set_numStates 0) ;;
    sock <- callSocket hostname port ;;
    modClient (set_fd sock) ;;
    ERROR_CHECK sock ;;
    checked (performHandshake true supportedFeatures) ;;
    c <- getClient ;;
    beginWrite 12 ;;
    checked (socketWrite32 (fd c) (numAgents c)) ;;
    checked (socketWrite32 (fd c) (timeLimit c)) ;;
    checked (socketWrite32 (fd c) (to_u32 seed)) ;;
    r <- checked_with (socketRead (fd c) 1) ;;
    let response := match r with b :: _ => byte_val b | [] => 0 end in
    (if response =? 0x01 then ERROR ERROR_SIMULATION_DENIED
     else if negb (response =? 0x00) then ERROR ERROR_SIMULATION_RESPONSE_BAD
     else ret tt) ;;
    modClient (fun c => set_smallestCurrentTime 0 (set_largestLastTime 0 c)) ;;
    checked initializeQueues)
  connect_cleanup.

(** [numAgentsPtr], [timeLimitPtr]: whether the out-pointers are non-NULL;
    [acceptFunc]: None is the NULL callback.  The stores through the
    pointers and the calls of the callback are events of the world. *)
Definition mvispConnect (hostname : string) (port : Z)
    (numAgentsPtr timeLimitPtr : bool) (stateNames : list (list byte)) (nStates : Z)
    (acceptFunc : option (Z -> float -> Z)) (supportedFeatures : Z) : M Z :=
  uampInitialize ;;
  vs <- verifyStates stateNames nStates ;;
  returning (
    ERROR_CHECK (fst vs) ;;
    sock <- callSocket hostname port ;;
    modClient (set_fd sock) ;;
    ERROR_CHECK sock ;;
    checked (performHandshake false supportedFeatures) ;;
    c <- getClient ;;
    beginRead 8 ;;
    naInput <- checked_with (socketRead32 (fd c)) ;;
    tlInput <- checked_with (socketRead32 (fd c)) ;;
    (if naInput =? 0 then ERROR ERROR_MVISP_NO_AGENTS else ret tt) ;;
    let na := to_int naInput in
    let tl := thousandth tlInput in
    (if numAgentsPtr then emit (EvStoreNumAgents na) else ret tt) ;;
    (if timeLimitPtr then emit (EvStoreTimeLimit tl) else ret tt) ;;
    denied <-
      (if INT_MAX <? naInput then ret true
       else
         match acceptFunc with
         | None => ret false
         | Some f => emit (EvAccept na tl) ;; ret (negb (f na tl =? 0))
         end) ;;
    (if denied : bool then
       beginWrite 4 ;;
       checked (socketWrite32 (fd c) 0) ;;
       ERROR ERROR_SIMULATION_DENIED
     else ret tt) ;;
    ok <- calloc ;;
    (if ok then modClient (set_agents (Some (replicate (Z.to_nat na) zeroAgent)))
     else ERROR ERROR_OUT_OF_MEMORY) ;;
    modClient (set_numAgents naInput) ;;
    modClient (set_timeLimit tlInput) ;;
    modClient (set_numStates (to_u32 nStates)) ;;
    checked (writeStates stateNames nStates (default [] (snd vs))) ;;
    modClient (fun c => set_smallestCurrentTime 0 (set_largestLastTime 0 c)) ;;
    checked initializeQueues)
  (fun wasErr =>
     connect_cleanup wasErr ;;
     match snd vs with
     | Some _ => emit (EvFree NameLengths)
     | None => ret tt
     end).

Definition uampTerminate : M Z :=
  returning (
    c <- getClient ;;
    if 0 <=? fd c then
      (if negb (numChanges c =? 0) then checked flushStateChanges else ret tt) ;;
      beginWrite 5 ;;
      checked (socketWrite8 (fd c) 0x00) ;;
      checked (socketWrite32 (fd c) 0)
    else ret tt)
  (fun _ =>
     c <- getClient ;;
     (if 0 <=? fd c then emit (EvClose (fd c)) ;; modClient (set_fd (-1)) else ret tt) ;;
     match agents c with
     | Some _ => emit (EvFree AgentStorage) ;; modClient (set_agents None)
     | None => ret tt
     end).

Definition valid_agentID (c : uampClient) (agentID : Z) : bool :=
  (0 <=? agentID) && (agentID <? numAgents c).

Definition uampCurrentCommand (agentID : Z) : M uampCommand :=
  c <- getClient ;;
  ASSERT (valid_agentID c agentID) "Invalid agent ID" ;;
  pl <- getPreviousUpdate agentID ;;
  pc <- getCurrentUpdate agentID ;;
  last <- deref pl ;;
  current <- deref pc ;;
  ret (mkCommand agentID
         (thousandth (u_x last)) (thousandth (u_y last)) (thousandth (u_z last))
         (thousandth (u_time last))
         (thousandth (u_x current)) (thousandth (u_y current)) (thousandth (u_z current))
         (thousandth (u_time current))
         (u_present last)).

(** [(last + frac * delta) / 1000.0] *)
Definition interpolate (last frac delta : float) : float :=
  PrimFloat.div (PrimFloat.add last (PrimFloat.mul frac delta)) 1000%float.

(** Returns the result and what was written to [*command] (None: nothing). *)
Definition uampIntersectCommand (agentID : Z) : M (Z * option uampCommand) :=
  c <- getClient ;;
  ASSERT (valid_agentID c agentID) "Invalid agent ID" ;;
  if smallestCurrentTime c <? largestLastTime c then ret (ERROR_NO_INTERSECTION, None)
  else
    pl <- getPreviousUpdate agentID ;;
    pc <- getCurrentUpdate agentID ;;
    last <- deref pl ;;
    current <- deref pc ;;
    if u_time current =? 0 then
      ret (0, Some (mkCommand agentID
             (thousandth (u_x current)) (thousandth (u_y current))
             (thousandth (u_z current)) 0%float
             (thousandth (u_x current)) (thousandth (u_y current))
             (thousandth (u_z current)) 0%float
             (u_present current)))
    else
      let deltaX := PrimFloat.sub (u32_to_double (u_x current)) (u32_to_double (u_x last)) in
      let deltaY := PrimFloat.sub (u32_to_double (u_y current)) (u32_to_double (u_y last)) in
      let deltaZ := PrimFloat.sub (u32_to_double (u_z current)) (u32_to_double (u_z last)) in
      let deltaT :=
        PrimFloat.sub (u32_to_double (u_time current)) (u32_to_double (u_time last)) in
      let fracFrom :=
        PrimFloat.div (PrimFloat.sub (u32_to_double (largestLastTime c))
                                     (u32_to_double (u_time last))) deltaT in
      let fracTo :=
        PrimFloat.div (PrimFloat.sub (u32_to_double (smallestCurrentTime c))
                                     (u32_to_double (u_time last))) deltaT in
      ret (0, Some (mkCommand agentID
             (interpolate (u32_to_double (u_x last)) fracFrom deltaX)
             (interpolate (u32_to_double (u_y last)) fracFrom deltaY)
             (interpolate (u32_to_double (u_z last)) fracFrom deltaZ)
             (thousandth (largestLastTime c))
             (interpolate (u32_to_double (u_x last)) fracTo deltaX)
             (interpolate (u32_to_double (u_y last)) fracTo deltaY)
             (interpolate (u32_to_double (u_z last)) fracTo deltaZ)
             (thousandth (smallestCurrentTime c))
             (u_present last))).

Definition uampIsMore (agentID : Z) : M Z :=
  c <- getClient ;;
  ASSERT (valid_agentID c agentID) "Invalid agent ID" ;;
  pc <- getCurrentUpdate agentID ;;
  current <- deref pc ;;
  if u_time current <? timeLimit c then ret 1 else ret 0.

(** The loop of uampAdvance that recomputes the smallest current time. *)
Fixpoint uampAdvance_loop (n : nat) (i : Z) (limit : Z) : M Z :=
  match n with
  | O => ret limit
  | S n' =>
      p <- getCurrentUpdate i ;;
      update <- deref p ;;
      uampAdvance_loop n' (i + 1) (if u_time update <? limit then u_time update else limit)
  end.

Definition uampAdvance (agentID : Z) : M Z :=
  function (
    c <- getClient ;;
    ASSERT (valid_agentID c agentID) "Invalid agent ID" ;;
    p <- getCurrentUpdate agentID ;;
    update <- deref p ;;
    (if u_time update =? timeLimit c then ERROR ERROR_NO_MORE_DATA else ret tt) ;;
    checked (advanceAgent agentID) ;;
    update <- deref p ;;
    c <- getClient ;;
    (if largestLastTime c <? u_time update
     then modClient (set_largestLastTime (u_time update)) else ret tt) ;;
    c <- getClient ;;
    if u_time update =? smallestCurrentTime c then
      limit <- uampAdvance_loop (Z.to_nat (numAgents c)) 0 UINT32_MAX ;;
      modClient (set_smallestCurrentTime limit)
    else ret tt).

Definition uampIsAnyMore : M Z :=
  c <- getClient ;;
  if smallestCurrentTime c <? timeLimit c then ret 1 else ret 0.

Definition uampAdvanceOldest : M Z :=
  function (
    c <- getClient ;;
    let oldest := smallestCurrentTime c in
    (if oldest =? timeLimit c then ERROR ERROR_NO_MORE_DATA else ret tt) ;;
    for_loop (Z.to_nat (numAgents c)) 0 (fun i =>
      p <- getCurrentUpdate i ;;
      current <- deref p ;;
      if u_time current =? oldest then checked (uampAdvance (to_int i)) else ret tt)).

Definition uampChangeState (agentID : Z) (atTime : float) (newState : Z) : M Z :=
  c <- getClient ;;
  if numStates c =? 0 then ret 0
  else
    function (
      (if PrimFloat.ltb atTime 0%float || PrimFloat.ltb UAMP_MAX_TIME atTime
       then ERROR ERROR_INVALID_CHANGE_TIME else ret tt) ;;
      sendTime <- to_millis atTime ;;
      ASSERT (valid_agentID c agentID) "Invalid agent ID" ;;
      (if timeLimit c <? sendTime then ERROR ERROR_INVALID_CHANGE_TIME else ret tt) ;;
      (if (newState <? 0) || (numStates c <=? newState)
       then ERROR ERROR_INVALID_CHANGE_STATE else ret tt) ;;
      checked (addStateChange (to_u32 agentID) sendTime (to_u32 newState))).

(* ===================================================================== *)
(** * Properties *)
(* ===================================================================== *)

(** ** Effects of a computation, relative to a frame relation

    [eff R x]: whatever [x] does to the machine stays within [R], and the
    codes it jumps to [isErr] with are negative. *)

Section Effects.
Context (R : machine -> machine -> Prop) `{!PreOrder R}.

Definition eff {A} (x : M A) : Prop :=
  forall m,
    match x m with
    | Val _ m' => R m m'
    | Err e m' => e < 0 /\ R m m'
    | Fault _ => True
    end.

Lemma eff_ret {A} (a : A) : eff (ret a).
Proof. intros m. simpl. reflexivity. Qed.

Lemma eff_bind {A B} (x : M A) (f : A -> M B) :
  eff x -> (forall a, eff (f a)) -> eff (bind x f).
Proof.
  intros Hx Hf m. unfold bind. specialize (Hx m).
  destruct (x m) as [a m1 | e m1 | ft]; auto.
  specialize (Hf a m1). destruct (f a m1) as [b m2 | e m2 | ft]; auto.
  - etransitivity; eauto.
  - destruct Hf. split; auto. etransitivity; eauto.
Qed.

Lemma eff_ERROR {A} (code : Z) : code < 0 -> eff (@ERROR A code).
Proof. intros H m. simpl. split; [auto | reflexivity]. Qed.

Lemma eff_ERROR_CHECK (code : Z) : eff (ERROR_CHECK code).
Proof.
  unfold ERROR_CHECK. destruct (Z.ltb_spec code 0).
  - apply eff_ERROR; auto.
  - apply eff_ret.
Qed.

Lemma eff_ASSERT (b : bool) (msg : string) : eff (ASSERT b msg).
Proof. unfold ASSERT. destruct b; [apply eff_ret | intros m; exact I]. Qed.

Lemma eff_undefined {A} (what : string) : eff (@undefined A what).
Proof. intros m. exact I. Qed.

Lemma eff_getClient : eff getClient.
Proof. intros m. simpl. reflexivity. Qed.

Lemma eff_getWorld : eff getWorld.
Proof. intros m. simpl. reflexivity. Qed.

Lemma eff_returning (body : M unit) (cleanup : Z -> M unit) :
  eff body -> (forall e, eff (cleanup e)) -> eff (returning body cleanup).
Proof.
  intros Hb Hc m. unfold returning. specialize (Hb m).
  destruct (body m) as [a m1 | e m1 | ft]; auto.
  - pose proof (eff_bind (cleanup 0) (fun _ => ret 0) (Hc 0) (fun _ => eff_ret 0) m1) as H.
    destruct ((cleanup 0;; ret 0)%C m1); auto.
    + etransitivity; eauto.
    + destruct H. split; auto. etransitivity; eauto.
  - destruct Hb as [He Hb].
    pose proof (eff_bind (cleanup e) (fun _ => ret e) (Hc e) (fun _ => eff_ret e) m1) as H.
    destruct ((cleanup e;; ret e)%C m1); auto.
    + etransitivity; eauto.
    + destruct H. split; auto. etransitivity; eauto.
Qed.

Lemma eff_function (body : M unit) : eff body -> eff (function body).
Proof. intros H. apply eff_returning; auto. intros e. apply eff_ret. Qed.

Lemma eff_function_with {A} (body : M A) (dflt : A) :
  eff body -> eff (function_with body dflt).
Proof.
  intros Hb m. unfold function_with. specialize (Hb m).
  destruct (body m); auto. destruct Hb; auto.
Qed.

Lemma eff_checked (f : M Z) : eff f -> eff (checked f).
Proof. intros H. apply eff_bind; auto. intros r. apply eff_ERROR_CHECK. Qed.

Lemma eff_checked_with {A} (f : M (Z * A)) : eff f -> eff (checked_with f).
Proof.
  intros H. apply eff_bind; auto. intros r.
  apply eff_bind; [apply eff_ERROR_CHECK | intros; apply eff_ret].
Qed.

Lemma eff_for_loop (n : nat) (i : Z) (body : Z -> M unit) :
  (forall j, eff (body j)) -> eff (for_loop n i body).
Proof.
  intros H. revert i. induction n as [|n IH]; intros i; simpl.
  - apply eff_ret.
  - apply eff_bind; auto.
Qed.

(** The results of a [function]: 0 after the body ran to its end, the
    negative [wasErr] after a jump to [isErr]. *)
Lemma function_result (body : M unit) m r m' :
  eff body -> function body m = Val r m' ->
  (r = 0 /\ body m = Val tt m') \/ (r < 0 /\ body m = Err r m').
Proof.
  intros Hb H. unfold function, returning in H. specialize (Hb m).
  destruct (body m) as [[] m1 | e m1 | ft]; simpl in H; try discriminate.
  - inversion H; subst. left; auto.
  - inversion H; subst. right. destruct Hb; auto.
Qed.
End Effects.

Create HintDb eff.
#[global] Hint Resolve eff_ret eff_ERROR_CHECK eff_ASSERT eff_undefined
  eff_getClient eff_getWorld : eff.

Lemma eff_mono (R R' : machine -> machine -> Prop) {A} (x : M A) :
  (forall m m', R m m' -> R' m m') -> eff R x -> eff R' x.
Proof.
  intros HR Hx m. specialize (Hx m). destruct (x m); auto.
  destruct Hx; auto.
Qed.

#[global] Hint Extern 1 (PreOrder _) => typeclasses eauto : eff.

(** Steps through the structure of a computation. *)
Ltac eff_step :=
  match goal with
  | |- PreOrder _ => typeclasses eauto
  | |- forall _, _ => intro
  | |- eff _ (bind _ _) => apply eff_bind
  | |- eff _ (ret _) => apply eff_ret
  | |- eff _ (ERROR _) => apply eff_ERROR; [ | reflexivity ]
  | |- eff _ (function _) => apply eff_function
  | |- eff _ (function_with _ _) => apply eff_function_with
  | |- eff _ (returning _ _) => apply eff_returning
  | |- eff _ (checked _) => apply eff_checked
  | |- eff _ (checked_with _) => apply eff_checked_with
  | |- eff _ (for_loop _ _ _) => apply eff_for_loop
  | |- eff _ (if ?b then _ else _) => destruct b
  | |- eff _ (match ?x with _ => _ end) => destruct x
  | |- eff _ _ => progress cbv zeta
  | |- eff _ _ => solve [ auto with eff ]
  end.
Ltac eff_auto := repeat eff_step.

(** ** Frames: what the layers of the library leave alone *)

Definition is_write (e : event) : Prop :=
  match e with EvWrite _ _ => True | _ => False end.

(** The socket layer only consumes the stream and writes to the socket. *)
Definition world_io (w w' : world) : Prop :=
  w_resolves w' = w_resolves w /\ w_socket w' = w_socket w
  /\ w_connects w' = w_connects w /\ w_calloc w' = w_calloc w
  /\ exists evs, w_log w' = w_log w ++ evs /\ Forall is_write evs.

(** The I/O buffer layer changes [commBuf] only. *)
Definition io_rel (m m' : machine) : Prop :=
  (exists b, client m' = set_commBuf b (client m)) /\ world_io (env m) (env m').

(** The state-change batcher changes [changes] and [numChanges] besides. *)
Definition batch_rel (m m' : machine) : Prop :=
  (exists b chs n,
      client m' = set_numChanges n (set_changes chs (set_commBuf b (client m))))
  /\ world_io (env m) (env m').

(** The queues change the agents besides the buffer. *)
Definition queue_rel (m m' : machine) : Prop :=
  (exists b ags, client m' = set_agents ags (set_commBuf b (client m)))
  /\ world_io (env m) (env m').

(** The cursors move with uampAdvance. *)
Definition cursor_rel (m m' : machine) : Prop :=
  (exists b ags l s,
      client m' = set_smallestCurrentTime s (set_largestLastTime l
                    (set_agents ags (set_commBuf b (client m)))))
  /\ world_io (env m) (env m').

Lemma world_io_refl w : world_io w w.
Proof.
  unfold world_io. repeat split; auto. exists []. rewrite app_nil_r. auto.
Qed.

Lemma world_io_trans w1 w2 w3 : world_io w1 w2 -> world_io w2 w3 -> world_io w1 w3.
Proof.
  intros (A1 & B1 & C1 & D1 & e1 & L1 & F1) (A2 & B2 & C2 & D2 & e2 & L2 & F2).
  unfold world_io. repeat split; try congruence.
  exists (e1 ++ e2). rewrite L2, L1, app_assoc. split; auto.
  apply Forall_app; auto.
Qed.

#[global] Instance io_rel_preorder : PreOrder io_rel.
Proof.
  split.
  - intros [c w]. split; [| apply world_io_refl]. exists (commBuf c). destruct c; reflexivity.
  - intros m1 m2 m3 [[b1 H1] W1] [[b2 H2] W2]. split; [| eapply world_io_trans; eauto].
    exists b2. rewrite H2, H1. reflexivity.
Qed.

#[global] Instance batch_rel_preorder : PreOrder batch_rel.
Proof.
  split.
  - intros [c w]. split; [| apply world_io_refl].
    exists (commBuf c), (changes c), (numChanges c). destruct c; reflexivity.
  - intros m1 m2 m3 [(b1 & c1 & n1 & H1) W1] [(b2 & c2 & n2 & H2) W2].
    split; [| eapply world_io_trans; eauto].
    exists b2, c2, n2. rewrite H2, H1. reflexivity.
Qed.

#[global] Instance queue_rel_preorder : PreOrder queue_rel.
Proof.
  split.
  - intros [c w]. split; [| apply world_io_refl].
    exists (commBuf c), (agents c). destruct c; reflexivity.
  - intros m1 m2 m3 [(b1 & a1 & H1) W1] [(b2 & a2 & H2) W2].
    split; [| eapply world_io_trans; eauto].
    exists b2, a2. rewrite H2, H1. reflexivity.
Qed.

#[global] Instance cursor_rel_preorder : PreOrder cursor_rel.
Proof.
  split.
  - intros [c w]. split; [| apply world_io_refl].
    exists (commBuf c), (agents c), (largestLastTime c), (smallestCurrentTime c).
    destruct c; reflexivity.
  - intros m1 m2 m3 [(b1 & a1 & l1 & s1 & H1) W1] [(b2 & a2 & l2 & s2 & H2) W2].
    split; [| eapply world_io_trans; eauto].
    exists b2, a2, l2, s2. rewrite H2, H1. reflexivity.
Qed.

Lemma io_rel_batch m m' : io_rel m m' -> batch_rel m m'.
Proof.
  intros [[b H] W]. split; auto.
  exists b, (changes (client m)), (numChanges (client m)).
  rewrite H. destruct (client m); reflexivity.
Qed.

Lemma io_rel_queue m m' : io_rel m m' -> queue_rel m m'.
Proof.
  intros [[b H] W]. split; auto.
  exists b, (agents (client m)). rewrite H. destruct (client m); reflexivity.
Qed.

Lemma queue_rel_cursor m m' : queue_rel m m' -> cursor_rel m m'.
Proof.
  intros [(b & a & H) W]. split; auto.
  exists b, a, (largestLastTime (client m)), (smallestCurrentTime (client m)).
  rewrite H. destruct (client m); reflexivity.
Qed.

(** *** The socket and buffer layers within [io_rel] *)

Lemma io_rel_setBuf m b : io_rel m (mkMachine (set_commBuf b (client m)) (env m)).
Proof. split; [exists b; reflexivity | apply world_io_refl]. Qed.

Lemma io_rel_world m w' :
  world_io (env m) w' -> io_rel m (mkMachine (client m) w').
Proof.
  intros H. split; auto. exists (commBuf (client m)). simpl. destruct (client m); reflexivity.
Qed.

Lemma eff_getBuf : eff io_rel getBuf.
Proof. intros m. simpl. reflexivity. Qed.

Lemma eff_setBuf b : eff io_rel (setBuf b).
Proof. intros m. simpl. apply io_rel_setBuf. Qed.

Lemma eff_beginRead n : eff io_rel (beginRead n).
Proof. apply eff_setBuf. Qed.

Lemma eff_beginWrite n : eff io_rel (beginWrite n).
Proof. apply eff_setBuf. Qed.

Lemma world_io_rx w v : world_io w (set_w_rx v w).
Proof. unfold world_io; simpl. repeat split; auto. exists []. rewrite app_nil_r; auto. Qed.

Lemma world_io_room w v : world_io w (set_w_tx_room v w).
Proof. unfold world_io; simpl. repeat split; auto. exists []. rewrite app_nil_r; auto. Qed.

Lemma world_io_write w sock bytes : world_io w (log_event (EvWrite sock bytes) w).
Proof.
  unfold world_io; simpl. repeat split; auto.
  exists [EvWrite sock bytes]. split; auto. repeat constructor.
Qed.

Lemma eff_socketRead sock n : eff io_rel (socketRead sock n).
Proof.
  intros m. unfold socketRead, bind, getWorld, modWorld, ret.
  destruct (n <=? 0); [reflexivity|].
  destruct (sock <? 0); [reflexivity|].
  destruct (_ <? _)%nat; apply io_rel_world, world_io_rx.
Qed.

Lemma eff_socketWrite sock bytes : eff io_rel (socketWrite sock bytes).
Proof.
  intros m. unfold socketWrite, bind, getWorld, emit, modWorld, ret.
  destruct bytes as [|b bytes]; [reflexivity|].
  destruct (sock <? 0); [reflexivity|].
  destruct (w_tx_room (env m)) as [room|]; simpl.
  - repeat match goal with
           | |- context [if ?c then _ else _] => destruct c; simpl
           end; apply io_rel_world;
      try (eapply world_io_trans; [apply world_io_room | apply world_io_write]).
    apply world_io_room.
  - apply io_rel_world, world_io_write.
Qed.

#[global] Hint Resolve eff_getBuf eff_setBuf eff_beginRead eff_beginWrite
  eff_socketRead eff_socketWrite : eff.

Lemma eff_socketReadRaw_loop fuel sock len data :
  eff io_rel (socketReadRaw_loop fuel sock len data).
Proof.
  revert len data. induction fuel as [|fuel IH]; intros len data; simpl; eff_auto.
Qed.
#[global] Hint Resolve eff_socketReadRaw_loop : eff.

Lemma eff_socketReadRaw sock len : eff io_rel (socketReadRaw sock len).
Proof. unfold socketReadRaw. eff_auto. Qed.
#[global] Hint Resolve eff_socketReadRaw : eff.

Lemma eff_socketRead8 sock : eff io_rel (socketRead8 sock).
Proof. unfold socketRead8. eff_auto. Qed.

Lemma eff_socketRead32 sock : eff io_rel (socketRead32 sock).
Proof. unfold socketRead32. eff_auto. Qed.

Lemma eff_socketWriteRaw_loop fuel sock data :
  eff io_rel (socketWriteRaw_loop fuel sock data).
Proof.
  revert data. induction fuel as [|fuel IH]; intros data; simpl; eff_auto.
Qed.
#[global] Hint Resolve eff_socketWriteRaw_loop : eff.

Lemma eff_socketWriteRaw sock data : eff io_rel (socketWriteRaw sock data).
Proof. unfold socketWriteRaw. eff_auto. Qed.
#[global] Hint Resolve eff_socketWriteRaw : eff.

Lemma eff_socketWrite8 sock v : eff io_rel (socketWrite8 sock v).
Proof. unfold socketWrite8. eff_auto. Qed.

Lemma eff_socketWrite32 sock v : eff io_rel (socketWrite32 sock v).
Proof. unfold socketWrite32. eff_auto. Qed.

#[global] Hint Resolve eff_socketRead8 eff_socketRead32 eff_socketWrite8
  eff_socketWrite32 : eff.

(** *** The state-change batcher within [batch_rel] *)

#[global] Hint Extern 5 (eff batch_rel _) =>
  (apply (eff_mono io_rel batch_rel); [exact io_rel_batch | ]) : eff.

Lemma eff_set_numChanges v : eff batch_rel (modClient (set_numChanges v)).
Proof.
  intros m. simpl. split; [| apply world_io_refl].
  exists (commBuf (client m)), (changes (client m)), v. destruct (client m); reflexivity.
Qed.

Lemma eff_set_changes v : eff batch_rel (modClient (set_changes v)).
Proof.
  intros m. simpl. split; [| apply world_io_refl].
  exists (commBuf (client m)), v, (numChanges (client m)). destruct (client m); reflexivity.
Qed.
#[global] Hint Resolve eff_set_numChanges eff_set_changes : eff.

Lemma eff_flushStateChanges_body :
  eff batch_rel (
    c <- getClient ;;
    let totalLen := to_u64 (5 + 12 * to_u64 (numChanges c)) in
    beginWrite totalLen ;;
    checked (socketWrite8 (fd c) 0x02) ;;
    checked (socketWrite32 (fd c) (to_u32 (numChanges c))) ;;
    for_loop (Z.to_nat (numChanges c)) 0 (fun onChange =>
      match changes c !! Z.to_nat onChange with
      | Some ch =>
          checked (socketWrite32 (fd c) (s_agentID ch)) ;;
          checked (socketWrite32 (fd c) (s_time ch)) ;;
          checked (socketWrite32 (fd c) (s_newState ch))
      | None => undefined "changes[onChange]"
      end) ;;
    modClient (set_numChanges 0)).
Proof. eff_auto. Qed.

Lemma eff_flushStateChanges : eff batch_rel flushStateChanges.
Proof. apply eff_function; [typeclasses eauto | apply eff_flushStateChanges_body]. Qed.
#[global] Hint Resolve eff_flushStateChanges : eff.

Lemma eff_addStateChange a t s : eff batch_rel (addStateChange a t s).
Proof. unfold addStateChange. eff_auto. Qed.
#[global] Hint Resolve eff_addStateChange : eff.

(** A library function returns 0 or a negative error code. *)
Lemma flushStateChanges_result m r m' :
  flushStateChanges m = Val r m' -> r <= 0.
Proof.
  intros H. apply (function_result batch_rel) in H; [| apply eff_flushStateChanges_body].
  lia.
Qed.

Lemma function_no_jump body m e m' : function body m <> Err e m'.
Proof.
  unfold function, returning. destruct (body m); simpl; discriminate.
Qed.

(** [ret = f(); ERROR_CHECK(isErr, wasErr, ret); isErr: return wasErr;]
    hands the result of [f] on. *)
Lemma function_checked (f : M Z) m :
  (forall r m', f m = Val r m' -> r <= 0) ->
  (forall e m', f m <> Err e m') ->
  function (checked f) m = f m.
Proof.
  intros Hr He. unfold function, returning, checked, bind, ERROR_CHECK.
  destruct (f m) as [r m1 | e m1 | ft] eqn:E; simpl; auto.
  - specialize (Hr r m1 eq_refl). destruct (Z.ltb_spec r 0); simpl; auto.
    replace r with 0 by lia. reflexivity.
  - exfalso. eapply He; eauto.
Qed.

(* ===================================================================== *)
(** ** uampChangeState *)
(* ===================================================================== *)

(** [atTime < 0.0 || atTime > UAMP_MAX_TIME] *)
Definition time_out_of_range (atTime : float) : bool :=
  PrimFloat.ltb atTime 0%float || PrimFloat.ltb UAMP_MAX_TIME atTime.

(** The session after [changes[numChanges] = (agent, time, state); numChanges++]. *)
Definition enqueued (c : uampClient) (agent time state : Z) : uampClient :=
  set_numChanges (numChanges c + 1)
    (set_changes (<[Z.to_nat (numChanges c) := mkState agent time state]> (changes c)) c).

Lemma addStateChange_run m a t s :
  0 <= numChanges (client m) < UAMP_STATE_BUFFER_SIZE ->
  Z.of_nat (length (changes (client m))) = UAMP_STATE_BUFFER_SIZE ->
  let m' := mkMachine (enqueued (client m) a t s) (env m) in
  addStateChange a t s m =
    if numChanges (client m) + 1 =? UAMP_STATE_BUFFER_SIZE
    then flushStateChanges m' else Val 0 m'.
Proof.
  intros Hn Hlen m'. unfold addStateChange.
  destruct (Z.eqb_spec (numChanges (client m) + 1) UAMP_STATE_BUFFER_SIZE) as [E|E].
  - transitivity (function (checked flushStateChanges) m').
    + unfold function, returning, bind, getClient, modClient. simpl.
      replace ((0 <=? numChanges (client m)) && (numChanges (client m) <? UAMP_STATE_BUFFER_SIZE)
               && (numChanges (client m) <? Z.of_nat (length (changes (client m))))) with true
        by (symmetry; rewrite !andb_true_iff; repeat split; lia).
      simpl. rewrite (proj2 (Z.eqb_eq _ _) E). reflexivity.
    + apply function_checked.
      * apply flushStateChanges_result.
      * intros e m''. apply function_no_jump.
  - unfold function, returning, bind, getClient, modClient. simpl.
    replace ((0 <=? numChanges (client m)) && (numChanges (client m) <? UAMP_STATE_BUFFER_SIZE)
             && (numChanges (client m) <? Z.of_nat (length (changes (client m))))) with true
      by (symmetry; rewrite !andb_true_iff; repeat split; lia).
    simpl. destruct (Z.eqb_spec (numChanges (client m) + 1) UAMP_STATE_BUFFER_SIZE); [lia|].
    reflexivity.
Qed.

(** C10: on a UAMP session (num_states == 0) uampChangeState returns 0 at
    once, for every agent id, time and state, and touches neither the
    session nor the socket; an agent id outside [0, numAgents) that goes
    through unnoticed there aborts the process on an MVISP session as soon
    as the time is in range. *)
Theorem uampChangeState_uamp_returns_success :
  forall (m : machine) (agentID : Z) (atTime : float) (newState : Z),
    numStates (client m) = 0 ->
    uampChangeState agentID atTime newState m = Val 0 m
    /\ forall m' ms,
         numStates (client m') <> 0 ->
         time_out_of_range atTime = false ->
         llround (PrimFloat.mul atTime 1000%float) = Some ms ->
         valid_agentID (client m') agentID = false ->
         uampChangeState agentID atTime newState m'
         = Fault (AssertionFailed "Invalid agent ID").
Proof.
  intros m agentID atTime newState H. split.
  - unfold uampChangeState, bind, getClient. rewrite H. reflexivity.
  - intros m' ms Hs Ht Hl Hv.
    unfold uampChangeState, bind, getClient.
    destruct (Z.eqb_spec (numStates (client m')) 0); [contradiction|].
    unfold function, returning, bind. unfold time_out_of_range in Ht. rewrite Ht.
    simpl. unfold to_millis. rewrite Hl. simpl. rewrite Hv. reflexivity.
Qed.

(** C7: change_state is a no-op returning 0 on a UAMP session; on an MVISP
    session it returns InvalidChangeTime for a time below 0 or above
    MAX_TIME, converts the time by round(at_time * 1000) to 32-bit
    milliseconds, returns InvalidChangeTime when that exceeds time_limit and
    InvalidChangeState for a state outside [0, num_states); otherwise the
    triple is stored at the end of the 128-entry buffer, which is flushed
    when this fills it. *)
Theorem uampChangeState_validates_and_enqueues :
  forall (m : machine) (agentID : Z) (atTime : float) (newState : Z),
    let c := client m in
    let call := uampChangeState agentID atTime newState m in
    (numStates c = 0 -> call = Val 0 m)
    /\ (numStates c <> 0 -> time_out_of_range atTime = true ->
        call = Val ERROR_INVALID_CHANGE_TIME m)
    /\ (forall ms,
          numStates c <> 0 -> time_out_of_range atTime = false ->
          llround (PrimFloat.mul atTime 1000%float) = Some ms ->
          valid_agentID c agentID = true ->
          let sendTime := to_u32 ms in
          (timeLimit c < sendTime -> call = Val ERROR_INVALID_CHANGE_TIME m)
          /\ (sendTime <= timeLimit c -> newState < 0 \/ numStates c <= newState ->
              call = Val ERROR_INVALID_CHANGE_STATE m)
          /\ (sendTime <= timeLimit c -> 0 <= newState < numStates c ->
              0 <= numChanges c < UAMP_STATE_BUFFER_SIZE ->
              Z.of_nat (length (changes c)) = UAMP_STATE_BUFFER_SIZE ->
              let m' := mkMachine (enqueued c (to_u32 agentID) sendTime (to_u32 newState))
                                  (env m) in
              (numChanges c + 1 < UAMP_STATE_BUFFER_SIZE -> call = Val 0 m')
              /\ (numChanges c + 1 = UAMP_STATE_BUFFER_SIZE ->
                  call = flushStateChanges m'))).
Proof.
  intros m agentID atTime newState c call. subst call.
  split; [| split].
  - intros H. unfold uampChangeState, bind, getClient. fold c. rewrite H. reflexivity.
  - intros Hs Ht. unfold uampChangeState, bind, getClient. fold c.
    destruct (Z.eqb_spec (numStates c) 0); [contradiction|].
    unfold function, returning, bind. unfold time_out_of_range in Ht. rewrite Ht.
    destruct m; reflexivity.
  - intros ms Hs Ht Hl Hv sendTime.
    assert (Hrun : uampChangeState agentID atTime newState m =
      function (
        (if timeLimit c <? sendTime then ERROR ERROR_INVALID_CHANGE_TIME else ret tt) ;;
        (if (newState <? 0) || (numStates c <=? newState)
         then ERROR ERROR_INVALID_CHANGE_STATE else ret tt) ;;
        checked (addStateChange (to_u32 agentID) sendTime (to_u32 newState))) m).
    { unfold uampChangeState, bind, getClient. fold c.
      destruct (Z.eqb_spec (numStates c) 0); [contradiction|].
      unfold function, returning, bind. unfold time_out_of_range in Ht. rewrite Ht.
      simpl. unfold to_millis. rewrite Hl. simpl. rewrite Hv. simpl. reflexivity. }
    rewrite Hrun. clear Hrun.
    split; [| split].
    + intros Hgt. unfold function, returning, bind.
      destruct (Z.ltb_spec (timeLimit c) sendTime); [| lia]. destruct m; reflexivity.
    + intros Hle Hbad. unfold function, returning, bind.
      destruct (Z.ltb_spec (timeLimit c) sendTime); [lia |]. simpl.
      replace ((newState <? 0) || (numStates c <=? newState)) with true
        by (symmetry; rewrite orb_true_iff; lia).
      destruct m; reflexivity.
    + intros Hle Hst Hn Hlen m'.
      assert (Hadd : function (
          (if timeLimit c <? sendTime then ERROR ERROR_INVALID_CHANGE_TIME else ret tt) ;;
          (if (newState <? 0) || (numStates c <=? newState)
           then ERROR ERROR_INVALID_CHANGE_STATE else ret tt) ;;
          checked (addStateChange (to_u32 agentID) sendTime (to_u32 newState))) m
          = addStateChange (to_u32 agentID) sendTime (to_u32 newState) m).
      { rewrite <- (function_checked (addStateChange (to_u32 agentID) sendTime (to_u32 newState)) m).
        - unfold function, returning, bind.
          destruct (Z.ltb_spec (timeLimit c) sendTime); [lia |]. simpl.
          replace ((newState <? 0) || (numStates c <=? newState)) with false
            by (symmetry; rewrite orb_false_iff; lia).
          reflexivity.
        - intros r m1 H1. unfold addStateChange in H1.
          apply (function_result batch_rel) in H1; [lia |].
          eff_auto.
        - intros e m1. apply function_no_jump. }
      rewrite Hadd, addStateChange_run by assumption. fold c. fold m'.
      split; intros Hc.
      * destruct (Z.eqb_spec (numChanges c + 1) UAMP_STATE_BUFFER_SIZE); [lia | reflexivity].
      * destruct (Z.eqb_spec (numChanges c + 1) UAMP_STATE_BUFFER_SIZE); [reflexivity | lia].
Qed.

(* ===================================================================== *)
(** ** The framed I/O buffer on messages that fit the buffer *)
(* ===================================================================== *)

Definition with_buf (m : machine) (b : uampIOBuffer) : machine :=
  mkMachine (set_commBuf b (client m)) (env m).

(** The world after the socket accepted [bytes]. *)
Definition sent (sock : Z) (bytes : list byte) (w : world) : world :=
  log_event (EvWrite sock bytes)
    (match w_tx_room w with
     | None => w
     | Some room => set_w_tx_room (Some (room - length bytes)%nat) w
     end).

Definition can_send (w : world) (n : nat) : Prop :=
  match w_tx_room w with None => True | Some room => (n <= room)%nat end.

Lemma socketWrite_ok sock bytes m :
  0 <= sock -> bytes <> [] -> can_send (env m) (length bytes) ->
  socketWrite sock bytes m = Val 0 (mkMachine (client m) (sent sock bytes (env m))).
Proof.
  intros Hs Hb Hc. unfold socketWrite, bind, getWorld, emit, modWorld, ret, sent, can_send in *.
  destruct bytes as [|b bytes]; [contradiction|].
  destruct (Z.ltb_spec sock 0); [lia|].
  destruct (w_tx_room (env m)) as [room|]; [| destruct m; reflexivity].
  destruct (Nat.leb_spec (length (b :: bytes)) room); [reflexivity | lia].
Qed.

Lemma socketWrite_no_room sock bytes m :
  0 <= sock -> bytes <> [] -> w_tx_room (env m) = Some O ->
  socketWrite sock bytes m
  = Val ERROR_SOCKET_WRITE (mkMachine (client m) (set_w_tx_room (Some O) (env m))).
Proof.
  intros Hs Hb Hr. unfold socketWrite, bind, getWorld, emit, modWorld, ret.
  destruct bytes as [|b bytes]; [contradiction|].
  destruct (Z.ltb_spec sock 0); [lia|]. rewrite Hr. simpl. reflexivity.
Qed.

Lemma socketRead_ok sock n chunk rest m :
  0 <= sock -> w_rx (env m) = chunk ++ rest -> Z.of_nat (length chunk) = n ->
  socketRead sock n m = Val (0, chunk) (mkMachine (client m) (set_w_rx rest (env m))).
Proof.
  intros Hs Hrx Hn. unfold socketRead, bind, getWorld, modWorld, ret.
  destruct (Z.leb_spec n 0).
  - destruct chunk; [| simpl in Hn; lia]. simpl in Hrx. rewrite <- Hrx.
    destruct m as [c w]; destruct w; reflexivity.
  - destruct (Z.ltb_spec sock 0); [lia|].
    rewrite Hrx, length_app.
    destruct (Nat.ltb_spec (length chunk + length rest) (Z.to_nat n)); [lia|].
    replace (Z.to_nat n) with (length chunk) by lia.
    rewrite drop_app_length, take_app_length. reflexivity.
Qed.

Section SmallFrames.
Variable sock : Z.
Hypothesis sock_open : 0 <= sock.

Lemma to_u64_small v : 0 <= v < 2 ^ 64 -> to_u64 v = v.
Proof. intros H. unfold to_u64. apply Z.mod_small. lia. Qed.

(** A write that neither fills the buffer nor completes the frame only
    adds to the buffer. *)
Lemma socketWriteRaw_buffers data m :
  let buf := commBuf (client m) in
  let len := Z.of_nat (length data) in
  data <> [] -> 0 <= passed buf -> passed buf + len < total buf -> total buf < 2 ^ 64 ->
  inBuffer buf + len < UAMP_IO_BUFFER_SIZE ->
  socketWriteRaw sock data m
  = Val 0 (with_buf m (mkIOBuffer (total buf) (passed buf + len) (buffer buf ++ data))).
Proof.
  intros buf len Hd Hp Ht Ht64 Hb.
  unfold socketWriteRaw, getBuf. unfold bind, getClient, ret. cbn beta iota. fold buf. fold len.
  rewrite to_u64_small by lia.
  replace ((passed buf <=? passed buf + len) && (len <=? passed buf + len)
           && (passed buf + len <=? total buf)) with true
    by (symmetry; rewrite !andb_true_iff; repeat split; lia).
  cbn [ASSERT]. unfold ret. destruct data as [|b data]; [contradiction|].
  unfold function, returning. cbn [socketWriteRaw_loop length].
  unfold getBuf, setBuf, modClient. unfold bind, getClient, ret. cbn beta iota.
  fold buf.
  change (Z.of_nat (S (length data))) with len.
  destruct (Z.ltb_spec len (UAMP_IO_BUFFER_SIZE - inBuffer buf)); [| lia].
  replace (Z.to_nat len) with (length (b :: data)) by (subst len; simpl; lia).
  rewrite firstn_all, skipn_all. rewrite to_u64_small by lia.
  cbn [client env commBuf set_commBuf passed total buffer].
  unfold inBuffer at 1. cbn [buffer]. rewrite length_app.
  destruct (Z.eqb_spec (Z.of_nat (length (buffer buf) + length (b :: data)))
                       UAMP_IO_BUFFER_SIZE) as [E|E].
  { unfold inBuffer in Hb. subst len. lia. }
  destruct (Z.eqb_spec (passed buf + len) (total buf)); [lia|].
  cbn [orb]. destruct (length data); reflexivity.
Qed.

(** The write that completes the frame sends the whole buffer. *)
Lemma socketWriteRaw_completes data m :
  let buf := commBuf (client m) in
  let len := Z.of_nat (length data) in
  data <> [] -> 0 <= passed buf -> passed buf + len = total buf -> total buf < 2 ^ 64 ->
  inBuffer buf + len < UAMP_IO_BUFFER_SIZE ->
  can_send (env m) (length (buffer buf ++ data)) ->
  socketWriteRaw sock data m
  = Val 0 (mkMachine (set_commBuf (mkIOBuffer (total buf) (total buf) []) (client m))
                     (sent sock (buffer buf ++ data) (env m))).
Proof.
  intros buf len Hd Hp Ht Ht64 Hb Hc.
  unfold socketWriteRaw, getBuf. unfold bind, getClient, ret. cbn beta iota. fold buf. fold len.
  rewrite to_u64_small by lia.
  replace ((passed buf <=? passed buf + len) && (len <=? passed buf + len)
           && (passed buf + len <=? total buf)) with true
    by (symmetry; rewrite !andb_true_iff; repeat split; lia).
  cbn [ASSERT]. unfold ret. destruct data as [|b data]; [contradiction|].
  unfold function, returning. cbn [socketWriteRaw_loop length].
  unfold getBuf, setBuf, modClient. unfold bind, getClient, ret. cbn beta iota.
  fold buf.
  change (Z.of_nat (S (length data))) with len.
  destruct (Z.ltb_spec len (UAMP_IO_BUFFER_SIZE - inBuffer buf)); [| lia].
  replace (Z.to_nat len) with (length (b :: data)) by (subst len; simpl; lia).
  rewrite firstn_all, skipn_all. rewrite to_u64_small by lia.
  cbn [client env commBuf set_commBuf passed total buffer].
  destruct (Z.eqb_spec (passed buf + len) (total buf)); [|lia].
  rewrite orb_true_r.
  rewrite socketWrite_ok; auto.
  - unfold ERROR_CHECK. cbn. rewrite Ht. destruct (length data); reflexivity.
  - destruct (buffer buf); discriminate.
Qed.

(** A read with the buffer empty fetches the rest of the frame. *)
Lemma socketReadRaw_refills len chunk rest m :
  let buf := commBuf (client m) in
  buffer buf = [] -> 0 <= passed buf -> 0 < len -> passed buf + len <= total buf ->
  total buf < 2 ^ 64 -> total buf - passed buf <= UAMP_IO_BUFFER_SIZE ->
  w_rx (env m) = chunk ++ rest -> Z.of_nat (length chunk) = total buf - passed buf ->
  socketReadRaw sock len m
  = Val (0, take (Z.to_nat len) chunk)
        (mkMachine (set_commBuf (mkIOBuffer (total buf) (passed buf + len)
                                            (drop (Z.to_nat len) chunk)) (client m))
                   (set_w_rx rest (env m))).
Proof.
  intros buf Hbuf Hp Hl Ht Ht64 Hsz Hrx Hch.
  unfold socketReadRaw, getBuf. unfold bind, getClient, ret. cbn beta iota. fold buf.
  rewrite to_u64_small by lia.
  replace ((passed buf <=? passed buf + len) && (len <=? passed buf + len)
           && (passed buf + len <=? total buf)) with true
    by (symmetry; rewrite !andb_true_iff; repeat split; lia).
  cbn [ASSERT]. unfold ret, function_with.
  assert (Hfuel : exists fuel, Z.to_nat len = S fuel) by (exists (pred (Z.to_nat len)); lia).
  destruct Hfuel as [fuel Hfuel]. rewrite Hfuel at 1.
  cbn [socketReadRaw_loop].
  destruct (Z.leb_spec len 0); [lia|].
  unfold getBuf, setBuf, modClient. unfold bind at 1 2 3. unfold getClient, ret at 1.
  cbn beta iota. fold buf.
  unfold inBuffer at 1. rewrite Hbuf. change (Z.of_nat (length []) =? 0) with true.
  cbn iota.
  rewrite (to_u64_small (total buf - passed buf)) by lia.
  assert (Hread : forall n, n = total buf - passed buf ->
            socketRead sock (to_u32 n) m
            = Val (0, chunk) (mkMachine (client m) (set_w_rx rest (env m)))).
  { intros n ->. apply socketRead_ok; auto. unfold to_u32.
    rewrite Z.mod_small; [auto|]. unfold UAMP_IO_BUFFER_SIZE in Hsz. lia. }
  unfold bind at 1.
  rewrite Hread.
  2:{ destruct (Z.ltb_spec (total buf - passed buf) UAMP_IO_BUFFER_SIZE); lia. }
  unfold ERROR_CHECK, bind, ret, getClient. cbn.
  unfold inBuffer. cbn [buffer].
  destruct (Z.ltb_spec len (Z.of_nat (length chunk))).
  - rewrite to_u64_small by lia. fold buf.
    replace (len - len) with 0 by lia.
    destruct fuel; reflexivity.
  - assert (len = Z.of_nat (length chunk)) by lia.
    rewrite to_u64_small by lia. fold buf.
    replace (Z.to_nat (Z.of_nat (length chunk))) with (Z.to_nat len) by lia.
    replace (passed buf + Z.of_nat (length chunk)) with (passed buf + len) by lia.
    replace (len - Z.of_nat (length chunk)) with 0 by lia.
    destruct fuel; reflexivity.
Qed.

(** A read that the buffer can serve takes its bytes from the buffer. *)
Lemma socketReadRaw_buffered len m :
  let buf := commBuf (client m) in
  0 < len <= inBuffer buf -> 0 <= passed buf -> passed buf + len <= total buf ->
  total buf < 2 ^ 64 ->
  socketReadRaw sock len m
  = Val (0, take (Z.to_nat len) (buffer buf))
        (with_buf m (mkIOBuffer (total buf) (passed buf + len)
                                (drop (Z.to_nat len) (buffer buf)))).
Proof.
  intros buf Hl Hp Ht Ht64.
  unfold socketReadRaw, getBuf. unfold bind, getClient, ret. cbn beta iota. fold buf.
  rewrite to_u64_small by lia.
  replace ((passed buf <=? passed buf + len) && (len <=? passed buf + len)
           && (passed buf + len <=? total buf)) with true
    by (symmetry; rewrite !andb_true_iff; repeat split; lia).
  cbn [ASSERT]. unfold ret, function_with.
  assert (Hfuel : exists fuel, Z.to_nat len = S fuel) by (exists (pred (Z.to_nat len)); lia).
  destruct Hfuel as [fuel Hfuel]. rewrite Hfuel at 1.
  cbn [socketReadRaw_loop].
  destruct (Z.leb_spec len 0); [lia|].
  unfold getBuf, setBuf, modClient. unfold bind at 1 2 3. unfold getClient, ret at 1.
  cbn beta iota. fold buf.
  destruct (Z.eqb_spec (inBuffer buf) 0); [lia|].
  unfold ret at 1. unfold bind, ret, getClient. cbn beta iota. fold buf.
  destruct (Z.ltb_spec len (inBuffer buf)).
  - rewrite to_u64_small by lia.
    replace (len - len) with 0 by lia.
    destruct fuel; reflexivity.
  - assert (len = inBuffer buf) by lia.
    rewrite to_u64_small by lia.
    replace (Z.to_nat (inBuffer buf)) with (Z.to_nat len) by lia.
    replace (passed buf + inBuffer buf) with (passed buf + len) by lia.
    replace (len - inBuffer buf) with 0 by lia.
    destruct fuel; reflexivity.
Qed.
End SmallFrames.

(* ===================================================================== *)
(** ** uampTerminate *)
(* ===================================================================== *)

(** u8 0x00 followed by u32 0 *)
Definition terminate_frame : list byte := to_byte 0x00 :: encode32 0.

(** The machine after the [isErr] label of uampTerminate: the socket is
    closed if it was open, the agent storage freed if there was any. *)
Definition release (m : machine) : machine :=
  let c := client m in
  let m1 :=
    if 0 <=? fd c
    then mkMachine (set_fd (-1) c) (log_event (EvClose (fd c)) (env m))
    else m in
  match agents c with
  | Some _ => mkMachine (set_agents None (client m1)) (log_event (EvFree AgentStorage) (env m1))
  | None => m1
  end.

Lemma returning_inv (body : M unit) (cleanup : Z -> M unit) m r m' :
  returning body cleanup m = Val r m' ->
  exists m1, cleanup r m1 = Val tt m'
             /\ ((r = 0 /\ body m = Val tt m1) \/ body m = Err r m1).
Proof.
  unfold returning, bind, ret. intros H.
  destruct (body m) as [[] m1 | e m1 | ft]; try discriminate.
  - destruct (cleanup 0 m1) as [[] m2 | |] eqn:E; try discriminate.
    inversion H; subst. exists m1. auto.
  - destruct (cleanup e m1) as [[] m2 | |] eqn:E; try discriminate.
    inversion H; subst. exists m1. auto.
Qed.

Lemma uampTerminate_cleanup m :
  (c <- getClient ;;
   (if 0 <=? fd c then emit (EvClose (fd c)) ;; modClient (set_fd (-1)) else ret tt) ;;
   match agents c with
   | Some _ => emit (EvFree AgentStorage) ;; modClient (set_agents None)
   | None => ret tt
   end) m = Val tt (release m).
Proof.
  unfold release, bind, getClient, emit, modWorld, modClient, ret.
  destruct m as [c w]. cbn [client env].
  destruct (0 <=? fd c); destruct (agents c); reflexivity.
Qed.

Lemma uampTerminate_run m :
  uampTerminate m =
    match (c <- getClient ;;
           if 0 <=? fd c then
             (if negb (numChanges c =? 0) then checked flushStateChanges else ret tt) ;;
             beginWrite 5 ;;
             checked (socketWrite8 (fd c) 0x00) ;;
             checked (socketWrite32 (fd c) 0)
           else ret tt) m with
    | Val _ m1 => Val 0 (release m1)
    | Err e m1 => Val e (release m1)
    | Fault f => Fault f
    end.
Proof.
  unfold uampTerminate, returning.
  match goal with |- match ?b m with _ => _ end = _ => destruct (b m) as [[] m1|e m1|ft] end;
    auto; unfold bind at 1; rewrite uampTerminate_cleanup; reflexivity.
Qed.

Lemma release_fd m : fd (client (release m)) < 0.
Proof.
  unfold release. destruct m as [c w]. cbn [client env].
  destruct (Z.leb_spec 0 (fd c)); destruct (agents c); simpl; lia.
Qed.

Lemma release_agents m : agents (client (release m)) = None.
Proof.
  unfold release. destruct m as [c w]. cbn [client env].
  destruct (Z.leb_spec 0 (fd c)); destruct (agents c) eqn:E; simpl; auto.
Qed.

Lemma uampTerminate_disconnected m :
  fd (client m) < 0 -> agents (client m) = None -> uampTerminate m = Val 0 m.
Proof.
  intros Hfd Hag. rewrite uampTerminate_run. unfold bind, getClient, ret.
  destruct (Z.leb_spec 0 (fd (client m))); [lia|].
  unfold release. destruct (Z.leb_spec 0 (fd (client m))); [lia|].
  rewrite Hag. reflexivity.
Qed.

Lemma terminate_frame_sent m :
  0 <= fd (client m) -> can_send (env m) 5 ->
  (beginWrite 5 ;;
   checked (socketWrite8 (fd (client m)) 0x00) ;;
   checked (socketWrite32 (fd (client m)) 0)) m
  = Val tt (mkMachine (set_commBuf (mkIOBuffer 5 5 []) (client m))
                      (sent (fd (client m)) terminate_frame (env m))).
Proof.
  intros Hfd Hc. unfold beginWrite, setBuf, modClient, checked, socketWrite8, socketWrite32.
  unfold bind at 1. unfold bind at 1. unfold bind at 1.
  rewrite socketWriteRaw_buffers;
    cbn [client env commBuf set_commBuf total passed buffer length];
    auto; try (unfold inBuffer, UAMP_IO_BUFFER_SIZE; cbn; lia); try discriminate.
  change (ERROR_CHECK 0) with (@ret unit tt). unfold ret at 1. unfold bind at 1.
  rewrite socketWriteRaw_completes;
    cbn [with_buf client env commBuf set_commBuf total passed buffer length];
    auto; try (unfold inBuffer, UAMP_IO_BUFFER_SIZE; cbn; lia); try discriminate.

Qed.

Lemma connect_cleanup_failed e m m' :
  e <> 0 -> connect_cleanup e m = Val tt m' ->
  fd (client m') < 0 /\ agents (client m') = None.
Proof.
  intros He. unfold connect_cleanup.
  destruct (Z.eqb_spec e 0); [contradiction|]. cbn [negb].
  unfold bind, getClient, emit, modWorld, modClient, ret.
  destruct m as [c w]. cbn [client env].
  destruct (0 <=? fd c); destruct (agents c) eqn:E; intros H; inversion H; subst; cbn; auto;
    split; auto; lia.
Qed.

(** C6: terminate on a connected session flushes the pending state changes
    first, then sends the termination frame (u8 0x00, u32 0), closes the
    socket and frees the agent storage; whatever the first call returned,
    a second call returns 0 and leaves session and socket untouched;
    terminate does so too after uampInitialize alone and after a connect
    that failed. *)
Theorem uampTerminate_flushes_closes_idempotent :
  forall m : machine,
    let c := client m in
    (0 <= fd c -> numChanges c = 0 -> can_send (env m) 5 ->
     uampTerminate m
     = Val 0 (release (mkMachine (set_commBuf (mkIOBuffer 5 5 []) c)
                                 (sent (fd (client m)) terminate_frame (env m)))))
    /\ (0 <= fd c -> numChanges c <> 0 ->
        forall r m1, flushStateChanges m = Val r m1 ->
          (r < 0 -> uampTerminate m = Val r (release m1))
          /\ (r = 0 -> can_send (env m1) 5 ->
              uampTerminate m
              = Val 0 (release (mkMachine (set_commBuf (mkIOBuffer 5 5 []) (client m1))
                                          (sent (fd (client m)) terminate_frame (env m1))))))
    /\ (forall r m1, uampTerminate m = Val r m1 ->
          fd (client m1) < 0 /\ agents (client m1) = None
          /\ uampTerminate m1 = Val 0 m1)
    /\ (forall m0, uampInitialize m0 = Val tt m -> uampTerminate m = Val 0 m)
    /\ (forall m0 hostname port nAgents tLimit seed features r,
          uampConnect hostname port nAgents tLimit seed features m0 = Val r m ->
          r <> 0 -> uampTerminate m = Val 0 m)
    /\ (forall m0 hostname port naPtr tlPtr names nStates accept features r,
          mvispConnect hostname port naPtr tlPtr names nStates accept features m0 = Val r m ->
          r <> 0 -> uampTerminate m = Val 0 m).
Proof.
  intros m c. subst c. repeat split.
  - intros Hfd Hn Hc. rewrite uampTerminate_run.
    unfold bind at 1. unfold getClient at 1.
    destruct (Z.leb_spec 0 (fd (client m))); [| lia]. rewrite Hn. cbn [Z.eqb negb].
    unfold bind at 1. unfold ret at 1.
    rewrite (terminate_frame_sent m); auto.
  - intros Hlt. rename H1 into Hflush. rewrite uampTerminate_run.
    unfold bind at 1. unfold getClient at 1.
    destruct (Z.leb_spec 0 (fd (client m))); [| lia].
    destruct (Z.eqb_spec (numChanges (client m)) 0); [contradiction|]. cbn [negb].
    unfold bind at 1. unfold checked at 1. unfold bind at 1. rewrite Hflush.
    unfold ERROR_CHECK. destruct (Z.ltb_spec r 0); [reflexivity | lia].
  - intros Hr Hc. subst r. rename H1 into Hflush. rewrite uampTerminate_run.
    unfold bind at 1. unfold getClient at 1.
    destruct (Z.leb_spec 0 (fd (client m))); [| lia].
    destruct (Z.eqb_spec (numChanges (client m)) 0); [contradiction|]. cbn [negb].
    unfold bind at 1. unfold checked at 1. unfold bind at 1. rewrite Hflush.
    change (ERROR_CHECK 0) with (@ret unit tt). unfold ret at 1.
    pose proof (eff_flushStateChanges m) as He. rewrite Hflush in He.
    destruct He as [(b & chs & nc & Hcl) _].
    assert (Hfd1 : fd (client m1) = fd (client m)) by (rewrite Hcl; reflexivity).
    rewrite <- Hfd1.
    rewrite (terminate_frame_sent m1); auto. lia.
  - rewrite uampTerminate_run in H.
    match type of H with match ?b with _ => _ end = _ => destruct b end;
      inversion H; subst; apply release_fd.
  - rewrite uampTerminate_run in H.
    match type of H with match ?b with _ => _ end = _ => destruct b end;
      inversion H; subst; apply release_agents.
  - rewrite uampTerminate_run in H.
    match type of H with match ?b with _ => _ end = _ => destruct b end;
      inversion H; subst;
      apply uampTerminate_disconnected; auto using release_fd, release_agents.
  - intros m0 H. unfold uampInitialize, modClient in H. inversion H; subst.
    apply uampTerminate_disconnected; cbn; [lia | reflexivity].
  - intros m0 hostname port nAgents tLimit seed features r H Hr.
    unfold uampConnect in H. apply returning_inv in H. destruct H as (m1 & Hcl & _).
    apply connect_cleanup_failed in Hcl; auto. destruct Hcl.
    apply uampTerminate_disconnected; auto.
  - intros m0 hostname port naPtr tlPtr names nStates accept features r H Hr.
    unfold mvispConnect in H. unfold bind at 1 in H.
    destruct (uampInitialize m0) as [[] mi | |]; try discriminate.
    unfold bind at 1 in H.
    destruct (verifyStates names nStates mi) as [vs mv | |]; try discriminate.
    apply returning_inv in H. destruct H as (m1 & Hcl & _).
    unfold bind at 1 in Hcl.
    destruct (connect_cleanup r m1) as [[] m2 | |] eqn:Ec; try discriminate.
    apply connect_cleanup_failed in Ec; auto. destruct Ec as [Hfd Hag].
    assert (fd (client m) = fd (client m2) /\ agents (client m) = agents (client m2)) as [E1 E2].
    { destruct (snd vs); unfold emit, modWorld, ret in Hcl; inversion Hcl; subst; auto. }
    apply uampTerminate_disconnected; congruence.
Qed.

(* ===================================================================== *)
(** ** performHandshake *)
(* ===================================================================== *)

(** The nine bytes the client opens with. *)
Definition client_hello (isUAMP : bool) (supportedFeatures : Z) : list byte :=
  (if isUAMP then tag_UAMP else tag_MVIS)
  ++ [to_byte SUPPORTED_VERSION] ++ encode32 supportedFeatures.

Definition valid_features (supportedFeatures : Z) : Prop :=
  Z.land (Z.lxor (Z.lor UAMP_SUPPORTS_3D UAMP_SUPPORTS_ADD_REMOVE) UINT32_MAX)
         supportedFeatures = 0.

(** The machine once both sides have sent their nine bytes. *)
Definition exchanged (isUAMP : bool) (supportedFeatures : Z) (serverFeats : list byte)
    (rest : list byte) (m : machine) : machine :=
  mkMachine
    (set_serverFeatures (decode32 serverFeats)
       (set_commBuf (mkIOBuffer 9 9 []) (client m)))
    (set_w_rx rest (sent (fd (client m)) (client_hello isUAMP supportedFeatures) (env m))).

Lemma w_rx_sent sock bytes w : w_rx (sent sock bytes w) = w_rx w.
Proof. unfold sent. destruct (w_tx_room w); reflexivity. Qed.

Lemma w_log_sent sock bytes w : w_log (sent sock bytes w) = w_log w ++ [EvWrite sock bytes].
Proof. unfold sent. destruct (w_tx_room w); reflexivity. Qed.

Lemma set_w_rx_sent sock bytes rest w :
  set_w_rx rest (sent sock bytes w) = sent sock bytes (set_w_rx rest w).
Proof. unfold sent. destruct w as [a b c d e f [r|] l]; reflexivity. Qed.

Lemma performHandshake_exchange_ok isUAMP supportedFeatures m id ver f0 f1 f2 f3 rest :
  valid_features supportedFeatures ->
  0 <= fd (client m) ->
  can_send (env m) 9 ->
  length id = 4%nat ->
  w_rx (env m) = id ++ [ver] ++ [f0; f1; f2; f3] ++ rest ->
  performHandshake_exchange isUAMP supportedFeatures m
  = Val (id, byte_val ver) (exchanged isUAMP supportedFeatures [f0; f1; f2; f3] rest m).
Proof.
  intros Hv Hfd Hc Hid Hrx. unfold performHandshake_exchange.
  destruct id as [|i0 [|i1 [|i2 [|i3 [|]]]]]; try discriminate.
  unfold valid_features in Hv. rewrite Hv. cbn [Z.eqb negb].
  unfold bind at 1. unfold ret at 1. unfold bind at 1. unfold getClient at 1.
  unfold beginWrite, setBuf, modClient. unfold bind at 1.
  unfold checked at 1. unfold bind at 1. unfold bind at 1.
  rewrite socketWriteRaw_buffers;
    cbn [client env commBuf set_commBuf total passed buffer length];
    auto; try (destruct isUAMP; unfold inBuffer, UAMP_IO_BUFFER_SIZE; cbn; lia);
    try (destruct isUAMP; discriminate).
  change (ERROR_CHECK 0) with (@ret unit tt). unfold ret at 1.
  unfold bind at 1. unfold checked at 1. unfold bind at 1. unfold socketWrite8.
  rewrite socketWriteRaw_buffers;
    cbn [with_buf client env commBuf set_commBuf total passed buffer length];
    auto; try (destruct isUAMP; unfold inBuffer, UAMP_IO_BUFFER_SIZE; cbn; lia);
    try discriminate.
  change (ERROR_CHECK 0) with (@ret unit tt). unfold ret at 1.
  unfold bind at 1. unfold checked at 1. unfold bind at 1. unfold socketWrite32.
  rewrite socketWriteRaw_completes;
    cbn [with_buf client env commBuf set_commBuf total passed buffer length];
    auto; try (destruct isUAMP; unfold inBuffer, UAMP_IO_BUFFER_SIZE; cbn; lia);
    try discriminate.
  2:{ destruct isUAMP; exact Hc. }
  change (ERROR_CHECK 0) with (@ret unit tt). unfold ret at 1.
  unfold beginRead, setBuf, modClient. unfold bind at 1.
  unfold bind at 1. unfold checked_with at 1. unfold bind at 1.
  rewrite (socketReadRaw_refills _ Hfd 4 ([i0; i1; i2; i3] ++ [ver] ++ [f0; f1; f2; f3]) rest);
    cbn [client env commBuf set_commBuf total passed buffer];
    auto; try (unfold UAMP_IO_BUFFER_SIZE; lia).
  2:{ rewrite w_rx_sent, Hrx. rewrite <- !app_assoc. reflexivity. }
  change (Z.to_nat 4) with 4%nat. cbn [take drop app fst snd].
  change (ERROR_CHECK 0) with (@ret unit tt). unfold bind at 1. unfold ret at 1 2.
  unfold bind at 1. unfold checked_with at 1. unfold bind at 1. unfold socketRead8.
  unfold bind at 1.
  rewrite socketReadRaw_buffered;
    cbn [client env commBuf set_commBuf total passed buffer];
    auto; try (unfold inBuffer; cbn; lia).
  change (Z.to_nat 1) with 1%nat. cbn [take drop app fst snd].
  unfold ret at 1. cbn [fst snd].
  change (ERROR_CHECK 0) with (@ret unit tt). unfold bind at 1. unfold ret at 1 2.
  unfold bind at 1. unfold checked_with at 1. unfold bind at 1. unfold socketRead32.
  unfold bind at 1.
  rewrite socketReadRaw_buffered;
    cbn [with_buf client env commBuf set_commBuf total passed buffer];
    auto; try (unfold inBuffer; cbn; lia).
  change (Z.to_nat 4) with 4%nat. cbn [take drop app fst snd Z.eqb negb].
  unfold ret at 1. cbn [fst snd].
  change (ERROR_CHECK 0) with (@ret unit tt). unfold bind at 1. unfold ret at 1 2.
  unfold bind at 1. unfold ret.
  unfold exchanged, client_hello. cbn [client env].
  destruct isUAMP; reflexivity.
Qed.

(** The answer of the role-tag check (lines 463-480) to the server's tag. *)
Definition role_tag_error (isUAMP : bool) (id : list byte) : option Z :=
  if isUAMP then
    if decide (id = tag_MVIS) then Some ERROR_UAMP_CLIENT_MVISP_SERVER
    else if decide (id = tag_UAMP) then None
    else Some ERROR_SERVER_UNKNOWN_HANDSHAKE
  else
    if decide (id = tag_UAMP) then Some ERROR_MVISP_CLIENT_UAMP_SERVER
    else if decide (id = tag_MVIS) then None
    else Some ERROR_SERVER_UNKNOWN_HANDSHAKE.

Lemma performHandshake_verify_role isUAMP supportedFeatures id ver m e :
  length id = 4%nat ->
  role_tag_error isUAMP id = Some e ->
  performHandshake_verify isUAMP supportedFeatures id ver m = Err e m.
Proof.
  intros Hid He. unfold performHandshake_verify, role_tag_error, memcmp_equal in *.
  change (Z.to_nat 4) with 4%nat.
  replace (take 4 id) with id by (symmetry; apply take_ge; lia).
  change (take 4 tag_MVIS) with tag_MVIS. change (take 4 tag_UAMP) with tag_UAMP.
  unfold bind at 1. unfold getClient at 1. unfold bind at 1.
  destruct isUAMP.
  - destruct (decide (id = tag_MVIS)) as [E|E].
    + rewrite (bool_decide_eq_true_2 _ E). inversion He; subst. reflexivity.
    + rewrite (bool_decide_eq_false_2 _ E).
      destruct (decide (id = tag_UAMP)) as [E'|E']; [discriminate|].
      rewrite (bool_decide_eq_false_2 _ E'). inversion He; subst. reflexivity.
  - destruct (decide (id = tag_UAMP)) as [E|E].
    + rewrite (bool_decide_eq_true_2 _ E). inversion He; subst. reflexivity.
    + rewrite (bool_decide_eq_false_2 _ E).
      destruct (decide (id = tag_MVIS)) as [E'|E']; [discriminate|].
      rewrite (bool_decide_eq_false_2 _ E'). inversion He; subst. reflexivity.
Qed.

Lemma can_send_after w sock bytes rest n :
  can_send w (length bytes + n) -> can_send (set_w_rx rest (sent sock bytes w)) n.
Proof.
  unfold can_send, sent. destruct w as [a b c d e f [r|] l]; cbn; [lia | auto].
Qed.

(** C8: when the server's role tag is the other protocol's or unknown, the
    handshake returns UampClientMvispServer, MvispClientUampServer or
    ServerUnknownHandshake after writing the reject byte 0x00 to the
    socket; when that write itself fails, its error is dropped and the
    role-tag error is returned all the same. *)
Theorem performHandshake_rejects_wrong_role_tag :
  forall (isUAMP : bool) (supportedFeatures : Z) (m : machine)
         (id : list byte) (ver f0 f1 f2 f3 : byte) (rest : list byte) (e : Z),
    valid_features supportedFeatures ->
    0 <= fd (client m) ->
    length id = 4%nat ->
    w_rx (env m) = id ++ [ver] ++ [f0; f1; f2; f3] ++ rest ->
    role_tag_error isUAMP id = Some e ->
    let sock := fd (client m) in
    let m1 := exchanged isUAMP supportedFeatures [f0; f1; f2; f3] rest m in
    (e = ERROR_UAMP_CLIENT_MVISP_SERVER \/ e = ERROR_MVISP_CLIENT_UAMP_SERVER
     \/ e = ERROR_SERVER_UNKNOWN_HANDSHAKE)
    /\ (can_send (env m) 10 ->
        performHandshake isUAMP supportedFeatures m
        = Val e (mkMachine (client m1) (sent sock [to_byte 0x00] (env m1)))
        /\ w_log (env (mkMachine (client m1) (sent sock [to_byte 0x00] (env m1))))
           = w_log (env m) ++ [EvWrite sock (client_hello isUAMP supportedFeatures);
                                EvWrite sock [to_byte 0x00]])
    /\ (w_tx_room (env m) = Some 9%nat ->
        let m2 := mkMachine (client m1) (set_w_tx_room (Some O) (env m1)) in
        socketWrite sock [to_byte 0x00] m1 = Val ERROR_SOCKET_WRITE m2
        /\ performHandshake isUAMP supportedFeatures m = Val e m2
        /\ w_log (env m2)
           = w_log (env m) ++ [EvWrite sock (client_hello isUAMP supportedFeatures)]).
Proof.
  intros isUAMP supportedFeatures m id ver f0 f1 f2 f3 rest e Hv Hfd Hid Hrx He sock m1.
  assert (Hlen : length (client_hello isUAMP supportedFeatures) = 9%nat)
    by (destruct isUAMP; reflexivity).
  assert (Hrun : can_send (env m) 9 ->
            performHandshake isUAMP supportedFeatures m
            = performHandshake_reject e m1).
  { intros Hc. unfold performHandshake.
    rewrite (performHandshake_exchange_ok isUAMP supportedFeatures m id ver f0 f1 f2 f3 rest);
      auto.
    fold m1. rewrite (performHandshake_verify_role _ _ _ _ _ e); auto. }
  split; [| split].
  - unfold role_tag_error in He.
    destruct isUAMP; repeat destruct (decide _); inversion He; auto.
  - intros Hc. split.
    + rewrite Hrun.
      * unfold performHandshake_reject, bind, getClient.
        change (fd (client m1)) with sock.
        rewrite socketWrite_ok; auto; try discriminate.
        unfold m1, exchanged. cbn [env]. apply can_send_after. rewrite Hlen. exact Hc.
      * unfold can_send in *. destruct (w_tx_room (env m)); [lia | exact I].
    + cbn [env]. rewrite w_log_sent. unfold m1, exchanged. cbn [env].
      rewrite set_w_rx_sent, w_log_sent. cbn [w_log set_w_rx]. rewrite <- app_assoc.
      reflexivity.
  - intros Hroom m2.
    assert (Hroom1 : w_tx_room (env m1) = Some O).
    { unfold m1, exchanged, sent. cbn [env]. rewrite Hroom. cbn. rewrite Hlen. reflexivity. }
    assert (Hw : socketWrite sock [to_byte 0x00] m1 = Val ERROR_SOCKET_WRITE m2).
    { apply socketWrite_no_room; auto; discriminate. }
    split; [exact Hw | split].
    + rewrite Hrun.
      * unfold performHandshake_reject, bind, getClient.
        change (fd (client m1)) with sock. rewrite Hw. reflexivity.
      * unfold can_send. rewrite Hroom. lia.
    + unfold m2, m1, exchanged. cbn [env w_log set_w_tx_room set_w_rx].
      rewrite w_log_sent. reflexivity.
Qed.

(* ===================================================================== *)
(** ** The update queues: frames *)
(* ===================================================================== *)

Section QueueReaders.
Context (R : machine -> machine -> Prop) `{!PreOrder R}.

Lemma eff_getAgent agentID : eff R (getAgent agentID).
Proof. unfold getAgent. eff_auto. Qed.

Lemma eff_getUpdate a i : eff R (getUpdate a i).
Proof. unfold getUpdate. eff_auto. Qed.
Hint Resolve eff_getAgent eff_getUpdate : eff.

Lemma eff_deref p : eff R (deref p).
Proof. unfold deref. eff_auto. Qed.

Lemma eff_numToRequest agentID : eff R (numToRequest agentID).
Proof. unfold numToRequest. eff_auto. Qed.

Lemma eff_getCurrentUpdate agentID : eff R (getCurrentUpdate agentID).
Proof. unfold getCurrentUpdate. eff_auto. Qed.

Lemma eff_getPreviousUpdate agentID : eff R (getPreviousUpdate agentID).
Proof. unfold getPreviousUpdate. eff_auto. Qed.
End QueueReaders.

#[global] Hint Resolve eff_getAgent eff_getUpdate eff_deref eff_numToRequest
  eff_getCurrentUpdate eff_getPreviousUpdate : eff.

#[global] Hint Extern 5 (eff queue_rel _) =>
  (apply (eff_mono io_rel queue_rel); [exact io_rel_queue | ]) : eff.

Lemma eff_setAgent agentID a : eff queue_rel (setAgent agentID a).
Proof.
  intros m. simpl. split; [| apply world_io_refl].
  exists (commBuf (client m)),
         (option_map (fun ags => <[Z.to_nat agentID := a]> ags) (agents (client m))).
  destruct (client m); reflexivity.
Qed.
#[global] Hint Resolve eff_setAgent : eff.

Lemma eff_storeReply_set agentID f : eff queue_rel (storeReply_set agentID f).
Proof. unfold storeReply_set. eff_auto. Qed.
#[global] Hint Resolve eff_storeReply_set : eff.

Lemma eff_receiveReply_read agentID : eff queue_rel (receiveReply_read agentID).
Proof. unfold receiveReply_read. eff_auto. Qed.

Lemma eff_receiveReply_verify agentID : eff queue_rel (receiveReply_verify agentID).
Proof. unfold receiveReply_verify. eff_auto. Qed.
#[global] Hint Resolve eff_receiveReply_read eff_receiveReply_verify : eff.

Lemma eff_receiveReply agentID : eff queue_rel (receiveReply agentID).
Proof. unfold receiveReply. eff_auto. Qed.
#[global] Hint Resolve eff_receiveReply : eff.

Lemma eff_requestUpdates_send fuel onAgent onRequest totalRequests :
  eff queue_rel (requestUpdates_send fuel onAgent onRequest totalRequests).
Proof.
  revert onAgent onRequest.
  induction fuel as [|fuel IH]; intros onAgent onRequest; simpl; eff_auto.
Qed.

Lemma eff_requestUpdates_recv fuel onAgent onRequest totalRequests :
  eff queue_rel (requestUpdates_recv fuel onAgent onRequest totalRequests).
Proof.
  revert onAgent onRequest.
  induction fuel as [|fuel IH]; intros onAgent onRequest; simpl; eff_auto.
Qed.
#[global] Hint Resolve eff_requestUpdates_send eff_requestUpdates_recv : eff.

Lemma eff_requestUpdates startAgent totalRequests :
  eff queue_rel (requestUpdates startAgent totalRequests).
Proof. unfold requestUpdates. eff_auto. Qed.
#[global] Hint Resolve eff_requestUpdates : eff.

Lemma eff_fillUpdateQueues_loop n onAgent startAgent totalRequests :
  eff queue_rel (fillUpdateQueues_loop n onAgent startAgent totalRequests).
Proof.
  revert onAgent startAgent totalRequests.
  induction n as [|n IH]; intros onAgent startAgent totalRequests; simpl; eff_auto.
Qed.
#[global] Hint Resolve eff_fillUpdateQueues_loop : eff.

Lemma eff_fillUpdateQueues : eff queue_rel fillUpdateQueues.
Proof. unfold fillUpdateQueues. eff_auto. Qed.
#[global] Hint Resolve eff_fillUpdateQueues : eff.

Lemma eff_advanceAgent agentID : eff queue_rel (advanceAgent agentID).
Proof. unfold advanceAgent. eff_auto. Qed.
#[global] Hint Resolve eff_advanceAgent : eff.

(* ===================================================================== *)
(** ** receiveReply on one agent *)
(* ===================================================================== *)

Definition slot (a : uampAgent) (i : Z) : uampUpdate :=
  default zeroUpdate (at_index (updates a) i).

Definition ring_pred (i : Z) : Z := if i =? 0 then UAMP_UPDATE_QUEUE_SIZE - 1 else i - 1.
Definition ring_succ (i : Z) : Z := if i =? UAMP_UPDATE_QUEUE_SIZE - 1 then 0 else i + 1.

(** The agent with reply [u] stored at [recvIndex]. *)
Definition store_reply (a : uampAgent) (u : uampUpdate) : uampAgent :=
  set_updates (<[Z.to_nat (recvIndex a) := u]> (updates a)) a.

(** The agent after a reply passed the verification. *)
Definition produced (a : uampAgent) : uampAgent :=
  set_recvIndex (ring_succ (recvIndex a)) (set_aliveInQueue (aliveInQueue a + 1) a).

(** The verification of lines 225-247 as a function of the agent whose slot
    at [recvIndex] holds the reply: the code it ends with (0 when every
    check passed) and the agent at that point. *)
Definition order_check (tl : Z) (a : uampAgent) : Z * uampAgent :=
  let storeReply := slot a (recvIndex a) in
  let previousStore := slot a (ring_pred (recvIndex a)) in
  if aliveInQueue a =? 0 then
    if negb (u_time storeReply =? 0) then (ERROR_FIRST_UPDATE_TIME, a) else (0, a)
  else if negb (receivedFinal a =? 0) then
    if negb (update_equal storeReply previousStore)
    then (ERROR_NON_EQUAL_FINAL_UPDATES, a) else (0, a)
  else if u_time storeReply <=? u_time previousStore
  then (ERROR_TIMESTAMP_NOT_INCREMENTED, a)
  else if tl <? u_time storeReply then (ERROR_TIMESTAMP_TOO_LARGE, a)
  else (0, if u_time storeReply =? tl then set_receivedFinal 1 a else a).

Definition verified (tl : Z) (a : uampAgent) : Z * uampAgent :=
  let oc := order_check tl a in
  let storeReply := slot a (recvIndex a) in
  if negb (fst oc =? 0) then oc
  else if negb (u_present storeReply =? 0x00) && negb (u_present storeReply =? 0x01)
  then (ERROR_INVALID_PRESENT_FLAG, snd oc)
  else (0, produced (snd oc)).

Lemma at_index_Some {A} (l : list A) i x :
  at_index l i = Some x -> 0 <= i /\ l !! Z.to_nat i = Some x.
Proof. unfold at_index. destruct (Z.ltb_spec i 0); [discriminate | auto]. Qed.

Lemma at_index_lookup {A} (l : list A) i :
  0 <= i -> at_index l i = l !! Z.to_nat i.
Proof. intros H. unfold at_index. destruct (Z.ltb_spec i 0); [lia | auto]. Qed.

Lemma at_index_insert {A} (l : list A) i x y :
  at_index l i = Some y -> at_index (<[Z.to_nat i := x]> l) i = Some x.
Proof.
  intros H. apply at_index_Some in H. destruct H as [Hi H].
  rewrite at_index_lookup by auto. apply list_lookup_insert_eq.
  eapply lookup_lt_Some; eauto.
Qed.

Lemma at_index_insert_ne {A} (l : list A) i j x :
  0 <= i -> 0 <= j -> i <> j -> at_index (<[Z.to_nat i := x]> l) j = at_index l j.
Proof.
  intros Hi Hj Hne. rewrite !at_index_lookup by auto.
  apply list_lookup_insert_ne. lia.
Qed.

Lemma at_index_bound {A} (l : list A) i x :
  at_index l i = Some x -> 0 <= i < Z.of_nat (length l).
Proof.
  intros H. apply at_index_Some in H. destruct H as [Hi H].
  apply lookup_lt_Some in H. lia.
Qed.

Lemma set_agents_id c ags : agents c = Some ags -> set_agents (Some ags) c = c.
Proof. intros H. destruct c; simpl in *. subst. reflexivity. Qed.

Lemma insert_agent_id (ags : list uampAgent) j a :
  at_index ags j = Some a -> <[Z.to_nat j := a]> ags = ags.
Proof. intros H. apply at_index_Some in H. apply list_insert_id. tauto. Qed.

(** Running getAgent / setAgent / getUpdate. *)
Lemma getAgent_run m ags j a :
  agents (client m) = Some ags -> at_index ags j = Some a -> getAgent j m = Val a m.
Proof. intros H1 H2. unfold getAgent, bind, getClient. rewrite H1, H2. reflexivity. Qed.

Lemma getAgent_inv m j a m' :
  getAgent j m = Val a m' ->
  m' = m /\ exists ags, agents (client m) = Some ags /\ at_index ags j = Some a.
Proof.
  unfold getAgent, bind, getClient, undefined, ret.
  destruct (agents (client m)) as [ags|]; [| discriminate].
  destruct (at_index ags j) eqn:E; [| discriminate].
  intros H. inversion H; subst. split; auto. exists ags; auto.
Qed.

Lemma getUpdate_inv a i u m m' :
  getUpdate a i m = Val u m' -> m' = m /\ at_index (updates a) i = Some u.
Proof.
  unfold getUpdate, undefined, ret. destruct (at_index (updates a) i); [| discriminate].
  intros H. inversion H; subst. auto.
Qed.

Lemma getUpdate_run a i m :
  0 <= i < Z.of_nat (length (updates a)) -> getUpdate a i m = Val (slot a i) m.
Proof.
  intros H. unfold getUpdate, slot. rewrite at_index_lookup by lia.
  destruct (lookup_lt_is_Some_2 (updates a) (Z.to_nat i)) as [u Hu]; [lia|].
  rewrite Hu. reflexivity.
Qed.

Lemma setAgent_run m ags j a :
  agents (client m) = Some ags ->
  setAgent j a m
  = Val tt (mkMachine (set_agents (Some (<[Z.to_nat j := a]> ags)) (client m)) (env m)).
Proof. intros H. unfold setAgent, modClient. rewrite H. reflexivity. Qed.

Lemma ring_pred_bound i :
  0 <= i < UAMP_UPDATE_QUEUE_SIZE -> 0 <= ring_pred i < UAMP_UPDATE_QUEUE_SIZE.
Proof. unfold ring_pred, UAMP_UPDATE_QUEUE_SIZE. destruct (Z.eqb_spec i 0); lia. Qed.

Lemma receiveReply_verify_run j m ags a :
  agents (client m) = Some ags ->
  at_index ags j = Some a ->
  0 <= recvIndex a < UAMP_UPDATE_QUEUE_SIZE ->
  Z.of_nat (length (updates a)) = UAMP_UPDATE_QUEUE_SIZE ->
  let v := verified (timeLimit (client m)) a in
  function (receiveReply_verify j) m
  = Val (fst v) (mkMachine (set_agents (Some (<[Z.to_nat j := snd v]> ags)) (client m))
                           (env m)).
Proof.
  intros Hags Hj Hr Hlen v.
  assert (Hsame : mkMachine (set_agents (Some (<[Z.to_nat j := a]> ags)) (client m)) (env m) = m).
  { rewrite (insert_agent_id ags j a Hj), set_agents_id by auto. destruct m; reflexivity. }
  pose proof (ring_pred_bound _ Hr) as Hp.
  subst v. unfold verified, order_check, function, returning, receiveReply_verify.
  unfold bind at 1. unfold bind at 1. unfold getClient at 1.
  unfold bind at 1. rewrite (getAgent_run m ags j a) by auto.
  unfold bind at 1. rewrite getUpdate_run by lia.
  fold (ring_pred (recvIndex a)).
  set (storeReply := slot a (recvIndex a)). set (previousStore := slot a (ring_pred (recvIndex a))).
  set (tl := timeLimit (client m)).
  unfold bind at 1.
  destruct (aliveInQueue a =? 0).
  - destruct (u_time storeReply =? 0); cbn [negb fst snd Z.eqb ERROR_FIRST_UPDATE_TIME].
    + unfold ret at 1. unfold bind at 1.
      destruct (negb (u_present storeReply =? 0) && negb (u_present storeReply =? 1)).
      * cbn. rewrite Hsame. reflexivity.
      * unfold ret at 1. unfold bind at 1. rewrite (getAgent_run m ags j a) by auto.
        rewrite (setAgent_run m ags) by auto. reflexivity.
    + cbn. rewrite Hsame. reflexivity.
  - unfold bind at 1. rewrite getUpdate_run by lia. fold previousStore.
    destruct (receivedFinal a =? 0); cbn [negb].
    + unfold bind at 1.
      destruct (u_time storeReply <=? u_time previousStore);
        [cbn; rewrite Hsame; reflexivity|].
      destruct (tl <? u_time storeReply); [cbn; rewrite Hsame; reflexivity|].
      unfold ret at 1.
      destruct (u_time storeReply =? tl).
      * rewrite (setAgent_run m ags) by auto. cbn [fst snd Z.eqb negb].
        unfold bind at 1.
        destruct (negb (u_present storeReply =? 0) && negb (u_present storeReply =? 1)).
        -- cbn. reflexivity.
        -- unfold ret at 1. unfold bind at 1.
           erewrite getAgent_run; [| cbn; reflexivity | apply at_index_insert with (y := a); auto].
           erewrite setAgent_run by (cbn; reflexivity).
           cbn. rewrite list_insert_insert_eq. reflexivity.
      * unfold ret at 1. cbn [fst snd Z.eqb negb]. unfold bind at 1.
        destruct (negb (u_present storeReply =? 0) && negb (u_present storeReply =? 1)).
        -- cbn. rewrite Hsame. reflexivity.
        -- unfold ret at 1. unfold bind at 1. rewrite (getAgent_run m ags j a) by auto.
           rewrite (setAgent_run m ags) by auto. reflexivity.
    + destruct (update_equal storeReply previousStore); cbn [negb fst snd Z.eqb].
      * unfold ret at 1. unfold bind at 1.
        destruct (negb (u_present storeReply =? 0) && negb (u_present storeReply =? 1)).
        -- cbn. rewrite Hsame. reflexivity.
        -- unfold ret at 1. unfold bind at 1. rewrite (getAgent_run m ags j a) by auto.
           rewrite (setAgent_run m ags) by auto. reflexivity.
      * cbn. rewrite Hsame. reflexivity.
Qed.

Lemma receiveReply_after_read j m m1 :
  receiveReply_read j m = Val tt m1 ->
  receiveReply j m = function (receiveReply_verify j) m1.
Proof.
  intros H. unfold receiveReply, function, returning. unfold bind at 1 3. rewrite H.
  reflexivity.
Qed.

(** The agent once the timestamp checks have passed: [receivedFinal] is set
    when a non-first, non-final reply carries the time limit. *)
Definition final_noted (tl : Z) (a : uampAgent) : uampAgent :=
  if negb (aliveInQueue a =? 0) && (receivedFinal a =? 0)
     && (u_time (slot a (recvIndex a)) =? tl)
  then set_receivedFinal 1 a else a.

(** C1: once a reply has been read into the slot at recvIndex, receiveReply
    checks, in this order: a first-ever reply (empty queue) must have time 0,
    else FirstUpdateTime; otherwise, with received_final set, the reply must
    equal the previous update in ring order, else NonEqualFinalUpdates;
    without it, its time must exceed the previous reply's, else
    TimestampNotIncremented, and must not exceed time_limit, else
    TimestampTooLarge, and a time equal to time_limit sets received_final;
    last, the present flag must be 0 or 1, else InvalidPresentFlag.  On
    success alive_in_queue grows by one and recv_index moves one slot on,
    wrapping around; on an error neither moves. *)
Theorem receiveReply_verification_order :
  forall (j : Z) (m m1 : machine) (ags : list uampAgent) (a : uampAgent),
    receiveReply_read j m = Val tt m1 ->
    agents (client m1) = Some ags ->
    at_index ags j = Some a ->
    0 <= recvIndex a < UAMP_UPDATE_QUEUE_SIZE ->
    Z.of_nat (length (updates a)) = UAMP_UPDATE_QUEUE_SIZE ->
    let tl := timeLimit (client m1) in
    let reply := slot a (recvIndex a) in
    let previous := slot a (ring_pred (recvIndex a)) in
    let answers (r : Z) (a' : uampAgent) :=
      receiveReply j m
      = Val r (mkMachine (set_agents (Some (<[Z.to_nat j := a']> ags)) (client m1)) (env m1)) in
    let in_order :=
      (aliveInQueue a = 0 /\ u_time reply = 0)
      \/ (aliveInQueue a <> 0 /\ receivedFinal a <> 0 /\ update_equal reply previous = true)
      \/ (aliveInQueue a <> 0 /\ receivedFinal a = 0
          /\ u_time previous < u_time reply <= tl) in
    (aliveInQueue a = 0 -> u_time reply <> 0 -> answers ERROR_FIRST_UPDATE_TIME a)
    /\ (aliveInQueue a <> 0 -> receivedFinal a <> 0 -> update_equal reply previous = false ->
        answers ERROR_NON_EQUAL_FINAL_UPDATES a)
    /\ (aliveInQueue a <> 0 -> receivedFinal a = 0 -> u_time reply <= u_time previous ->
        answers ERROR_TIMESTAMP_NOT_INCREMENTED a)
    /\ (aliveInQueue a <> 0 -> receivedFinal a = 0 -> u_time previous < u_time reply ->
        tl < u_time reply -> answers ERROR_TIMESTAMP_TOO_LARGE a)
    /\ (in_order -> u_present reply <> 0 -> u_present reply <> 1 ->
        answers ERROR_INVALID_PRESENT_FLAG (final_noted tl a))
    /\ (in_order -> u_present reply = 0 \/ u_present reply = 1 ->
        answers 0 (produced (final_noted tl a))
        /\ aliveInQueue (produced (final_noted tl a)) = aliveInQueue a + 1
        /\ recvIndex (produced (final_noted tl a))
           = (recvIndex a + 1) mod UAMP_UPDATE_QUEUE_SIZE
        /\ (receivedFinal (produced (final_noted tl a)) <> receivedFinal a ->
            u_time reply = tl /\ receivedFinal (produced (final_noted tl a)) = 1)).
Proof.
  intros j m m1 ags a Hread Hags Hj Hr Hlen tl reply previous answers in_order.
  assert (Hrun : forall r a', verified tl a = (r, a') -> answers r a').
  { intros r a' Hv. unfold answers. rewrite (receiveReply_after_read j m m1 Hread).
    rewrite (receiveReply_verify_run j m1 ags a Hags Hj Hr Hlen). fold tl. rewrite Hv.
    reflexivity. }
  assert (Hoc : in_order -> order_check tl a = (0, final_noted tl a)).
  { unfold in_order, order_check, final_noted. fold reply. fold previous.
    intros [[H1 H2] | [(H1 & H2 & H3) | (H1 & H2 & H3)]].
    - rewrite H1, H2. reflexivity.
    - destruct (Z.eqb_spec (aliveInQueue a) 0); [contradiction|].
      destruct (Z.eqb_spec (receivedFinal a) 0); [contradiction|].
      rewrite H3. reflexivity.
    - destruct (Z.eqb_spec (aliveInQueue a) 0); [contradiction|].
      rewrite H2. cbn [Z.eqb negb andb].
      destruct (Z.leb_spec (u_time reply) (u_time previous)); [lia|].
      destruct (Z.ltb_spec tl (u_time reply)); [lia|]. reflexivity. }
  repeat split.
  - intros H1 H2. apply Hrun. unfold verified, order_check. fold reply. rewrite H1.
    destruct (Z.eqb_spec (u_time reply) 0); [contradiction | reflexivity].
  - intros H1 H2 H3. apply Hrun. unfold verified, order_check. fold reply. fold previous.
    destruct (Z.eqb_spec (aliveInQueue a) 0); [contradiction|].
    destruct (Z.eqb_spec (receivedFinal a) 0); [contradiction|].
    rewrite H3. reflexivity.
  - intros H1 H2 H3. apply Hrun. unfold verified, order_check. fold reply. fold previous.
    destruct (Z.eqb_spec (aliveInQueue a) 0); [contradiction|].
    rewrite H2. cbn [Z.eqb negb].
    destruct (Z.leb_spec (u_time reply) (u_time previous)); [reflexivity | lia].
  - intros H1 H2 H3 H4. apply Hrun. unfold verified, order_check. fold reply. fold previous.
    destruct (Z.eqb_spec (aliveInQueue a) 0); [contradiction|].
    rewrite H2. cbn [Z.eqb negb].
    destruct (Z.leb_spec (u_time reply) (u_time previous)); [lia|].
    destruct (Z.ltb_spec tl (u_time reply)); [reflexivity | lia].
  - intros Hin H1 H2. apply Hrun. unfold verified. rewrite (Hoc Hin). fold reply.
    cbn [fst snd Z.eqb negb].
    destruct (Z.eqb_spec (u_present reply) 0); [contradiction|].
    destruct (Z.eqb_spec (u_present reply) 1); [contradiction|]. reflexivity.
  - apply Hrun. unfold verified. rewrite (Hoc H). fold reply.
    cbn [fst snd Z.eqb negb].
    destruct H0 as [E|E]; rewrite E; reflexivity.
  - unfold produced, final_noted. destruct (_ && _); reflexivity.
  - unfold produced, final_noted, ring_succ, UAMP_UPDATE_QUEUE_SIZE in *.
    assert (Hrec : forall b, recvIndex (if b : bool then set_receivedFinal 1 a else a)
                             = recvIndex a) by (intros []; reflexivity).
    cbn [recvIndex set_recvIndex]. rewrite Hrec.
    destruct (Z.eqb_spec (recvIndex a) (6 - 1)) as [E|E].
    + rewrite E. reflexivity.
    + rewrite Z.mod_small by lia. reflexivity.
  - unfold produced, final_noted in *. fold reply in H1.
    destruct (negb (aliveInQueue a =? 0) && (receivedFinal a =? 0) && (u_time reply =? tl))
      eqn:E; cbn in H1; [| contradiction].
    rewrite !andb_true_iff in E. destruct E as [_ E]. apply Z.eqb_eq in E. exact E.
  - unfold produced, final_noted in *. fold reply in H1. fold reply.
    destruct (negb (aliveInQueue a =? 0) && (receivedFinal a =? 0) && (u_time reply =? tl))
      eqn:E; cbn in H1; [reflexivity | contradiction].
Qed.

(** *** What reading a reply does: one slot of one agent *)

Definition slot_rel (j : Z) (m m' : machine) : Prop :=
  world_io (env m) (env m')
  /\ exists b,
       client m' = set_commBuf b (client m)
       \/ exists ags a u,
            agents (client m) = Some ags /\ at_index ags j = Some a
            /\ 0 <= recvIndex a < Z.of_nat (length (updates a))
            /\ client m' = set_agents (Some (<[Z.to_nat j := store_reply a u]> ags))
                                      (set_commBuf b (client m)).

Lemma store_reply_twice a u v : store_reply (store_reply a u) v = store_reply a v.
Proof.
  unfold store_reply. cbn. rewrite list_insert_insert_eq. reflexivity.
Qed.

#[global] Instance slot_rel_preorder j : PreOrder (slot_rel j).
Proof.
  split.
  - intros [c w]. split; [apply world_io_refl|]. exists (commBuf c). left.
    destruct c; reflexivity.
  - intros m1 m2 m3 [W1 [b1 H1]] [W2 [b2 H2]].
    split; [eapply world_io_trans; eauto|]. exists b2.
    destruct H1 as [H1 | (ags & a & u & Ha & Hj & Hr & H1)];
      destruct H2 as [H2 | (ags2 & a2 & u2 & Ha2 & Hj2 & Hr2 & H2)].
    + left. rewrite H2, H1. reflexivity.
    + right. rewrite H1 in Ha2. cbn in Ha2. exists ags2, a2, u2.
      repeat split; auto; try lia. rewrite H2, H1. reflexivity.
    + right. exists ags, a, u. repeat split; auto; try lia. rewrite H2, H1. reflexivity.
    + right. rewrite H1 in Ha2. cbn in Ha2. inversion Ha2; subst ags2. clear Ha2.
      rewrite (at_index_insert ags j (store_reply a u) a Hj) in Hj2.
      inversion Hj2; subst a2. clear Hj2.
      exists ags, a, u2. repeat split; auto; try lia.
      rewrite H2, H1. cbn. rewrite list_insert_insert_eq, store_reply_twice. reflexivity.
Qed.

Lemma io_rel_slot j m m' : io_rel m m' -> slot_rel j m m'.
Proof. intros [[b H] W]. split; auto. exists b. left. exact H. Qed.

#[global] Hint Extern 5 (eff (slot_rel _) _) =>
  (apply (eff_mono io_rel (slot_rel _)); [apply io_rel_slot | ]) : eff.

Lemma eff_slot_storeReply_set j f : eff (slot_rel j) (storeReply_set j f).
Proof.
  intros m. unfold storeReply_set. unfold bind at 1.
  destruct (getAgent j m) as [a m1| |] eqn:Ea; try exact I.
  2:{ pose proof (eff_getAgent (slot_rel j) j m) as H. rewrite Ea in H. exact H. }
  apply getAgent_inv in Ea. destruct Ea as [-> (ags & Hags & Hj)].
  unfold bind at 1.
  destruct (getUpdate a (recvIndex a) m) as [u m1| |] eqn:Eu; try exact I.
  2:{ pose proof (eff_getUpdate (slot_rel j) a (recvIndex a) m) as H. rewrite Eu in H. exact H. }
  apply getUpdate_inv in Eu. destruct Eu as [-> Hu].
  rewrite (setAgent_run m ags) by auto.
  split; [apply world_io_refl|]. exists (commBuf (client m)). right.
  exists ags, a, (f u). pose proof (at_index_bound _ _ _ Hu).
  repeat split; auto; try lia; cbn; destruct (client m); reflexivity.
Qed.
#[global] Hint Resolve eff_slot_storeReply_set : eff.

Lemma eff_slot_receiveReply_read j : eff (slot_rel j) (receiveReply_read j).
Proof. unfold receiveReply_read. eff_auto. Qed.

(** One reply accepted by the verification. *)
Definition recv_step (tl : Z) (a a' : uampAgent) : Prop :=
  exists u, verified tl (store_reply a u) = (0, a').

Lemma store_reply_same a :
  0 <= recvIndex a < Z.of_nat (length (updates a)) ->
  store_reply a (slot a (recvIndex a)) = a.
Proof.
  intros H. unfold store_reply, slot. rewrite at_index_lookup by lia.
  destruct (lookup_lt_is_Some_2 (updates a) (Z.to_nat (recvIndex a))) as [u Hu]; [lia|].
  rewrite Hu. cbn. rewrite list_insert_id by auto. destruct a; reflexivity.
Qed.

Lemma receiveReply_accepts j m m' ags a :
  agents (client m) = Some ags ->
  at_index ags j = Some a ->
  0 <= recvIndex a < UAMP_UPDATE_QUEUE_SIZE ->
  Z.of_nat (length (updates a)) = UAMP_UPDATE_QUEUE_SIZE ->
  receiveReply j m = Val 0 m' ->
  exists a' b,
    recv_step (timeLimit (client m)) a a'
    /\ client m' = set_agents (Some (<[Z.to_nat j := a']> ags)) (set_commBuf b (client m))
    /\ world_io (env m) (env m').
Proof.
  intros Hags Hj Hr Hlen H.
  destruct (receiveReply_read j m) as [[] m1 | e m1 |] eqn:Eread.
  - rewrite (receiveReply_after_read j m m1 Eread) in H.
    pose proof (eff_slot_receiveReply_read j m) as Hs. rewrite Eread in Hs.
    destruct Hs as [W [b Hs]].
    assert (Hm1 : exists u, client m1
              = set_agents (Some (<[Z.to_nat j := store_reply a u]> ags))
                           (set_commBuf b (client m))).
    { destruct Hs as [Hs | (ags' & a0 & u & Ha & Hj' & _ & Hs)].
      - exists (slot a (recvIndex a)). rewrite store_reply_same by lia.
        rewrite (insert_agent_id ags j a Hj). rewrite Hs.
        rewrite set_agents_id; [reflexivity | exact Hags].
      - exists u. rewrite Hags in Ha. inversion Ha; subst ags'.
        rewrite Hj in Hj'. inversion Hj'; subst a0. exact Hs. }
    destruct Hm1 as [u Hm1].
    rewrite (receiveReply_verify_run j m1 (<[Z.to_nat j := store_reply a u]> ags)
               (store_reply a u)) in H.
    + inversion H as [[Hv Hm']]. clear H.
      exists (snd (verified (timeLimit (client m1)) (store_reply a u))), b.
      assert (Htl : timeLimit (client m1) = timeLimit (client m)) by (rewrite Hm1; reflexivity).
      split; [| split; auto].
      * exists u. rewrite <- Htl. rewrite <- Hv at 1. destruct (verified _ _); reflexivity.
      * rewrite Hm1. cbn. rewrite list_insert_insert_eq. reflexivity.
    + rewrite Hm1. reflexivity.
    + apply at_index_insert with (y := a). exact Hj.
    + exact Hr.
    + unfold store_reply. cbn. rewrite length_insert. exact Hlen.
  - unfold receiveReply, function, returning in H. unfold bind at 1 in H.
    rewrite Eread in H. cbn in H. inversion H; subst.
    pose proof (eff_receiveReply_read j m) as He. rewrite Eread in He. lia.
  - unfold receiveReply, function, returning in H. unfold bind at 1 in H.
    rewrite Eread in H. discriminate.
Qed.

(* ===================================================================== *)
(** ** The ring of one agent and the replies it has accepted *)
(* ===================================================================== *)

(** [hist_ok tl h rf]: the replies [h], oldest first, are what the
    verification lets through from a fresh agent, and leave
    [receivedFinal = rf]. *)
Inductive hist_ok (tl : Z) : list uampUpdate -> Z -> Prop :=
| hist_nil : hist_ok tl [] 0
| hist_first u : u_time u = 0 -> hist_ok tl [u] 0
| hist_next h u v :
    hist_ok tl (h ++ [u]) 0 -> u_time u < u_time v <= tl ->
    hist_ok tl ((h ++ [u]) ++ [v]) (if u_time v =? tl then 1 else 0)
| hist_repeat h u :
    hist_ok tl (h ++ [u]) 1 -> hist_ok tl ((h ++ [u]) ++ [u]) 1.

Lemma lookup_snoc_inv {A} (l : list A) (x y : A) i :
  (l ++ [x]) !! i = Some y ->
  (i < length l /\ l !! i = Some y)%nat \/ (i = length l /\ y = x).
Proof.
  intros H. destruct (Nat.lt_ge_cases i (length l)) as [Hlt | Hge].
  - left. split; auto. rewrite lookup_app_l in H; auto.
  - right. rewrite lookup_app_r in H by auto.
    destruct (i - length l)%nat eqn:E; simpl in H; [| discriminate].
    inversion H. split; auto. lia.
Qed.

Lemma hist_ok_facts tl h rf :
  hist_ok tl h rf ->
  (rf = 0 \/ rf = 1)
  /\ (rf = 1 -> (2 <= length h)%nat /\ exists u, last h = Some u /\ u_time u = tl)
  /\ (forall i u, h !! i = Some u ->
        (i = O -> u_time u = 0) /\ ((0 < i)%nat -> 0 < u_time u <= tl))
  /\ (forall i j u v, (i <= j)%nat -> h !! i = Some u -> h !! j = Some v ->
        u_time u <= u_time v).
Proof.
  induction 1 as [| u Hu | h u v Hh IH Hv | h u Hh IH].
  - split; [auto | split; [lia | split]]; intros; discriminate.
  - split; [auto | split; [lia | split]].
    + intros i x H. destruct i; simpl in H; [| discriminate].
      inversion H; subst. split; [auto | lia].
    + intros i j x y Hij Hx Hy.
      destruct i; simpl in Hx; [| discriminate]. destruct j; simpl in Hy; [| discriminate].
      inversion Hx; inversion Hy; subst. lia.
  - destruct IH as (_ & _ & IHt & IHm).
    assert (Hlast : (h ++ [u]) !! length h = Some u) by apply list_lookup_middle, eq_refl.
    assert (Hu0 : 0 <= u_time u).
    { destruct (IHt _ _ Hlast) as [H0 H1]. destruct (length h); [rewrite H0; auto; lia|].
      specialize (H1 ltac:(lia)). lia. }
    split; [| split; [| split]].
    + destruct (u_time v =? tl); auto.
    + intros Hrf. split.
      * rewrite !length_app. simpl. lia.
      * exists v. rewrite last_snoc. split; auto.
        destruct (Z.eqb_spec (u_time v) tl); [auto | discriminate].
    + intros i x H. apply lookup_snoc_inv in H. destruct H as [[Hlt H] | [Hi ->]].
      * apply (IHt _ _ H).
      * rewrite length_app in Hi. simpl in Hi. split; intros; lia.
    + intros i j x y Hij Hx Hy.
      apply lookup_snoc_inv in Hx. apply lookup_snoc_inv in Hy.
      destruct Hx as [[Hi Hx] | [Hi ->]]; destruct Hy as [[Hj Hy] | [Hj ->]].
      * apply (IHm i j x y Hij Hx Hy).
      * assert (u_time x <= u_time u).
        { apply (IHm i (length h) x u); auto. rewrite length_app in Hi. simpl in Hi. lia. }
        lia.
      * lia.
      * lia.
  - destruct IH as (_ & IHf & IHt & IHm).
    destruct (IHf eq_refl) as (Hlen & w & Hw & Hwt).
    rewrite last_snoc in Hw. inversion Hw; subst w. clear Hw.
    assert (Hlast : (h ++ [u]) !! length h = Some u) by apply list_lookup_middle, eq_refl.
    rewrite length_app in Hlen. simpl in Hlen.
    assert (Hu : 0 < u_time u <= tl).
    { apply (IHt _ _ Hlast). lia. }
    split; [auto | split; [| split]].
    + intros _. split.
      * rewrite !length_app. simpl. lia.
      * exists u. rewrite last_snoc. auto.
    + intros i x H. apply lookup_snoc_inv in H. destruct H as [[Hlt H] | [Hi ->]].
      * apply (IHt _ _ H).
      * rewrite length_app in Hi. simpl in Hi. split; intros; lia.
    + intros i j x y Hij Hx Hy.
      apply lookup_snoc_inv in Hx. apply lookup_snoc_inv in Hy.
      destruct Hx as [[Hi Hx] | [Hi ->]]; destruct Hy as [[Hj Hy] | [Hj ->]].
      * apply (IHm i j x y Hij Hx Hy).
      * apply (IHm i (length h) x u); auto. rewrite length_app in Hi. simpl in Hi. lia.
      * lia.
      * lia.
Qed.

Lemma ring_succ_mod n :
  ring_succ (Z.of_nat (n mod 6)) = Z.of_nat (S n mod 6).
Proof.
  unfold ring_succ, UAMP_UPDATE_QUEUE_SIZE.
  pose proof (Nat.mod_upper_bound n 6 ltac:(lia)). 
  assert (H6 : (S n mod 6 = if (n mod 6 =? 5) then 0 else S (n mod 6))%nat).
  { replace (S n) with (1 + n)%nat by lia. rewrite Nat.Div0.add_mod by lia.
    destruct (Nat.eqb_spec (n mod 6) 5) as [E|E].
    - rewrite E. reflexivity.
    - change (1 mod 6)%nat with 1%nat. rewrite Nat.mod_small; lia. }
  rewrite H6. destruct (Nat.eqb_spec (n mod 6) 5) as [E|E].
  - rewrite E. reflexivity.
  - destruct (Z.eqb_spec (Z.of_nat (n mod 6)) (6 - 1)); lia.
Qed.

Lemma ring_pred_mod n :
  ring_pred (Z.of_nat (S n mod 6)) = Z.of_nat (n mod 6).
Proof.
  rewrite <- ring_succ_mod. unfold ring_succ, ring_pred, UAMP_UPDATE_QUEUE_SIZE.
  pose proof (Nat.mod_upper_bound n 6 ltac:(lia)).
  destruct (Z.eqb_spec (Z.of_nat (n mod 6)) (6 - 1)) as [E|E].
  - rewrite E. reflexivity.
  - destruct (Z.eqb_spec (Z.of_nat (n mod 6) + 1) 0); lia.
Qed.

Lemma mod6_apart i n :
  (i < n)%nat -> (n - i < 6)%nat -> (i mod 6 <> n mod 6)%nat.
Proof.
  intros H1 H2 E.
  pose proof (Nat.div_mod_eq i 6). pose proof (Nat.div_mod_eq n 6).
  assert (n - i = 6 * (n / 6 - i / 6))%nat by nia.
  assert (n / 6 - i / 6 = 0 \/ 1 <= n / 6 - i / 6)%nat as [|] by lia; nia.
Qed.

Lemma update_equal_eq a b : update_equal a b = true -> a = b.
Proof.
  unfold update_equal. rewrite !andb_true_iff, !Z.eqb_eq.
  destruct a, b; simpl. intros [[[[-> ->] ->] ->] ->]. reflexivity.
Qed.

(** What a reply that passed the verification looked like. *)
Lemma verified_ok tl a a' :
  verified tl a = (0, a') ->
  let reply := slot a (recvIndex a) in
  let previous := slot a (ring_pred (recvIndex a)) in
  exists rf',
    a' = mkAgent (updates a) (currentIndex a) (aliveInQueue a + 1)
                 (ring_succ (recvIndex a)) rf'
    /\ ((aliveInQueue a = 0 /\ u_time reply = 0 /\ rf' = receivedFinal a)
        \/ (aliveInQueue a <> 0 /\ receivedFinal a <> 0 /\ reply = previous
            /\ rf' = receivedFinal a)
        \/ (aliveInQueue a <> 0 /\ receivedFinal a = 0
            /\ u_time previous < u_time reply <= tl
            /\ rf' = if u_time reply =? tl then 1 else 0)).
Proof.
  intros H reply previous. unfold verified, order_check in H.
  fold reply in H. fold previous in H.
  destruct (Z.eqb_spec (aliveInQueue a) 0) as [Ea|Ea].
  - destruct (Z.eqb_spec (u_time reply) 0) as [Et|Et]; cbn in H; [| discriminate].
    destruct (negb (u_present reply =? 0) && negb (u_present reply =? 1)); [discriminate|].
    inversion H. exists (receivedFinal a). split; [reflexivity | auto].
  - destruct (Z.eqb_spec (receivedFinal a) 0) as [Ef|Ef]; cbn [negb] in H.
    + destruct (Z.leb_spec (u_time reply) (u_time previous)); cbn in H; [discriminate|].
      destruct (Z.ltb_spec tl (u_time reply)); cbn in H; [discriminate|].
      destruct (negb (u_present reply =? 0) && negb (u_present reply =? 1)); [discriminate|].
      inversion H. exists (if u_time reply =? tl then 1 else 0). split.
      * destruct (u_time reply =? tl); unfold produced; [reflexivity |].
        clear - Ef. destruct a; cbn in *. subst. reflexivity.
      * right; right. repeat split; auto; lia.
    + destruct (update_equal reply previous) eqn:Eq; cbn in H; [| discriminate].
      destruct (negb (u_present reply =? 0) && negb (u_present reply =? 1)); [discriminate|].
      inversion H. exists (receivedFinal a). split; [reflexivity|].
      right; left. repeat split; auto. apply update_equal_eq; auto.
Qed.

(** The ring of agent [a] against the [h] replies accepted so far and the
    [A] advances made: the producer is at slot [length h mod 6], the
    consumer at slot [A mod 6]; alive are the replies from the previous one
    (number [A - 1]) on, and they sit in their slots. *)
Record agent_inv (tl : Z) (a : uampAgent) (h : list uampUpdate) (A : nat) : Prop := {
  inv_slots : length (updates a) = 6%nat;
  inv_recv : recvIndex a = Z.of_nat (length h mod 6);
  inv_cur : currentIndex a = Z.of_nat (A mod 6);
  inv_alive : aliveInQueue a = Z.of_nat (length h) - Z.of_nat (pred A);
  inv_consumed : (A <= length h)%nat;
  inv_room : (length h - pred A <= 6)%nat;
  inv_ring : forall i, (pred A <= i < length h)%nat ->
                       updates a !! (i mod 6)%nat = h !! i;
  inv_hist : hist_ok tl h (receivedFinal a)
}.

Lemma agent_inv_zero tl : agent_inv tl zeroAgent [] 0.
Proof.
  split; try reflexivity; simpl; try lia; try (intros; lia).
  constructor.
Qed.

Lemma slot_lookup a (n : nat) u :
  updates a !! n = Some u -> slot a (Z.of_nat n) = u.
Proof.
  intros H. unfold slot. rewrite at_index_lookup by lia. rewrite Nat2Z.id, H. reflexivity.
Qed.

Lemma agent_inv_receive tl a h A u a' :
  agent_inv tl a h A ->
  aliveInQueue a < 6 ->
  verified tl (store_reply a u) = (0, a') ->
  agent_inv tl a' (h ++ [u]) A.
Proof.
  intros [Hs Hr Hc Ha Hcons Hroom Hring Hh] Hlt Hv.
  pose proof (Nat.mod_upper_bound (length h) 6 ltac:(lia)) as Hm.
  apply verified_ok in Hv. cbn zeta in Hv.
  destruct Hv as (rf' & -> & Hcase).
  unfold store_reply in Hcase. cbn [recvIndex set_updates aliveInQueue receivedFinal] in Hcase.
  assert (Hreply : slot (set_updates (<[Z.to_nat (recvIndex a) := u]> (updates a)) a)
                        (recvIndex a) = u).
  { rewrite Hr. apply slot_lookup. cbn. rewrite Nat2Z.id. apply list_lookup_insert_eq. lia. }
  rewrite Hreply in Hcase.
  assert (Hnew : forall i, (pred A <= i < length h)%nat ->
            <[Z.to_nat (recvIndex a) := u]> (updates a) !! (i mod 6)%nat = h !! i).
  { intros i Hi. rewrite Hr, Nat2Z.id. rewrite list_lookup_insert_ne.
    - apply Hring; auto.
    - intros E. symmetry in E. revert E. apply mod6_apart; lia. }
  split; cbn [updates currentIndex aliveInQueue recvIndex receivedFinal store_reply set_updates].
  - rewrite length_insert. auto.
  - rewrite Hr, ring_succ_mod, length_app.
    replace (length h + length [u])%nat with (S (length h)) by (simpl; lia). reflexivity.
  - auto.
  - rewrite Ha, length_app. simpl. lia.
  - rewrite length_app. simpl. lia.
  - rewrite length_app. simpl. lia.
  - intros i Hi. rewrite length_app in Hi. simpl in Hi.
    destruct (Nat.eq_dec i (length h)) as [->|Hne].
    + rewrite list_lookup_middle by reflexivity.
      rewrite Hr, Nat2Z.id. apply list_lookup_insert_eq. lia.
    + rewrite lookup_app_l by lia. apply Hnew. lia.
  - destruct Hcase as [(H0 & Ht & ->) | [(H0 & Hf & Heq & ->) | (H0 & Hf & Ht & ->)]].
    + assert (length h = O) by lia. destruct h; [| discriminate].
      simpl. destruct (hist_ok_facts _ _ _ Hh) as ([E|E] & Hfin & _); rewrite E in *.
      * constructor. auto.
      * destruct (Hfin eq_refl) as [Hl _]. simpl in Hl. lia.
    + (* a repeat of the final update *)
      destruct (hist_ok_facts _ _ _ Hh) as ([E|E] & Hfin & _); [congruence|].
      rewrite E in *. destruct (Hfin eq_refl) as (Hl & w & Hw & _).
      destruct (exists_last (l := h)) as (h0 & p & ->); [intros ->; discriminate|].
      rewrite last_snoc in Hw. inversion Hw; subst w.
      assert (Hp : slot (set_updates (<[Z.to_nat (recvIndex a) := u]> (updates a)) a)
                        (ring_pred (recvIndex a)) = p).
      { assert (Hlen : length (h0 ++ [p]) = S (length h0))
          by (rewrite length_app; simpl; lia).
        replace (ring_pred (recvIndex a)) with (Z.of_nat (length h0 mod 6))
          by (rewrite Hr, Hlen, ring_pred_mod; reflexivity).
        apply slot_lookup. cbn [updates set_updates]. rewrite Hnew.
        - apply list_lookup_middle. reflexivity.
        - rewrite Hlen in *. lia. }
      rewrite Hp in Heq. subst u. apply hist_repeat. exact Hh.
    + rewrite Hf in Hh.
      destruct (exists_last (l := h)) as (h0 & p & ->).
      { intros ->. simpl in Ha, Hcons. assert (A = O) by lia. subst A. simpl in Ha. lia. }
      assert (Hp : slot (set_updates (<[Z.to_nat (recvIndex a) := u]> (updates a)) a)
                        (ring_pred (recvIndex a)) = p).
      { assert (Hlen : length (h0 ++ [p]) = S (length h0))
          by (rewrite length_app; simpl; lia).
        replace (ring_pred (recvIndex a)) with (Z.of_nat (length h0 mod 6))
          by (rewrite Hr, Hlen, ring_pred_mod; reflexivity).
        apply slot_lookup. cbn [updates set_updates]. rewrite Hnew.
        - apply list_lookup_middle. reflexivity.
        - rewrite Hlen in *. lia. }
      rewrite Hp in Ht. apply hist_next; auto.
Qed.

(* ===================================================================== *)
(** ** requestUpdates and fillUpdateQueues *)
(* ===================================================================== *)

(** The bounds of the queue cursors. *)
Definition agent_bounded (a : uampAgent) : Prop :=
  length (updates a) = 6%nat
  /\ 0 <= currentIndex a < UAMP_UPDATE_QUEUE_SIZE
  /\ 0 <= recvIndex a < UAMP_UPDATE_QUEUE_SIZE
  /\ 0 <= aliveInQueue a <= UAMP_UPDATE_QUEUE_SIZE.

(** What numToRequest returns for an agent. *)
Definition need (a : uampAgent) : Z :=
  if negb (receivedFinal a =? 0) then 0 else UAMP_UPDATE_QUEUE_SIZE - aliveInQueue a.

Lemma numToRequest_run m ags j a :
  agents (client m) = Some ags -> at_index ags j = Some a ->
  numToRequest j m = Val (need a) m.
Proof.
  intros H1 H2. unfold numToRequest, bind. rewrite (getAgent_run m ags j a) by auto.
  unfold need. destruct (negb (receivedFinal a =? 0)); reflexivity.
Qed.

Lemma need_bounds a : agent_bounded a -> 0 <= need a <= UAMP_UPDATE_QUEUE_SIZE - aliveInQueue a.
Proof.
  intros (_ & _ & _ & H). unfold need. destruct (negb (receivedFinal a =? 0)); lia.
Qed.

(** [n] replies accepted one after the other. *)
Inductive recv_steps (tl : Z) : nat -> uampAgent -> uampAgent -> Prop :=
| recv_done a : recv_steps tl 0 a a
| recv_more n a a1 a2 :
    recv_step tl a a1 -> recv_steps tl n a1 a2 -> recv_steps tl (S n) a a2.

(** The agent got the replies numToRequest asked for. *)
Definition filled (tl : Z) (a a' : uampAgent) : Prop :=
  recv_steps tl (Z.to_nat (need a)) a a'.

Lemma ring_succ_bound i :
  0 <= i < UAMP_UPDATE_QUEUE_SIZE -> 0 <= ring_succ i < UAMP_UPDATE_QUEUE_SIZE.
Proof. unfold ring_succ, UAMP_UPDATE_QUEUE_SIZE. destruct (Z.eqb_spec i (6 - 1)); lia. Qed.

Lemma recv_step_bounded tl a a' :
  agent_bounded a -> aliveInQueue a < UAMP_UPDATE_QUEUE_SIZE -> recv_step tl a a' ->
  agent_bounded a' /\ aliveInQueue a' = aliveInQueue a + 1.
Proof.
  intros (Hl & Hc & Hr & Ha) Hlt [u Hv]. apply verified_ok in Hv. cbn zeta in Hv.
  destruct Hv as (rf' & -> & _). unfold agent_bounded, store_reply. cbn.
  rewrite length_insert. pose proof (ring_succ_bound _ Hr).
  repeat split; auto; lia.
Qed.

Lemma set_commBuf_id c : set_commBuf (commBuf c) c = c.
Proof. destruct c; reflexivity. Qed.

Lemma receiveReply_result j m r m' : receiveReply j m = Val r m' -> r <= 0.
Proof.
  intros H. unfold receiveReply in H.
  apply (function_result queue_rel) in H; [lia | eff_auto].
Qed.

(** The inner [for] loop of the second half of requestUpdates. *)
Lemma receive_loop n : forall i j m m' ags a,
  agents (client m) = Some ags ->
  at_index ags j = Some a ->
  agent_bounded a ->
  Z.of_nat n <= UAMP_UPDATE_QUEUE_SIZE - aliveInQueue a ->
  for_loop n i (fun _ => checked (receiveReply j)) m = Val tt m' ->
  exists a' b,
    recv_steps (timeLimit (client m)) n a a'
    /\ client m' = set_agents (Some (<[Z.to_nat j := a']> ags)) (set_commBuf b (client m))
    /\ world_io (env m) (env m').
Proof.
  induction n as [|n IH]; intros i j m m' ags a Hags Hj Hb Hn H.
  - simpl in H. inversion H; subst m'. exists a, (commBuf (client m)).
    split; [constructor | split; [| apply world_io_refl]].
    rewrite (insert_agent_id ags j a Hj), set_commBuf_id, set_agents_id; auto.
  - cbn [for_loop] in H. unfold bind at 1 in H. unfold checked at 1 in H.
    unfold bind at 1 in H.
    destruct (receiveReply j m) as [r m1 | |] eqn:Er; try discriminate.
    pose proof (receiveReply_result _ _ _ _ Er) as Hr.
    unfold ERROR_CHECK in H. destruct (Z.ltb_spec r 0); [discriminate|].
    assert (r = 0) by lia. subst r. change (ret tt m1) with (Val tt m1) in H.
    destruct Hb as (Hl & Hc & Hrv & Ha).
    destruct (receiveReply_accepts j m m1 ags a Hags Hj Hrv) as (a1 & b1 & Hs1 & Hc1 & Hw1);
      auto.
    { rewrite Hl. reflexivity. }
    destruct (recv_step_bounded (timeLimit (client m)) a a1) as [Hb1 Ha1]; auto.
    { unfold agent_bounded. repeat split; auto; lia. }
    { lia. }
    destruct (IH (i + 1) j m1 m' (<[Z.to_nat j := a1]> ags) a1) as (a' & b' & Hs & Hc' & Hw);
      auto.
    { rewrite Hc1. reflexivity. }
    { apply at_index_insert with (y := a). auto. }
    { lia. }
    exists a', b'. split; [| split].
    + econstructor; eauto. replace (timeLimit (client m)) with (timeLimit (client m1)); auto.
      rewrite Hc1. reflexivity.
    + rewrite Hc', Hc1. cbn. rewrite list_insert_insert_eq. reflexivity.
    + eapply world_io_trans; eauto.
Qed.

Definition total_need (l : list uampAgent) : Z := foldr (fun a s => need a + s) 0 l.

Lemma total_need_nonneg l : Forall agent_bounded l -> 0 <= total_need l.
Proof.
  induction 1 as [|a l Ha Hl IH]; simpl; [lia|].
  pose proof (need_bounds a Ha). lia.
Qed.

Lemma total_need_app l1 l2 : total_need (l1 ++ l2) = total_need l1 + total_need l2.
Proof. induction l1 as [|a l1 IH]; simpl; lia. Qed.

Lemma filled_nothing tl l :
  Forall agent_bounded l -> total_need l <= 0 -> Forall2 (filled tl) l l.
Proof.
  induction 1 as [|a l Ha Hl IH]; simpl; intros Hz; [constructor|].
  pose proof (need_bounds a Ha). pose proof (total_need_nonneg l Hl).
  constructor; [| apply IH; lia].
  unfold filled. replace (need a) with 0 by lia. constructor.
Qed.

Lemma at_index_middle {A} (pre post : list A) x :
  at_index (pre ++ x :: post) (Z.of_nat (length pre)) = Some x.
Proof.
  rewrite at_index_lookup by lia. rewrite Nat2Z.id. apply list_lookup_middle. reflexivity.
Qed.

Lemma insert_middle {A} (pre post : list A) x y :
  <[Z.to_nat (Z.of_nat (length pre)) := y]> (pre ++ x :: post) = pre ++ y :: post.
Proof.
  rewrite Nat2Z.id. rewrite insert_app_r_alt by lia.
  rewrite Nat.sub_diag. reflexivity.
Qed.

Lemma to_u32_small v : 0 <= v < 2 ^ 32 -> to_u32 v = v.
Proof. intros H. unfold to_u32. apply Z.mod_small. lia. Qed.

(** The second [while] loop of requestUpdates over the agents [batch] whose
    needs add up to what is left of [totalRequests]. *)
Lemma requestUpdates_recv_batch batch : forall pre post fuel onRequest t m m',
  agents (client m) = Some (pre ++ batch ++ post) ->
  Forall agent_bounded batch ->
  0 <= onRequest -> onRequest + total_need batch = t -> t < 2 ^ 32 ->
  (length batch < fuel)%nat ->
  requestUpdates_recv fuel (Z.of_nat (length pre)) onRequest t m = Val tt m' ->
  exists batch' b,
    Forall2 (filled (timeLimit (client m))) batch batch'
    /\ client m' = set_agents (Some (pre ++ batch' ++ post)) (set_commBuf b (client m))
    /\ world_io (env m) (env m').
Proof.
  induction batch as [|a batch IH]; intros pre post fuel onRequest t m m' Hags Hb H0 Ht H32 Hf H.
  - destruct fuel as [|fuel]; [lia|]. simpl in Ht. cbn [requestUpdates_recv] in H.
    destruct (Z.ltb_spec onRequest t); [lia|]. inversion H; subst m'.
    exists [], (commBuf (client m)). split; [constructor | split; [| apply world_io_refl]].
    rewrite set_commBuf_id, set_agents_id; auto.
  - destruct fuel as [|fuel]; [lia|]. cbn [requestUpdates_recv] in H.
    inversion Hb as [|? ? Ha Hb']; subst.
    pose proof (need_bounds a Ha) as Hna. pose proof (total_need_nonneg batch Hb') as Hnb.
    cbn [total_need foldr] in H32, H. fold (total_need batch) in H32, H.
    destruct (Z.ltb_spec onRequest (onRequest + (need a + total_need batch))) as [Hlt|Hge].
    + unfold bind at 1 in H.
      rewrite (numToRequest_run m (pre ++ (a :: batch) ++ post) _ a) in H; auto.
      2:{ apply at_index_middle. }
      unfold bind at 1 in H.
      destruct (for_loop (Z.to_nat (need a)) 0 (fun _ => checked (receiveReply (Z.of_nat (length pre)))) m)
        as [[] m1 | |] eqn:Eloop; try discriminate.
      assert (Hn : Z.of_nat (Z.to_nat (need a)) <= UAMP_UPDATE_QUEUE_SIZE - aliveInQueue a)
        by lia.
      destruct (receive_loop _ _ _ _ _ (pre ++ (a :: batch) ++ post) a Hags
                  (at_index_middle pre (batch ++ post) a) Ha Hn Eloop)
        as (a' & b1 & Hs1 & Hc1 & Hw1).
      cbn [app] in Hc1. rewrite insert_middle in Hc1.
      rewrite to_u32_small in H by lia.
      replace (Z.of_nat (length pre) + 1) with (Z.of_nat (length (pre ++ [a']))) in H
        by (rewrite length_app; simpl; lia).
      destruct (IH (pre ++ [a']) post fuel (onRequest + need a)
                   (onRequest + (need a + total_need batch)) m1 m')
        as (batch' & b' & HF & Hc' & Hw'); auto; try lia.
      { rewrite Hc1. cbn. rewrite <- app_assoc. reflexivity. }
      { simpl in Hf. lia. }
      exists (a' :: batch'), b'. split; [| split].
      * constructor; [exact Hs1|].
        replace (timeLimit (client m)) with (timeLimit (client m1)); [exact HF|].
        rewrite Hc1. reflexivity.
      * rewrite Hc', Hc1. cbn. rewrite <- app_assoc. reflexivity.
      * eapply world_io_trans; eauto.
    + inversion H; subst m'.
      exists (a :: batch), (commBuf (client m)).
      split; [| split; [| apply world_io_refl]].
      * apply filled_nothing; auto. cbn [total_need foldr]. fold (total_need batch). lia.
      * rewrite set_commBuf_id, set_agents_id; auto.
Qed.

Lemma bind_val_inv {A B} (x : M A) (f : A -> M B) m b m' :
  bind x f m = Val b m' -> exists a m1, x m = Val a m1 /\ f a m1 = Val b m'.
Proof.
  unfold bind. destruct (x m) as [a m1 | |]; try discriminate.
  intros H. exists a, m1. auto.
Qed.

Lemma eff_io_requestUpdates_send fuel onAgent onRequest totalRequests :
  eff io_rel (requestUpdates_send fuel onAgent onRequest totalRequests).
Proof.
  revert onAgent onRequest.
  induction fuel as [|fuel IH]; intros onAgent onRequest; simpl; eff_auto.
Qed.

Lemma eff_val {A} R (x : M A) m a m' : eff R x -> x m = Val a m' -> R m m'.
Proof. intros H E. specialize (H m). rewrite E in H. exact H. Qed.

Lemma requestUpdates_result s t m r m' : requestUpdates s t m = Val r m' -> r <= 0.
Proof.
  intros H. unfold requestUpdates in H.
  apply (function_result queue_rel) in H; [lia | eff_auto].
Qed.

(** One request/reply round trip over the agents [batch], which start at
    [startAgent] and whose needs add up to [totalRequests]. *)
Lemma requestUpdates_batch pre batch post t m m' :
  agents (client m) = Some (pre ++ batch ++ post) ->
  Forall agent_bounded batch ->
  total_need batch = t -> t < 2 ^ 32 ->
  requestUpdates (Z.of_nat (length pre)) t m = Val 0 m' ->
  exists batch' b,
    Forall2 (filled (timeLimit (client m))) batch batch'
    /\ client m' = set_agents (Some (pre ++ batch' ++ post)) (set_commBuf b (client m))
    /\ world_io (env m) (env m').
Proof.
  intros Hags Hb Ht H32 H. unfold requestUpdates in H.
  apply (function_result queue_rel) in H; [| eff_auto].
  destruct H as [[_ H] | [Hneg _]]; [| lia].
  apply bind_val_inv in H. destruct H as (c & m0 & Hc & H).
  inversion Hc; subst c m0. clear Hc.
  apply bind_val_inv in H. destruct H as ([] & m1 & H1 & H).
  apply (eff_val io_rel) in H1; [| auto with eff].
  apply bind_val_inv in H. destruct H as ([] & m2 & H2 & H).
  apply (eff_val io_rel) in H2; [| eff_auto].
  apply bind_val_inv in H. destruct H as ([] & m3 & H3 & H).
  apply (eff_val io_rel) in H3; [| eff_auto].
  apply bind_val_inv in H. destruct H as ([] & m4 & H4 & H).
  apply (eff_val io_rel) in H4; [| apply eff_io_requestUpdates_send].
  apply bind_val_inv in H. destruct H as ([] & m5 & H5 & H).
  apply (eff_val io_rel) in H5; [| auto with eff].
  assert (Hio : io_rel m m5).
  { repeat (etransitivity; [eassumption|]). reflexivity. }
  destruct Hio as [[b5 Hc5] Hw5].
  destruct (requestUpdates_recv_batch batch pre post (S (agentCount (client m))) 0 t m5 m')
    as (batch' & b & HF & Hc' & Hw'); auto; try lia.
  { rewrite Hc5. exact Hags. }
  { unfold agentCount. rewrite Hags, !length_app. lia. }
  exists batch', b. split; [| split].
  - replace (timeLimit (client m)) with (timeLimit (client m5)); auto.
    rewrite Hc5. reflexivity.
  - rewrite Hc', Hc5. reflexivity.
  - eapply world_io_trans; eauto.
Qed.

(** The batches fillUpdateQueues emits, as a function of the agents' needs:
    the loop of lines 104-121 with the calls of requestUpdates left out.
    Each batch is a pair (startAgent, totalRequests). *)
Fixpoint fill_plan (needs : list Z) (onAgent startAgent totalRequests : Z)
  : list (Z * Z) :=
  match needs with
  | [] => if negb (totalRequests =? 0) then [(startAgent, totalRequests)] else []
  | r :: rest =>
      let requestsForAgent := to_u32 r in
      let sum := to_u32 (totalRequests + requestsForAgent) in
      if (sum <? totalRequests) || (sum <? requestsForAgent)
      then (startAgent, totalRequests)
           :: fill_plan rest (onAgent + 1) onAgent requestsForAgent
      else fill_plan rest (onAgent + 1) startAgent sum
  end.

(** The round trips of a plan, one after the other; the first that fails
    ends them. *)
Fixpoint round_trips (plan : list (Z * Z)) : M unit :=
  match plan with
  | [] => ret tt
  | (startAgent, totalRequests) :: rest =>
      checked (requestUpdates startAgent totalRequests) ;; round_trips rest
  end.

(** fillUpdateQueues from the middle of its loop. *)
Definition fill_from (n : nat) (onAgent startAgent totalRequests : Z) : M unit :=
  st <- fillUpdateQueues_loop n onAgent startAgent totalRequests ;;
  if negb (snd st =? 0) then checked (requestUpdates (fst st) (snd st)) else ret tt.

Lemma bind_ret_unit (x : M unit) m : (x ;; ret tt) m = x m.
Proof. unfold bind, ret. destruct (x m) as [[] m1 | |]; reflexivity. Qed.

Lemma checked_requestUpdates_inv s t m m' :
  checked (requestUpdates s t) m = Val tt m' -> requestUpdates s t m = Val 0 m'.
Proof.
  unfold checked, bind, ERROR_CHECK. intros H.
  destruct (requestUpdates s t m) as [r m1 | |] eqn:E; try discriminate.
  pose proof (requestUpdates_result _ _ _ _ _ E).
  destruct (Z.ltb_spec r 0); [discriminate|]. inversion H; subst.
  f_equal. lia.
Qed.

Lemma fill_from_0 i s t m :
  fill_from 0 i s t m
  = (if negb (t =? 0) then checked (requestUpdates s t) else ret tt) m.
Proof. reflexivity. Qed.

Lemma fill_from_S n i s t m r :
  numToRequest i m = Val r m ->
  fill_from (S n) i s t m
  = (if (to_u32 (t + to_u32 r) <? t) || (to_u32 (t + to_u32 r) <? to_u32 r)
     then checked (requestUpdates s t) ;; fill_from n (i + 1) i (to_u32 r)
     else fill_from n (i + 1) s (to_u32 (t + to_u32 r))) m.
Proof.
  intros H. unfold fill_from. cbn [fillUpdateQueues_loop].
  unfold bind at 1. unfold bind at 1. rewrite H. cbv zeta.
  destruct ((to_u32 (t + to_u32 r) <? t) || (to_u32 (t + to_u32 r) <? to_u32 r)).
  - unfold bind. destruct (checked (requestUpdates s t) m); reflexivity.
  - reflexivity.
Qed.

Lemma fill_loop_spec rest : forall pre batch i s t m,
  agents (client m) = Some (pre ++ batch ++ rest) ->
  s = Z.of_nat (length pre) ->
  i = Z.of_nat (length (pre ++ batch)) ->
  Forall agent_bounded (batch ++ rest) ->
  t = total_need batch -> t < 2 ^ 32 ->
  fill_from (length rest) i s t m = round_trips (fill_plan (map need rest) i s t) m
  /\ forall m',
       fill_from (length rest) i s t m = Val tt m' ->
       exists done b,
         Forall2 (filled (timeLimit (client m))) (batch ++ rest) done
         /\ client m' = set_agents (Some (pre ++ done)) (set_commBuf b (client m))
         /\ world_io (env m) (env m').
Proof.
  induction rest as [|a rest IH]; intros pre batch i s t m Hags Hs Hi Hb Ht H32.
  - rewrite app_nil_r in *. cbn [length map fill_plan]. rewrite fill_from_0.
    pose proof (total_need_nonneg batch Hb) as Hnn.
    destruct (Z.eqb_spec t 0) as [E|E]; cbn [negb].
    + split; [reflexivity|]. intros m' H. injection H as <-.
      exists batch, (commBuf (client m)). split; [| split; [| apply world_io_refl]].
      * apply filled_nothing; auto. lia.
      * rewrite set_commBuf_id, set_agents_id; auto.
    + split.
      * cbn [round_trips]. rewrite bind_ret_unit. reflexivity.
      * intros m' H. apply checked_requestUpdates_inv in H. subst s.
        destruct (requestUpdates_batch pre batch [] t m m') as (batch' & b & HF & Hc & Hw);
          auto.
        { rewrite app_nil_r. auto. }
        exists batch', b. rewrite app_nil_r in Hc. auto.
  - assert (Hba : agent_bounded a).
    { apply Forall_app in Hb. destruct Hb as [_ Hb]. inversion Hb; auto. }
    assert (Hbb : Forall agent_bounded batch) by (apply Forall_app in Hb; tauto).
    assert (Hbr : Forall agent_bounded rest).
    { apply Forall_app in Hb. destruct Hb as [_ Hb]. inversion Hb; auto. }
    pose proof (need_bounds a Hba) as Hna. unfold UAMP_UPDATE_QUEUE_SIZE in Hna.
    destruct Hba as (Hla & Hca & Hra & Haa). unfold UAMP_UPDATE_QUEUE_SIZE in Haa.
    pose proof (total_need_nonneg batch Hbb) as Hnn.
    assert (Hnum : numToRequest i m = Val (need a) m).
    { apply (numToRequest_run m (pre ++ batch ++ a :: rest)); auto.
      subst i. rewrite app_assoc. apply at_index_middle. }
    cbn [length map fill_plan]. rewrite (fill_from_S _ _ _ _ _ _ Hnum).
    rewrite (to_u32_small (need a)) by lia.
    destruct (Z.lt_ge_cases (t + need a) (2 ^ 32)) as [Hfit | Hover].
    + rewrite (to_u32_small (t + need a)) by lia.
      destruct (Z.ltb_spec (t + need a) t) as [?|_]; [lia|].
      destruct (Z.ltb_spec (t + need a) (need a)) as [?|_]; [lia|]. cbn [orb].
      destruct (IH pre (batch ++ [a]) (i + 1) s (t + need a) m) as [IH1 IH2]; auto.
      * rewrite Hags, <- !app_assoc. reflexivity.
      * subst i. rewrite !length_app. simpl. lia.
      * rewrite <- app_assoc. exact Hb.
      * rewrite total_need_app. simpl. lia.
      * split; [exact IH1|].
        intros m' H. destruct (IH2 m' H) as (done & b & HF & Hc & Hw).
        exists done, b. rewrite <- app_assoc in HF. auto.
    + assert (Hsum : to_u32 (t + need a) = t + need a - 2 ^ 32).
      { unfold to_u32. symmetry. apply Z.mod_unique with (q := 1); lia. }
      rewrite Hsum.
      destruct (Z.ltb_spec (t + need a - 2 ^ 32) t) as [_|?]; [| lia]. cbn [orb round_trips].
      unfold bind.
      destruct (checked (requestUpdates s t) m) as [[] m1 | e m1 | ft] eqn:Ereq;
        [| split; [reflexivity | intros; discriminate]
         | split; [reflexivity | intros; discriminate]].
      apply checked_requestUpdates_inv in Ereq. subst s.
      destruct (requestUpdates_batch pre batch (a :: rest) t m m1)
        as (batch' & b1 & HF1 & Hc1 & Hw1); auto.
      assert (Hlen : length batch' = length batch)
        by (symmetry; eapply Forall2_length; eauto).
      assert (Htl : timeLimit (client m1) = timeLimit (client m))
        by (rewrite Hc1; reflexivity).
      destruct (IH (pre ++ batch') [a] (i + 1) i (need a) m1) as [IH1 IH2]; auto.
      * rewrite Hc1. cbn. rewrite <- app_assoc. reflexivity.
      * subst i. rewrite !length_app. lia.
      * subst i. rewrite !length_app. simpl. lia.
      * constructor; auto. unfold agent_bounded, UAMP_UPDATE_QUEUE_SIZE. auto.
      * simpl. lia.
      * lia.
      * split; [exact IH1|].
        intros m' H. destruct (IH2 m' H) as (done & b & HF & Hc & Hw).
        exists (batch' ++ done), b. split; [| split].
        -- apply Forall2_app; auto. rewrite <- Htl. exact HF.
        -- rewrite Hc, Hc1. cbn. rewrite <- app_assoc. reflexivity.
        -- eapply world_io_trans; eauto.
Qed.

(** *** The batches of fillUpdateQueues *)

Definition sum_needs (needs : list Z) : Z := foldr Z.add 0 needs.



Lemma sum_needs_total l : sum_needs (map need l) = total_need l.
Proof. induction l as [|a l IH]; simpl; lia. Qed.



Lemma function_ext (f g : M unit) m : f m = g m -> function f m = function g m.
Proof. unfold function, returning. intros ->. reflexivity. Qed.

(** fillUpdateQueues runs the round trips of its plan, and when it succeeds
    every agent got what numToRequest asked for it. *)
Lemma fillUpdateQueues_plan m ags :
  agents (client m) = Some ags ->
  numAgents (client m) = Z.of_nat (length ags) ->
  Forall agent_bounded ags ->
  fillUpdateQueues m = function (round_trips (fill_plan (map need ags) 0 0 0)) m
  /\ forall r m',
       fillUpdateQueues m = Val r m' ->
       r <= 0
       /\ (r = 0 ->
           exists done b,
             Forall2 (filled (timeLimit (client m))) ags done
             /\ client m' = set_agents (Some done) (set_commBuf b (client m))
             /\ world_io (env m) (env m')).
Proof.
  intros Hags Hn Hb.
  destruct (fill_loop_spec ags [] [] 0 0 0 m) as [H1 H2]; auto.
  { pose proof (Z.pow_pos_nonneg 2 32). simpl. lia. }
  assert (Hbody : fillUpdateQueues m = function (fill_from (length ags) 0 0 0) m).
  { unfold fillUpdateQueues. apply function_ext. unfold bind at 1, getClient.
    rewrite Hn, Nat2Z.id. reflexivity. }
  split.
  - rewrite Hbody. apply function_ext. exact H1.
  - intros r m' H. rewrite Hbody in H.
    apply (function_result queue_rel) in H; [| unfold fill_from; eff_auto].
    destruct H as [[-> H] | [Hr H]]; [| split; [lia | intros; lia]].
    split; [lia|]. intros _.
    destruct (H2 m' H) as (done & b & HF & Hc & Hw). exists done, b. auto.
Qed.


(** A plan with needs as large as the counter: the run is cut where the sum
    would wrap, and no batch carries a wrapped count. *)
Example fill_plan_cut :
  fill_plan [4294967290; 4; 6; 0; 3] 0 0 0 = [(0, 4294967294); (2, 9)].
Proof. vm_compute. reflexivity. Qed.

(* ===================================================================== *)
(** ** The queue of one agent across a session *)
(* ===================================================================== *)

(** The time of the agent's current update. *)
Definition cur_time (a : uampAgent) : Z := u_time (slot a (currentIndex a)).

(** advanceAgent on the agent itself (lines 62-68). *)
Definition consumed (a : uampAgent) : uampAgent :=
  let alive := if negb (cur_time a =? 0) then aliveInQueue a - 1 else aliveInQueue a in
  let index :=
    if currentIndex a =? UAMP_UPDATE_QUEUE_SIZE - 1 then 0 else currentIndex a + 1 in
  set_currentIndex index (set_aliveInQueue alive a).

Lemma agent_inv_bounded tl a h A : agent_inv tl a h A -> agent_bounded a.
Proof.
  intros [Hs Hr Hc Ha Hcons Hroom _ _]. unfold agent_bounded, UAMP_UPDATE_QUEUE_SIZE.
  pose proof (Nat.mod_upper_bound (length h) 6 ltac:(lia)).
  pose proof (Nat.mod_upper_bound A 6 ltac:(lia)).
  repeat split; auto; lia.
Qed.

Lemma agent_inv_current tl a h A :
  agent_inv tl a h A -> (A < length h)%nat ->
  h !! A = Some (slot a (currentIndex a)).
Proof.
  intros Hinv HA. destruct (lookup_lt_is_Some_2 h A HA) as [u Hu].
  rewrite Hu. f_equal. symmetry.
  rewrite (inv_cur _ _ _ _ Hinv). apply slot_lookup.
  rewrite (inv_ring _ _ _ _ Hinv) by lia. exact Hu.
Qed.

Lemma agent_inv_cur_time tl a h A :
  agent_inv tl a h A -> (A < length h)%nat ->
  (A = O -> cur_time a = 0) /\ ((0 < A)%nat -> 0 < cur_time a <= tl).
Proof.
  intros Hinv HA. pose proof (agent_inv_current _ _ _ _ Hinv HA) as Hu.
  destruct (hist_ok_facts _ _ _ (inv_hist _ _ _ _ Hinv)) as (_ & _ & Ht & _).
  apply (Ht A _ Hu).
Qed.

Lemma agent_inv_advance tl a h A :
  agent_inv tl a h A -> (A < length h)%nat -> agent_inv tl (consumed a) h (S A).
Proof.
  intros Hinv HA.
  destruct (agent_inv_cur_time _ _ _ _ Hinv HA) as [H0 Hpos].
  destruct Hinv as [Hs Hr Hc Ha Hcons Hroom Hring Hhist].
  split; unfold consumed; cbn; auto; try lia.
  - rewrite Hc. fold (ring_succ (Z.of_nat (A mod 6))). apply ring_succ_mod.
  - destruct A as [|A].
    + rewrite H0 by reflexivity. simpl. lia.
    + destruct (Z.eqb_spec (cur_time a) 0); [lia|]. cbn [negb]. simpl pred in *. lia.
  - intros i Hi. apply Hring. lia.
Qed.

(** The agent after the replies numToRequest asked for: the history grew by
    them, the cursor stayed. *)
Lemma agent_inv_recv_steps tl n : forall a a' h A,
  agent_inv tl a h A -> aliveInQueue a + Z.of_nat n <= 6 ->
  recv_steps tl n a a' ->
  exists h', agent_inv tl a' (h ++ h') A /\ length h' = n.
Proof.
  induction n as [|n IH]; intros a a' h A Hinv Hn Hsteps.
  - inversion Hsteps; subst. exists []. rewrite app_nil_r. auto.
  - inversion Hsteps as [| ? ? a1 ? Hstep Hrest]; subst.
    destruct Hstep as [u Hu].
    assert (Hinv1 : agent_inv tl a1 (h ++ [u]) A)
      by (apply (agent_inv_receive tl a h A u a1); auto; lia).
    assert (Ha1 : aliveInQueue a1 = aliveInQueue a + 1).
    { apply (recv_step_bounded tl a a1).
      - apply (agent_inv_bounded _ _ _ _ Hinv).
      - unfold UAMP_UPDATE_QUEUE_SIZE. lia.
      - exists u. exact Hu. }
    destruct (IH a1 a' (h ++ [u]) A Hinv1 ltac:(lia) Hrest) as (h' & Hinv' & Hlen).
    exists (u :: h'). rewrite <- app_assoc in Hinv'. split; auto. simpl. lia.
Qed.

Lemma agent_inv_filled tl a a' h A :
  agent_inv tl a h A -> filled tl a a' ->
  exists h', agent_inv tl a' (h ++ h') A /\ Z.of_nat (length h') = need a.
Proof.
  intros Hinv Hf. pose proof (need_bounds a (agent_inv_bounded _ _ _ _ Hinv)) as Hn.
  unfold UAMP_UPDATE_QUEUE_SIZE in Hn.
  assert (Hroom : aliveInQueue a + Z.of_nat (Z.to_nat (need a)) <= 6) by lia.
  destruct (agent_inv_recv_steps tl _ a a' h A Hinv Hroom Hf) as (h' & Hinv' & Hlen).
  exists h'. split; auto. lia.
Qed.

(** An agent between two calls of the library: its current update is one
    the server sent. *)
Definition agent_ok (tl : Z) (a : uampAgent) : Prop :=
  exists h A, agent_inv tl a h A /\ (A < length h)%nat.

Lemma agent_ok_filled tl a a' : agent_ok tl a -> filled tl a a' -> agent_ok tl a'.
Proof.
  intros (h & A & Hinv & HA) Hf.
  destruct (agent_inv_filled _ _ _ _ _ Hinv Hf) as (h' & Hinv' & _).
  exists (h ++ h'), A. split; auto. rewrite length_app. lia.
Qed.

Lemma filled_cur_time tl a a' : agent_ok tl a -> filled tl a a' -> cur_time a' = cur_time a.
Proof.
  intros (h & A & Hinv & HA) Hf.
  destruct (agent_inv_filled _ _ _ _ _ Hinv Hf) as (h' & Hinv' & _).
  pose proof (agent_inv_current _ _ _ _ Hinv HA) as H1.
  assert (HA' : (A < length (h ++ h'))%nat) by (rewrite length_app; lia).
  pose proof (agent_inv_current _ _ _ _ Hinv' HA') as H2.
  rewrite lookup_app_l in H2 by lia. unfold cur_time. congruence.
Qed.

(* ===================================================================== *)
(** ** The session between two calls of the library *)
(* ===================================================================== *)

(** [s] is the minimum of the times [ts]. *)
Definition min_of (ts : list Z) (s : Z) : Prop := Forall (Z.le s) ts /\ s ∈ ts.

Record session_inv (c : uampClient) (ags : list uampAgent) : Prop := {
  ses_agents : agents c = Some ags;
  ses_count : numAgents c = Z.of_nat (length ags);
  ses_some : 1 <= numAgents c <= INT_MAX;
  ses_limit : 0 <= timeLimit c <= UINT32_MAX;
  ses_queues : Forall (agent_ok (timeLimit c)) ags;
  ses_smallest : min_of (map cur_time ags) (smallestCurrentTime c);
  ses_largest : 0 <= largestLastTime c
}.

Lemma agent_ok_bounded tl a : agent_ok tl a -> agent_bounded a.
Proof. intros (h & A & Hinv & _). apply (agent_inv_bounded _ _ _ _ Hinv). Qed.

Lemma agent_ok_cur_time tl a : agent_ok tl a -> 0 <= cur_time a <= Z.max 0 tl.
Proof.
  intros (h & A & Hinv & HA). destruct (agent_inv_cur_time _ _ _ _ Hinv HA) as [H0 H1].
  destruct A; [rewrite H0 by reflexivity | specialize (H1 ltac:(lia))]; lia.
Qed.

Lemma Forall2_filled tl l l' :
  Forall (agent_ok tl) l -> Forall2 (filled tl) l l' ->
  Forall (agent_ok tl) l' /\ map cur_time l' = map cur_time l.
Proof.
  intros Hok HF. induction HF as [|a a' l l' Ha HF IH]; [split; auto|].
  inversion Hok; subst. destruct IH as [IH1 IH2]; auto. split.
  - constructor; auto. eapply agent_ok_filled; eauto.
  - simpl. f_equal; auto. eapply filled_cur_time; eauto.
Qed.

Lemma set_agents_commBuf_agents x y b c :
  set_agents x (set_commBuf b (set_agents y c)) = set_agents x (set_commBuf b c).
Proof. destruct c; reflexivity. Qed.

Lemma advanceAgent_consumes j a m :
  getAgent j m = Val a m -> 0 <= currentIndex a < Z.of_nat (length (updates a)) ->
  advanceAgent j m
  = (setAgent j (consumed a) ;;
     if aliveInQueue (consumed a) =? 1 then fillUpdateQueues else ret 0) m.
Proof.
  intros Ha Hc. unfold advanceAgent. unfold bind at 1. rewrite Ha.
  unfold bind at 1. rewrite getUpdate_run by auto. reflexivity.
Qed.

(** advanceAgent on the agent after [pre]: the agent consumed its current
    update and, where its queue ran empty, every queue was filled up. *)
Lemma advanceAgent_session m pre a post h A r m' :
  agents (client m) = Some (pre ++ a :: post) ->
  numAgents (client m) = Z.of_nat (length (pre ++ a :: post)) ->
  Forall (agent_ok (timeLimit (client m))) pre ->
  Forall (agent_ok (timeLimit (client m))) post ->
  agent_inv (timeLimit (client m)) a h A -> (A < length h)%nat ->
  cur_time a <> timeLimit (client m) ->
  advanceAgent (Z.of_nat (length pre)) m = Val r m' ->
  r <= 0
  /\ (r = 0 ->
      exists pre' a' post' b h',
        client m' = set_agents (Some (pre' ++ a' :: post')) (set_commBuf b (client m))
        /\ world_io (env m) (env m')
        /\ Forall (agent_ok (timeLimit (client m))) pre'
        /\ Forall (agent_ok (timeLimit (client m))) post'
        /\ map cur_time pre' = map cur_time pre
        /\ map cur_time post' = map cur_time post
        /\ agent_inv (timeLimit (client m)) a' (h ++ h') (S A)
        /\ (S A < length (h ++ h'))%nat).
Proof.
  intros Hags Hnum Hpre Hpost Hinv HA Hnot H.
  set (tl := timeLimit (client m)) in *.
  pose proof (agent_inv_advance _ _ _ _ Hinv HA) as Hinv1.
  pose proof (agent_inv_bounded _ _ _ _ Hinv) as (Hlen & Hcur & _ & _).
  rewrite (advanceAgent_consumes _ a) in H;
    [| apply (getAgent_run m (pre ++ a :: post)); auto; apply at_index_middle
     | unfold UAMP_UPDATE_QUEUE_SIZE in Hcur; lia].
  unfold bind in H. rewrite (setAgent_run m (pre ++ a :: post)) in H by auto.
  rewrite insert_middle in H.
  pose proof (inv_alive _ _ _ _ Hinv1) as Halive. simpl pred in Halive.
  destruct (Nat.eq_dec (S A) (length h)) as [Hend | Hmore].
  - (* the queue ran empty: it is refilled *)
    replace (aliveInQueue (consumed a) =? 1) with true in H
      by (symmetry; apply Z.eqb_eq; lia).
    assert (Hrf : receivedFinal (consumed a) = 0).
    { destruct (hist_ok_facts _ _ _ (inv_hist _ _ _ _ Hinv1)) as ([E|E] & Hfin & _); auto.
      destruct (Hfin E) as (_ & u & Hlast & Hu).
      rewrite last_lookup, <- Hend in Hlast. simpl pred in Hlast.
      rewrite (agent_inv_current _ _ _ _ Hinv HA) in Hlast.
      exfalso. apply Hnot. unfold cur_time. congruence. }
    match type of H with fillUpdateQueues ?x = _ => set (m1 := x) in * end.
    destruct (fillUpdateQueues_plan m1 (pre ++ consumed a :: post)) as [_ Hfill].
    { reflexivity. }
    { cbn. rewrite Hnum, !length_app. reflexivity. }
    { apply Forall_app. split; [| constructor].
      - eapply Forall_impl; [exact Hpre | apply agent_ok_bounded].
      - apply (agent_inv_bounded _ _ _ _ Hinv1).
      - eapply Forall_impl; [exact Hpost | apply agent_ok_bounded]. }
    destruct (Hfill r m' H) as [Hr Hdone]. split; [exact Hr|]. intros E.
    destruct (Hdone E) as (done & b & HF & Hc & Hw).
    change (timeLimit (client m1)) with tl in HF.
    apply Forall2_app_inv_l in HF. destruct HF as (pre' & rest & HFpre & HFrest & ->).
    inversion HFrest as [| ? a' ? post' Ha' HFpost]; subst.
    destruct (Forall2_filled _ _ _ Hpre HFpre) as [Hpre' Htpre].
    destruct (Forall2_filled _ _ _ Hpost HFpost) as [Hpost' Htpost].
    destruct (agent_inv_filled _ _ _ _ _ Hinv1 Ha') as (h' & Hinv' & Hh').
    exists pre', a', post', b, h'.
    split; [rewrite Hc; apply set_agents_commBuf_agents|].
    split; [exact Hw|].
    split; [exact Hpre'|]. split; [exact Hpost'|]. split; [exact Htpre|].
    split; [exact Htpost|]. split; [exact Hinv'|].
    rewrite length_app. unfold need in Hh'. rewrite Hrf in Hh'.
    change (negb (0 =? 0)) with false in Hh'. cbv iota in Hh'.
      unfold UAMP_UPDATE_QUEUE_SIZE in Hh'. lia.
  - (* updates are left ahead *)
    replace (aliveInQueue (consumed a) =? 1) with false in H
      by (symmetry; apply Z.eqb_neq; lia).
    injection H as <- <-. split; [lia|]. intros _.
    exists pre, (consumed a), post, (commBuf (client m)), [].
    rewrite app_nil_r.
    split; [cbn; rewrite set_commBuf_id; reflexivity|].
    split; [apply world_io_refl|].
    split; [exact Hpre|]. split; [exact Hpost|]. split; [reflexivity|].
    split; [reflexivity|]. split; [exact Hinv1|]. lia.
Qed.

(** *** uampAdvance *)

Lemma eff_cursor_advanceAgent j : eff cursor_rel (advanceAgent j).
Proof. apply (eff_mono queue_rel); [apply queue_rel_cursor | auto with eff]. Qed.

Lemma eff_set_largestLastTime v : eff cursor_rel (modClient (set_largestLastTime v)).
Proof.
  intros [c w]. cbn. split; [| apply world_io_refl].
  exists (commBuf c), (agents c), v, (smallestCurrentTime c). destruct c; reflexivity.
Qed.

Lemma eff_set_smallestCurrentTime v : eff cursor_rel (modClient (set_smallestCurrentTime v)).
Proof.
  intros [c w]. cbn. split; [| apply world_io_refl].
  exists (commBuf c), (agents c), (largestLastTime c), v. destruct c; reflexivity.
Qed.
#[global] Hint Resolve eff_cursor_advanceAgent eff_set_largestLastTime
  eff_set_smallestCurrentTime : eff.

Lemma eff_uampAdvance_loop n : forall i limit, eff cursor_rel (uampAdvance_loop n i limit).
Proof. induction n as [|n IH]; intros i limit; simpl; eff_auto. Qed.
#[global] Hint Resolve eff_uampAdvance_loop : eff.

Lemma eff_uampAdvance j : eff cursor_rel (uampAdvance j).
Proof. unfold uampAdvance. eff_auto. Qed.
#[global] Hint Resolve eff_uampAdvance : eff.

Lemma eff_uampAdvanceOldest : eff cursor_rel uampAdvanceOldest.
Proof. unfold uampAdvanceOldest. eff_auto. Qed.

Lemma getCurrentUpdate_run m ags j a :
  agents (client m) = Some ags -> at_index ags j = Some a ->
  getCurrentUpdate j m = Val (j, currentIndex a) m.
Proof.
  intros H1 H2. unfold getCurrentUpdate, bind. rewrite (getAgent_run m ags j a) by auto.
  reflexivity.
Qed.

Lemma deref_run m ags j a i :
  agents (client m) = Some ags -> at_index ags j = Some a ->
  0 <= i < Z.of_nat (length (updates a)) ->
  deref (j, i) m = Val (slot a i) m.
Proof.
  intros H1 H2 Hi. unfold deref, bind. cbn [fst snd].
  rewrite (getAgent_run m ags j a) by auto. apply getUpdate_run. exact Hi.
Qed.

(** The minimum the loop of uampAdvance computes, starting from [limit]. *)
Definition least (limit : Z) (ts : list Z) : Z :=
  foldl (fun l t => if t <? l then t else l) limit ts.

Lemma uampAdvance_loop_run rest : forall pre limit m,
  agents (client m) = Some (pre ++ rest) ->
  Forall agent_bounded rest ->
  uampAdvance_loop (length rest) (Z.of_nat (length pre)) limit m
  = Val (least limit (map cur_time rest)) m.
Proof.
  induction rest as [|a rest IH]; intros pre limit m Hags Hb; [reflexivity|].
  inversion Hb as [|? ? Ha Hrest]; subst. destruct Ha as (Hl & Hc & _).
  cbn [length uampAdvance_loop]. unfold bind at 1.
  rewrite (getCurrentUpdate_run m (pre ++ a :: rest) _ a);
    [| exact Hags | apply at_index_middle].
  unfold bind at 1.
  rewrite (deref_run m (pre ++ a :: rest) _ a);
    [| exact Hags | apply at_index_middle | unfold UAMP_UPDATE_QUEUE_SIZE in Hc; lia].
  replace (Z.of_nat (length pre) + 1) with (Z.of_nat (length (pre ++ [a])))
    by (rewrite length_app; simpl; lia).
  rewrite (IH (pre ++ [a])); auto.
  rewrite <- app_assoc. exact Hags.
Qed.

Lemma least_le limit ts : least limit ts <= limit /\ Forall (Z.le (least limit ts)) ts.
Proof.
  revert limit. induction ts as [|t ts IH]; intros limit; simpl; [split; [lia | constructor]|].
  destruct (IH (if t <? limit then t else limit)) as [H1 H2].
  fold (least (if t <? limit then t else limit) ts) in *.
  destruct (Z.ltb_spec t limit); split; try constructor; auto; lia.
Qed.

Lemma least_elem limit ts : least limit ts = limit \/ least limit ts ∈ ts.
Proof.
  revert limit. induction ts as [|t ts IH]; intros limit; simpl; [left; reflexivity|].
  fold (least (if t <? limit then t else limit) ts).
  destruct (IH (if t <? limit then t else limit)) as [H | H].
  - rewrite H. destruct (Z.ltb_spec t limit); [right; constructor | left; reflexivity].
  - right. constructor. exact H.
Qed.

Lemma least_min limit ts :
  ts <> [] -> Forall (fun t => t <= limit) ts -> min_of ts (least limit ts).
Proof.
  intros Hne Hle. destruct (least_le limit ts) as [H1 H2]. split; auto.
  destruct (least_elem limit ts) as [H | H]; auto.
  destruct ts as [|t ts]; [congruence|].
  inversion Hle; subst. inversion H2; subst.
  assert (t = least limit (t :: ts)) by lia.
  rewrite <- H0. constructor.
Qed.

(** The minimum after one agent's time moved up. *)
Lemma min_of_raise pre t t' post s :
  min_of (pre ++ t :: post) s -> t <= t' -> s < t ->
  min_of (pre ++ t' :: post) s.
Proof.
  intros [Hle Hin] Ht Hs. split.
  - apply Forall_app in Hle. destruct Hle as [H1 H2]. inversion H2; subst.
    apply Forall_app. split; auto. constructor; auto. lia.
  - apply elem_of_app in Hin. apply elem_of_app.
    destruct Hin as [Hin | Hin]; [left; auto|].
    right. apply elem_of_cons in Hin. destruct Hin as [-> | Hin]; [lia|].
    apply elem_of_cons. right. exact Hin.
Qed.

Lemma agent_inv_previous tl a a' h h' A :
  agent_inv tl a h A -> (A < length h)%nat -> agent_inv tl a' (h ++ h') (S A) ->
  slot a' (currentIndex a) = slot a (currentIndex a)
  /\ length (updates a') = 6%nat
  /\ ((S A < length (h ++ h'))%nat -> cur_time a <= cur_time a').
Proof.
  intros Hinv HA Hinv'. pose proof (agent_inv_current _ _ _ _ Hinv HA) as Hcur.
  split; [| split].
  - rewrite (inv_cur _ _ _ _ Hinv) at 1. apply slot_lookup.
    rewrite (inv_ring _ _ _ _ Hinv') by (simpl; rewrite length_app; lia).
    rewrite lookup_app_l by lia. exact Hcur.
  - apply (inv_slots _ _ _ _ Hinv').
  - intros HA'. pose proof (agent_inv_current _ _ _ _ Hinv' HA') as Hcur'.
    destruct (hist_ok_facts _ _ _ (inv_hist _ _ _ _ Hinv')) as (_ & _ & _ & Hmono).
    apply (Hmono A (S A)); auto.
    rewrite lookup_app_l by lia. exact Hcur.
Qed.

(** What a successful uampAdvance does to the session. *)
Lemma uampAdvance_session m ags j m' :
  session_inv (client m) ags -> uampAdvance j m = Val 0 m' ->
  exists ags',
    session_inv (client m') ags'
    /\ largestLastTime (client m) <= largestLastTime (client m')
    /\ smallestCurrentTime (client m) <= smallestCurrentTime (client m')
    /\ cursor_rel m m'.
Proof.
  intros Hses H. pose proof (eff_val cursor_rel _ _ _ _ (eff_uampAdvance j) H) as Hrel.
  unfold uampAdvance in H. apply (function_result cursor_rel) in H; [| eff_auto].
  destruct H as [[_ H] | [Hneg _]]; [| lia].
  destruct Hses as [Hags Hcount Hsome Hlimit Hqueues Hsmall Hlarge].
  set (tl := timeLimit (client m)) in *.
  unfold bind at 1 in H. unfold getClient at 1 in H. cbn beta iota in H.
  unfold bind at 1 in H. unfold ASSERT at 1 in H.
  destruct (valid_agentID (client m) j) eqn:Hvalid; [| discriminate].
  unfold ret at 1 in H. cbn beta iota in H.
  unfold valid_agentID in Hvalid. apply andb_true_iff in Hvalid.
  destruct Hvalid as [Hj0 Hj1]. apply Z.leb_le in Hj0. apply Z.ltb_lt in Hj1.
  destruct (lookup_lt_is_Some_2 ags (Z.to_nat j)) as [a Ha]; [lia|].
  pose proof (take_drop_middle ags (Z.to_nat j) a Ha) as Hsplit.
  set (pre := take (Z.to_nat j) ags) in *. set (post := drop (S (Z.to_nat j)) ags) in *.
  assert (Hpre : length pre = Z.to_nat j) by (subst pre; rewrite length_take; lia).
  assert (Hj : j = Z.of_nat (length pre)) by lia.
  clearbody pre post. subst ags. clear Ha.
  apply Forall_app in Hqueues. destruct Hqueues as [Hqpre Hq].
  inversion Hq as [|? ? Hqa Hqpost]; subst. clear Hq.
  destruct Hqa as (h & A & Hinv & HA).
  pose proof (agent_inv_bounded _ _ _ _ Hinv) as (Hlen & Hcur & _ & _).
  unfold UAMP_UPDATE_QUEUE_SIZE in Hcur.
  unfold bind at 1 in H.
  rewrite (getCurrentUpdate_run m (pre ++ a :: post) _ a) in H;
    [| exact Hags | apply at_index_middle].
  unfold bind at 1 in H.
  rewrite (deref_run m (pre ++ a :: post) _ a) in H;
    [| exact Hags | apply at_index_middle | lia].
  fold (cur_time a) in H. unfold bind at 1 in H. fold tl in H.
  destruct (Z.eqb_spec (cur_time a) tl) as [| Hnot]; [discriminate|].
  unfold ret at 1 in H. cbn beta iota in H.
  unfold bind at 1 in H. unfold checked at 1 in H. unfold bind at 1 in H.
  destruct (advanceAgent (Z.of_nat (length pre)) m) as [r m1 | |] eqn:Eadv;
    try discriminate.
  destruct (advanceAgent_session m pre a post h A r m1 Hags Hcount Hqpre Hqpost Hinv HA
              Hnot Eadv) as [Hr Hdone].
  unfold ERROR_CHECK in H. destruct (Z.ltb_spec r 0); [discriminate|].
  unfold ret at 1 in H. cbn beta iota in H.
  destruct (Hdone ltac:(lia)) as
    (pre' & a' & post' & b & h' & Hc1 & Hw1 & Hqpre' & Hqpost' & Htpre & Htpost
     & Hinv' & HA').
  fold tl in Hqpre', Hqpost', Hinv'.
  destruct (agent_inv_previous _ _ _ _ _ _ Hinv HA Hinv') as (Hprev & Hlen' & Hup).
  specialize (Hup HA').
  assert (Hpre' : length pre' = length pre).
  { apply (f_equal length) in Htpre. rewrite !length_map in Htpre. exact Htpre. }
  assert (Hpost' : length post' = length post).
  { apply (f_equal length) in Htpost. rewrite !length_map in Htpost. exact Htpost. }
  assert (Hags1 : agents (client m1) = Some (pre' ++ a' :: post'))
    by (rewrite Hc1; reflexivity).
  unfold bind at 1 in H.
  rewrite (deref_run m1 (pre' ++ a' :: post') _ a') in H;
    [| exact Hags1 | rewrite <- Hpre'; apply at_index_middle | lia].
  rewrite Hprev in H. fold (cur_time a) in H.
  unfold bind at 1 in H. unfold getClient at 1 in H. cbn beta iota in H.
  assert (Hok' : agent_ok tl a') by (exists (h ++ h'), (S A); auto).
  assert (Hall : Forall (agent_ok tl) (pre' ++ a' :: post')).
  { apply Forall_app. split; auto. }
  assert (Htimes : map cur_time (pre' ++ a' :: post')
                   = map cur_time pre ++ cur_time a' :: map cur_time post).
  { rewrite map_app. simpl. congruence. }
  rewrite map_app in Hsmall. simpl in Hsmall.
  assert (Hcount' : numAgents (client m1) = Z.of_nat (length (pre' ++ a' :: post'))).
  { rewrite Hc1. cbn. rewrite Hcount, !length_app. simpl. lia. }
  assert (Hmin : smallestCurrentTime (client m) <= cur_time a).
  { destruct Hsmall as [Hle _]. apply Forall_app in Hle. destruct Hle as [_ Hle].
    inversion Hle; auto. }
  set (l' := if largestLastTime (client m1) <? cur_time a
             then cur_time a else largestLastTime (client m1)).
  assert (Hl' : largestLastTime (client m) <= l' /\ 0 <= l').
  { subst l'. rewrite Hc1. cbn [largestLastTime set_agents set_commBuf].
    destruct (Z.ltb_spec (largestLastTime (client m)) (cur_time a)); lia. }
  set (m2 := mkMachine (set_largestLastTime l' (client m1)) (env m1)).
  assert (Hm2 : (if largestLastTime (client m1) <? cur_time a
                 then modClient (set_largestLastTime (cur_time a)) else ret tt) m1
                = Val tt m2).
  { subst m2 l'. destruct (largestLastTime (client m1) <? cur_time a); cbn; [reflexivity|].
    destruct m1 as [[] ?]; reflexivity. }
  unfold bind at 1 in H. rewrite Hm2 in H.
  unfold bind at 1 in H. unfold getClient at 1 in H. cbn beta iota in H.
  assert (Hs2 : smallestCurrentTime (client m2) = smallestCurrentTime (client m)).
  { subst m2. cbn. rewrite Hc1. reflexivity. }
  rewrite Hs2 in H.
  assert (Hbase : forall s,
            min_of (map cur_time (pre' ++ a' :: post')) s ->
            session_inv (set_smallestCurrentTime s (client m2)) (pre' ++ a' :: post')).
  { intros s Hs. subst m2. split; cbn; rewrite ?Hc1; cbn; auto; try lia.
    - rewrite Hcount, !length_app. simpl. lia. }
  destruct (Z.eqb_spec (cur_time a) (smallestCurrentTime (client m))) as [Heq | Hne].
  - unfold bind at 1 in H.
    replace (Z.to_nat (numAgents (client m2))) with (length (pre' ++ a' :: post')) in H
      by (subst m2; cbn; rewrite Hcount'; rewrite Nat2Z.id; reflexivity).
    assert (Hloop : uampAdvance_loop (length (pre' ++ a' :: post')) 0 UINT32_MAX m2
                    = Val (least UINT32_MAX (map cur_time (pre' ++ a' :: post'))) m2).
    { apply (uampAdvance_loop_run (pre' ++ a' :: post') [] UINT32_MAX m2).
      - subst m2. cbn. rewrite Hc1. reflexivity.
      - eapply Forall_impl; [exact Hall | apply agent_ok_bounded]. }
    rewrite Hloop in H. unfold modClient in H. injection H as <-.
    cbn [client env].
    assert (Hleast : min_of (map cur_time (pre' ++ a' :: post'))
                       (least UINT32_MAX (map cur_time (pre' ++ a' :: post')))).
    { apply least_min.
      - destruct pre'; discriminate.
      - apply Forall_map. eapply Forall_impl; [exact Hall|].
        intros x Hx. apply agent_ok_cur_time in Hx. cbn. lia. }
    exists (pre' ++ a' :: post'). split; [apply Hbase; exact Hleast|].
    split; [apply Hl'|]. split; [| exact Hrel].
    cbn [smallestCurrentTime set_smallestCurrentTime].
    destruct Hleast as [_ Hin].
    set (L := least UINT32_MAX (map cur_time (pre' ++ a' :: post'))) in *.
    rewrite Htimes in Hin.
    destruct Hsmall as [Hle _]. rewrite Forall_forall in Hle.
    apply elem_of_app in Hin. destruct Hin as [Hin | Hin].
    + apply Hle. apply elem_of_app. left; exact Hin.
    + apply elem_of_cons in Hin. destruct Hin as [Hin | Hin]; [lia|].
      apply Hle. apply elem_of_app. right. apply elem_of_cons. right. exact Hin.
  - injection H as <-.
    exists (pre' ++ a' :: post'). split; [| split; [| split; [| exact Hrel]]].
    + replace (client m2) with (set_smallestCurrentTime (smallestCurrentTime (client m))
                                  (client m2)).
      * apply Hbase. rewrite Htimes.
        apply (min_of_raise _ (cur_time a)); auto. lia.
      * rewrite <- Hs2. destruct (client m2); reflexivity.
    + apply Hl'.
    + rewrite Hs2. lia.
Qed.

(** *** uampAdvanceOldest and uampChangeState *)

Lemma checked_inv (f : M Z) m m' :
  checked f m = Val tt m' -> exists r, f m = Val r m' /\ 0 <= r.
Proof.
  unfold checked, bind, ERROR_CHECK. intros H.
  destruct (f m) as [r m1 | |]; try discriminate.
  destruct (Z.ltb_spec r 0); [discriminate|]. injection H as <-. eauto.
Qed.

Lemma uampAdvance_result j m r m' : uampAdvance j m = Val r m' -> r <= 0.
Proof.
  intros H. unfold uampAdvance in H.
  apply (function_result cursor_rel) in H; [lia | eff_auto].
Qed.

(** The cursors of a session step by step: the session stays well formed
    and neither cursor moves back. *)
Definition session_step (m m' : machine) : Prop :=
  (exists ags, session_inv (client m) ags)
  -> (exists ags', session_inv (client m') ags')
     /\ largestLastTime (client m) <= largestLastTime (client m')
     /\ smallestCurrentTime (client m) <= smallestCurrentTime (client m').

Lemma session_step_refl m : session_step m m.
Proof. intros H. split; [exact H | lia]. Qed.

Lemma session_step_trans m1 m2 m3 :
  session_step m1 m2 -> session_step m2 m3 -> session_step m1 m3.
Proof.
  intros H12 H23 H1. destruct (H12 H1) as (H2 & Hl & Hs).
  destruct (H23 H2) as (H3 & Hl' & Hs'). split; [exact H3 | lia].
Qed.

Lemma uampAdvance_step j m m' : uampAdvance j m = Val 0 m' -> session_step m m'.
Proof.
  intros H [ags Hses].
  destruct (uampAdvance_session m ags j m' Hses H) as (ags' & H1 & H2 & H3 & _).
  split; [exists ags'; exact H1 | lia].
Qed.

Lemma uampAdvanceOldest_loop oldest n : forall i m m',
  for_loop n i (fun i =>
    p <- getCurrentUpdate i ;;
    current <- deref p ;;
    if u_time current =? oldest then checked (uampAdvance (to_int i)) else ret tt) m
  = Val tt m' ->
  session_step m m'.
Proof.
  induction n as [|n IH]; intros i m m' H.
  - injection H as <-. apply session_step_refl.
  - cbn [for_loop] in H. apply bind_val_inv in H. destruct H as ([] & m1 & H1 & H2).
    apply (session_step_trans _ m1); [| apply (IH _ _ _ H2)].
    apply bind_val_inv in H1. destruct H1 as (p & m0 & Hp & H1).
    apply (eff_val eq) in Hp; [| auto with eff]. subst m0.
    apply bind_val_inv in H1. destruct H1 as (u & m0 & Hu & H1).
    apply (eff_val eq) in Hu; [| auto with eff]. subst m0.
    destruct (u_time u =? oldest).
    + apply checked_inv in H1. destruct H1 as (r & H1 & Hr).
      pose proof (uampAdvance_result _ _ _ _ H1).
      assert (r = 0) by lia. subst r. apply (uampAdvance_step _ _ _ H1).
    + injection H1 as <-. apply session_step_refl.
Qed.

Lemma uampAdvanceOldest_step m m' : uampAdvanceOldest m = Val 0 m' -> session_step m m'.
Proof.
  intros H. unfold uampAdvanceOldest in H.
  apply (function_result cursor_rel) in H; [| eff_auto].
  destruct H as [[_ H] | [Hneg _]]; [| lia].
  unfold bind at 1 in H. unfold getClient at 1 in H. cbn beta iota zeta in H.
  apply bind_val_inv in H. destruct H as ([] & m1 & H1 & H).
  destruct (smallestCurrentTime (client m) =? timeLimit (client m)); [discriminate|].
  injection H1 as <-. apply (uampAdvanceOldest_loop _ _ _ _ _ H).
Qed.

Lemma to_millis_run t m :
  exists v,
    to_millis t m = Val (to_u32 v) m
    /\ (llround (PrimFloat.mul t 1000%float) = Some v
        \/ llround (PrimFloat.mul t 1000%float) = None /\ v = LLONG_MIN).
Proof.
  unfold to_millis. destruct (llround (t * 1000)) as [v|].
  - exists v. split; [reflexivity | left; reflexivity].
  - exists LLONG_MIN. split; [reflexivity | right; split; reflexivity].
Qed.

Lemma eff_to_millis R `{!PreOrder R} t : eff R (to_millis t).
Proof. unfold to_millis. eff_auto. Qed.
#[global] Hint Resolve eff_to_millis : eff.

Lemma eff_uampChangeState j t s : eff batch_rel (uampChangeState j t s).
Proof. unfold uampChangeState. eff_auto. Qed.

Lemma session_inv_batch c c' ags b chs n :
  c' = set_numChanges n (set_changes chs (set_commBuf b c)) ->
  session_inv c ags -> session_inv c' ags.
Proof. intros -> [H1 H2 H3 H4 H5 H6 H7]. destruct c. split; assumption. Qed.

Lemma uampChangeState_step j t s r m m' :
  uampChangeState j t s m = Val r m' -> session_step m m'.
Proof.
  intros H [ags Hses]. apply (eff_val batch_rel) in H; [| apply eff_uampChangeState].
  destruct H as [(b & chs & n & Hc) _].
  split; [exists ags; apply (session_inv_batch _ _ _ _ _ _ Hc Hses)|].
  rewrite Hc. destruct (client m); cbn; lia.
Qed.

(* ===================================================================== *)
(** ** The connect functions *)
(* ===================================================================== *)

(** Between the set-up of the client's fields and the first fill of the
    queues, the connect functions change the descriptor, the buffer and the
    server's features. *)
Definition conn_rel (m m' : machine) : Prop :=
  exists f b s, client m' = set_fd f (set_commBuf b (set_serverFeatures s (client m))).

#[global] Instance conn_rel_preorder : PreOrder conn_rel.
Proof.
  split.
  - intros [c w]. exists (fd c), (commBuf c), (serverFeatures c). destruct c; reflexivity.
  - intros m1 m2 m3 (f1 & b1 & s1 & H1) (f2 & b2 & s2 & H2).
    exists f2, b2, s2. rewrite H2, H1. destruct (client m1); reflexivity.
Qed.

Lemma io_rel_conn m m' : io_rel m m' -> conn_rel m m'.
Proof.
  intros [[b H] _]. exists (fd (client m)), b, (serverFeatures (client m)).
  rewrite H. destruct (client m); reflexivity.
Qed.

Lemma eff_conn_io {A} (x : M A) : eff io_rel x -> eff conn_rel x.
Proof. apply eff_mono. apply io_rel_conn. Qed.

Lemma eff_conn_modWorld f : eff conn_rel (modWorld f).
Proof.
  intros [c w]. cbn. exists (fd c), (commBuf c), (serverFeatures c).
  destruct c; reflexivity.
Qed.

Lemma eff_conn_set_fd v : eff conn_rel (modClient (set_fd v)).
Proof.
  intros [c w]. cbn. exists v, (commBuf c), (serverFeatures c). destruct c; reflexivity.
Qed.

Lemma eff_conn_set_serverFeatures v : eff conn_rel (modClient (set_serverFeatures v)).
Proof.
  intros [c w]. cbn. exists (fd c), (commBuf c), v. destruct c; reflexivity.
Qed.
#[global] Hint Resolve eff_conn_modWorld eff_conn_set_fd eff_conn_set_serverFeatures : eff.
#[global] Hint Extern 4 (eff conn_rel _) =>
  (apply eff_conn_io; solve [auto with eff]) : eff.

Lemma eff_conn_emit e : eff conn_rel (emit e).
Proof. unfold emit. auto with eff. Qed.
#[global] Hint Resolve eff_conn_emit : eff.

Lemma eff_conn_calloc : eff conn_rel calloc.
Proof. unfold calloc. eff_auto. Qed.

Lemma eff_conn_callSocket hostname port : eff conn_rel (callSocket hostname port).
Proof. unfold callSocket. eff_auto. Qed.
#[global] Hint Resolve eff_conn_calloc eff_conn_callSocket : eff.

Lemma eff_conn_performHandshake isUAMP features :
  eff conn_rel (performHandshake isUAMP features).
Proof.
  assert (H1 : eff conn_rel (performHandshake_exchange isUAMP features))
    by (unfold performHandshake_exchange; eff_auto).
  assert (H2 : forall id ver, eff conn_rel (performHandshake_verify isUAMP features id ver))
    by (intros; unfold performHandshake_verify; eff_auto).
  assert (H3 : forall e, eff conn_rel (performHandshake_reject e))
    by (intros; unfold performHandshake_reject; eff_auto).
  assert (H4 : eff conn_rel (function performHandshake_choice))
    by (unfold performHandshake_choice; eff_auto).
  intros m. unfold performHandshake. specialize (H1 m).
  destruct (performHandshake_exchange isUAMP features m) as [[id ver] m1 | e m1 |];
    [| tauto | exact I].
  specialize (H2 id ver m1).
  destruct (performHandshake_verify isUAMP features id ver m1) as [[] m2 | e m2 |];
    [| | exact I].
  - specialize (H4 m2). destruct (function performHandshake_choice m2); auto.
    + etransitivity; [exact H1|]. etransitivity; eauto.
    + destruct H4. split; auto. etransitivity; [exact H1|]. etransitivity; eauto.
  - destruct H2 as [_ H2]. specialize (H3 e m2).
    destruct (performHandshake_reject e m2); auto.
    + etransitivity; [exact H1|]. etransitivity; eauto.
    + destruct H3. split; auto. etransitivity; [exact H1|]. etransitivity; eauto.
Qed.
#[global] Hint Resolve eff_conn_performHandshake : eff.

Lemma eff_conn_writeStates names n lens : eff conn_rel (writeStates names n lens).
Proof. apply eff_conn_io. unfold writeStates. eff_auto. Qed.
#[global] Hint Resolve eff_conn_writeStates : eff.

(** Any change at all: the judgment then bounds the error codes only. *)
Definition any_rel (m m' : machine) : Prop := True.

#[global] Instance any_rel_preorder : PreOrder any_rel.
Proof. split; intros ?; intros; exact I. Qed.

Lemma eff_any_modClient f : eff any_rel (modClient f).
Proof. intros m. exact I. Qed.

Lemma eff_any_conn {A} (x : M A) : eff conn_rel x -> eff any_rel x.
Proof. apply eff_mono. intros; exact I. Qed.

Lemma eff_any_queue {A} (x : M A) : eff queue_rel x -> eff any_rel x.
Proof. apply eff_mono. intros; exact I. Qed.

Lemma eff_initializeQueues : eff queue_rel initializeQueues.
Proof. apply eff_fillUpdateQueues. Qed.
#[global] Hint Resolve eff_any_modClient eff_initializeQueues : eff.
#[global] Hint Extern 5 (eff any_rel _) =>
  (apply eff_any_conn; solve [auto with eff]) : eff.
#[global] Hint Extern 6 (eff any_rel _) =>
  (apply eff_any_queue; solve [auto with eff]) : eff.

Lemma conn_rel_fields m m' :
  conn_rel m m' ->
  agents (client m') = agents (client m)
  /\ numAgents (client m') = numAgents (client m)
  /\ timeLimit (client m') = timeLimit (client m)
  /\ numStates (client m') = numStates (client m).
Proof. intros (f & b & s & ->). destruct (client m). cbn. auto. Qed.

Lemma Forall2_replicate_l {A B} (R : A -> B -> Prop) n x l :
  Forall2 R (replicate n x) l -> Forall (R x) l /\ length l = n.
Proof.
  revert l. induction n as [|n IH]; intros l H; inversion H; subst.
  - split; [constructor | reflexivity].
  - destruct (IH _ H4) as [IH1 IH2]. split; [constructor; auto | simpl; lia].
Qed.

(** An agent after the first fill of its queue. *)
Definition agent_fresh (a : uampAgent) : Prop :=
  currentIndex a = 0 /\ cur_time a = 0 /\ aliveInQueue a = 6 /\ recvIndex a = 0.

Lemma filled_zero tl a : filled tl zeroAgent a -> agent_ok tl a /\ agent_fresh a.
Proof.
  intros Hf.
  destruct (agent_inv_filled tl zeroAgent a [] 0 (agent_inv_zero tl) Hf) as (h & Hinv & Hh).
  change (need zeroAgent) with 6 in Hh. simpl app in Hinv.
  assert (Hlen : length h = 6%nat) by lia.
  assert (HA : (0 < length h)%nat) by lia.
  split; [exists h, O; auto|]. unfold agent_fresh.
  rewrite (inv_cur _ _ _ _ Hinv), (inv_alive _ _ _ _ Hinv), (inv_recv _ _ _ _ Hinv), Hlen.
  destruct (agent_inv_cur_time _ _ _ _ Hinv HA) as [H0 _].
  rewrite H0 by reflexivity. repeat split; reflexivity.
Qed.

(** The end of both connect functions: the cursors are zeroed and the
    queues of the freshly allocated agents filled. *)
Lemma connect_fills n m m1 m' :
  agents (client m) = Some (replicate n zeroAgent) ->
  numAgents (client m) = Z.of_nat n -> 1 <= numAgents (client m) <= INT_MAX ->
  0 <= timeLimit (client m) <= UINT32_MAX ->
  modClient (fun c => set_smallestCurrentTime 0 (set_largestLastTime 0 c)) m = Val tt m1 ->
  checked initializeQueues m1 = Val tt m' ->
  exists ags,
    session_inv (client m') ags /\ Forall agent_fresh ags
    /\ largestLastTime (client m') = 0 /\ smallestCurrentTime (client m') = 0
    /\ numStates (client m') = numStates (client m).
Proof.
  intros Hags Hn Hsome Hlimit H1 H. injection H1 as <-.
  apply checked_inv in H. destruct H as (r & H & Hr). unfold initializeQueues in H.
  match type of H with fillUpdateQueues ?x = _ => set (m1 := x) in * end.
  destruct (fillUpdateQueues_plan m1 (replicate n zeroAgent)) as [_ Hfill].
  { subst m1. cbn. rewrite <- Hags. destruct (client m); reflexivity. }
  { subst m1. cbn. rewrite length_replicate, <- Hn. destruct (client m); reflexivity. }
  { apply Forall_replicate. apply (agent_inv_bounded 0 _ [] 0). apply agent_inv_zero. }
  destruct (Hfill r m' H) as [Hr' Hdone].
  destruct (Hdone ltac:(lia)) as (done & b & HF & Hc & _).
  apply Forall2_replicate_l in HF. destruct HF as [HF Hlen].
  assert (Htl : timeLimit (client m1) = timeLimit (client m))
    by (subst m1; destruct (client m); reflexivity).
  rewrite Htl in HF.
  assert (Hfresh : Forall agent_fresh done).
  { eapply Forall_impl; [exact HF|]. intros a Ha. apply (filled_zero _ _ Ha). }
  exists done. split; [| split; [exact Hfresh|]].
  - split.
    + rewrite Hc. reflexivity.
    + rewrite Hc, Hlen. subst m1. cbn. rewrite <- Hn. destruct (client m); reflexivity.
    + rewrite Hc. subst m1. destruct (client m); exact Hsome.
    + rewrite Hc. subst m1. destruct (client m); exact Hlimit.
    + replace (timeLimit (client m')) with (timeLimit (client m))
        by (rewrite Hc; subst m1; destruct (client m); reflexivity).
      eapply Forall_impl; [exact HF|]. intros a Ha. apply (filled_zero _ _ Ha).
    + replace (smallestCurrentTime (client m')) with 0
        by (rewrite Hc; subst m1; destruct (client m); reflexivity).
      split.
      * apply Forall_map. eapply Forall_impl; [exact Hfresh|].
        intros a (_ & Ha & _). cbn. lia.
      * destruct done as [|a done]; [simpl in Hlen; lia|].
        inversion Hfresh as [|? ? (_ & Ha & _) _]; subst. simpl. rewrite Ha. constructor.
    + rewrite Hc. subst m1. destruct (client m); cbn. lia.
  - rewrite Hc. subst m1. destruct (client m); cbn. auto.
Qed.

Tactic Notation "peel" hyp(H) "as" ident(v) ident(mx) ident(Hx) :=
  cbv zeta in H; apply bind_val_inv in H; destruct H as (v & mx & Hx & H).

(** One step of a connect function that leaves the client's set-up alone. *)
Ltac peel_conn H Hrel :=
  let v := fresh "v" in
  let mx := fresh "m" in
  let Hx := fresh "Hx" in
  let Hnew := fresh "Hrel" in
  cbv zeta in H; apply bind_val_inv in H; destruct H as (v & mx & Hx & H);
  apply (eff_val conn_rel) in Hx; [| solve [eff_auto]];
  assert (Hnew := PreOrder_Transitive _ _ _ Hrel Hx); clear Hrel Hx;
  rename Hnew into Hrel.

Lemma to_u32_range v : 0 <= to_u32 v <= UINT32_MAX.
Proof.
  unfold to_u32, UINT32_MAX. pose proof (Z.mod_pos_bound v (2 ^ 32) ltac:(lia)). lia.
Qed.

(** Error codes are negative. *)
Lemma eff_not_zero {A} (x : M A) : eff any_rel x -> forall m m', x m <> Err 0 m'.
Proof. intros H m m' E. specialize (H m). rewrite E in H. lia. Qed.

(** A successful uampConnect leaves a well-formed session, every agent at
    its first update. *)
Lemma uampConnect_session hostname port nAgents tLimit seed features m0 m :
  nAgents <= INT_MAX ->
  uampConnect hostname port nAgents tLimit seed features m0 = Val 0 m ->
  exists ags,
    session_inv (client m) ags /\ Forall agent_fresh ags
    /\ largestLastTime (client m) = 0 /\ smallestCurrentTime (client m) = 0
    /\ numStates (client m) = 0.
Proof.
  intros Hmax H. unfold uampConnect in H. apply returning_inv in H.
  destruct H as (m1 & Hclean & [[_ H] | H]).
  2:{ exfalso. revert H. apply eff_not_zero.
      unfold uampInitialize. eff_auto. }
  injection Hclean as <-.
  peel H as v1 ma H1. inversion H1; subst v1 ma; clear H1.
  peel H as v2 mb H2.
  destruct ((nAgents <=? 0) || (UINT32_MAX <? to_u32 nAgents)) eqn:Hn; [discriminate|].
  inversion H2; subst v2 mb; clear H2.
  apply orb_false_iff in Hn. destruct Hn as [Hn _]. apply Z.leb_gt in Hn.
  peel H as v3 mc H3.
  destruct (PrimFloat.ltb tLimit 0 || PrimFloat.ltb UAMP_MAX_TIME tLimit);
    [discriminate|].
  inversion H3; subst v3 mc; clear H3.
  peel H as ok md H4. apply (eff_val conn_rel) in H4; [| auto with eff].
  peel H as v5 me H5. destruct ok; [| discriminate]. inversion H5; subst v5 me; clear H5.
  peel H as v6 mf H6. inversion H6; subst v6 mf; clear H6.
  peel H as ms mg H7.
  match type of H7 with
  | to_millis _ ?mm = _ => destruct (to_millis_run tLimit mm) as (v & Hms & _)
  end.
  rewrite Hms in H7. clear Hms.
  inversion H7; subst ms mg; clear H7.
  peel H as v8 mh H8. inversion H8; subst v8 mh; clear H8.
  peel H as v9 mi H9. inversion H9; subst v9 mi; clear H9.
  match type of H with _ ?x = _ => set (m8 := x) in * end.
  assert (Hf : agents (client m8) = Some (replicate (Z.to_nat nAgents) zeroAgent)
               /\ numAgents (client m8) = nAgents
               /\ timeLimit (client m8) = to_u32 v
               /\ numStates (client m8) = 0).
  { subst m8. cbn. repeat split. apply to_u32_small. unfold INT_MAX in Hmax. lia. }
  clearbody m8. clear H4.
  assert (Hrel : conn_rel m8 m8) by reflexivity.
  peel_conn H Hrel. peel_conn H Hrel. peel_conn H Hrel. peel_conn H Hrel.
  peel_conn H Hrel. peel_conn H Hrel. peel_conn H Hrel. peel_conn H Hrel.
  peel_conn H Hrel. peel_conn H Hrel. peel_conn H Hrel.
  peel H as v12 mk H1. destruct v12.
  apply conn_rel_fields in Hrel. destruct Hrel as (Ra & Rn & Rt & Rs).
  destruct Hf as (Fa & Fn & Ft & Fs).
  destruct (connect_fills (Z.to_nat nAgents) _ _ _
              ltac:(rewrite Ra; exact Fa) ltac:(rewrite Rn, Fn; lia)
              ltac:(rewrite Rn, Fn; lia)
              ltac:(rewrite Rt, Ft; apply to_u32_range) H1 H)
    as (ags & Hs & Hfresh & Hl & Hsm & Hns).
  exists ags. split; [exact Hs|]. split; [exact Hfresh|]. split; [exact Hl|].
  split; [exact Hsm|]. rewrite Hns, Rs, Fs. reflexivity.
Qed.

Ltac peel_skip H :=
  let v := fresh "v" in
  let mx := fresh "m" in
  let Hx := fresh "Hx" in
  cbv zeta in H; apply bind_val_inv in H; destruct H as (v & mx & Hx & H); clear Hx.

Lemma byte_val_range b : 0 <= byte_val b < 256.
Proof. unfold byte_val. pose proof (Byte.to_N_bounded b). lia. Qed.

Lemma decode32_range bs : 0 <= decode32 bs <= UINT32_MAX.
Proof.
  unfold decode32, UINT32_MAX.
  destruct bs as [|b0 [|b1 [|b2 [|b3 [|]]]]]; try lia.
  pose proof (byte_val_range b0). pose proof (byte_val_range b1).
  pose proof (byte_val_range b2). pose proof (byte_val_range b3). lia.
Qed.

Lemma socketRead32_range sock m v m' :
  checked_with (socketRead32 sock) m = Val v m' -> 0 <= v <= UINT32_MAX.
Proof.
  unfold checked_with. intros H.
  apply bind_val_inv in H. destruct H as (r & m1 & H1 & H).
  apply bind_val_inv in H. destruct H as ([] & m2 & _ & H).
  injection H as <- _. unfold socketRead32 in H1.
  apply bind_val_inv in H1. destruct H1 as (q & m3 & _ & H1).
  destruct (negb (fst q =? 0)); injection H1 as <- _; cbn.
  - unfold UINT32_MAX. lia.
  - apply decode32_range.
Qed.

Lemma to_int_small v : 0 <= v <= INT_MAX -> to_int v = v.
Proof.
  unfold to_int, INT_MAX. intros H.
  rewrite Z.mod_small by lia. lia.
Qed.

(** A successful mvispConnect leaves a well-formed session, every agent at
    its first update. *)
Lemma mvispConnect_session hostname port naPtr tlPtr names nStates accept features m0 m :
  mvispConnect hostname port naPtr tlPtr names nStates accept features m0 = Val 0 m ->
  exists ags,
    session_inv (client m) ags /\ Forall agent_fresh ags
    /\ largestLastTime (client m) = 0 /\ smallestCurrentTime (client m) = 0.
Proof.
  intros H. unfold mvispConnect in H.
  peel_skip H. peel H as vs mb Hvs. clear Hvs.
  apply returning_inv in H. destruct H as (mz & Hclean & [[_ H] | H]).
  2:{ exfalso. revert H. apply eff_not_zero. eff_auto. }
  assert (Hm : client m = client mz).
  { cbn in Hclean. destruct (snd vs); injection Hclean as <-; reflexivity. }
  rewrite Hm. clear Hclean Hm m.
  peel_skip H. peel_skip H. peel_skip H. peel_skip H. peel_skip H.
  peel H as c mc Hc. clear Hc.
  peel_skip H.
  peel H as naInput md Hna. apply socketRead32_range in Hna.
  peel H as tlInput me Htl. apply socketRead32_range in Htl.
  peel H as u1 mf H1. destruct (Z.eqb_spec naInput 0) as [|Hna0]; [discriminate|]. clear H1.
  peel_skip H. peel_skip H.
  peel H as denied mg Hd.
  peel H as u2 mh Hden.
  assert (Hok : naInput <= INT_MAX /\ denied = false).
  { destruct denied.
    - exfalso. peel_skip Hden. peel_skip Hden. discriminate.
    - split; auto. destruct (Z.ltb_spec INT_MAX naInput); [discriminate | auto]. }
  destruct Hok as [Hmax ->]. clear Hd Hden.
  peel H as ok mo Hcalloc. clear Hcalloc.
  peel H as u3 mi H3. destruct ok; [| discriminate]. inversion H3; subst u3 mi; clear H3.
  peel H as u4 mj H4. inversion H4; subst u4 mj; clear H4.
  peel H as u5 mk H5. inversion H5; subst u5 mk; clear H5.
  peel H as u6 ml H6. inversion H6; subst u6 ml; clear H6.
  match type of H with _ ?x = _ => set (mset := x) in * end.
  assert (Hf : agents (client mset) = Some (replicate (Z.to_nat naInput) zeroAgent)
               /\ numAgents (client mset) = naInput
               /\ timeLimit (client mset) = tlInput).
  { subst mset. cbn. rewrite to_int_small by lia. auto. }
  clearbody mset.
  assert (Hrel : conn_rel mset mset) by reflexivity.
  peel_conn H Hrel.
  peel H as v12 mk H1. destruct v12.
  apply conn_rel_fields in Hrel. destruct Hrel as (Ra & Rn & Rt & Rs).
  destruct Hf as (Fa & Fn & Ft).
  destruct (connect_fills (Z.to_nat naInput) _ _ _
              ltac:(rewrite Ra; exact Fa) ltac:(rewrite Rn, Fn; lia)
              ltac:(rewrite Rn, Fn; lia)
              ltac:(rewrite Rt, Ft; exact Htl) H1 H)
    as (ags & Hs & Hfresh & Hl & Hsm & Hns).
  exists ags. auto.
Qed.

(* ===================================================================== *)
(** ** Connected sessions *)
(* ===================================================================== *)

(** A connect function returned 0.  ([nAgents] is a C [int].) *)
Inductive connected : machine -> Prop :=
| connected_uamp hostname port nAgents tLimit seed features m0 m :
    nAgents <= INT_MAX ->
    uampConnect hostname port nAgents tLimit seed features m0 = Val 0 m ->
    connected m
| connected_mvisp hostname port naPtr tlPtr names nStates accept features m0 m :
    mvispConnect hostname port naPtr tlPtr names nStates accept features m0 = Val 0 m ->
    connected m.

(** A run of advance and advance-oldest calls that all returned 0. *)
Inductive advances : machine -> machine -> Prop :=
| advances_none m : advances m m
| advances_agent j m m1 m' :
    uampAdvance j m = Val 0 m1 -> advances m1 m' -> advances m m'
| advances_oldest m m1 m' :
    uampAdvanceOldest m = Val 0 m1 -> advances m1 m' -> advances m m'.

(** The states of a connected session: since the connect, every call
    returned 0. *)
Inductive reachable : machine -> Prop :=
| reach_connected m : connected m -> reachable m
| reach_uampAdvance j m m' :
    reachable m -> uampAdvance j m = Val 0 m' -> reachable m'
| reach_uampAdvanceOldest m m' :
    reachable m -> uampAdvanceOldest m = Val 0 m' -> reachable m'
| reach_uampChangeState j t s m m' :
    reachable m -> uampChangeState j t s m = Val 0 m' -> reachable m'.

Lemma connected_session m :
  connected m ->
  exists ags,
    session_inv (client m) ags /\ Forall agent_fresh ags
    /\ largestLastTime (client m) = 0 /\ smallestCurrentTime (client m) = 0.
Proof.
  intros [? ? ? ? ? ? ? ? Hmax H | ? ? ? ? ? ? ? ? ? ? H].
  - destruct (uampConnect_session _ _ _ _ _ _ _ _ Hmax H) as (ags & H1 & H2 & H3 & H4 & _).
    exists ags. auto.
  - apply (mvispConnect_session _ _ _ _ _ _ _ _ _ _ H).
Qed.

Lemma reachable_session m : reachable m -> exists ags, session_inv (client m) ags.
Proof.
  induction 1 as [m Hc | j m m' _ IH H | m m' _ IH H | j t s m m' _ IH H].
  - destruct (connected_session m Hc) as (ags & Hs & _). exists ags. exact Hs.
  - apply (uampAdvance_step _ _ _ H IH).
  - apply (uampAdvanceOldest_step _ _ H IH).
  - apply (uampChangeState_step _ _ _ _ _ _ H IH).
Qed.

Lemma advances_step m m' : advances m m' -> session_step m m'.
Proof.
  induction 1 as [m | j m m1 m' H _ IH | m m1 m' H _ IH].
  - apply session_step_refl.
  - apply (session_step_trans _ m1); [apply (uampAdvance_step _ _ _ H) | exact IH].
  - apply (session_step_trans _ m1); [apply (uampAdvanceOldest_step _ _ H) | exact IH].
Qed.

(** Claim C2.  From any state of a connected session, across every run of
    successful uampAdvance and uampAdvanceOldest calls, largestLastTime does
    not decrease, smallestCurrentTime does not decrease, and at the end of
    the run smallestCurrentTime is the minimum of the agents' current
    update times; right after the connect both cursors are 0 and every
    agent's current update has time 0. *)
Theorem cursors_monotone_and_minimal m m' :
  reachable m -> advances m m' ->
  largestLastTime (client m) <= largestLastTime (client m')
  /\ smallestCurrentTime (client m) <= smallestCurrentTime (client m')
  /\ (exists ags',
        agents (client m') = Some ags'
        /\ min_of (map cur_time ags') (smallestCurrentTime (client m')))
  /\ (connected m ->
      largestLastTime (client m) = 0 /\ smallestCurrentTime (client m) = 0
      /\ exists ags,
           agents (client m) = Some ags /\ Forall (fun a => cur_time a = 0) ags).
Proof.
  intros Hreach Hadv.
  destruct (advances_step m m' Hadv (reachable_session m Hreach)) as ([ags' Hs'] & Hl & Hs).
  split; [exact Hl|]. split; [exact Hs|]. split.
  - exists ags'. split; [apply (ses_agents _ _ Hs') | apply (ses_smallest _ _ Hs')].
  - intros Hc. destruct (connected_session m Hc) as (ags & Hses & Hfresh & H1 & H2).
    split; [exact H1|]. split; [exact H2|].
    exists ags. split; [apply (ses_agents _ _ Hses)|].
    eapply Forall_impl; [exact Hfresh|]. intros a (_ & Ha & _). exact Ha.
Qed.

(* ===================================================================== *)
(** ** What aliveInQueue counts *)
(* ===================================================================== *)

(** The updates that are the current one or are still to be consumed: the
    slots from [currentIndex] up to, not including, [recvIndex], in ring
    order (between two calls there is at least the current one, so equal
    indices mean a ring full of them). *)
Definition unconsumed (a : uampAgent) : Z :=
  (recvIndex a - currentIndex a - 1) mod UAMP_UPDATE_QUEUE_SIZE + 1.

(** The previous update, kept once the agent advanced (line 63 tells by
    the time of the current update). *)
Definition kept_previous (a : uampAgent) : Z := if cur_time a =? 0 then 0 else 1.

Definition cursor_bounds (a : uampAgent) : Prop :=
  0 <= currentIndex a < 6 /\ 0 <= recvIndex a < 6 /\ 0 <= aliveInQueue a <= 6.

Lemma agent_bounded_cursors a : agent_bounded a -> cursor_bounds a.
Proof. intros (_ & H). exact H. Qed.

Lemma agent_ok_unconsumed tl a h A :
  agent_inv tl a h A -> (A < length h)%nat ->
  unconsumed a = Z.of_nat (length h) - Z.of_nat A
  /\ kept_previous a = (if A is O then 0 else 1).
Proof.
  intros Hinv HA. destruct (agent_inv_cur_time _ _ _ _ Hinv HA) as [H0 Hpos].
  pose proof (inv_room _ _ _ _ Hinv) as Hroom. split.
  - unfold unconsumed, UAMP_UPDATE_QUEUE_SIZE.
    rewrite (inv_recv _ _ _ _ Hinv), (inv_cur _ _ _ _ Hinv), !Nat2Z.inj_mod.
    change (Z.of_nat 6) with 6.
    assert (Hr : 0 <= Z.of_nat (length h) - Z.of_nat A - 1 < 6).
    { destruct A; simpl in Hroom; lia. }
    revert Hr. generalize (Z.of_nat (length h)), (Z.of_nat A).
    intros x y Hr. Z.div_mod_to_equations. lia.
  - unfold kept_previous. destruct A.
    + rewrite H0 by reflexivity. reflexivity.
    + destruct (Z.eqb_spec (cur_time a) 0); [lia | reflexivity].
Qed.

Lemma agent_ok_alive tl a :
  agent_ok tl a -> aliveInQueue a = unconsumed a + kept_previous a.
Proof.
  intros (h & A & Hinv & HA).
  destruct (agent_ok_unconsumed _ _ _ _ Hinv HA) as [-> ->].
  rewrite (inv_alive _ _ _ _ Hinv). destruct A; simpl; lia.
Qed.

Lemma reachable_agent_ok m ags a :
  reachable m -> agents (client m) = Some ags -> a ∈ ags ->
  agent_ok (timeLimit (client m)) a.
Proof.
  intros Hr Hags Ha. destruct (reachable_session m Hr) as [ags' Hs].
  pose proof (ses_agents _ _ Hs) as Hags'. rewrite Hags in Hags'. injection Hags' as <-.
  pose proof (ses_queues _ _ Hs) as Hq. rewrite Forall_forall in Hq. apply Hq. exact Ha.
Qed.

(* ===================================================================== *)
(** ** A session with two agents *)
(* ===================================================================== *)

(** A client structure before uampConnect, and a server that accepts the
    connection and sends [rx]. *)
Definition sample_client : uampClient :=
  mkClient 0 (mkIOBuffer 0 0 []) 0 0 0 0 None 0 0 (replicate 128 (mkState 0 0 0)) 0.

Definition sample_world (rx : list byte) : world :=
  mkWorld true (Some 3%N) true [] rx false None [].

(** A two-dimensional location reply. *)
Definition sample_reply (t x y : Z) : list byte := encode32 t ++ encode32 x ++ encode32 y.

(** The server's side of a UAMP session with two agents and a time limit of
    one second: handshake, acceptance, six replies for either agent, and
    five more for agent 0. *)
Definition sample_stream : list byte :=
  tag_UAMP ++ [to_byte 0x80] ++ encode32 0 ++ [to_byte 0x80] ++ [to_byte 0x00]
  ++ sample_reply 0 10 10 ++ sample_reply 100 20 20 ++ sample_reply 200 30 30
  ++ sample_reply 300 40 40 ++ sample_reply 400 50 50 ++ sample_reply 500 60 60
  ++ sample_reply 0 1 1 ++ sample_reply 150 2 2 ++ sample_reply 1000 3 3
  ++ sample_reply 1000 3 3 ++ sample_reply 1000 3 3 ++ sample_reply 1000 3 3
  ++ sample_reply 600 1 1 ++ sample_reply 700 1 1 ++ sample_reply 1000 1 1
  ++ sample_reply 1000 1 1 ++ sample_reply 1000 1 1.

Definition sample_start : machine := mkMachine sample_client (sample_world sample_stream).

(** The machine a call leaves. *)
Definition after {A} (x : M A) (m : machine) : machine :=
  match x m with Val _ m' => m' | Err _ m' => m' | Fault _ => m end.

Definition sample_connected : machine :=
  after (uampConnect "h" 80 2 1%float 42 0) sample_start.
Definition sample_advanced : machine := after uampAdvanceOldest sample_connected.

Lemma sample_connected_run :
  uampConnect "h" 80 2 1%float 42 0 sample_start = Val 0 sample_connected.
Proof. vm_compute. reflexivity. Qed.

Lemma sample_advanced_run : uampAdvanceOldest sample_connected = Val 0 sample_advanced.
Proof. vm_compute. reflexivity. Qed.

Lemma sample_is_connected : connected sample_connected.
Proof.
  apply (connected_uamp "h" 80 2 1%float 42 0 sample_start).
  - unfold INT_MAX. lia.
  - exact sample_connected_run.
Qed.

Lemma sample_advanced_reachable : reachable sample_advanced.
Proof.
  apply (reach_uampAdvanceOldest sample_connected).
  - apply reach_connected. exact sample_is_connected.
  - exact sample_advanced_run.
Qed.

(** The session of the worked example after one uampAdvanceOldest: both
    agents moved to their second update, all six updates they received are
    alive, the first of them being the previous one. *)
Lemma aliveInQueue_counts_the_previous_update :
  exists m ags a,
    reachable m /\ agents (client m) = Some ags /\ a ∈ ags
    /\ aliveInQueue a = 6 /\ unconsumed a = 5 /\ aliveInQueue a <> unconsumed a.
Proof.
  exists sample_advanced.
  eexists. eexists.
  split; [exact sample_advanced_reachable|].
  split; [vm_compute; reflexivity|].
  split; [constructor|].
  split; [vm_compute; reflexivity|].
  split; [vm_compute; reflexivity|].
  vm_compute. discriminate.
Qed.

Lemma recv_step_cursors tl a a' :
  agent_bounded a -> aliveInQueue a < 6 -> recv_step tl a a' ->
  cursor_bounds a' /\ aliveInQueue a' = aliveInQueue a + 1
  /\ recvIndex a' = ring_succ (recvIndex a) /\ currentIndex a' = currentIndex a.
Proof.
  intros Hb Hlt Hstep.
  destruct (recv_step_bounded tl a a' Hb Hlt Hstep) as [Hb' Ha'].
  split; [apply (agent_bounded_cursors _ Hb')|]. split; [exact Ha'|].
  destruct Hstep as [u Hv]. apply verified_ok in Hv. cbn zeta in Hv.
  destruct Hv as (rf' & -> & _). split; reflexivity.
Qed.

(** Claim C5, amended.  In every state of a connected session and for
    every agent, aliveInQueue is the number of updates that are the current
    one or still to be consumed, plus one for the previous update once the
    agent advanced (the current update's time is no longer 0); the current
    update is always there; the bounds 0 <= currentIndex < 6,
    0 <= recvIndex < 6 and 0 <= aliveInQueue <= 6 hold.  advanceAgent moves
    the agent to [consumed], which keeps the bounds, before it may refill the
    queues, and when it returns 0 (called, as uampAdvance does, before the
    time limit) the count and the bounds hold of every agent again.  A
    reply that receiveReply accepts keeps the bounds as well, in whatever
    state it is received, the states in the middle of a refill among them:
    if the agent's ring has its six slots, the bounds hold and aliveInQueue
    is below 6, they hold afterwards, with one more update alive and
    recvIndex one slot on in the ring. *)
Theorem aliveInQueue_counts_and_bounds m ags j a :
  reachable m -> agents (client m) = Some ags -> at_index ags j = Some a ->
  cursor_bounds a
  /\ aliveInQueue a = unconsumed a + kept_previous a
  /\ 1 <= unconsumed a
  /\ advanceAgent j m
     = (setAgent j (consumed a) ;;
        if aliveInQueue (consumed a) =? 1 then fillUpdateQueues else ret 0) m
  /\ length (updates (consumed a)) = 6%nat
  /\ cursor_bounds (consumed a)
  /\ (forall m',
        cur_time a <> timeLimit (client m) -> advanceAgent j m = Val 0 m' ->
        exists ags',
          agents (client m') = Some ags' /\ length ags' = length ags
          /\ Forall (fun a' => cursor_bounds a'
                               /\ aliveInQueue a' = unconsumed a' + kept_previous a') ags')
  /\ (forall mr agsr ar m',
        agents (client mr) = Some agsr -> at_index agsr j = Some ar ->
        length (updates ar) = 6%nat -> cursor_bounds ar -> aliveInQueue ar < 6 ->
        receiveReply j mr = Val 0 m' ->
        exists a' b,
          client m' = set_agents (Some (<[Z.to_nat j := a']> agsr))
                                 (set_commBuf b (client mr))
          /\ length (updates a') = 6%nat
          /\ cursor_bounds a' /\ aliveInQueue a' = aliveInQueue ar + 1
          /\ recvIndex a' = ring_succ (recvIndex ar)
          /\ currentIndex a' = currentIndex ar).
Proof.
  intros Hreach Hags Hj.
  assert (Hin : a ∈ ags).
  { apply at_index_Some in Hj. destruct Hj as [_ Hj]. eapply list_elem_of_lookup_2; eauto. }
  pose proof (reachable_agent_ok m ags a Hreach Hags Hin) as Hok.
  pose proof (agent_ok_alive _ _ Hok) as Halive.
  destruct Hok as (h & A & Hinv & HA).
  pose proof (agent_inv_bounded _ _ _ _ Hinv) as Hb.
  destruct (agent_ok_unconsumed _ _ _ _ Hinv HA) as [Hun _].
  pose proof (agent_inv_bounded _ _ _ _ (agent_inv_advance _ _ _ _ Hinv HA)) as Hbc.
  split; [apply (agent_bounded_cursors _ Hb)|]. split; [exact Halive|].
  split; [lia|]. split; [| split; [| split; [| split]]].
  - apply advanceAgent_consumes.
    + apply (getAgent_run m ags j a Hags Hj).
    + destruct Hb as (Hl & Hc & _). unfold UAMP_UPDATE_QUEUE_SIZE in Hc. lia.
  - destruct Hbc as (Hl & _). exact Hl.
  - apply (agent_bounded_cursors _ Hbc).
  - intros m' Hnot Hadv.
    destruct (reachable_session m Hreach) as [ags0 Hs].
    pose proof (ses_agents _ _ Hs) as Hags0. rewrite Hags in Hags0. injection Hags0 as <-.
    pose proof (ses_queues _ _ Hs) as Hq.
    apply at_index_Some in Hj. destruct Hj as [Hj0 Hlk].
    pose proof (lookup_lt_Some _ _ _ Hlk) as Hlt.
    pose proof (take_drop_middle _ _ _ Hlk) as Hsplit.
    set (pre := take (Z.to_nat j) ags) in *. set (post := drop (S (Z.to_nat j)) ags) in *.
    assert (Hpre : j = Z.of_nat (length pre)).
    { unfold pre. rewrite length_take. lia. }
    rewrite <- Hsplit in Hq. apply Forall_app in Hq. destruct Hq as [Hq1 Hq2].
    apply Forall_cons in Hq2. destruct Hq2 as [_ Hq3].
    rewrite Hpre in Hadv.
    destruct (advanceAgent_session m pre a post h A 0 m'
                ltac:(rewrite Hsplit; exact Hags)
                ltac:(rewrite Hsplit; exact (ses_count _ _ Hs))
                Hq1 Hq3 Hinv HA Hnot Hadv) as [_ Hres].
    destruct (Hres eq_refl)
      as (pre' & a' & post' & b & h' & Hc & _ & Hp1 & Hp2 & Hm1 & Hm2 & Hinv' & HA').
    assert (Hall : Forall (agent_ok (timeLimit (client m))) (pre' ++ a' :: post')).
    { apply Forall_app. split; [exact Hp1|]. constructor; [| exact Hp2].
      exists (h ++ h'), (S A). auto. }
    exists (pre' ++ a' :: post'). split; [rewrite Hc; reflexivity|]. split.
    + rewrite <- Hsplit, !length_app. cbn [length].
      rewrite <- (length_map cur_time pre'), <- (length_map cur_time post'), Hm1, Hm2.
      rewrite !length_map. reflexivity.
    + eapply Forall_impl; [exact Hall|]. intros x Hx. split.
      * apply agent_bounded_cursors. apply (agent_ok_bounded _ _ Hx).
      * apply (agent_ok_alive _ _ Hx).
  - intros mr agsr ar m' Hagsr Hjr Hlen Hcb Hroom Hrecv.
    assert (Hbr : agent_bounded ar) by (split; [exact Hlen | exact Hcb]).
    destruct (receiveReply_accepts j mr m' agsr ar Hagsr Hjr) as (a' & b & Hstep & Hc & _); auto.
    { destruct Hcb as (_ & Hr & _). exact Hr. }
    { rewrite Hlen. reflexivity. }
    exists a', b. split; [exact Hc|].
    destruct (recv_step_bounded _ _ _ Hbr Hroom Hstep) as [(Hl' & _) _].
    split; [exact Hl'|].
    apply (recv_step_cursors _ _ _ Hbr Hroom Hstep).
Qed.

(* ===================================================================== *)
(** ** uampIntersectCommand *)
(* ===================================================================== *)

Lemma getPreviousUpdate_run m ags j a :
  agents (client m) = Some ags -> at_index ags j = Some a ->
  0 <= currentIndex a < Z.of_nat (length (updates a)) ->
  getPreviousUpdate j m
  = Val (j, if cur_time a =? 0 then currentIndex a else ring_pred (currentIndex a)) m.
Proof.
  intros H1 H2 Hc. unfold getPreviousUpdate. unfold bind at 1.
  rewrite (getAgent_run m ags j a) by auto.
  unfold bind at 1. rewrite getUpdate_run by auto. reflexivity.
Qed.

Lemma session_first_update c ags a :
  session_inv c ags -> a ∈ ags -> cur_time a = 0 ->
  largestLastTime c <= smallestCurrentTime c ->
  largestLastTime c = 0 /\ smallestCurrentTime c = 0.
Proof.
  intros Hs Ha H0 Hle. destruct (ses_smallest _ _ Hs) as [Hmin Hin].
  pose proof (ses_largest _ _ Hs) as Hl.
  assert (Hs0 : smallestCurrentTime c <= 0).
  { rewrite Forall_forall in Hmin. rewrite <- H0. apply Hmin.
    apply list_elem_of_fmap. exists a. auto. }
  lia.
Qed.

(** Claim C3.  For an agent of a connected session, uampIntersectCommand
    returns ERROR_NO_INTERSECTION, and writes no command, when
    largestLastTime > smallestCurrentTime; otherwise it returns 0 with a
    command whose fromTime is largestLastTime / 1000.0 and whose toTime is
    smallestCurrentTime / 1000.0.  When the current update's time is not 0
    the points are on the line from the previous to the current update: the
    coordinate at time [t] is the previous one plus the fraction
    [(t - previous time) / (current time - previous time)] of the
    difference of the two, over 1000.0, in double arithmetic; the from point
    is taken at largestLastTime, the to point at smallestCurrentTime, and
    present is the previous update's flag.  When it is 0 both points are the
    current update's point and present is the current update's flag. *)
Theorem uampIntersectCommand_interpolates m ags j a :
  reachable m -> agents (client m) = Some ags -> at_index ags j = Some a ->
  let largest := largestLastTime (client m) in
  let smallest := smallestCurrentTime (client m) in
  let current := slot a (currentIndex a) in
  let last := slot a (ring_pred (currentIndex a)) in
  let thousandth_of v := PrimFloat.div (u32_to_double v) 1000%float in
  let delta f := PrimFloat.sub (u32_to_double (f current)) (u32_to_double (f last)) in
  let frac t :=
    PrimFloat.div (PrimFloat.sub (u32_to_double t) (u32_to_double (u_time last)))
                  (delta u_time) in
  let at_time t f :=
    PrimFloat.div
      (PrimFloat.add (u32_to_double (f last)) (PrimFloat.mul (frac t) (delta f)))
      1000%float in
  (smallest < largest ->
   uampIntersectCommand j m = Val (ERROR_NO_INTERSECTION, None) m)
  /\ (largest <= smallest ->
      exists cmd,
        uampIntersectCommand j m = Val (0, Some cmd) m
        /\ agentID cmd = j
        /\ fromTime cmd = thousandth_of largest /\ toTime cmd = thousandth_of smallest
        /\ (u_time current <> 0 ->
            fromX cmd = at_time largest u_x
            /\ fromY cmd = at_time largest u_y
            /\ fromZ cmd = at_time largest u_z
            /\ toX cmd = at_time smallest u_x
            /\ toY cmd = at_time smallest u_y
            /\ toZ cmd = at_time smallest u_z
            /\ present cmd = u_present last)
        /\ (u_time current = 0 ->
            fromX cmd = thousandth_of (u_x current) /\ toX cmd = thousandth_of (u_x current)
            /\ fromY cmd = thousandth_of (u_y current) /\ toY cmd = thousandth_of (u_y current)
            /\ fromZ cmd = thousandth_of (u_z current) /\ toZ cmd = thousandth_of (u_z current)
            /\ present cmd = u_present current)).
Proof.
  intros Hreach Hags Hj largest smallest current last thousandth_of delta frac at_time.
  destruct (reachable_session m Hreach) as [ags' Hs].
  pose proof (ses_agents _ _ Hs) as Hags'. rewrite Hags in Hags'. injection Hags' as <-.
  assert (Hin : a ∈ ags).
  { apply at_index_Some in Hj. destruct Hj as [_ Hj]. eapply list_elem_of_lookup_2; eauto. }
  pose proof (ses_queues _ _ Hs) as Hq. rewrite Forall_forall in Hq.
  pose proof (agent_ok_bounded _ _ (Hq a Hin)) as (Hlen & Hcur & _).
  unfold UAMP_UPDATE_QUEUE_SIZE in Hcur.
  assert (Hvalid : valid_agentID (client m) j = true).
  { apply at_index_bound in Hj. unfold valid_agentID. rewrite (ses_count _ _ Hs).
    apply andb_true_iff. split; [apply Z.leb_le | apply Z.ltb_lt]; lia. }
  assert (Hstart : uampIntersectCommand j m
            = (if smallest <? largest then ret (ERROR_NO_INTERSECTION, None)
               else
                 pl <- getPreviousUpdate j ;;
                 pc <- getCurrentUpdate j ;;
                 last <- deref pl ;;
                 current <- deref pc ;;
                 if u_time current =? 0 then
                   ret (0, Some (mkCommand j
                          (thousandth (u_x current)) (thousandth (u_y current))
                          (thousandth (u_z current)) 0%float
                          (thousandth (u_x current)) (thousandth (u_y current))
                          (thousandth (u_z current)) 0%float
                          (u_present current)))
                 else
                   let delta f :=
                     PrimFloat.sub (u32_to_double (f current)) (u32_to_double (f last)) in
                   let frac t :=
                     PrimFloat.div
                       (PrimFloat.sub (u32_to_double t) (u32_to_double (u_time last)))
                       (delta u_time) in
                   ret (0, Some (mkCommand j
                          (interpolate (u32_to_double (u_x last)) (frac largest) (delta u_x))
                          (interpolate (u32_to_double (u_y last)) (frac largest) (delta u_y))
                          (interpolate (u32_to_double (u_z last)) (frac largest) (delta u_z))
                          (thousandth largest)
                          (interpolate (u32_to_double (u_x last)) (frac smallest) (delta u_x))
                          (interpolate (u32_to_double (u_y last)) (frac smallest) (delta u_y))
                          (interpolate (u32_to_double (u_z last)) (frac smallest) (delta u_z))
                          (thousandth smallest)
                          (u_present last)))) m).
  { unfold uampIntersectCommand. unfold bind at 1. unfold getClient at 1. cbn beta iota.
    unfold bind at 1. rewrite Hvalid. reflexivity. }
  rewrite Hstart. clear Hstart. split.
  - intros Hlt. apply Z.ltb_lt in Hlt. rewrite Hlt. reflexivity.
  - intros Hle. destruct (Z.ltb_spec smallest largest) as [|_]; [lia|].
    unfold bind at 1. rewrite (getPreviousUpdate_run m ags j a) by (auto; lia).
    unfold bind at 1. rewrite (getCurrentUpdate_run m ags j a) by auto.
    fold current. change (cur_time a) with (u_time current).
    destruct (Z.eqb_spec (u_time current) 0) as [H0 | Hne].
    + unfold bind at 1. rewrite (deref_run m ags j a) by (auto; lia).
      unfold bind at 1. rewrite (deref_run m ags j a) by (auto; lia).
      fold current. destruct (Z.eqb_spec (u_time current) 0) as [_ | ?]; [| lia].
      eexists. split; [reflexivity|]. cbn [agentID fromTime toTime fromX fromY fromZ
        toX toY toZ present].
      destruct (session_first_update _ _ a Hs Hin H0 Hle) as [Hl0 Hs0].
      subst largest smallest. rewrite Hl0, Hs0.
      split; [reflexivity|]. split; [reflexivity|]. split; [reflexivity|].
      split; [intros; lia|]. intros _. repeat split; reflexivity.
    + assert (Hp : 0 <= ring_pred (currentIndex a) < 6).
      { apply ring_pred_bound. unfold UAMP_UPDATE_QUEUE_SIZE. lia. }
      unfold bind at 1. rewrite (deref_run m ags j a) by (auto; lia).
      unfold bind at 1. rewrite (deref_run m ags j a) by (auto; lia).
      fold current last. destruct (Z.eqb_spec (u_time current) 0) as [? | _]; [lia|].
      eexists. split; [reflexivity|]. cbn [agentID fromTime toTime fromX fromY fromZ
        toX toY toZ present].
      split; [reflexivity|]. split; [reflexivity|]. split; [reflexivity|].
      split; [intros _; repeat split; reflexivity | intros; lia].
Qed.

(* ===================================================================== *)
(** ** mvispConnect: the out-parameters and the callback *)
(* ===================================================================== *)

(** An event that is neither a store through an out-pointer of mvispConnect
    nor a call of its callback. *)
Definition quiet (e : event) : Prop :=
  match e with
  | EvStoreNumAgents _ | EvStoreTimeLimit _ | EvAccept _ _ => False
  | _ => True
  end.

Definition quiet_rel (m m' : machine) : Prop :=
  exists evs, w_log (env m') = w_log (env m) ++ evs /\ Forall quiet evs.

#[global] Instance quiet_rel_preorder : PreOrder quiet_rel.
Proof.
  split.
  - intros m. exists []. rewrite app_nil_r. auto.
  - intros m1 m2 m3 (e1 & H1 & Q1) (e2 & H2 & Q2). exists (e1 ++ e2).
    rewrite H2, H1, app_assoc. split; auto. apply Forall_app. auto.
Qed.

Lemma world_io_quiet m m' : world_io (env m) (env m') -> quiet_rel m m'.
Proof.
  intros (_ & _ & _ & _ & evs & H & Hw). exists evs. split; auto.
  eapply Forall_impl; [exact Hw|]. intros [] He; simpl in *; auto.
Qed.

Lemma eff_quiet_io {A} (x : M A) : eff io_rel x -> eff quiet_rel x.
Proof. apply eff_mono. intros m m' [_ H]. apply world_io_quiet. exact H. Qed.

Lemma eff_quiet_queue {A} (x : M A) : eff queue_rel x -> eff quiet_rel x.
Proof. apply eff_mono. intros m m' [_ H]. apply world_io_quiet. exact H. Qed.

Lemma eff_quiet_modClient f : eff quiet_rel (modClient f).
Proof. intros m. cbn. exists []. rewrite app_nil_r. auto. Qed.

Lemma eff_quiet_emit e : quiet e -> eff quiet_rel (emit e).
Proof. intros He m. cbn. exists [e]. split; [reflexivity | constructor; auto]. Qed.

Lemma eff_quiet_calloc : eff quiet_rel calloc.
Proof.
  intros m. unfold calloc, bind, getWorld. destruct (w_calloc (env m)); cbn.
  - reflexivity.
  - exists []. rewrite app_nil_r. destruct (env m); cbn. auto.
Qed.
#[global] Hint Resolve eff_quiet_modClient eff_quiet_calloc : eff.
#[global] Hint Extern 4 (eff quiet_rel (emit _)) =>
  (apply eff_quiet_emit; exact I) : eff.
#[global] Hint Extern 5 (eff quiet_rel _) =>
  (apply eff_quiet_io; solve [auto with eff]) : eff.
#[global] Hint Extern 6 (eff quiet_rel _) =>
  (apply eff_quiet_queue; solve [auto with eff]) : eff.

Lemma eff_quiet_writeStates names n lens : eff quiet_rel (writeStates names n lens).
Proof. apply eff_quiet_io. unfold writeStates. eff_auto. Qed.

Lemma eff_quiet_connect_cleanup e : eff quiet_rel (connect_cleanup e).
Proof. unfold connect_cleanup. eff_auto. Qed.
#[global] Hint Resolve eff_quiet_writeStates eff_quiet_connect_cleanup : eff.

(** mvispConnect from the connection to the server's offer (lines 132-145):
    the client as it is after the handshake, [naInput] and [tlInput]. *)
Definition mvisp_offer (hostname : string) (port : Z) (supportedFeatures : Z)
    (vs : Z * option (list Z)) : M (uampClient * Z * Z) :=
  ERROR_CHECK (fst vs) ;;
  sock <- callSocket hostname port ;;
  modClient (set_fd sock) ;;
  ERROR_CHECK sock ;;
  checked (performHandshake false supportedFeatures) ;;
  c <- getClient ;;
  beginRead 8 ;;
  naInput <- checked_with (socketRead32 (fd c)) ;;
  tlInput <- checked_with (socketRead32 (fd c)) ;;
  (if naInput =? 0 then ERROR ERROR_MVISP_NO_AGENTS else ret tt) ;;
  ret (c, naInput, tlInput).

(** The stores through the out-pointers (lines 154-157). *)
Definition mvisp_stores (numAgentsPtr timeLimitPtr : bool) (naInput tlInput : Z)
  : list event :=
  (if numAgentsPtr then [EvStoreNumAgents (to_int naInput)] else [])
  ++ (if timeLimitPtr then [EvStoreTimeLimit (thousandth tlInput)] else []).

(** The calls of the callback in the condition of line 158. *)
Definition mvisp_asks (acceptFunc : option (Z -> float -> Z)) (naInput tlInput : Z)
  : list event :=
  if INT_MAX <? naInput then []
  else match acceptFunc with
       | Some _ => [EvAccept (to_int naInput) (thousandth tlInput)]
       | None => []
       end.

(** The condition of line 158. *)
Definition mvisp_denied (acceptFunc : option (Z -> float -> Z)) (naInput tlInput : Z)
  : bool :=
  (INT_MAX <? naInput)
  || match acceptFunc with
     | Some f => negb (f (to_int naInput) (thousandth tlInput) =? 0)
     | None => false
     end.

(** mvispConnect from the offer on (lines 152-175). *)
Definition mvisp_settle (numAgentsPtr timeLimitPtr : bool) (stateNames : list (list byte))
    (nStates : Z) (acceptFunc : option (Z -> float -> Z)) (vs : Z * option (list Z))
    (c : uampClient) (naInput tlInput : Z) : M unit :=
  let na := to_int naInput in
  let tl := thousandth tlInput in
  (if numAgentsPtr then emit (EvStoreNumAgents na) else ret tt) ;;
  (if timeLimitPtr then emit (EvStoreTimeLimit tl) else ret tt) ;;
  denied <-
    (if INT_MAX <? naInput then ret true
     else
       match acceptFunc with
       | None => ret false
       | Some f => emit (EvAccept na tl) ;; ret (negb (f na tl =? 0))
       end) ;;
  (if denied : bool then
     beginWrite 4 ;;
     checked (socketWrite32 (fd c) 0) ;;
     ERROR ERROR_SIMULATION_DENIED
   else ret tt) ;;
  ok <- calloc ;;
  (if ok then modClient (set_agents (Some (replicate (Z.to_nat na) zeroAgent)))
   else ERROR ERROR_OUT_OF_MEMORY) ;;
  modClient (set_numAgents naInput) ;;
  modClient (set_timeLimit tlInput) ;;
  modClient (set_numStates (to_u32 nStates)) ;;
  checked (writeStates stateNames nStates (default [] (snd vs))) ;;
  modClient (fun c => set_smallestCurrentTime 0 (set_largestLastTime 0 c)) ;;
  checked initializeQueues.

(** The [isErr] label of mvispConnect. *)
Definition mvisp_cleanup (vs : Z * option (list Z)) (wasErr : Z) : M unit :=
  connect_cleanup wasErr ;;
  match snd vs with
  | Some _ => emit (EvFree NameLengths)
  | None => ret tt
  end.

Lemma bind_assoc_at {A B C} (x : M A) (f : A -> M B) (g : B -> M C) m :
  bind (bind x f) g m = bind x (fun a => bind (f a) g) m.
Proof. unfold bind. destruct (x m); reflexivity. Qed.

(** mvispConnect is its two halves, one after the other. *)
Lemma mvispConnect_halves hostname port naPtr tlPtr names nStates accept features m0 vs ma :
  (uampInitialize ;; verifyStates names nStates) m0 = Val vs ma ->
  mvispConnect hostname port naPtr tlPtr names nStates accept features m0
  = returning
      (o <- mvisp_offer hostname port features vs ;;
       mvisp_settle naPtr tlPtr names nStates accept vs (fst (fst o)) (snd (fst o)) (snd o))
      (mvisp_cleanup vs) ma.
Proof.
  intros H. unfold mvispConnect. unfold bind at 1. unfold bind at 1 in H.
  destruct (uampInitialize m0) as [[] mi | |]; try discriminate.
  unfold bind at 1. rewrite H.
  unfold returning, mvisp_cleanup. f_equal.
  - unfold mvisp_offer, mvisp_settle, bind.
    repeat match goal with
           | |- context [match ?x ?m with Val _ _ => _ | Err _ _ => _ | Fault _ => _ end] =>
               lazymatch x with
               | context [match _ with _ => _ end] => fail
               | _ => destruct (x m) as [? ? | ? ? |]; try reflexivity
               end
           end.
    match goal with |- context [if ?b then ERROR _ else ret tt] => destruct b end;
      reflexivity.
Qed.

(** Runs the call on the left of the first equation of the goal. *)
Ltac eval_call :=
  match goal with
  | |- context [?x ?m = _] =>
      lazymatch type of m with
      | machine =>
          let v := eval vm_compute in (x m) in
          let E := fresh "E" in
          assert (E : x m = v) by (vm_compute; reflexivity);
          rewrite E; clear E
      end
  end.

(** The reject of an offer: the zero is written, or the write fails; either
    way the function leaves through [isErr]. *)
Lemma mvisp_reject_run sock m :
  exists r m',
    (beginWrite 4 ;; checked (socketWrite32 sock 0) ;; @ERROR unit ERROR_SIMULATION_DENIED) m
    = Err r m'
    /\ (r = ERROR_SIMULATION_DENIED \/ r = ERROR_SOCKET_WRITE)
    /\ (can_send (env m) 4 -> 0 <= sock -> r = ERROR_SIMULATION_DENIED).
Proof.
  destruct m as [c [rs so cn ca rx rf room lg]].
  assert (Hsplit : (0 <= sock /\ (room = None \/ exists k, room = Some (4 + k)%nat))
                   \/ sock < 0
                   \/ (0 <= sock /\ exists k, (k < 4)%nat /\ room = Some k)).
  { destruct (Z.lt_ge_cases sock 0); [auto|].
    destruct room as [k|]; [| auto].
    destruct (Nat.lt_ge_cases k 4); [right; right; eauto|].
    left. split; [lia|]. right. exists (k - 4)%nat. f_equal. lia. }
  unfold can_send. cbn [env w_tx_room].
  destruct Hsplit as [[Hs [-> | [k ->]]] | [Hs | [Hs (k & Hk & ->)]]].
  - destruct sock as [|p|p]; try lia; eval_call;
      eexists _, _; (split; [reflexivity|]); split; auto.
  - destruct sock as [|p|p]; try lia; eval_call;
      eexists _, _; (split; [reflexivity|]); split; auto.
  - destruct sock as [|p|p]; try lia. eval_call.
    eexists _, _. split; [reflexivity|]. split; [right; reflexivity | intros; lia].
  - destruct k as [|[|[|[|k]]]]; try lia;
      (destruct sock as [|p|p]; try lia; eval_call;
       eexists _, _; (split; [reflexivity|]); (split; [right; reflexivity | intros; lia])).
Qed.

Lemma emit_if_run {A} (b : bool) (e : event) (k : unit -> M A) c w :
  bind (if b then emit e else ret tt) k (mkMachine c w)
  = k tt (mkMachine c (if b then log_event e w else w)).
Proof. destruct b; reflexivity. Qed.

Lemma mvisp_ask_run {A} accept naInput tlInput (k : bool -> M A) c w :
  bind (if INT_MAX <? naInput then ret true
        else
          match accept with
          | None => ret false
          | Some f =>
              emit (EvAccept (to_int naInput) (thousandth tlInput)) ;;
              ret (negb (f (to_int naInput) (thousandth tlInput) =? 0))
          end) k (mkMachine c w)
  = k (mvisp_denied accept naInput tlInput)
      (mkMachine c (set_w_log (w_log w ++ mvisp_asks accept naInput tlInput) w)).
Proof.
  unfold mvisp_denied, mvisp_asks.
  destruct (INT_MAX <? naInput); [| destruct accept as [f|]]; cbn;
    rewrite ?app_nil_r; destruct w; reflexivity.
Qed.

(** The events of the second half of mvispConnect: the stores, then the
    call of the callback if there is one, then nothing of either kind. *)
Lemma mvisp_settle_log naPtr tlPtr names nStates accept vs c naInput tlInput m1 :
  let shape m' :=
    exists tail,
      w_log (env m')
      = w_log (env m1) ++ mvisp_stores naPtr tlPtr naInput tlInput
        ++ mvisp_asks accept naInput tlInput ++ tail
      /\ Forall quiet tail in
  match mvisp_settle naPtr tlPtr names nStates accept vs c naInput tlInput m1 with
  | Val _ m' => shape m'
  | Err e m' => e < 0 /\ shape m'
  | Fault _ => True
  end.
Proof.
  intros shape. destruct m1 as [c1 w1]. unfold mvisp_settle. cbv zeta.
  rewrite emit_if_run, emit_if_run, mvisp_ask_run.
  match goal with
  | |- match ?x ?m with _ => _ end =>
      assert (Hq : eff quiet_rel x) by eff_auto; specialize (Hq m);
      assert (Hlog : w_log (env m)
                     = w_log w1 ++ mvisp_stores naPtr tlPtr naInput tlInput
                       ++ mvisp_asks accept naInput tlInput);
      [| destruct (x m) as [[] m' | e m' |]; [| | exact I] ]
  end.
  - unfold mvisp_stores. destruct naPtr, tlPtr; cbn; rewrite <- ?app_assoc; reflexivity.
  - destruct Hq as (tail & Ht & Hq). exists tail. split; auto.
    rewrite Ht, Hlog, <- !app_assoc. reflexivity.
  - destruct Hq as [He (tail & Ht & Hq)]. split; auto. exists tail. split; auto.
    rewrite Ht, Hlog, <- !app_assoc. reflexivity.
Qed.

Lemma mvisp_settle_denied naPtr tlPtr names nStates accept vs c naInput tlInput m1 :
  mvisp_denied accept naInput tlInput = true ->
  exists r m',
    mvisp_settle naPtr tlPtr names nStates accept vs c naInput tlInput m1 = Err r m'
    /\ (r = ERROR_SIMULATION_DENIED \/ r = ERROR_SOCKET_WRITE)
    /\ (can_send (env m1) 4 -> 0 <= fd c -> r = ERROR_SIMULATION_DENIED).
Proof.
  intros Hd. destruct m1 as [c1 w1]. unfold mvisp_settle. cbv zeta.
  rewrite emit_if_run, emit_if_run, mvisp_ask_run, Hd.
  unfold bind at 1.
  match goal with
  | |- context [match ?x ?m with _ => _ end] =>
      destruct (mvisp_reject_run (fd c) m) as (r & m' & Hrun & Hr & Hsend)
  end.
  rewrite Hrun. exists r, m'. split; [reflexivity|]. split; [exact Hr|].
  intros Hcan. apply Hsend. revert Hcan. unfold can_send. cbn.
  destruct w1, naPtr, tlPtr; cbn; auto.
Qed.

Lemma mvisp_cleanup_run vs e m :
  exists m', mvisp_cleanup vs e m = Val tt m' /\ quiet_rel m m'.
Proof.
  assert (Hq : eff quiet_rel (mvisp_cleanup vs e)) by (unfold mvisp_cleanup; eff_auto).
  specialize (Hq m). revert Hq.
  unfold mvisp_cleanup, connect_cleanup, bind, getClient, emit, modWorld, modClient, ret.
  destruct (negb (e =? 0)); [destruct (0 <=? fd (client m)); destruct (agents (client m)) |];
    cbn; destruct (snd vs); cbn; intros Hq; eexists; split; try reflexivity; exact Hq.
Qed.

Lemma eff_performHandshake_parts R `{!PreOrder R} isUAMP features :
  eff R (performHandshake_exchange isUAMP features) ->
  (forall id ver, eff R (performHandshake_verify isUAMP features id ver)) ->
  (forall e, eff R (performHandshake_reject e)) ->
  eff R (function performHandshake_choice) ->
  eff R (performHandshake isUAMP features).
Proof.
  intros H1 H2 H3 H4 m. unfold performHandshake. specialize (H1 m).
  destruct (performHandshake_exchange isUAMP features m) as [[id ver] m1 | e m1 |];
    [| tauto | exact I].
  specialize (H2 id ver m1).
  destruct (performHandshake_verify isUAMP features id ver m1) as [[] m2 | e m2 |];
    [| | exact I].
  - specialize (H4 m2). destruct (function performHandshake_choice m2); auto.
    + etransitivity; [exact H1|]. etransitivity; eauto.
    + destruct H4. split; auto. etransitivity; [exact H1|]. etransitivity; eauto.
  - destruct H2 as [_ H2]. specialize (H3 e m2).
    destruct (performHandshake_reject e m2); auto.
    + etransitivity; [exact H1|]. etransitivity; eauto.
    + destruct H3. split; auto. etransitivity; [exact H1|]. etransitivity; eauto.
Qed.

Lemma eff_quiet_performHandshake isUAMP features :
  eff quiet_rel (performHandshake isUAMP features).
Proof.
  apply eff_performHandshake_parts; try typeclasses eauto.
  - unfold performHandshake_exchange. eff_auto.
  - intros. unfold performHandshake_verify. eff_auto.
  - intros. unfold performHandshake_reject. eff_auto.
  - unfold performHandshake_choice. eff_auto.
Qed.

Lemma eff_quiet_callSocket hostname port : eff quiet_rel (callSocket hostname port).
Proof. unfold callSocket. eff_auto. Qed.
#[global] Hint Resolve eff_quiet_performHandshake eff_quiet_callSocket : eff.

Lemma eff_quiet_mvisp_offer hostname port features vs :
  eff quiet_rel (mvisp_offer hostname port features vs).
Proof. unfold mvisp_offer. eff_auto. Qed.

Lemma eff_quiet_verifyStates_loop n : forall onState names lens,
  eff quiet_rel (verifyStates_loop n onState names lens).
Proof. induction n as [|n IH]; intros; simpl; eff_auto. Qed.

Lemma eff_quiet_verifyStates names n : eff quiet_rel (verifyStates names n).
Proof.
  unfold verifyStates. eff_auto. intros m.
  pose proof (eff_quiet_verifyStates_loop (Z.to_nat n) 0 names [] m) as H.
  destruct (verifyStates_loop (Z.to_nat n) 0 names [] m) as [lens m' | e m' |]; auto.
  destruct H as [_ H].
  assert (He : eff quiet_rel (emit (EvFree NameLengths) ;; ret (e, @None (list Z))))
    by eff_auto.
  specialize (He m'). destruct ((emit (EvFree NameLengths) ;; ret (e, None)) m'); auto.
  - etransitivity; eauto.
  - destruct He. split; auto. etransitivity; eauto.
Qed.

(** Claim C9.  Once mvispConnect has read the server's offer, it stores the
    offered number of agents, cast to int, and the time limit in seconds
    through the out-pointers that are not NULL, then calls the callback, and
    neither stores nor calls it at any other time: in the events of a call
    that returns, the stores come first, the call of the callback follows
    them, and nothing of either kind comes before or after.  The callback
    is not called when the offer exceeds INT_MAX.  When the offer is
    denied the call returns: ERROR_SIMULATION_DENIED when the reject could
    be written, the error of that write otherwise; the stores are among its
    events all the same. *)
Theorem mvispConnect_stores_before_accept
    hostname port naPtr tlPtr names nStates accept features m0 vs ma c naInput tlInput m1 :
  (uampInitialize ;; verifyStates names nStates) m0 = Val vs ma ->
  mvisp_offer hostname port features vs ma = Val (c, naInput, tlInput) m1 ->
  let call := mvispConnect hostname port naPtr tlPtr names nStates accept features m0 in
  let stores := mvisp_stores naPtr tlPtr naInput tlInput in
  let asks := mvisp_asks accept naInput tlInput in
  (forall r m',
     call = Val r m' ->
     exists before tail,
       w_log (env m') = w_log (env m0) ++ before ++ stores ++ asks ++ tail
       /\ Forall quiet before /\ Forall quiet tail)
  /\ (INT_MAX < naInput -> asks = [])
  /\ (mvisp_denied accept naInput tlInput = true ->
      exists r m',
        call = Val r m'
        /\ (r = ERROR_SIMULATION_DENIED \/ r = ERROR_SOCKET_WRITE)
        /\ (can_send (env m1) 4 -> 0 <= fd c -> r = ERROR_SIMULATION_DENIED)).
Proof.
  intros Hvs Hoffer call stores asks.
  assert (Hbefore : exists before,
             w_log (env m1) = w_log (env m0) ++ before /\ Forall quiet before).
  { assert (H1 : eff quiet_rel (uampInitialize ;; verifyStates names nStates)).
    { unfold uampInitialize. pose proof (eff_quiet_verifyStates names nStates). eff_auto. }
    apply (eff_val quiet_rel _ _ _ _ H1) in Hvs.
    pose proof (eff_val quiet_rel _ _ _ _ (eff_quiet_mvisp_offer _ _ _ _) Hoffer) as H2.
    apply (PreOrder_Transitive _ _ _ Hvs H2). }
  assert (Hcall : call
            = match mvisp_settle naPtr tlPtr names nStates accept vs c naInput tlInput m1 with
              | Val _ m2 => (mvisp_cleanup vs 0 ;; ret 0) m2
              | Err e m2 => (mvisp_cleanup vs e ;; ret e) m2
              | Fault f => Fault f
              end).
  { subst call. rewrite (mvispConnect_halves _ _ _ _ _ _ _ _ _ _ _ Hvs).
    unfold returning. unfold bind at 1. rewrite Hoffer. reflexivity. }
  pose proof (mvisp_settle_log naPtr tlPtr names nStates accept vs c naInput tlInput m1)
    as Hlog. cbv zeta in Hlog.
  split; [| split].
  - intros r m' Hrun. rewrite Hcall in Hrun.
    destruct Hbefore as (before & Hb & Hqb).
    assert (Hshape : forall e m2,
              (exists tail,
                  w_log (env m2) = w_log (env m1) ++ stores ++ asks ++ tail
                  /\ Forall quiet tail) ->
              (mvisp_cleanup vs e ;; ret e) m2 = Val r m' ->
              exists before tail,
                w_log (env m') = w_log (env m0) ++ before ++ stores ++ asks ++ tail
                /\ Forall quiet before /\ Forall quiet tail).
    { intros e m2 (tail & Ht & Hqt) Hc.
      destruct (mvisp_cleanup_run vs e m2) as (m3 & Hc3 & (evs & He & Hqe)).
      unfold bind in Hc. rewrite Hc3 in Hc. injection Hc as _ <-.
      exists before, (tail ++ evs). split; [| split; [exact Hqb | apply Forall_app; auto]].
      rewrite He, Ht, Hb, <- !app_assoc. reflexivity. }
    destruct (mvisp_settle naPtr tlPtr names nStates accept vs c naInput tlInput m1)
      as [[] m2 | e m2 |]; [| | discriminate].
    + apply (Hshape 0 m2 Hlog Hrun).
    + apply (Hshape e m2 (proj2 Hlog) Hrun).
  - intros Hmax. subst asks. unfold mvisp_asks.
    destruct (Z.ltb_spec INT_MAX naInput); [reflexivity | lia].
  - intros Hd.
    destruct (mvisp_settle_denied naPtr tlPtr names nStates accept vs c naInput tlInput m1 Hd)
      as (r & m2 & Hrun & Hr & Hsend).
    destruct (mvisp_cleanup_run vs r m2) as (m3 & Hc3 & _).
    exists r, m3. rewrite Hcall, Hrun. unfold bind. rewrite Hc3.
    split; [reflexivity | auto].
Qed.

(* ===================================================================== *)
(** ** The theorems at work on sample sessions *)
(* ===================================================================== *)

(** The value a call returns ([d] when it does not return one). *)
Definition value {A} (x : M A) (m : machine) (d : A) : A :=
  match x m with Val a _ => a | _ => d end.

(** An MVISP session with one agent, two states and a time limit of two
    seconds: the server's handshake, its offer, and six replies. *)
Definition sample_names : list (list byte) := [["a"%byte]; ["b"%byte]].

Definition sample_mvisp_stream : list byte :=
  tag_MVIS ++ [to_byte 0x80] ++ encode32 0 ++ [to_byte 0x80]
  ++ encode32 1 ++ encode32 2000
  ++ sample_reply 0 10 10 ++ sample_reply 100 20 20 ++ sample_reply 200 30 30
  ++ sample_reply 300 40 40 ++ sample_reply 400 50 50 ++ sample_reply 500 60 60.

Definition sample_mvisp_start : machine :=
  mkMachine sample_client (sample_world sample_mvisp_stream).

Definition sample_accept : option (Z -> float -> Z) := Some (fun _ _ => 0).
Definition sample_deny : option (Z -> float -> Z) := Some (fun _ _ => 1).

Definition sample_mvisp_connected : machine :=
  after (mvispConnect "h" 80 true true sample_names 2 sample_accept 0) sample_mvisp_start.

Lemma sample_mvisp_connected_run :
  mvispConnect "h" 80 true true sample_names 2 sample_accept 0 sample_mvisp_start
  = Val 0 sample_mvisp_connected.
Proof. vm_compute. reflexivity. Qed.

(** The agents of a machine, and one of them. *)
Definition agents_of (m : machine) : list uampAgent := default [] (agents (client m)).
Definition agent_of (m : machine) (j : Z) : uampAgent :=
  default zeroAgent (at_index (agents_of m) j).

Lemma uampChangeState_uamp_witness :
  numStates (client sample_connected) = 0
  /\ uampChangeState (-5) (-1)%float 99 sample_connected = Val 0 sample_connected.
Proof.
  assert (H : numStates (client sample_connected) = 0) by (vm_compute; reflexivity).
  split; [exact H|].
  exact (proj1 (uampChangeState_uamp_returns_success sample_connected (-5) (-1)%float 99 H)).
Defined.

Lemma uampChangeState_enqueues_witness :
  uampChangeState 0 0.5%float 1 sample_mvisp_connected
  = Val 0 (mkMachine (enqueued (client sample_mvisp_connected) 0 500 1)
                     (env sample_mvisp_connected)).
Proof.
  destruct (uampChangeState_validates_and_enqueues sample_mvisp_connected 0 0.5%float 1)
    as (_ & _ & H).
  destruct (H 500) as (_ & _ & H3);
    [vm_compute; discriminate | vm_compute; reflexivity | vm_compute; reflexivity
     | vm_compute; reflexivity |].
  destruct H3 as [H4 _];
    [vm_compute; discriminate | vm_compute; split; [discriminate | reflexivity]
     | vm_compute; split; [discriminate | reflexivity] | vm_compute; reflexivity |].
  apply H4. vm_compute. reflexivity.
Defined.

Lemma uampTerminate_witness :
  uampTerminate sample_connected
  = Val 0 (release (mkMachine (set_commBuf (mkIOBuffer 5 5 []) (client sample_connected))
                              (sent (fd (client sample_connected)) terminate_frame
                                    (env sample_connected))))
  /\ uampTerminate (after uampTerminate sample_connected)
     = Val 0 (after uampTerminate sample_connected).
Proof.
  destruct (uampTerminate_flushes_closes_idempotent sample_connected) as (H1 & _ & H3 & _).
  assert (E : uampTerminate sample_connected
              = Val 0 (release
                  (mkMachine (set_commBuf (mkIOBuffer 5 5 []) (client sample_connected))
                             (sent (fd (client sample_connected)) terminate_frame
                                   (env sample_connected))))).
  { apply H1; [vm_compute; discriminate | vm_compute; reflexivity | exact I]. }
  split; [exact E|].
  destruct (H3 _ _ E) as (_ & _ & H). unfold after. rewrite E. exact H.
Defined.

(** A UAMP client that reaches an MVISP server. *)
Definition sample_wrong_server : machine :=
  mkMachine (set_fd 3 sample_client)
            (sample_world (tag_MVIS ++ [to_byte 0x80] ++ encode32 0)).

Lemma performHandshake_role_witness :
  value (performHandshake true 0) sample_wrong_server 0 = ERROR_UAMP_CLIENT_MVISP_SERVER
  /\ w_log (env (after (performHandshake true 0) sample_wrong_server))
     = [EvWrite 3 (client_hello true 0); EvWrite 3 [to_byte 0x00]].
Proof.
  destruct (performHandshake_rejects_wrong_role_tag true 0 sample_wrong_server
              tag_MVIS (to_byte 0x80) x00 x00 x00 x00 [] ERROR_UAMP_CLIENT_MVISP_SERVER)
    as (_ & H & _);
    [vm_compute; reflexivity | vm_compute; discriminate | reflexivity
     | vm_compute; reflexivity | vm_compute; reflexivity |].
  destruct (H I) as [Hrun Hlog].
  unfold value, after. rewrite Hrun. split; [reflexivity|].
  rewrite Hlog. reflexivity.
Defined.

(** The connected sample session about to read a reply for agent 0. *)
Definition sample_reading : machine := after (beginRead 12) sample_connected.

Lemma receiveReply_witness :
  exists m', receiveReply 0 sample_reading = Val 0 m'.
Proof.
  pose (m1 := after (receiveReply_read 0) sample_reading).
  destruct (receiveReply_verification_order 0 sample_reading m1 (agents_of m1) (agent_of m1 0))
    as (_ & _ & _ & _ & _ & H);
    [vm_compute; reflexivity | vm_compute; reflexivity | vm_compute; reflexivity
     | vm_compute; split; [discriminate | reflexivity] | vm_compute; reflexivity |].
  destruct H as [H _].
  - right. right. vm_compute. repeat split; discriminate.
  - right. vm_compute. reflexivity.
  - eexists. exact H.
Defined.

Lemma cursors_witness :
  reachable sample_connected /\ advances sample_connected sample_advanced
  /\ largestLastTime (client sample_connected) <= largestLastTime (client sample_advanced)
  /\ smallestCurrentTime (client sample_connected)
     <= smallestCurrentTime (client sample_advanced)
  /\ smallestCurrentTime (client sample_advanced) = 100.
Proof.
  assert (Hr : reachable sample_connected)
    by (apply reach_connected; exact sample_is_connected).
  assert (Ha : advances sample_connected sample_advanced)
    by (apply (advances_oldest _ _ _ sample_advanced_run); apply advances_none).
  destruct (cursors_monotone_and_minimal sample_connected sample_advanced Hr Ha)
    as (Hl & Hs & _).
  split; [exact Hr|]. split; [exact Ha|]. split; [exact Hl|]. split; [exact Hs|].
  vm_compute. reflexivity.
Defined.

(** Agent 1 of the worked example after one uampAdvanceOldest, between its
    updates (0 ms, 1 mm) and (150 ms, 2 mm), on the interval from 0 ms to
    100 ms: the from point is the first update's, the to point lies two
    thirds of the way to the second. *)
Lemma uampIntersectCommand_witness :
  exists cmd,
    uampIntersectCommand 1 sample_advanced = Val (0, Some cmd) sample_advanced
    /\ fromTime cmd = 0%float /\ toTime cmd = (100 / 1000)%float
    /\ fromX cmd = (1 / 1000)%float
    /\ toX cmd = ((1 + 100 / 150 * (2 - 1)) / 1000)%float
    /\ PrimFloat.ltb (fromX cmd) (toX cmd) = true
    /\ PrimFloat.ltb (toX cmd) (2 / 1000)%float = true
    /\ present cmd = 1.
Proof.
  destruct (uampIntersectCommand_interpolates sample_advanced (agents_of sample_advanced) 1
              (agent_of sample_advanced 1) sample_advanced_reachable)
    as [_ H]; [vm_compute; reflexivity | vm_compute; reflexivity |].
  destruct H as (cmd & Hrun & _ & Hfrom & Hto & Hpos & _); [vm_compute; discriminate|].
  destruct Hpos as (HfX & _ & _ & HtX & _ & _ & Hp); [vm_compute; discriminate|].
  exists cmd. split; [exact Hrun|].
  split; [rewrite Hfrom; vm_compute; reflexivity|].
  split; [rewrite Hto; vm_compute; reflexivity|].
  split; [rewrite HfX; vm_compute; reflexivity|].
  split; [rewrite HtX; vm_compute; reflexivity|].
  split; [rewrite HfX, HtX; vm_compute; reflexivity|].
  split; [rewrite HtX; vm_compute; reflexivity|].
  rewrite Hp. vm_compute. reflexivity.
Defined.

(** A client whose two agents were allocated and not filled yet. *)
Definition sample_allocated : machine :=
  mkMachine (set_numAgents 2 (set_agents (Some [zeroAgent; zeroAgent]) sample_client))
            (sample_world []).


(** Agent 0 of the worked example after a second advance, five updates
    alive, and the next reply of the server announced. *)
Definition sample_receiving : machine :=
  with_buf (after (uampAdvance 0) sample_advanced) (mkIOBuffer 12 0 []).

Lemma aliveInQueue_witness :
  (aliveInQueue (agent_of sample_advanced 0) = 6
   /\ unconsumed (agent_of sample_advanced 0) = 5
   /\ kept_previous (agent_of sample_advanced 0) = 1
   /\ aliveInQueue (agent_of sample_advanced 0)
      = unconsumed (agent_of sample_advanced 0) + kept_previous (agent_of sample_advanced 0))
  /\ (exists m' ags',
        advanceAgent 0 sample_advanced = Val 0 m'
        /\ agents (client m') = Some ags' /\ length ags' = 2%nat
        /\ Forall (fun a' => cursor_bounds a'
                             /\ aliveInQueue a' = unconsumed a' + kept_previous a') ags')
  /\ (aliveInQueue (agent_of sample_receiving 0) = 5
      /\ exists m' a' b,
           receiveReply 0 sample_receiving = Val 0 m'
           /\ client m' = set_agents (Some (<[0%nat := a']> (agents_of sample_receiving)))
                                     (set_commBuf b (client sample_receiving))
           /\ cursor_bounds a' /\ aliveInQueue a' = 6).
Proof.
  destruct (aliveInQueue_counts_and_bounds sample_advanced (agents_of sample_advanced) 0
              (agent_of sample_advanced 0) sample_advanced_reachable)
    as (_ & H & _ & _ & _ & _ & Hadv & Hrecv);
    [vm_compute; reflexivity | vm_compute; reflexivity |].
  split; [| split].
  - split; [vm_compute; reflexivity|]. split; [vm_compute; reflexivity|].
    split; [vm_compute; reflexivity | exact H].
  - destruct (Hadv (after (advanceAgent 0) sample_advanced))
      as (ags' & Hags' & Hlen & Hall);
      [vm_compute; discriminate | vm_compute; reflexivity |].
    exists (after (advanceAgent 0) sample_advanced), ags'.
    split; [vm_compute; reflexivity|]. split; [exact Hags'|].
    split; [exact Hlen | exact Hall].
  - split; [vm_compute; reflexivity|].
    destruct (Hrecv sample_receiving (agents_of sample_receiving)
                (agent_of sample_receiving 0) (after (receiveReply 0) sample_receiving))
      as (a' & b & Hc & _ & Hcb & Hal & _);
      [vm_compute; reflexivity | vm_compute; reflexivity | vm_compute; reflexivity
       | vm_compute; repeat split; first [reflexivity | discriminate]
       | vm_compute; reflexivity | vm_compute; reflexivity |].
    exists (after (receiveReply 0) sample_receiving), a', b.
    split; [vm_compute; reflexivity|]. split; [exact Hc|]. split; [exact Hcb|].
    rewrite Hal. vm_compute. reflexivity.
Defined.

(** The sample MVISP server refused by the callback. *)
Lemma mvispConnect_denied_witness :
  exists m',
    mvispConnect "h" 80 true true sample_names 2 sample_deny 0 sample_mvisp_start
    = Val ERROR_SIMULATION_DENIED m'
    /\ exists before tail,
         w_log (env m')
         = before ++ [EvStoreNumAgents 1; EvStoreTimeLimit 2%float; EvAccept 1 2%float]
           ++ tail
         /\ Forall quiet before /\ Forall quiet tail.
Proof.
  pose (first := (uampInitialize ;; verifyStates sample_names 2)).
  pose (vs := value first sample_mvisp_start (0, None)).
  pose (ma := after first sample_mvisp_start).
  pose (o := value (mvisp_offer "h" 80 0 vs) ma (sample_client, 0, 0)).
  pose (m1 := after (mvisp_offer "h" 80 0 vs) ma).
  destruct (mvispConnect_stores_before_accept "h" 80 true true sample_names 2 sample_deny 0
              sample_mvisp_start vs ma (fst (fst o)) 1 2000 m1)
    as (Hlog & _ & Hdenied);
    [vm_compute; reflexivity | vm_compute; reflexivity |].
  destruct Hdenied as (r & m' & Hrun & _ & Hsend); [vm_compute; reflexivity|].
  rewrite Hsend in Hrun; [| exact I | vm_compute; discriminate].
  exists m'. split; [exact Hrun|].
  destruct (Hlog _ _ Hrun) as (before & tail & Hl & Hb & Ht).
  exists before, tail. split; [exact Hl | split; [exact Hb | exact Ht]].
Defined.

(* ===================================================================== *)
(** ** Further properties of the I/O buffer *)
(* ===================================================================== *)

Lemma byte_val_to_byte v : byte_val (to_byte v) = to_u8 v.
Proof.
  unfold byte_val, to_byte, to_u8.
  pose proof (Z.mod_pos_bound v (2 ^ 8) ltac:(lia)) as Hr.
  destruct (Byte.of_N (Z.to_N (v mod 2 ^ 8))) as [b|] eqn:E.
  - apply Byte.to_of_N in E. rewrite E. lia.
  - apply Byte.of_N_None_iff in E. lia.
Qed.

Lemma to_byte_byte_val b : to_byte (byte_val b) = b.
Proof.
  unfold to_byte, to_u8. pose proof (byte_val_range b) as Hr.
  rewrite Z.mod_small by lia. unfold byte_val. rewrite N2Z.id, Byte.of_to_N. reflexivity.
Qed.

(** X1.  The four bytes socketWrite32 sends for a value are read back by
    socketRead32 as that value, reduced to 32 bits; and four bytes read by
    socketRead32 are the bytes socketWrite32 sends for what was read. *)
Theorem encode32_decode32_round_trip :
  (forall v, length (encode32 v) = 4%nat /\ decode32 (encode32 v) = to_u32 v)
  /\ (forall b0 b1 b2 b3, encode32 (decode32 [b0; b1; b2; b3]) = [b0; b1; b2; b3]).
Proof.
  split.
  - intros v. split; [reflexivity|].
    unfold encode32, decode32. rewrite !byte_val_to_byte. unfold to_u8, to_u32.
    Z.div_mod_to_equations. lia.
  - intros b0 b1 b2 b3. unfold encode32, decode32.
    pose proof (byte_val_range b0). pose proof (byte_val_range b1).
    pose proof (byte_val_range b2). pose proof (byte_val_range b3).
    assert (Hb : forall x b, to_u8 x = byte_val b -> to_byte x = b).
    { intros x b E. transitivity (to_byte (byte_val b)); [| apply to_byte_byte_val].
      unfold to_byte. rewrite E. unfold to_u8.
      rewrite (Z.mod_small (byte_val b)) by apply byte_val_range. reflexivity. }
    repeat f_equal; apply Hb; unfold to_u8; Z.div_mod_to_equations; lia.
Qed.

(** X2.  A caller that asks the buffer for more than beginRead announced,
    or hands it more than beginWrite announced, trips the assertion of
    socketReadRaw or socketWriteRaw before any byte moves. *)
Theorem ioBuffer_overrun_asserts sock len data m :
  let buf := commBuf (client m) in
  0 <= passed buf <= total buf -> total buf < 2 ^ 64 ->
  (0 <= len < 2 ^ 64 -> total buf < passed buf + len ->
   socketReadRaw sock len m = Fault (AssertionFailed "Too much data from read buffer"))
  /\ (Z.of_nat (length data) < 2 ^ 64 -> total buf < passed buf + Z.of_nat (length data) ->
      socketWriteRaw sock data m
      = Fault (AssertionFailed "Too much data to write buffer")).
Proof.
  intros buf Hp Ht.
  assert (Hfail : forall l, 0 <= l < 2 ^ 64 -> total buf < passed buf + l ->
            (passed buf <=? to_u64 (passed buf + l)) && (l <=? to_u64 (passed buf + l))
            && (to_u64 (passed buf + l) <=? total buf) = false).
  { intros l Hl Hover. unfold to_u64.
    destruct (Z.lt_ge_cases (passed buf + l) (2 ^ 64)) as [Hfit | Hwrap].
    - rewrite Z.mod_small by lia.
      apply andb_false_iff. right. apply Z.leb_gt. lia.
    - assert (E : (passed buf + l) mod 2 ^ 64 = passed buf + l - 2 ^ 64).
      { symmetry. apply Z.mod_unique with (q := 1); lia. }
      rewrite E. apply andb_false_iff. left. apply andb_false_iff. left.
      apply Z.leb_gt. lia. }
  split.
  - intros Hl Hover. unfold socketReadRaw, getBuf, bind, getClient, ret. cbn beta iota.
    fold buf. rewrite (Hfail len Hl Hover). reflexivity.
  - intros Hl Hover. unfold socketWriteRaw, getBuf, bind, getClient, ret. cbn beta iota.
    fold buf. rewrite (Hfail (Z.of_nat (length data)) ltac:(lia) Hover). reflexivity.
Qed.

Lemma ioBuffer_overrun_witness :
  socketReadRaw 3 1 sample_connected
  = Fault (AssertionFailed "Too much data from read buffer")
  /\ socketWriteRaw 3 [x00] sample_connected
     = Fault (AssertionFailed "Too much data to write buffer").
Proof.
  destruct (ioBuffer_overrun_asserts 3 1 [x00] sample_connected) as [H1 H2];
    [vm_compute; split; discriminate | reflexivity |].
  split; [apply H1 | apply H2]; try reflexivity. split; [discriminate | reflexivity].
Defined.

(** X3.  A frame of fewer than 2048 bytes that is announced with beginWrite
    and handed over in two pieces goes to the socket in one write, when the
    second piece completes it; the first piece causes no write at all. *)
Theorem socketWriteRaw_frame_in_one_write sock d1 d2 m :
  0 <= sock -> d1 <> [] -> d2 <> [] ->
  Z.of_nat (length (d1 ++ d2)) < UAMP_IO_BUFFER_SIZE ->
  can_send (env m) (length (d1 ++ d2)) ->
  let total := Z.of_nat (length (d1 ++ d2)) in
  (beginWrite total ;; socketWriteRaw sock d1) m
  = Val 0 (with_buf m (mkIOBuffer total (Z.of_nat (length d1)) d1))
  /\ (beginWrite total ;; r1 <- socketWriteRaw sock d1 ;;
      r2 <- socketWriteRaw sock d2 ;; ret (r1, r2)) m
     = Val (0, 0) (mkMachine (set_commBuf (mkIOBuffer total total []) (client m))
                             (sent sock (d1 ++ d2) (env m))).
Proof.
  intros Hsock H1 H2 Hlen Hsend total.
  assert (Hl1 : (0 < length d1)%nat) by (destruct d1; [congruence | simpl; lia]).
  assert (Hl2 : (0 < length d2)%nat) by (destruct d2; [congruence | simpl; lia]).
  assert (Htot : total = Z.of_nat (length d1) + Z.of_nat (length d2))
    by (subst total; rewrite length_app; lia).
  unfold UAMP_IO_BUFFER_SIZE in Hlen.
  set (m0 := with_buf m (mkIOBuffer total 0 [])).
  assert (Hbegin : beginWrite total m = Val tt m0) by reflexivity.
  assert (Hfirst : socketWriteRaw sock d1 m0
                   = Val 0 (with_buf m (mkIOBuffer total (Z.of_nat (length d1)) d1))).
  { rewrite (socketWriteRaw_buffers sock d1 m0); auto;
      try (subst m0; cbn; unfold inBuffer, UAMP_IO_BUFFER_SIZE; cbn; lia);
      try (subst m0; unfold with_buf; cbn; destruct (client m); reflexivity). }
  split.
  - unfold bind. rewrite Hbegin. exact Hfirst.
  - unfold bind. rewrite Hbegin, Hfirst.
    rewrite (socketWriteRaw_completes sock Hsock d2); auto;
      try (cbn; unfold inBuffer, UAMP_IO_BUFFER_SIZE; cbn; lia);
      try (cbn; exact Hsend).
Qed.

Lemma socketWriteRaw_frame_witness :
  (beginWrite 5 ;; r1 <- socketWriteRaw 3 [x00] ;;
   r2 <- socketWriteRaw 3 (encode32 0) ;; ret (r1, r2)) sample_connected
  = Val (0, 0) (mkMachine (set_commBuf (mkIOBuffer 5 5 []) (client sample_connected))
                          (sent 3 terminate_frame (env sample_connected))).
Proof.
  destruct (socketWriteRaw_frame_in_one_write 3 [x00] (encode32 0) sample_connected)
    as [_ H]; [lia | discriminate | discriminate | reflexivity | exact I |].
  exact H.
Defined.

(** X4.  A frame of at most 2048 bytes that is announced with beginRead is
    taken from the socket in one read, by the first request for a part of
    it: the request gets its bytes, the rest of the frame waits in the
    buffer, a second request for the rest is served from there, and what
    follows the frame in the stream is left in the socket. *)
Theorem socketReadRaw_frame_in_one_read sock l1 l2 chunk rest m :
  0 <= sock -> 0 < l1 -> 0 < l2 ->
  Z.of_nat (length chunk) = l1 + l2 -> l1 + l2 <= UAMP_IO_BUFFER_SIZE ->
  w_rx (env m) = chunk ++ rest ->
  let total := l1 + l2 in
  (beginRead total ;; socketReadRaw sock l1) m
  = Val (0, take (Z.to_nat l1) chunk)
        (mkMachine (set_commBuf (mkIOBuffer total l1 (drop (Z.to_nat l1) chunk)) (client m))
                   (set_w_rx rest (env m)))
  /\ (beginRead total ;; r1 <- socketReadRaw sock l1 ;;
      r2 <- socketReadRaw sock l2 ;; ret (r1, r2)) m
     = Val ((0, take (Z.to_nat l1) chunk), (0, drop (Z.to_nat l1) chunk))
           (mkMachine (set_commBuf (mkIOBuffer total total []) (client m))
                      (set_w_rx rest (env m))).
Proof.
  intros Hsock H1 H2 Hlen Hsize Hrx total.
  unfold UAMP_IO_BUFFER_SIZE in Hsize.
  set (m0 := with_buf m (mkIOBuffer total 0 [])).
  assert (Hbegin : beginRead total m = Val tt m0) by reflexivity.
  assert (Hfirst : socketReadRaw sock l1 m0
            = Val (0, take (Z.to_nat l1) chunk)
                  (mkMachine (set_commBuf (mkIOBuffer total l1 (drop (Z.to_nat l1) chunk))
                                          (client m))
                             (set_w_rx rest (env m)))).
  { rewrite (socketReadRaw_refills sock Hsock l1 chunk rest m0); auto;
      try (subst m0 total; cbn; unfold UAMP_IO_BUFFER_SIZE; lia);
      try (subst m0; cbn; destruct (client m); reflexivity). }
  split.
  - unfold bind. rewrite Hbegin. exact Hfirst.
  - unfold bind. rewrite Hbegin, Hfirst.
    assert (Hdrop : Z.of_nat (length (drop (Z.to_nat l1) chunk)) = l2)
      by (rewrite length_drop; lia).
    rewrite socketReadRaw_buffered;
      try (cbn; unfold inBuffer; cbn; subst total; lia).
    cbn. rewrite (take_ge (drop (Z.to_nat l1) chunk)), (drop_ge (drop (Z.to_nat l1) chunk))
      by lia.
    replace (l1 + l2) with total by reflexivity.
    unfold with_buf. cbn. destruct (client m); reflexivity.
Qed.

Lemma socketReadRaw_frame_witness :
  (beginRead 12 ;; r1 <- socketReadRaw 3 4 ;; r2 <- socketReadRaw 3 8 ;; ret (r1, r2))
    sample_connected
  = Val ((0, encode32 600), (0, encode32 1 ++ encode32 1))
        (mkMachine (set_commBuf (mkIOBuffer 12 12 []) (client sample_connected))
                   (set_w_rx (sample_reply 700 1 1 ++ sample_reply 1000 1 1
                              ++ sample_reply 1000 1 1 ++ sample_reply 1000 1 1)
                             (env sample_connected))).
Proof.
  destruct (socketReadRaw_frame_in_one_read 3 4 8 (sample_reply 600 1 1)
              (sample_reply 700 1 1 ++ sample_reply 1000 1 1
               ++ sample_reply 1000 1 1 ++ sample_reply 1000 1 1) sample_connected)
    as [_ H]; [lia | lia | lia | reflexivity | unfold UAMP_IO_BUFFER_SIZE; lia
               | vm_compute; reflexivity |].
  exact H.
Defined.

(* ===================================================================== *)
(** ** Further properties of states.c *)
(* ===================================================================== *)

(** The length of a name as a C string, and the string itself: the bytes
    before the first zero byte. *)
Fixpoint c_strlen (s : list byte) : nat :=
  match s with
  | [] => O
  | ch :: s' => if byte_val ch =? 0 then O else S (c_strlen s')
  end.

Definition c_str (s : list byte) : list byte := take (c_strlen s) s.

Lemma stateNameLength_scan_run fuel : forall s l,
  stateNameLength_scan fuel s l = l + Z.of_nat (Nat.min fuel (c_strlen s)).
Proof.
  induction fuel as [|fuel IH]; intros s l; [simpl; lia|].
  destruct s as [|ch s]; [simpl; lia|]. cbn [stateNameLength_scan c_strlen].
  destruct (byte_val ch =? 0); [simpl; lia|]. rewrite IH. simpl Nat.min. lia.
Qed.

(** X5.  stateNameLength measures a name up to 1025 bytes: an empty name is
    ERROR_ZERO_STATE_LENGTH, a name of more than 1024 bytes is
    ERROR_STATE_LENGTH_LONG, and any other name gets its length. *)
Theorem stateNameLength_bounds s :
  stateNameLength s
  = if (c_strlen s =? 0)%nat then (ERROR_ZERO_STATE_LENGTH, 0)
    else if (1024 <? c_strlen s)%nat then (ERROR_STATE_LENGTH_LONG, 0)
    else (0, Z.of_nat (c_strlen s)).
Proof.
  unfold stateNameLength. rewrite stateNameLength_scan_run. cbv zeta.
  change (Z.to_nat (MAX_NAME_LEN + 1)) with 1025%nat. unfold MAX_NAME_LEN.
  destruct (Nat.eqb_spec (c_strlen s) 0) as [E | E].
  - rewrite E. reflexivity.
  - destruct (Z.eqb_spec (0 + Z.of_nat (Nat.min 1025 (c_strlen s))) 0); [lia|].
    destruct (Nat.ltb_spec 1024 (c_strlen s)).
    + destruct (Z.ltb_spec 1024 (0 + Z.of_nat (Nat.min 1025 (c_strlen s)))); [reflexivity | lia].
    + destruct (Z.ltb_spec 1024 (0 + Z.of_nat (Nat.min 1025 (c_strlen s)))); [lia|].
      f_equal. lia.
Qed.

(** The checks of verifyStates on [rest], the names [pre] having passed:
    the first error, or 0. *)
Definition dup_among (name : list byte) (prevs : list (list byte)) : bool :=
  existsb (fun p => bool_decide (c_str name = c_str p)) prevs.

Fixpoint check_names (pre rest : list (list byte)) : Z :=
  match rest with
  | [] => 0
  | s :: rest' =>
      if (c_strlen s =? 0)%nat then ERROR_ZERO_STATE_LENGTH
      else if (1024 <? c_strlen s)%nat then ERROR_STATE_LENGTH_LONG
      else if dup_among s pre then ERROR_DUPLICATE_STATE
      else check_names (pre ++ [s]) rest'
  end.

Definition strlenZ (s : list byte) : Z := Z.of_nat (c_strlen s).

Lemma c_strlen_le s : (c_strlen s <= length s)%nat.
Proof.
  induction s as [|ch s IH]; simpl; [lia|]. destruct (byte_val ch =? 0); lia.
Qed.

Lemma c_str_length s : length (c_str s) = c_strlen s.
Proof. unfold c_str. rewrite length_take. pose proof (c_strlen_le s). lia. Qed.

Lemma dup_test name p :
  (if negb (strlenZ name =? strlenZ p) then ret tt
   else if memcmp_equal name p (strlenZ name) then @ERROR unit ERROR_DUPLICATE_STATE
   else ret tt)
  = (if bool_decide (c_str name = c_str p) then ERROR ERROR_DUPLICATE_STATE else ret tt).
Proof.
  unfold strlenZ, memcmp_equal. rewrite Nat2Z.id.
  destruct (Z.eqb_spec (Z.of_nat (c_strlen name)) (Z.of_nat (c_strlen p))) as [E | E];
    cbn [negb].
  - assert (E' : c_strlen name = c_strlen p) by lia.
    unfold c_str. rewrite <- E'. reflexivity.
  - rewrite bool_decide_eq_false_2; [reflexivity|].
    intros Heq. apply (f_equal length) in Heq. rewrite !c_str_length in Heq. lia.
Qed.

Lemma verifyStates_inner name todo : forall done more m,
  for_loop (length todo) (Z.of_nat (length done)) (fun prev =>
    match map strlenZ (done ++ todo) !! Z.to_nat prev,
          ((done ++ todo) ++ more) !! Z.to_nat prev with
    | Some lenPrev, Some namePrev =>
        if negb (strlenZ name =? lenPrev) then ret tt
        else if memcmp_equal name namePrev (strlenZ name) then ERROR ERROR_DUPLICATE_STATE
        else ret tt
    | _, _ => undefined "lens[prev]"
    end) m
  = if dup_among name todo then Err ERROR_DUPLICATE_STATE m else Val tt m.
Proof.
  induction todo as [|p todo IH]; intros done more m; [reflexivity|].
  cbn [length for_loop dup_among existsb]. unfold bind at 1.
  rewrite Nat2Z.id.
  assert (Hl : map strlenZ (done ++ p :: todo) !! length done = Some (strlenZ p)).
  { rewrite map_app. rewrite lookup_app_r by (rewrite length_map; lia).
    rewrite length_map, Nat.sub_diag. reflexivity. }
  assert (Hn : ((done ++ p :: todo) ++ more) !! length done = Some p).
  { rewrite <- app_assoc. apply list_lookup_middle. reflexivity. }
  rewrite Hl, Hn, dup_test.
  destruct (bool_decide (c_str name = c_str p)); [reflexivity|]. cbn [orb].
  unfold ret at 1. cbn beta iota.
  specialize (IH (done ++ [p]) more m).
  rewrite <- !app_assoc in IH. simpl app in IH.
  rewrite length_app in IH. simpl length in IH.
  replace (Z.of_nat (length done + 1)) with (Z.of_nat (length done) + 1) in IH by lia.
  rewrite <- !app_assoc. simpl app. exact IH.
Qed.

Lemma verifyStates_outer rest : forall pre more m,
  verifyStates_loop (length rest) (Z.of_nat (length pre)) ((pre ++ rest) ++ more)
                    (map strlenZ pre) m
  = if check_names pre rest =? 0 then Val (map strlenZ (pre ++ rest)) m
    else Err (check_names pre rest) m.
Proof.
  induction rest as [|s rest IH]; intros pre more m.
  - rewrite app_nil_r. reflexivity.
  - cbn [length verifyStates_loop check_names]. rewrite Nat2Z.id.
    assert (Hn : ((pre ++ s :: rest) ++ more) !! length pre = Some s).
    { rewrite <- app_assoc. apply list_lookup_middle. reflexivity. }
    rewrite Hn. cbv zeta. rewrite stateNameLength_bounds.
    destruct (c_strlen s =? 0)%nat; [reflexivity|].
    destruct (1024 <? c_strlen s)%nat; [reflexivity|].
    cbn [fst snd]. unfold bind at 1. unfold ERROR_CHECK at 1. cbn [Z.ltb Z.compare].
    unfold ret at 1. cbn beta iota. unfold bind at 1. fold (strlenZ s).
    pose proof (verifyStates_inner s pre [] (s :: rest ++ more) m) as Hin.
    simpl app in Hin. simpl length in Hin. change (Z.of_nat 0) with 0 in Hin.
    replace ((pre ++ s :: rest) ++ more) with (pre ++ s :: rest ++ more)
      by (rewrite <- app_assoc; reflexivity).
    rewrite Hin.
    destruct (dup_among s pre); [reflexivity|].
    specialize (IH (pre ++ [s]) more m).
    rewrite length_app, map_app in IH. simpl in IH.
    replace (Z.of_nat (length pre + 1)) with (Z.of_nat (length pre) + 1) in IH by lia.
    rewrite <- !app_assoc in IH. simpl app in IH. exact IH.
Qed.

Lemma dup_among_elem name pre : dup_among name pre = true <-> c_str name ∈ map c_str pre.
Proof.
  unfold dup_among. rewrite existsb_exists. split.
  - intros (p & Hp & E). apply bool_decide_eq_true in E. rewrite E.
    apply list_elem_of_fmap. exists p. split; auto. apply list_elem_of_In. exact Hp.
  - intros H. apply list_elem_of_fmap in H. destruct H as (p & E & Hp).
    exists p. split; [apply list_elem_of_In; exact Hp | apply bool_decide_eq_true; exact E].
Qed.

Lemma check_names_codes pre rest :
  check_names pre rest = 0 \/ check_names pre rest = ERROR_ZERO_STATE_LENGTH
  \/ check_names pre rest = ERROR_STATE_LENGTH_LONG
  \/ check_names pre rest = ERROR_DUPLICATE_STATE.
Proof.
  revert pre. induction rest as [|s rest IH]; intros pre; simpl; auto.
  destruct (c_strlen s =? 0)%nat; auto. destruct (1024 <? c_strlen s)%nat; auto.
  destruct (dup_among s pre); auto.
Qed.

Lemma check_names_ok rest : forall pre,
  check_names pre rest = 0
  <-> Forall (fun s => (1 <= c_strlen s <= 1024)%nat) rest
      /\ (forall s, s ∈ rest -> c_str s ∉ map c_str pre)
      /\ NoDup (map c_str rest).
Proof.
  induction rest as [|s rest IH]; intros pre.
  - simpl. split; [| reflexivity]. intros _. split; [constructor|].
    split; [intros s Hs; inversion Hs | constructor].
  - cbn [check_names map].
    destruct (Nat.eqb_spec (c_strlen s) 0) as [E0 | E0].
    { split; [discriminate|]. intros (H & _). inversion H; subst. lia. }
    destruct (Nat.ltb_spec 1024 (c_strlen s)) as [El | El].
    { split; [discriminate|]. intros (H & _). inversion H; subst. lia. }
    destruct (dup_among s pre) eqn:Ed.
    { split; [discriminate|]. intros (_ & H & _). exfalso.
      apply (H s); [constructor | apply dup_among_elem; exact Ed]. }
    assert (Hs : c_str s ∉ map c_str pre).
    { intros H. apply dup_among_elem in H. congruence. }
    rewrite IH. split.
    + intros (Hv & Hfresh & Hnd). split; [constructor; [lia | exact Hv]|]. split.
      * intros x Hx. apply elem_of_cons in Hx. destruct Hx as [-> | Hx]; [exact Hs|].
        intros Hin. apply (Hfresh x Hx). rewrite map_app. apply elem_of_app. auto.
      * constructor; [| exact Hnd]. intros Hin. apply list_elem_of_fmap in Hin.
        destruct Hin as (x & Ex & Hx). apply (Hfresh x Hx).
        rewrite map_app. apply elem_of_app. right. rewrite <- Ex. constructor.
    + intros (Hv & Hfresh & Hnd). inversion Hv; subst. inversion Hnd; subst.
      split; [assumption|]. split; [| assumption].
      intros x Hx Hin. rewrite map_app in Hin. apply elem_of_app in Hin.
      destruct Hin as [Hin | Hin].
      * apply (Hfresh x); [apply elem_of_cons; auto | exact Hin].
      * apply list_elem_of_singleton in Hin.
        match goal with H : c_str s ∉ map c_str rest |- _ => apply H end.
        rewrite <- Hin. apply list_elem_of_fmap. exists x. auto.
Qed.

(** X6.  verifyStates, given memory for the lengths, accepts the first
    [numStates] names exactly when every one of them has between 1 and 1024
    bytes and no two of them are the same string; it then returns their
    lengths.  Otherwise it returns the error of the first name that fails,
    a name being checked for its length before it is compared with the names
    before it, and frees the lengths.  Without memory it returns
    ERROR_OUT_OF_MEMORY. *)
Theorem verifyStates_accepts_distinct_names names numStates m :
  0 < numStates <= INT_MAX -> (Z.to_nat numStates <= length names)%nat ->
  let checked := take (Z.to_nat numStates) names in
  let e := check_names [] checked in
  (e = 0 <-> Forall (fun s => (1 <= c_strlen s <= 1024)%nat) checked
             /\ NoDup (map c_str checked))
  /\ (e = 0 \/ e = ERROR_ZERO_STATE_LENGTH \/ e = ERROR_STATE_LENGTH_LONG
      \/ e = ERROR_DUPLICATE_STATE)
  /\ (forall ok m1,
        calloc m = Val ok m1 ->
        verifyStates names numStates m
        = if ok : bool then
            if e =? 0 then Val (0, Some (map strlenZ checked)) m1
            else Val (e, None)
                     (mkMachine (client m1) (log_event (EvFree NameLengths) (env m1)))
          else Val (ERROR_OUT_OF_MEMORY, None) m1).
Proof.
  intros Hn Hlen checked e. split; [| split].
  - subst e. rewrite check_names_ok. split.
    + intros (H1 & _ & H3). auto.
    + intros (H1 & H3). split; [exact H1|]. split; [| exact H3].
      intros s _ Hin. simpl in Hin. inversion Hin.
  - apply check_names_codes.
  - intros ok m1 Hcalloc. unfold verifyStates.
    destruct (Z.leb_spec numStates 0); [lia|].
    rewrite to_u32_small by (unfold INT_MAX in Hn; lia).
    destruct (Z.ltb_spec UINT32_MAX numStates); [unfold UINT32_MAX, INT_MAX in *; lia|].
    cbn [orb]. unfold bind at 1. rewrite Hcalloc.
    destruct ok; cbn [negb]; [| reflexivity].
    pose proof (verifyStates_outer checked [] (drop (Z.to_nat numStates) names) m1) as Hrun.
    simpl app in Hrun. simpl length in Hrun. simpl map in Hrun. change (Z.of_nat 0) with 0 in Hrun.
    assert (Hl : length checked = Z.to_nat numStates)
      by (subst checked; rewrite length_take; lia).
    rewrite Hl in Hrun. subst checked. rewrite take_drop in Hrun. rewrite Hrun.
    fold e. destruct (e =? 0); reflexivity.
Qed.

Lemma verifyStates_witness :
  verifyStates sample_names 2 sample_mvisp_start = Val (0, Some [1; 1]) sample_mvisp_start
  /\ fst (value (verifyStates [["a"%byte]; ["a"%byte; x00; "b"%byte]] 2)
                sample_mvisp_start (0, None))
     = ERROR_DUPLICATE_STATE.
Proof.
  split.
  - destruct (verifyStates_accepts_distinct_names sample_names 2 sample_mvisp_start)
      as (_ & _ & H); [unfold INT_MAX; lia | simpl; lia |].
    apply (H true sample_mvisp_start). reflexivity.
  - vm_compute. reflexivity.
Defined.

(* ===================================================================== *)
(** ** errors.c *)
(* ===================================================================== *)

(** returnToString: the message of a return value, None for NULL. *)
Definition returnToString (retValue : Z) : option string :=
  if retValue =? 0 then
    Some "Success"%string
  else if retValue =? ERROR_INVALID_PORT then
    Some "Invalid port number specified"%string
  else if retValue =? ERROR_HOSTNAME_INFORMATION then
    Some "Could not get information for given hostname"%string
  else if retValue =? ERROR_CREATE_SOCKET then
    Some "Could not create socket"%string
  else if retValue =? ERROR_CONNECT_SOCKET then
    Some "Could not connect socket"%string
  else if retValue =? ERROR_SOCKET_DRY then
    Some "Socket dried up"%string
  else if retValue =? ERROR_SOCKET_READ then
    Some "Could not read from socket"%string
  else if retValue =? ERROR_SOCKET_WRITE then
    Some "Could not write to socket"%string
  else if retValue =? ERROR_OUT_OF_MEMORY then
    Some "Out of memory"%string
  else if retValue =? ERROR_INVALID_NUMBER_STATES then
    Some "Invalid number of states"%string
  else if retValue =? ERROR_ZERO_STATE_LENGTH then
    Some "Zero-length state name"%string
  else if retValue =? ERROR_STATE_LENGTH_LONG then
    Some "State name length longer than supported"%string
  else if retValue =? ERROR_DUPLICATE_STATE then
    Some "Duplicate state name"%string
  else if retValue =? ERROR_INVALID_NUM_AGENTS then
    Some "Invalid number of agents"%string
  else if retValue =? ERROR_INVALID_TIME_LIMIT then
    Some "Invalid time limit for simulation"%string
  else if retValue =? ERROR_UAMP_CLIENT_MVISP_SERVER then
    Some "UAMP client attempting to contact MVISP server"%string
  else if retValue =? ERROR_MVISP_CLIENT_UAMP_SERVER then
    Some "MVISP client attempting to contact UAMP server"%string
  else if retValue =? ERROR_SERVER_UNKNOWN_HANDSHAKE then
    Some "Unknown handshake data from server"%string
  else if retValue =? ERROR_SIMULATION_DENIED then
    Some "Simulation specification denied"%string
  else if retValue =? ERROR_SIMULATION_RESPONSE_BAD then
    Some "Simulation specification response malformed"%string
  else if retValue =? ERROR_NO_MORE_DATA then
    Some "No more movement data to request"%string
  else if retValue =? ERROR_INVALID_CHANGE_TIME then
    Some "Invalid time given for state change"%string
  else if retValue =? ERROR_INVALID_CHANGE_STATE then
    Some "Invalid state into which to transition"%string
  else if retValue =? ERROR_NO_INTERSECTION then
    Some "Current command times form no intersection"%string
  else if retValue =? ERROR_NO_SHARED_VERSION then
    Some "Client and server do not support a common UAMP/MVISP version"%string
  else if retValue =? ERROR_2D_CLIENT_3D_SERVER then
    Some "Server sends 3D data, which client does not support"%string
  else if retValue =? ERROR_ADD_REMOVE_UNSUPPORTED then
    Some "Server sends add/remove data, which client does not support"%string
  else if retValue =? ERROR_INVALID_FEATURES then
    Some "Invalid features given to connect function"%string
  else if retValue =? ERROR_SERVER_REJECTED_HANDSHAKE then
    Some "Server rejected handshake for unknown reason"%string
  else if retValue =? ERROR_SERVER_CLIENT_VERSION_DISAGREE then
    Some "Server and client do not agree on protocol version to run"%string
  else if retValue =? ERROR_MVISP_NO_AGENTS then
    Some "MVISP server specified zero agents"%string
  else if retValue =? ERROR_FIRST_UPDATE_TIME then
    Some "First location update did not have zero time"%string
  else if retValue =? ERROR_NON_EQUAL_FINAL_UPDATES then
    Some "Server sent non-matching final updates"%string
  else if retValue =? ERROR_TIMESTAMP_TOO_LARGE then
    Some "Server sent update with timestamp past simulation duration"%string
  else if retValue =? ERROR_TIMESTAMP_NOT_INCREMENTED then
    Some "Server sent update with timestamp that did not increase"%string
  else if retValue =? ERROR_INVALID_PRESENT_FLAG then
    Some "Server sent malformed present flag"%string
  else None.

#[local] Instance string_eq_dec : EqDecision string := String.string_dec.

(** The return values of the library: 0 and the error codes of errors.h. *)
Definition return_values : list Z := map (fun k => - Z.of_nat k) (seq 0 36).

(** X7.  returnToString has a message for 0 and for each of the 35 error
    codes of errors.h, no two of the messages are the same, and for every
    other value it returns NULL. *)
Theorem returnToString_covers_the_codes :
  (forall r, returnToString r <> None <-> -35 <= r <= 0)
  /\ returnToString 0 = Some "Success"%string
  /\ NoDup (map returnToString return_values).
Proof.
  assert (Hout : forall r, r < -35 \/ 0 < r -> returnToString r = None).
  { intros r Hr. unfold returnToString.
    repeat match goal with
           | |- context [r =? ?c] =>
               let E := fresh in
               destruct (Z.eqb_spec r c) as [E | E];
               [vm_compute in E; exfalso; clear -E Hr; lia | clear E]
           end.
    reflexivity. }
  split; [| split].
  - intros r. split.
    + intros H. destruct (Z.lt_ge_cases r (-35)); [exfalso; apply H, Hout; lia|].
      destruct (Z.lt_ge_cases 0 r); [exfalso; apply H, Hout; lia | lia].
    + intros Hr.
      assert (Hin : In r return_values).
      { unfold return_values. apply in_map_iff. exists (Z.to_nat (- r)).
        split; [lia | apply in_seq; lia]. }
      revert Hin. generalize r. apply (proj1 (List.Forall_forall _ _)).
      vm_compute. repeat constructor; discriminate.
  - reflexivity.
  - apply (bool_decide_unpack _). vm_compute. exact I.
Qed.

(* ===================================================================== *)
(** ** Further properties of a connected session *)
(* ===================================================================== *)

Lemma uampIsMore_run m ags j a :
  session_inv (client m) ags -> at_index ags j = Some a ->
  uampIsMore j m = Val (if cur_time a <? timeLimit (client m) then 1 else 0) m.
Proof.
  intros Hs Hj. pose proof (ses_agents _ _ Hs) as Hags.
  assert (Hin : a ∈ ags).
  { apply at_index_Some in Hj. destruct Hj as [_ Hj]. eapply list_elem_of_lookup_2; eauto. }
  pose proof (ses_queues _ _ Hs) as Hq. rewrite Forall_forall in Hq.
  pose proof (agent_ok_bounded _ _ (Hq a Hin)) as (Hlen & Hcur & _).
  unfold UAMP_UPDATE_QUEUE_SIZE in Hcur.
  assert (Hvalid : valid_agentID (client m) j = true).
  { apply at_index_bound in Hj. unfold valid_agentID. rewrite (ses_count _ _ Hs).
    apply andb_true_iff. split; [apply Z.leb_le | apply Z.ltb_lt]; lia. }
  unfold uampIsMore. unfold bind at 1. unfold getClient at 1. cbn beta iota.
  unfold bind at 1. rewrite Hvalid. unfold ASSERT, ret at 1. cbn beta iota.
  unfold bind at 1. rewrite (getCurrentUpdate_run m ags j a) by auto.
  unfold bind at 1. rewrite (deref_run m ags j a) by (auto; lia).
  fold (cur_time a). destruct (cur_time a <? timeLimit (client m)); reflexivity.
Qed.

Lemma uampIsMore_valid j m r m' :
  uampIsMore j m = Val r m' -> valid_agentID (client m) j = true.
Proof.
  unfold uampIsMore. unfold bind at 1. unfold getClient at 1. cbn beta iota.
  unfold bind at 1. destruct (valid_agentID (client m) j); [reflexivity | discriminate].
Qed.

(** X8.  In a connected session uampIsMore tells whether the agent's
    current update lies before the time limit, uampIsAnyMore returns 0 or 1,
    and it returns 1 exactly when uampIsMore returns 1 for some agent. *)
Theorem uampIsAnyMore_iff_some_agent_has_more m :
  reachable m ->
  (uampIsAnyMore m = Val 1 m \/ uampIsAnyMore m = Val 0 m)
  /\ (uampIsAnyMore m = Val 1 m <-> exists j, uampIsMore j m = Val 1 m)
  /\ (forall ags j a,
        agents (client m) = Some ags -> at_index ags j = Some a ->
        uampIsMore j m = Val (if cur_time a <? timeLimit (client m) then 1 else 0) m).
Proof.
  intros Hreach. destruct (reachable_session m Hreach) as [ags Hs].
  pose proof (ses_smallest _ _ Hs) as [Hmin Hin].
  assert (Hany : uampIsAnyMore m
                 = Val (if smallestCurrentTime (client m) <? timeLimit (client m)
                        then 1 else 0) m).
  { unfold uampIsAnyMore, bind, getClient.
    destruct (smallestCurrentTime (client m) <? timeLimit (client m)); reflexivity. }
  split; [| split].
  - rewrite Hany. destruct (smallestCurrentTime (client m) <? timeLimit (client m)); auto.
  - rewrite Hany. split.
    + intros H.
      destruct (Z.ltb_spec (smallestCurrentTime (client m)) (timeLimit (client m)))
        as [Hlt | Hge]; [| discriminate].
      apply list_elem_of_fmap in Hin. destruct Hin as (a & Ea & Ha).
      apply list_elem_of_lookup in Ha. destruct Ha as [i Hi].
      exists (Z.of_nat i). rewrite (uampIsMore_run m ags (Z.of_nat i) a Hs).
      * rewrite <- Ea. apply Z.ltb_lt in Hlt. rewrite Hlt. reflexivity.
      * rewrite at_index_lookup by lia. rewrite Nat2Z.id. exact Hi.
    + intros [j Hj]. pose proof (uampIsMore_valid _ _ _ _ Hj) as Hv.
      unfold valid_agentID in Hv. apply andb_true_iff in Hv. destruct Hv as [Hv0 Hv1].
      apply Z.leb_le in Hv0. apply Z.ltb_lt in Hv1. rewrite (ses_count _ _ Hs) in Hv1.
      destruct (lookup_lt_is_Some_2 ags (Z.to_nat j)) as [a Ha]; [lia|].
      assert (Haj : at_index ags j = Some a) by (rewrite at_index_lookup by lia; exact Ha).
      rewrite (uampIsMore_run m ags j a Hs Haj) in Hj.
      destruct (Z.ltb_spec (cur_time a) (timeLimit (client m))) as [Hlt | Hge];
        [| discriminate].
      rewrite Forall_forall in Hmin.
      assert (Hle : smallestCurrentTime (client m) <= cur_time a).
      { apply Hmin. apply list_elem_of_fmap. exists a. split; auto.
        eapply list_elem_of_lookup_2; eauto. }
      destruct (Z.ltb_spec (smallestCurrentTime (client m)) (timeLimit (client m)));
        [reflexivity | lia].
  - intros ags' j a Hags Hj. pose proof (ses_agents _ _ Hs) as Hags'.
    rewrite Hags in Hags'. injection Hags' as ->.
    apply (uampIsMore_run m ags j a Hs Hj).
Qed.

Lemma uampIsAnyMore_witness :
  uampIsAnyMore sample_advanced = Val 1 sample_advanced
  /\ exists j, uampIsMore j sample_advanced = Val 1 sample_advanced.
Proof.
  destruct (uampIsAnyMore_iff_some_agent_has_more sample_advanced sample_advanced_reachable)
    as (_ & H & _).
  assert (E : uampIsAnyMore sample_advanced = Val 1 sample_advanced)
    by (vm_compute; reflexivity).
  split; [exact E | apply H; exact E].
Defined.

Lemma function_err (body : M unit) m e m' :
  body m = Err e m' -> function body m = Val e m'.
Proof. intros H. unfold function, returning. rewrite H. reflexivity. Qed.

(** X9.  In a connected session an agent whose current update is at the
    time limit (uampIsMore returns 0) cannot be advanced: uampAdvance
    returns ERROR_NO_MORE_DATA and changes nothing, sending nothing; and
    when no agent has more (uampIsAnyMore returns 0) uampAdvanceOldest does
    the same. *)
Theorem uampAdvance_stops_at_the_time_limit m :
  reachable m ->
  (forall ags j a,
     agents (client m) = Some ags -> at_index ags j = Some a ->
     uampIsMore j m = Val 0 m ->
     cur_time a = timeLimit (client m)
     /\ uampAdvance j m = Val ERROR_NO_MORE_DATA m)
  /\ (uampIsAnyMore m = Val 0 m ->
      smallestCurrentTime (client m) = timeLimit (client m)
      /\ uampAdvanceOldest m = Val ERROR_NO_MORE_DATA m).
Proof.
  intros Hreach. destruct (reachable_session m Hreach) as [ags Hs].
  pose proof (ses_limit _ _ Hs) as Hlimit.
  pose proof (ses_queues _ _ Hs) as Hq. rewrite Forall_forall in Hq.
  split.
  - intros ags' j a Hags Hj Hmore. pose proof (ses_agents _ _ Hs) as Hags'.
    rewrite Hags in Hags'. injection Hags' as ->.
    assert (Hin : a ∈ ags).
    { apply at_index_Some in Hj. destruct Hj as [_ Hj']. eapply list_elem_of_lookup_2; eauto. }
    pose proof (agent_ok_cur_time _ _ (Hq a Hin)) as Hrange.
    pose proof (agent_ok_bounded _ _ (Hq a Hin)) as (Hlen & Hcur & _).
    unfold UAMP_UPDATE_QUEUE_SIZE in Hcur.
    rewrite (uampIsMore_run m ags j a Hs Hj) in Hmore.
    destruct (Z.ltb_spec (cur_time a) (timeLimit (client m))); [discriminate|].
    assert (E : cur_time a = timeLimit (client m)) by lia.
    split; [exact E|].
    assert (Hvalid : valid_agentID (client m) j = true).
    { apply at_index_bound in Hj. unfold valid_agentID. rewrite (ses_count _ _ Hs).
      apply andb_true_iff. split; [apply Z.leb_le | apply Z.ltb_lt]; lia. }
    unfold uampAdvance. apply function_err.
    unfold bind at 1. unfold getClient at 1. cbn beta iota.
    unfold bind at 1. rewrite Hvalid. unfold ASSERT, ret at 1. cbn beta iota.
    unfold bind at 1. rewrite (getCurrentUpdate_run m ags j a) by auto.
    unfold bind at 1. rewrite (deref_run m ags j a) by (auto; lia).
    fold (cur_time a). unfold bind at 1. rewrite (proj2 (Z.eqb_eq _ _) E).
    reflexivity.
  - intros Hany. unfold uampIsAnyMore, bind, getClient in Hany.
    destruct (Z.ltb_spec (smallestCurrentTime (client m)) (timeLimit (client m)));
      [discriminate|].
    destruct (ses_smallest _ _ Hs) as [_ Hin].
    apply list_elem_of_fmap in Hin. destruct Hin as (a & Ea & Ha).
    pose proof (agent_ok_cur_time _ _ (Hq a Ha)) as Hrange.
    assert (E : smallestCurrentTime (client m) = timeLimit (client m)) by lia.
    split; [exact E|].
    unfold uampAdvanceOldest. apply function_err.
    unfold bind at 1. unfold getClient at 1. cbn beta iota zeta.
    unfold bind at 1. rewrite (proj2 (Z.eqb_eq _ _) E). reflexivity.
Qed.

(** The sample session two steps on: agent 1 is at the time limit. *)
Definition sample_later : machine :=
  after uampAdvanceOldest (after uampAdvanceOldest sample_advanced).

Lemma sample_later_reachable : reachable sample_later.
Proof.
  unfold sample_later.
  apply (reach_uampAdvanceOldest (after uampAdvanceOldest sample_advanced));
    [| vm_compute; reflexivity].
  apply (reach_uampAdvanceOldest sample_advanced); [| vm_compute; reflexivity].
  exact sample_advanced_reachable.
Qed.

Lemma uampAdvance_stops_witness :
  uampIsMore 1 sample_later = Val 0 sample_later
  /\ uampAdvance 1 sample_later = Val ERROR_NO_MORE_DATA sample_later.
Proof.
  assert (E : uampIsMore 1 sample_later = Val 0 sample_later) by (vm_compute; reflexivity).
  split; [exact E|].
  destruct (uampAdvance_stops_at_the_time_limit sample_later sample_later_reachable)
    as [H _].
  apply (H (agents_of sample_later) 1 (agent_of sample_later 1));
    [vm_compute; reflexivity | vm_compute; reflexivity | exact E].
Defined.

Lemma agent_fresh_limit tl a : agent_ok tl a -> agent_fresh a -> 1 <= tl.
Proof.
  intros (h & A & Hinv & HA) (_ & _ & Halive & _).
  pose proof (inv_alive _ _ _ _ Hinv) as Ha. rewrite Halive in Ha.
  destruct (lookup_lt_is_Some_2 h 1) as [u Hu]; [lia|].
  destruct (hist_ok_facts _ _ _ (inv_hist _ _ _ _ Hinv)) as (_ & _ & Ht & _).
  destruct (Ht 1%nat u Hu) as [_ H1]. specialize (H1 ltac:(lia)). lia.
Qed.

(** A connected session has a time limit of at least one millisecond. *)
Lemma uampConnect_limit hostname port nAgents tLimit seed features m0 m :
  nAgents <= INT_MAX ->
  uampConnect hostname port nAgents tLimit seed features m0 = Val 0 m ->
  1 <= timeLimit (client m).
Proof.
  intros Hmax H.
  destruct (uampConnect_session _ _ _ _ _ _ _ _ Hmax H) as (ags & Hs & Hfresh & _).
  pose proof (ses_count _ _ Hs) as Hc. pose proof (ses_queues _ _ Hs) as Hq.
  pose proof (ses_some _ _ Hs) as Hsome.
  destruct ags as [|a ags]; [simpl in Hc; lia|].
  inversion Hq; subst. inversion Hfresh; subst.
  eapply agent_fresh_limit; eauto.
Qed.

Lemma uampConnect_settings hostname port nAgents tLimit seed features m0 m :
  nAgents <= INT_MAX ->
  uampConnect hostname port nAgents tLimit seed features m0 = Val 0 m ->
  exists v,
    llround (PrimFloat.mul tLimit 1000%float) = Some v
    /\ timeLimit (client m) = to_u32 v
    /\ numAgents (client m) = nAgents /\ 0 < nAgents.
Proof.
  intros Hmax H. pose proof (uampConnect_limit _ _ _ _ _ _ _ _ Hmax H) as Hone.
  unfold uampConnect in H. apply returning_inv in H.
  destruct H as (m1 & Hclean & [[_ H] | H]).
  2:{ exfalso. revert H. apply eff_not_zero.
      unfold uampInitialize. eff_auto. }
  injection Hclean as <-.
  peel H as v1 ma H1. inversion H1; subst v1 ma; clear H1.
  peel H as v2 mb H2.
  destruct ((nAgents <=? 0) || (UINT32_MAX <? to_u32 nAgents)) eqn:Hn; [discriminate|].
  inversion H2; subst v2 mb; clear H2.
  apply orb_false_iff in Hn. destruct Hn as [Hn _]. apply Z.leb_gt in Hn.
  peel H as v3 mc H3.
  destruct (PrimFloat.ltb tLimit 0 || PrimFloat.ltb UAMP_MAX_TIME tLimit);
    [discriminate|].
  inversion H3; subst v3 mc; clear H3.
  peel H as ok md H4. apply (eff_val conn_rel) in H4; [| auto with eff].
  peel H as v5 me H5. destruct ok; [| discriminate]. inversion H5; subst v5 me; clear H5.
  peel H as v6 mf H6. inversion H6; subst v6 mf; clear H6.
  peel H as ms mg H7.
  match type of H7 with
  | to_millis _ ?mm = _ => destruct (to_millis_run tLimit mm) as (v & Hms & Hround)
  end.
  rewrite Hms in H7. clear Hms.
  inversion H7; subst ms mg; clear H7.
  peel H as v8 mh H8. inversion H8; subst v8 mh; clear H8.
  peel H as v9 mi H9. inversion H9; subst v9 mi; clear H9.
  match type of H with _ ?x = _ => set (m8 := x) in * end.
  assert (Hf : agents (client m8) = Some (replicate (Z.to_nat nAgents) zeroAgent)
               /\ numAgents (client m8) = nAgents
               /\ timeLimit (client m8) = to_u32 v
               /\ numStates (client m8) = 0).
  { subst m8. cbn. repeat split. apply to_u32_small. unfold INT_MAX in Hmax. lia. }
  clearbody m8. clear H4.
  assert (Hrel : conn_rel m8 m8) by reflexivity.
  peel_conn H Hrel. peel_conn H Hrel. peel_conn H Hrel. peel_conn H Hrel.
  peel_conn H Hrel. peel_conn H Hrel. peel_conn H Hrel. peel_conn H Hrel.
  peel_conn H Hrel. peel_conn H Hrel. peel_conn H Hrel.
  peel H as v12 mk H1. destruct v12.
  apply conn_rel_fields in Hrel. destruct Hrel as (Ra & Rn & Rt & Rs).
  destruct Hf as (Fa & Fn & Ft & Fs).
  injection H1 as <-.
  apply (eff_val queue_rel) in H; [| unfold checked; eff_auto].
  destruct H as [(b & ags & Hc) _].
  assert (Htl : timeLimit (client m1) = to_u32 v).
  { rewrite Hc. cbn. fold (timeLimit (client m12)). rewrite Rt, Ft. reflexivity. }
  destruct Hround as [Hround | [_ ->]].
  - exists v. split; [exact Hround|]. split; [exact Htl|]. rewrite Hc. cbn.
    fold (numAgents (client m12)). rewrite Rn, Fn. auto.
  - (* a time limit of 0 ms never connects *)
    exfalso. rewrite Htl in Hone. vm_compute in Hone. apply Hone. reflexivity.
Qed.


(** X10.  A uampConnect that returns 0 leaves the client with the number of
    agents that was asked for, the time limit in milliseconds, no states,
    and every agent's queue full: six updates received, the current one the
    first, at time 0.  The time limit is then at least one millisecond, so a
    time limit that rounds to 0 never connects, and right after the connect
    uampIsAnyMore returns 1. *)
Theorem uampConnect_fills_every_queue hostname port nAgents tLimit seed features m0 m :
  nAgents <= INT_MAX ->
  uampConnect hostname port nAgents tLimit seed features m0 = Val 0 m ->
  exists ags v,
    agents (client m) = Some ags /\ Z.of_nat (length ags) = nAgents
    /\ numAgents (client m) = nAgents /\ numStates (client m) = 0
    /\ llround (PrimFloat.mul tLimit 1000%float) = Some v
    /\ timeLimit (client m) = to_u32 v /\ 1 <= timeLimit (client m)
    /\ Forall (fun a => currentIndex a = 0 /\ recvIndex a = 0 /\ aliveInQueue a = 6
                        /\ cur_time a = 0) ags
    /\ uampIsAnyMore m = Val 1 m.
Proof.
  intros Hmax H.
  destruct (uampConnect_session _ _ _ _ _ _ _ _ Hmax H) as (ags & Hs & Hfresh & _ & Hsm & Hns).
  destruct (uampConnect_settings _ _ _ _ _ _ _ _ Hmax H) as (v & Hv & Htl & Hna & Hpos).
  assert (Hone : 1 <= timeLimit (client m)).
  { pose proof (ses_count _ _ Hs) as Hc. pose proof (ses_queues _ _ Hs) as Hq.
    destruct ags as [|a ags]; [simpl in Hc; lia|].
    inversion Hq; subst. inversion Hfresh; subst.
    eapply agent_fresh_limit; eauto. }
  exists ags, v. split; [apply (ses_agents _ _ Hs)|].
  split; [rewrite <- (ses_count _ _ Hs); exact Hna|].
  split; [exact Hna|]. split; [exact Hns|]. split; [exact Hv|]. split; [exact Htl|].
  split; [exact Hone|]. split.
  - eapply Forall_impl; [exact Hfresh|]. intros a (H1 & H2 & H3 & H4). auto.
  - unfold uampIsAnyMore, bind, getClient. rewrite Hsm.
    destruct (Z.ltb_spec 0 (timeLimit (client m))); [reflexivity | lia].
Qed.

Lemma uampConnect_fills_witness :
  numAgents (client sample_connected) = 2 /\ timeLimit (client sample_connected) = 1000
  /\ uampIsAnyMore sample_connected = Val 1 sample_connected.
Proof.
  destruct (uampConnect_fills_every_queue "h" 80 2 1%float 42 0 sample_start
              sample_connected)
    as (ags & v & _ & _ & Hn & _ & Hv & Htl & _ & _ & Hany);
    [unfold INT_MAX; lia | exact sample_connected_run |].
  split; [exact Hn|]. split; [| exact Hany].
  rewrite Htl. assert (E : Some v = Some 1000) by (rewrite <- Hv; vm_compute; reflexivity).
  injection E as ->. reflexivity.
Defined.

(** X11.  uampConnect checks its arguments before it allocates or connects:
    a number of agents that is not positive is ERROR_INVALID_NUM_AGENTS,
    and, checked after it, a time limit below 0 or above UAMP_MAX_TIME is
    ERROR_INVALID_TIME_LIMIT; either way the client is left as uampInitialize
    leaves it and nothing has happened outside.  A time limit that is not a
    number passes both comparisons and is not refused: the call goes on to
    allocate the agents, ERROR_OUT_OF_MEMORY when there is no memory, and,
    with memory, to open the socket, ERROR_INVALID_PORT for port 0, the
    agents freed again. *)
Theorem uampConnect_checks_its_arguments hostname port nAgents tLimit seed features m :
  let m' := mkMachine (set_numChanges 0 (set_agents None (set_fd (-1) (client m)))) (env m) in
  let call t := uampConnect hostname port nAgents t seed features m in
  (nAgents <= 0 -> call tLimit = Val ERROR_INVALID_NUM_AGENTS m')
  /\ (0 < nAgents <= INT_MAX -> time_out_of_range tLimit = true ->
      call tLimit = Val ERROR_INVALID_TIME_LIMIT m')
  /\ (0 < nAgents <= INT_MAX ->
      time_out_of_range nan = false
      /\ (forall rest,
            w_calloc (env m) = false :: rest ->
            call nan = Val ERROR_OUT_OF_MEMORY
                         (mkMachine (client m') (set_w_calloc rest (env m))))
      /\ (w_calloc (env m) = [] -> port = 0 ->
          exists mf,
            call nan = Val ERROR_INVALID_PORT mf
            /\ agents (client mf) = None /\ fd (client mf) = -1
            /\ numAgents (client mf) = nAgents
            /\ env mf = log_event (EvFree AgentStorage) (env m))).
Proof.
  intros m' call. subst call m'. cbv beta.
  assert (Hsmall : 0 < nAgents <= INT_MAX ->
                   (nAgents <=? 0) || (UINT32_MAX <? to_u32 nAgents) = false).
  { intros Hn. unfold INT_MAX in Hn. rewrite to_u32_small by lia.
    apply orb_false_iff. split; [apply Z.leb_gt | apply Z.ltb_ge]; unfold UINT32_MAX; lia. }
  split; [| split].
  - intros Hn. unfold uampConnect, returning.
    unfold bind at 1. unfold uampInitialize at 1, modClient at 1. cbn beta iota.
    unfold bind at 1. apply Z.leb_le in Hn. rewrite Hn. cbn [orb].
    destruct m as [[] w]. reflexivity.
  - intros Hn Ht. unfold uampConnect, returning.
    unfold bind at 1. unfold uampInitialize at 1, modClient at 1. cbn beta iota.
    unfold bind at 1. rewrite (Hsmall Hn). unfold ret at 1. cbn beta iota.
    unfold bind at 1. unfold time_out_of_range in Ht. rewrite Ht.
    destruct m as [[] w]. reflexivity.
  - intros Hn. split; [vm_compute; reflexivity|]. split.
    + intros rest Hc. unfold uampConnect, returning.
      unfold bind at 1. unfold uampInitialize at 1, modClient at 1. cbn beta iota.
      unfold bind at 1. rewrite (Hsmall Hn). unfold ret at 1. cbn beta iota.
      unfold bind at 1.
      replace (PrimFloat.ltb nan 0 || PrimFloat.ltb UAMP_MAX_TIME nan) with false
        by (vm_compute; reflexivity).
      unfold ret at 1. cbn beta iota.
      unfold bind at 1. unfold calloc at 1, bind at 1, getWorld at 1. cbn beta iota.
      cbn [env]. rewrite Hc.
      destruct m as [[] w]. reflexivity.
    + intros Hc ->. unfold uampConnect, returning.
      unfold bind at 1. unfold uampInitialize at 1, modClient at 1. cbn beta iota.
      unfold bind at 1. rewrite (Hsmall Hn). unfold ret at 1. cbn beta iota.
      unfold bind at 1.
      replace (PrimFloat.ltb nan 0 || PrimFloat.ltb UAMP_MAX_TIME nan) with false
        by (vm_compute; reflexivity).
      unfold ret at 1. cbn beta iota.
      unfold bind at 1. unfold calloc at 1, bind at 1, getWorld at 1. cbn beta iota.
      cbn [env]. rewrite Hc. unfold ret at 1. cbn beta iota.
      unfold bind at 1. unfold modClient at 1. cbn beta iota.
      unfold bind at 1. unfold modClient at 1. cbn beta iota.
      unfold bind at 1. unfold to_millis.
      replace (llround (nan * 1000)) with (@None Z) by (vm_compute; reflexivity).
      unfold ret at 1. cbn beta iota.
      destruct m as [[] w]. eexists. split; [reflexivity|].
      cbn. unfold INT_MAX in Hn. rewrite to_u32_small by lia. auto.
Qed.

Lemma agent_inv_before tl a h A :
  agent_inv tl a h A -> (A < length h)%nat -> (0 < A)%nat ->
  h !! pred A = Some (slot a (ring_pred (currentIndex a)))
  /\ u_time (slot a (ring_pred (currentIndex a))) <= cur_time a.
Proof.
  intros Hinv HA Hpos. destruct A as [|A]; [lia|]. simpl pred.
  destruct (lookup_lt_is_Some_2 h A) as [u Hu]; [lia|].
  assert (Hslot : slot a (ring_pred (currentIndex a)) = u).
  { rewrite (inv_cur _ _ _ _ Hinv), ring_pred_mod. apply slot_lookup.
    rewrite (inv_ring _ _ _ _ Hinv) by (simpl; lia). exact Hu. }
  rewrite Hslot. split; [exact Hu|].
  destruct (hist_ok_facts _ _ _ (inv_hist _ _ _ _ Hinv)) as (_ & _ & _ & Hmono).
  apply (Hmono A (S A) u _ ltac:(lia) Hu).
  apply (agent_inv_current _ _ _ _ Hinv HA).
Qed.

(** X12.  In a connected session uampCurrentCommand returns, for any agent,
    the command from the agent's previous update to its current one:
    positions and times are those of the two updates, divided by 1000.0,
    and present is the previous update's flag.  The previous update is not
    later than the current one, which is not later than the time limit.
    Before the agent's first advance (current time 0) the previous update is
    the current one, so the command stays at the first position. *)
Theorem uampCurrentCommand_spans_previous_to_current m ags j a :
  reachable m -> agents (client m) = Some ags -> at_index ags j = Some a ->
  let current := slot a (currentIndex a) in
  let last := if u_time current =? 0 then current
              else slot a (ring_pred (currentIndex a)) in
  uampCurrentCommand j m
  = Val (mkCommand j
           (thousandth (u_x last)) (thousandth (u_y last)) (thousandth (u_z last))
           (thousandth (u_time last))
           (thousandth (u_x current)) (thousandth (u_y current))
           (thousandth (u_z current)) (thousandth (u_time current))
           (u_present last)) m
  /\ 0 <= u_time last <= u_time current /\ u_time current <= timeLimit (client m).
Proof.
  intros Hreach Hags Hj current last.
  destruct (reachable_session m Hreach) as [ags' Hs].
  pose proof (ses_agents _ _ Hs) as Hags'. rewrite Hags in Hags'. injection Hags' as <-.
  assert (Hin : a ∈ ags).
  { apply at_index_Some in Hj. destruct Hj as [_ Hj]. eapply list_elem_of_lookup_2; eauto. }
  pose proof (ses_queues _ _ Hs) as Hq. rewrite Forall_forall in Hq.
  pose proof (ses_limit _ _ Hs) as Hlimit.
  pose proof (agent_ok_bounded _ _ (Hq a Hin)) as (Hlen & Hcur & _).
  pose proof (agent_ok_cur_time _ _ (Hq a Hin)) as Hrange.
  unfold UAMP_UPDATE_QUEUE_SIZE in Hcur.
  assert (Hp : 0 <= ring_pred (currentIndex a) < 6).
  { apply ring_pred_bound. unfold UAMP_UPDATE_QUEUE_SIZE. lia. }
  assert (Hvalid : valid_agentID (client m) j = true).
  { apply at_index_bound in Hj. unfold valid_agentID. rewrite (ses_count _ _ Hs).
    apply andb_true_iff. split; [apply Z.leb_le | apply Z.ltb_lt]; lia. }
  split.
  - unfold uampCurrentCommand. unfold bind at 1. unfold getClient at 1. cbn beta iota.
    unfold bind at 1. rewrite Hvalid. unfold ASSERT, ret at 1. cbn beta iota.
    unfold bind at 1. rewrite (getPreviousUpdate_run m ags j a) by (auto; lia).
    unfold bind at 1. rewrite (getCurrentUpdate_run m ags j a) by auto.
    unfold cur_time. fold current.
    unfold bind at 1.
    assert (Hlast : deref (j, if u_time current =? 0 then currentIndex a
                              else ring_pred (currentIndex a)) m = Val last m).
    { subst last. destruct (u_time current =? 0);
        apply (deref_run m ags j a); auto; lia. }
    rewrite Hlast. unfold bind at 1.
    rewrite (deref_run m ags j a) by (auto; lia). reflexivity.
  - subst last current. unfold cur_time in Hrange.
    destruct (Z.eqb_spec (u_time (slot a (currentIndex a))) 0) as [E | E]; [lia|].
    destruct (Hq a Hin) as (h & A & Hinv & HA).
    destruct (agent_inv_cur_time _ _ _ _ Hinv HA) as [H0 _]. unfold cur_time in H0.
    assert (HApos : (0 < A)%nat) by (destruct A; [specialize (H0 eq_refl); lia | lia]).
    destruct (agent_inv_before _ _ _ _ Hinv HA HApos) as [Hu Hle]. unfold cur_time in Hle.
    destruct (hist_ok_facts _ _ _ (inv_hist _ _ _ _ Hinv)) as (_ & _ & Ht & _).
    destruct (Ht _ _ Hu) as [Hz Hp'].
    destruct A as [|[|A]]; [lia | simpl in Hz; specialize (Hz eq_refl); lia |].
    simpl in Hp'. specialize (Hp' ltac:(lia)). lia.
Qed.

Lemma uampCurrentCommand_witness :
  exists cmd,
    uampCurrentCommand 0 sample_advanced = Val cmd sample_advanced
    /\ fromTime cmd = thousandth 0 /\ toTime cmd = thousandth 100.
Proof.
  destruct (uampCurrentCommand_spans_previous_to_current sample_advanced
              (agents_of sample_advanced) 0 (agent_of sample_advanced 0)
              sample_advanced_reachable) as [H _];
    [vm_compute; reflexivity | vm_compute; reflexivity |].
  eexists. split; [exact H|]. split; vm_compute; reflexivity.
Defined.

(* ===================================================================== *)
(** ** The handshake with a server of the right kind *)
(* ===================================================================== *)

(** The checks of lines 481-497 on the server's version byte and features:
    the error they raise, None when they pass. *)
Definition handshake_verdict (ver serverFeats supportedFeatures : Z) : option Z :=
  if Z.land ver SUPPORTED_VERSION =? 0 then Some ERROR_NO_SHARED_VERSION
  else if has_feature serverFeats UAMP_SUPPORTS_3D
          && negb (has_feature supportedFeatures UAMP_SUPPORTS_3D)
  then Some ERROR_2D_CLIENT_3D_SERVER
  else if has_feature serverFeats UAMP_SUPPORTS_ADD_REMOVE
          && negb (has_feature supportedFeatures UAMP_SUPPORTS_ADD_REMOVE)
  then Some ERROR_ADD_REMOVE_UNSUPPORTED
  else None.

(** The answer to the server's version choice (lines 509-512). *)
Definition choice_result (ack : Z) : Z :=
  if ack =? 0 then ERROR_SERVER_REJECTED_HANDSHAKE
  else if negb (ack =? SUPPORTED_VERSION) then ERROR_SERVER_CLIENT_VERSION_DISAGREE
  else 0.

Lemma performHandshake_verify_own_tag (isUAMP : bool) supportedFeatures ver m :
  performHandshake_verify isUAMP supportedFeatures
    (if isUAMP then tag_UAMP else tag_MVIS) ver m
  = match handshake_verdict ver (serverFeatures (client m)) supportedFeatures with
    | Some e => @Err unit e m
    | None => Val tt m
    end.
Proof.
  unfold performHandshake_verify, handshake_verdict.
  unfold bind at 1. unfold getClient at 1. cbn beta iota.
  unfold bind at 1.
  assert (Htag : (if isUAMP
                  then if memcmp_equal (if isUAMP then tag_UAMP else tag_MVIS) tag_MVIS 4
                       then ERROR ERROR_UAMP_CLIENT_MVISP_SERVER
                       else if negb (memcmp_equal (if isUAMP then tag_UAMP else tag_MVIS)
                                                  tag_UAMP 4)
                            then ERROR ERROR_SERVER_UNKNOWN_HANDSHAKE else ret tt
                  else if memcmp_equal (if isUAMP then tag_UAMP else tag_MVIS) tag_UAMP 4
                       then ERROR ERROR_MVISP_CLIENT_UAMP_SERVER
                       else if negb (memcmp_equal (if isUAMP then tag_UAMP else tag_MVIS)
                                                  tag_MVIS 4)
                            then ERROR ERROR_SERVER_UNKNOWN_HANDSHAKE else ret tt) m
                 = Val tt m).
  { destruct isUAMP; reflexivity. }
  rewrite Htag. unfold bind at 1.
  destruct (Z.land ver SUPPORTED_VERSION =? 0); [reflexivity|].
  unfold ret at 1. cbn beta iota.
  destruct (has_feature (serverFeatures (client m)) UAMP_SUPPORTS_3D
            && negb (has_feature supportedFeatures UAMP_SUPPORTS_3D)); [reflexivity|].
  destruct (has_feature (serverFeatures (client m)) UAMP_SUPPORTS_ADD_REMOVE
            && negb (has_feature supportedFeatures UAMP_SUPPORTS_ADD_REMOVE)); reflexivity.
Qed.

(** The whole handshake with a server that uses the client's tag. *)
Lemma performHandshake_matching_run
    (isUAMP : bool) supportedFeatures m ver f0 f1 f2 f3 ack rest :
  valid_features supportedFeatures -> 0 <= fd (client m) -> can_send (env m) 10 ->
  w_rx (env m)
  = (if isUAMP then tag_UAMP else tag_MVIS) ++ [ver] ++ [f0; f1; f2; f3] ++ [ack] ++ rest ->
  let sock := fd (client m) in
  let serverFeats := decode32 [f0; f1; f2; f3] in
  let m1 := exchanged isUAMP supportedFeatures [f0; f1; f2; f3] ([ack] ++ rest) m in
  serverFeatures (client m1) = serverFeats
  /\ performHandshake isUAMP supportedFeatures m
     = match handshake_verdict (byte_val ver) serverFeats supportedFeatures with
       | Some e => Val e (mkMachine (client m1) (sent sock [to_byte 0x00] (env m1)))
       | None =>
           Val (choice_result (byte_val ack))
               (mkMachine (client m1)
                          (set_w_rx rest (sent sock [to_byte SUPPORTED_VERSION] (env m1))))
       end.
Proof.
  intros Hv Hfd Hsend Hrx sock serverFeats m1.
  assert (Hlen : length (client_hello isUAMP supportedFeatures) = 9%nat)
    by (destruct isUAMP; reflexivity).
  assert (Hsend9 : can_send (env m) 9).
  { unfold can_send in *. destruct (w_tx_room (env m)); [lia | exact I]. }
  assert (Hsend1 : can_send (env m1) 1).
  { unfold m1, exchanged. cbn [env]. apply can_send_after. rewrite Hlen. exact Hsend. }
  split; [reflexivity|].
  unfold performHandshake.
  rewrite (performHandshake_exchange_ok isUAMP supportedFeatures m
             (if isUAMP then tag_UAMP else tag_MVIS) ver f0 f1 f2 f3 ([ack] ++ rest));
    auto; [| destruct isUAMP; reflexivity].
  fold m1. rewrite performHandshake_verify_own_tag.
  change (serverFeatures (client m1)) with serverFeats.
  destruct (handshake_verdict (byte_val ver) serverFeats supportedFeatures) as [e|].
  - unfold performHandshake_reject, bind, getClient.
    change (fd (client m1)) with sock.
    rewrite socketWrite_ok; auto; discriminate.
  - set (m2 := mkMachine (client m1)
                 (set_w_rx rest (sent sock [to_byte SUPPORTED_VERSION] (env m1)))).
    assert (Hchoice : performHandshake_choice m1
              = if byte_val ack =? 0 then Err ERROR_SERVER_REJECTED_HANDSHAKE m2
                else if negb (byte_val ack =? SUPPORTED_VERSION)
                     then Err ERROR_SERVER_CLIENT_VERSION_DISAGREE m2
                     else Val tt m2).
    { unfold performHandshake_choice.
      unfold bind at 1. unfold getClient at 1. cbn beta iota.
      change (fd (client m1)) with sock.
      unfold bind at 1. unfold checked at 1. unfold bind at 1.
      rewrite socketWrite_ok; auto; try discriminate.
      unfold ERROR_CHECK at 1. cbn [Z.ltb Z.compare]. unfold ret at 1. cbn beta iota.
      unfold bind at 1. unfold checked_with at 1. unfold bind at 1.
      rewrite (socketRead_ok sock 1 [ack] rest); auto;
        [| cbn [env client]; rewrite w_rx_sent; unfold m1, exchanged; cbn; reflexivity].
      cbn [fst snd]. unfold bind at 1. unfold ERROR_CHECK at 1. cbn [Z.ltb Z.compare].
      unfold ret at 1. cbn beta iota. unfold ret at 1. cbn beta iota zeta.
      fold m2.
      destruct (byte_val ack =? 0); [reflexivity|].
      destruct (negb (byte_val ack =? SUPPORTED_VERSION)); reflexivity. }
    unfold function, returning. rewrite Hchoice. unfold choice_result.
    destruct (byte_val ack =? 0); [reflexivity|].
    destruct (negb (byte_val ack =? SUPPORTED_VERSION)); reflexivity.
Qed.

(** X13.  The handshake with a server that answers with the client's own
    tag.  The client sends its nine bytes and reads the server's.  A
    server without the client's version, or with 3D or add/remove data the
    client did not ask for, gets the reject byte 0x00 and the call returns
    ERROR_NO_SHARED_VERSION, ERROR_2D_CLIENT_3D_SERVER or
    ERROR_ADD_REMOVE_UNSUPPORTED, the first that applies.  Otherwise the
    client sends its version choice 0x80 and reads the server's: 0 is
    ERROR_SERVER_REJECTED_HANDSHAKE, another version is
    ERROR_SERVER_CLIENT_VERSION_DISAGREE, and 0x80 is success.  The server's
    features are kept in the client in every case. *)
Theorem performHandshake_with_matching_tag
    (isUAMP : bool) supportedFeatures m ver f0 f1 f2 f3 ack rest :
  valid_features supportedFeatures -> 0 <= fd (client m) -> can_send (env m) 10 ->
  w_rx (env m)
  = (if isUAMP then tag_UAMP else tag_MVIS) ++ [ver] ++ [f0; f1; f2; f3] ++ [ack] ++ rest ->
  let sock := fd (client m) in
  let serverFeats := decode32 [f0; f1; f2; f3] in
  let m1 := exchanged isUAMP supportedFeatures [f0; f1; f2; f3] ([ack] ++ rest) m in
  serverFeatures (client m1) = serverFeats
  /\ performHandshake isUAMP supportedFeatures m
     = match handshake_verdict (byte_val ver) serverFeats supportedFeatures with
       | Some e => Val e (mkMachine (client m1) (sent sock [to_byte 0x00] (env m1)))
       | None =>
           Val (choice_result (byte_val ack))
               (mkMachine (client m1)
                          (set_w_rx rest (sent sock [to_byte SUPPORTED_VERSION] (env m1))))
       end.
Proof.
  exact (performHandshake_matching_run isUAMP supportedFeatures m ver f0 f1 f2 f3 ack rest).
Qed.

(** A UAMP server that agrees, and one that offers 3D data to a 2D client. *)
Definition sample_handshake (feats : Z) : machine :=
  mkMachine (set_fd 3 sample_client)
            (sample_world (tag_UAMP ++ [to_byte 0x80] ++ encode32 feats ++ [to_byte 0x80])).

Lemma performHandshake_matching_witness :
  value (performHandshake true 0) (sample_handshake 0) 7 = 0
  /\ value (performHandshake true 0) (sample_handshake UAMP_SUPPORTS_3D) 7
     = ERROR_2D_CLIENT_3D_SERVER.
Proof.
  split.
  - destruct (performHandshake_with_matching_tag true 0 (sample_handshake 0)
                (to_byte 0x80) x00 x00 x00 x00 (to_byte 0x80) []) as [_ H];
      [reflexivity | vm_compute; discriminate | exact I | reflexivity |].
    unfold value. rewrite H. reflexivity.
  - destruct (performHandshake_with_matching_tag true 0 (sample_handshake UAMP_SUPPORTS_3D)
                (to_byte 0x80) (to_byte 0x80) x00 x00 x00 (to_byte 0x80) []) as [_ H];
      [reflexivity | vm_compute; discriminate | exact I | reflexivity |].
    unfold value. rewrite H. reflexivity.
Defined.

(* ===================================================================== *)
(** ** The framed I/O buffer on messages of any size *)
(* ===================================================================== *)

(** The world after the socket accepted the chunks, one socketWrite each. *)
Definition sent_all (sock : Z) (chunks : list (list byte)) (w : world) : world :=
  foldl (fun w c => sent sock c w) w chunks.

(** What the write buffer keeps between two calls of socketWriteRaw. *)
Definition write_buf_ok (b : uampIOBuffer) : Prop :=
  0 <= passed b <= total b /\ total b < 2 ^ 64 /\ inBuffer b < UAMP_IO_BUFFER_SIZE
  /\ (passed b = total b -> buffer b = []).

(** The writes of a frame: full buffers, then at most one shorter write, the
    one that completes the frame. *)
Definition frame_chunks (chunks : list (list byte)) (complete : Prop) : Prop :=
  exists fulls tail,
    chunks = fulls ++ tail
    /\ Forall (fun c => Z.of_nat (length c) = UAMP_IO_BUFFER_SIZE) fulls
    /\ (tail = []
        \/ exists c, tail = [c] /\ c <> [] /\ Z.of_nat (length c) < UAMP_IO_BUFFER_SIZE
                     /\ complete).

Lemma set_commBuf_twice b b' c : set_commBuf b' (set_commBuf b c) = set_commBuf b' c.
Proof. reflexivity. Qed.

Lemma can_send_sent w sock bytes n :
  can_send w (length bytes + n) -> can_send (sent sock bytes w) n.
Proof.
  unfold can_send, sent. destruct (w_tx_room w) as [room|] eqn:E; cbn; [lia|].
  rewrite E. auto.
Qed.

Lemma can_send_less w n k : (k <= n)%nat -> can_send w n -> can_send w k.
Proof. unfold can_send. destruct (w_tx_room w); [lia | auto]. Qed.

Lemma socketWriteRaw_loop_chunks sock fuel :
  0 <= sock -> forall data m,
  (length data <= fuel)%nat ->
  let buf := commBuf (client m) in
  write_buf_ok buf -> passed buf + Z.of_nat (length data) <= total buf ->
  can_send (env m) (length (buffer buf) + length data) ->
  exists chunks b',
    socketWriteRaw_loop fuel sock data m
    = Val tt (mkMachine (set_commBuf b' (client m)) (sent_all sock chunks (env m)))
    /\ write_buf_ok b' /\ total b' = total buf
    /\ passed b' = passed buf + Z.of_nat (length data)
    /\ concat chunks ++ buffer b' = buffer buf ++ data
    /\ frame_chunks chunks (passed b' = total b').
Proof.
  intros Hsock. induction fuel as [|fuel IH]; intros data m Hfuel buf Hok Hfit Hroom.
  - destruct data; [| simpl in Hfuel; lia].
    exists [], buf. simpl. rewrite app_nil_r.
    split; [destruct m as [[] w]; reflexivity|].
    split; [exact Hok|]. split; [reflexivity|]. split; [lia|]. split; [reflexivity|].
    exists [], []. split; [reflexivity|]. split; [constructor | left; reflexivity].
  - destruct data as [|b0 data0].
    { exists [], buf. simpl. rewrite app_nil_r.
      split; [destruct m as [[] w]; reflexivity|].
      split; [exact Hok|]. split; [reflexivity|]. split; [lia|]. split; [reflexivity|].
      exists [], []. split; [reflexivity|]. split; [constructor | left; reflexivity]. }
    set (data := b0 :: data0) in *.
    assert (Hd : (0 < length data)%nat) by (subst data; simpl; lia).
    destruct Hok as (Hp & Ht64 & Hin & Hdone).
    unfold UAMP_IO_BUFFER_SIZE in *. unfold inBuffer in Hin.
    change (socketWriteRaw_loop (S fuel) sock data m)
      with ((buf <- getBuf ;;
             let len := Z.of_nat (length data) in
             let room := 2048 - inBuffer buf in
             let thisTime := if len <? room then len else room in
             let n := Z.to_nat thisTime in
             let buf' := mkIOBuffer (total buf) (to_u64 (passed buf + thisTime))
                                    (buffer buf ++ take n data) in
             setBuf buf' ;;
             (if (inBuffer buf' =? 2048) || (passed buf' =? total buf') then
                writeRet <- socketWrite sock (buffer buf') ;;
                ERROR_CHECK writeRet ;;
                setBuf (mkIOBuffer (total buf') (passed buf') [])
              else ret tt) ;;
             socketWriteRaw_loop fuel sock (drop n data)) m).
    unfold getBuf. unfold bind at 1 2. unfold getClient at 1. unfold ret at 1.
    cbn beta iota zeta. fold buf.
    assert (Hib : inBuffer buf = Z.of_nat (length (buffer buf))) by reflexivity.
    set (ib := inBuffer buf) in *.
    destruct (Z.ltb_spec (Z.of_nat (length data)) (2048 - ib)) as [Hless | Hmore].
    + (* the rest of the data fits the buffer *)
      cbv iota. rewrite Nat2Z.id, firstn_all, skipn_all.
      rewrite to_u64_small by lia.
      unfold bind at 1. unfold setBuf at 1, modClient at 1. cbn beta iota.
      unfold inBuffer at 1. cbn [buffer passed total]. rewrite length_app.
      destruct (Z.eqb_spec (Z.of_nat (length (buffer buf) + length data)) 2048); [lia|].
      cbn [orb].
      destruct (Z.eqb_spec (passed buf + Z.of_nat (length data)) (total buf)) as [Hend | Hgo].
      * unfold bind at 1 2.
        rewrite socketWrite_ok;
          [| exact Hsock | destruct (buffer buf); subst data; discriminate
           | cbn [env]; rewrite length_app; exact Hroom].
        unfold ERROR_CHECK. cbn [Z.ltb Z.compare]. unfold ret at 1. cbn beta iota.
        unfold bind at 1. unfold setBuf, modClient. cbn beta iota. cbn [client env].
        exists [buffer buf ++ data], (mkIOBuffer (total buf) (total buf) []).
        split.
        { rewrite Hend. destruct fuel; reflexivity. }
        split; [unfold write_buf_ok, inBuffer; cbn; unfold UAMP_IO_BUFFER_SIZE; repeat split; auto; lia|].
        split; [reflexivity|]. split; [cbn [passed]; lia|].
        split; [cbn [concat buffer]; rewrite !app_nil_r; reflexivity|].
        exists [], [buffer buf ++ data]. split; [reflexivity|]. split; [constructor|].
        right. exists (buffer buf ++ data). split; [reflexivity|].
        split; [destruct (buffer buf); subst data; discriminate|].
        split; [rewrite length_app; unfold UAMP_IO_BUFFER_SIZE; lia | reflexivity].
      * unfold bind at 1. unfold ret at 1. cbn beta iota.
        exists [], (mkIOBuffer (total buf) (passed buf + Z.of_nat (length data))
                               (buffer buf ++ data)).
        split.
        { destruct fuel; reflexivity. }
        split.
        { unfold write_buf_ok, inBuffer. cbn [passed total buffer]. rewrite length_app.
          unfold UAMP_IO_BUFFER_SIZE. repeat split; try lia. }
        split; [reflexivity|]. split; [reflexivity|]. split; [reflexivity|].
        exists [], []. split; [reflexivity|]. split; [constructor | left; reflexivity].
    + (* the buffer fills up *)
      cbv iota. set (room := 2048 - ib) in *.
      assert (Hroom1 : 0 < room) by (subst room; lia).
      rewrite to_u64_small by lia.
      unfold bind at 1. unfold setBuf at 1, modClient at 1. cbn beta iota.
      unfold inBuffer at 1. cbn [buffer passed total].
      assert (Hfull : Z.of_nat (length (buffer buf ++ take (Z.to_nat room) data)) = 2048).
      { rewrite length_app, length_take. subst room. lia. }
      rewrite Hfull. cbn [Z.eqb Pos.eqb orb].
      unfold bind at 1 2.
      rewrite socketWrite_ok;
        [| exact Hsock
         | intros E; rewrite E in Hfull; simpl in Hfull; lia
         | cbn [env]; eapply can_send_less; [| exact Hroom];
           rewrite length_app, length_take; lia].
      unfold ERROR_CHECK. cbn [Z.ltb Z.compare]. unfold ret at 1. cbn beta iota.
      unfold bind at 1. unfold setBuf, modClient. cbn beta iota. cbn [client env].
      set (c0 := buffer buf ++ take (Z.to_nat room) data) in *.
      set (m1 := mkMachine (set_commBuf (mkIOBuffer (total buf) (passed buf + room) [])
                                        (set_commBuf (mkIOBuffer (total buf) (passed buf + room) c0)
                                                     (client m)))
                           (sent sock c0 (env m))).
      destruct (IH (drop (Z.to_nat room) data) m1) as (chunks & b' & Hrun & Hok' & Ht' & Hp' & Hcat & Hch).
      { rewrite length_drop. lia. }
      { unfold m1, write_buf_ok, inBuffer. cbn. unfold UAMP_IO_BUFFER_SIZE. repeat split; auto; lia. }
      { unfold m1. cbn [client commBuf set_commBuf passed total]. rewrite length_drop. lia. }
      { unfold m1. cbn [client env commBuf set_commBuf buffer length Nat.add].
        apply can_send_sent. eapply can_send_less; [| exact Hroom].
        rewrite length_drop. subst c0. rewrite length_app, length_take. lia. }
      exists (c0 :: chunks), b'. rewrite Hrun.
      split; [reflexivity|]. split; [exact Hok'|].
      split; [rewrite Ht'; reflexivity|].
      split; [rewrite Hp'; unfold m1; cbn [client commBuf set_commBuf passed]; rewrite length_drop; lia|].
      split.
      { cbn [concat]. rewrite <- app_assoc, Hcat. unfold m1. cbn [client commBuf set_commBuf buffer].
        subst c0. rewrite app_nil_l, <- app_assoc, take_drop. reflexivity. }
      destruct Hch as (fulls & tail & -> & Hf & Htail).
      exists (c0 :: fulls), tail. split; [reflexivity|].
      split; [constructor; [unfold UAMP_IO_BUFFER_SIZE; exact Hfull | exact Hf] | exact Htail].
Qed.

Lemma socketWriteRaw_chunks sock data m :
  0 <= sock ->
  let buf := commBuf (client m) in
  write_buf_ok buf -> passed buf + Z.of_nat (length data) <= total buf ->
  can_send (env m) (length (buffer buf) + length data) ->
  exists chunks b',
    socketWriteRaw sock data m
    = Val 0 (mkMachine (set_commBuf b' (client m)) (sent_all sock chunks (env m)))
    /\ write_buf_ok b' /\ total b' = total buf
    /\ passed b' = passed buf + Z.of_nat (length data)
    /\ concat chunks ++ buffer b' = buffer buf ++ data
    /\ frame_chunks chunks (passed b' = total b').
Proof.
  intros Hsock buf Hok Hfit Hroom.
  destruct (socketWriteRaw_loop_chunks sock (length data) Hsock data m (le_n _) Hok Hfit Hroom)
    as (chunks & b' & Hrun & H).
  exists chunks, b'. split; [| exact H].
  unfold socketWriteRaw, getBuf. unfold bind, getClient, ret. cbn beta iota. fold buf.
  destruct Hok as (Hp & Ht64 & _).
  rewrite to_u64_small by lia.
  replace ((passed buf <=? passed buf + Z.of_nat (length data))
           && (Z.of_nat (length data) <=? passed buf + Z.of_nat (length data))
           && (passed buf + Z.of_nat (length data) <=? total buf)) with true
    by (symmetry; rewrite !andb_true_iff; repeat split; lia).
  cbn [ASSERT]. unfold ret, function, returning. rewrite Hrun. reflexivity.
Qed.

(** A frame handed to the buffer piece by piece, the way every caller does
    it: [ret = socketWriteRaw(...); ERROR_CHECK(isErr, wasErr, ret);]. *)
Fixpoint writes (sock : Z) (pieces : list (list byte)) : M unit :=
  match pieces with
  | [] => ret tt
  | p :: ps => checked (socketWriteRaw sock p) ;; writes sock ps
  end.

Lemma sent_all_app sock c1 c2 w :
  sent_all sock (c1 ++ c2) w = sent_all sock c2 (sent_all sock c1 w).
Proof. unfold sent_all. apply foldl_app. Qed.

Lemma can_send_sent_all sock chunks : forall w n,
  can_send w (length (concat chunks) + n) -> can_send (sent_all sock chunks w) n.
Proof.
  induction chunks as [|c chunks IH]; intros w n H; [exact H|].
  cbn [sent_all foldl]. apply IH. apply can_send_sent.
  cbn [concat] in H. rewrite length_app in H.
  eapply can_send_less; [| exact H]. lia.
Qed.

Lemma frame_chunks_nil chunks P : frame_chunks chunks P -> concat chunks = [] -> chunks = [].
Proof.
  intros (fulls & tail & -> & Hf & Ht) Hc. unfold UAMP_IO_BUFFER_SIZE in *.
  destruct fulls as [|c fulls].
  - destruct Ht as [-> | (c & -> & Hne & _)]; [reflexivity|].
    cbn in Hc. rewrite app_nil_r in Hc. contradiction.
  - inversion Hf; subst. cbn in Hc. apply app_eq_nil in Hc. destruct Hc as [-> _].
    simpl in *. lia.
Qed.

Lemma frame_chunks_app c1 c2 (P Q : Prop) :
  frame_chunks c1 P -> frame_chunks c2 Q -> (P -> c2 = [] /\ Q) ->
  frame_chunks (c1 ++ c2) Q.
Proof.
  intros (f1 & t1 & -> & Hf1 & Ht1) H2 HP.
  destruct Ht1 as [-> | (c & -> & Hne & Hlen & Hp)].
  - destruct H2 as (f2 & t2 & -> & Hf2 & Ht2). rewrite app_nil_r.
    exists (f1 ++ f2), t2. split; [rewrite app_assoc; reflexivity|].
    split; [apply Forall_app; auto | exact Ht2].
  - destruct (HP Hp) as [-> Hq]. rewrite app_nil_r.
    exists f1, [c]. split; [reflexivity|]. split; [exact Hf1|].
    right. exists c. auto.
Qed.

Lemma writes_chunks sock : 0 <= sock -> forall pieces m,
  let buf := commBuf (client m) in
  write_buf_ok buf -> passed buf + Z.of_nat (length (concat pieces)) <= total buf ->
  can_send (env m) (length (buffer buf) + length (concat pieces)) ->
  exists chunks b',
    writes sock pieces m
    = Val tt (mkMachine (set_commBuf b' (client m)) (sent_all sock chunks (env m)))
    /\ write_buf_ok b' /\ total b' = total buf
    /\ passed b' = passed buf + Z.of_nat (length (concat pieces))
    /\ concat chunks ++ buffer b' = buffer buf ++ concat pieces
    /\ frame_chunks chunks (passed b' = total b').
Proof.
  intros Hsock. induction pieces as [|p ps IH]; intros m buf Hok Hfit Hroom.
  - exists [], buf. cbn [writes concat length]. rewrite app_nil_r.
    split; [destruct m as [[] w]; reflexivity|].
    split; [exact Hok|]. split; [reflexivity|]. split; [simpl; lia|]. split; [reflexivity|].
    exists [], []. split; [reflexivity|]. split; [constructor | left; reflexivity].
  - cbn [concat] in *. rewrite length_app in *.
    destruct (socketWriteRaw_chunks sock p m Hsock Hok ltac:(fold buf; lia))
      as (c1 & b1 & Hrun1 & Hok1 & Ht1 & Hp1 & Hcat1 & Hch1).
    { eapply can_send_less; [| exact Hroom]. fold buf. lia. }
    fold buf in Ht1, Hp1, Hcat1.
    set (m1 := mkMachine (set_commBuf b1 (client m)) (sent_all sock c1 (env m))) in *.
    assert (Hlen1 : (length (concat c1) + length (buffer b1)
                     = length (buffer buf) + length p)%nat).
    { rewrite <- !length_app. f_equal. exact Hcat1. }
    destruct (IH m1) as (c2 & b2 & Hrun2 & Hok2 & Ht2 & Hp2 & Hcat2 & Hch2).
    { exact Hok1. }
    { unfold m1. cbn [client commBuf set_commBuf]. fold buf in Ht1, Hp1. lia. }
    { unfold m1. cbn [client env commBuf set_commBuf]. apply can_send_sent_all.
      eapply can_send_less; [| exact Hroom]. fold buf. lia. }
    exists (c1 ++ c2), b2.
    split.
    { cbn [writes]. unfold checked. unfold bind at 1 2. rewrite Hrun1.
      unfold ERROR_CHECK. cbn [Z.ltb Z.compare]. unfold ret at 1. cbn beta iota.
      fold m1. rewrite Hrun2. unfold m1. cbn [client env]. rewrite sent_all_app. reflexivity. }
    split; [exact Hok2|].
    split; [rewrite Ht2; exact Ht1|].
    split; [rewrite Hp2; unfold m1; cbn [client commBuf set_commBuf]; fold buf in Hp1; lia|].
    split.
    { rewrite concat_app, <- app_assoc, Hcat2. unfold m1. cbn [client commBuf set_commBuf].
      rewrite app_assoc, Hcat1. fold buf. rewrite <- app_assoc. reflexivity. }
    apply (frame_chunks_app c1 c2 _ _ Hch1 Hch2).
    intros Hend. unfold m1 in Hp2, Ht2, Hcat2. cbn [client commBuf set_commBuf] in Hp2, Ht2, Hcat2.
    destruct Hok1 as (_ & _ & _ & Hempty). destruct Hok2 as (Hr2 & _).
    assert (Hps : concat ps = []).
    { apply length_zero_iff_nil. lia. }
    split; [| lia].
    apply (frame_chunks_nil _ _ Hch2).
    rewrite Hps, (Hempty Hend) in Hcat2. simpl in Hcat2.
    apply app_eq_nil in Hcat2. tauto.
Qed.

(** The whole frame, from beginWrite to the write that completes it. *)
Lemma writes_frame sock pieces m :
  0 <= sock ->
  let frame := concat pieces in
  let size := Z.of_nat (length frame) in
  size < 2 ^ 64 -> can_send (env m) (length frame) ->
  exists chunks,
    (beginWrite size ;; writes sock pieces) m
    = Val tt (mkMachine (set_commBuf (mkIOBuffer size size []) (client m))
                        (sent_all sock chunks (env m)))
    /\ concat chunks = frame
    /\ frame_chunks chunks True.
Proof.
  intros Hsock frame size Hsize Hroom.
  set (m0 := with_buf m (mkIOBuffer size 0 [])).
  destruct (writes_chunks sock Hsock pieces m0) as (chunks & b' & Hrun & Hok & Ht & Hp & Hcat & Hch).
  { unfold m0, write_buf_ok, inBuffer. cbn. unfold UAMP_IO_BUFFER_SIZE.
    repeat split; auto; lia. }
  { unfold m0. cbn. fold frame. lia. }
  { unfold m0. cbn. exact Hroom. }
  unfold m0 in Ht, Hp, Hcat. cbn [with_buf client commBuf set_commBuf total passed buffer] in Ht, Hp, Hcat.
  fold frame in Hp. fold size in Hp.
  destruct Hok as (_ & _ & _ & Hempty).
  assert (Hb : b' = mkIOBuffer size size []).
  { destruct b' as [t p b]. cbn in *. subst t. rewrite Hempty by lia. f_equal. lia. }
  subst b'. exists chunks.
  split.
  { unfold bind. change (beginWrite size m) with (Val tt m0). cbv beta iota. rewrite Hrun. reflexivity. }
  split; [cbn in Hcat; rewrite app_nil_r in Hcat; exact Hcat|].
  destruct Hch as (fulls & tail & -> & Hf & Htail). exists fulls, tail.
  split; [reflexivity|]. split; [exact Hf|].
  destruct Htail as [-> | (c & -> & Hne & Hlen & _)]; [left; reflexivity|].
  right. exists c. auto.
Qed.

(** X14.  A frame of any size that is announced with beginWrite and handed
    to socketWriteRaw piece by piece reaches the socket whole and in order:
    every call returns 0, the bytes written are the pieces' concatenation,
    they go out in writes of a full buffer of 2048 bytes each, followed by
    at most one shorter write for the end of the frame, and nothing stays
    behind in the buffer. *)
Theorem socketWriteRaw_sends_the_frame sock pieces m :
  0 <= sock ->
  let frame := concat pieces in
  let size := Z.of_nat (length frame) in
  size < 2 ^ 64 -> can_send (env m) (length frame) ->
  exists chunks,
    (beginWrite size ;; writes sock pieces) m
    = Val tt (mkMachine (set_commBuf (mkIOBuffer size size []) (client m))
                        (sent_all sock chunks (env m)))
    /\ concat chunks = frame
    /\ frame_chunks chunks True.
Proof. exact (writes_frame sock pieces m). Qed.

Lemma socketWriteRaw_sends_witness :
  exists chunks,
    (beginWrite 3004 ;; writes 3 [replicate 3000 x00; encode32 1]) sample_connected
    = Val tt (mkMachine (set_commBuf (mkIOBuffer 3004 3004 []) (client sample_connected))
                        (sent_all 3 chunks (env sample_connected)))
    /\ concat chunks = replicate 3000 x00 ++ encode32 1
    /\ frame_chunks chunks True.
Proof.
  destruct (socketWriteRaw_sends_the_frame 3 [replicate 3000 x00; encode32 1] sample_connected)
    as (chunks & Hrun & Hcat & Hch); [lia | reflexivity | exact I |].
  exists chunks. split; [exact Hrun|]. split; [| exact Hch].
  rewrite Hcat. cbn [concat]. rewrite app_nil_r. reflexivity.
Defined.

(** What the read buffer keeps between two calls of socketReadRaw: the
    bytes in it belong to the frame. *)
Definition read_buf_ok (b : uampIOBuffer) : Prop :=
  0 <= passed b /\ passed b + inBuffer b <= total b /\ total b < 2 ^ 64
  /\ inBuffer b <= UAMP_IO_BUFFER_SIZE.

Lemma set_w_rx_id w : set_w_rx (w_rx w) w = w.
Proof. destruct w; reflexivity. Qed.

Lemma take_drop_split {A} (k l : nat) : forall xs ys : list A,
  (k <= length xs)%nat ->
  take k xs ++ take l (drop k xs ++ ys) = take (k + l) (xs ++ ys)
  /\ drop l (drop k xs ++ ys) = drop (k + l) (xs ++ ys).
Proof.
  induction k as [|k IH]; intros xs ys Hk; [split; reflexivity|].
  destruct xs as [|x xs]; [simpl in Hk; lia|].
  destruct (IH xs ys ltac:(simpl in Hk; lia)) as [H1 H2].
  split; [cbn; f_equal; exact H1 | exact H2].
Qed.

Lemma socketReadRaw_loop_stream sock fuel :
  0 <= sock -> forall len data m,
  (Z.to_nat len <= fuel)%nat -> 0 <= len ->
  let buf := commBuf (client m) in
  let stream := buffer buf ++ w_rx (env m) in
  read_buf_ok buf -> passed buf + len <= total buf ->
  total buf - passed buf - inBuffer buf <= Z.of_nat (length (w_rx (env m))) ->
  exists b' rx',
    socketReadRaw_loop fuel sock len data m
    = Val (data ++ take (Z.to_nat len) stream)
          (mkMachine (set_commBuf b' (client m)) (set_w_rx rx' (env m)))
    /\ read_buf_ok b' /\ total b' = total buf /\ passed b' = passed buf + len
    /\ buffer b' ++ rx' = drop (Z.to_nat len) stream.
Proof.
  intros Hsock.
  assert (Hzero : forall fuel data m,
            let buf := commBuf (client m) in
            read_buf_ok buf ->
            exists b' rx',
              socketReadRaw_loop fuel sock 0 data m
              = Val (data ++ take (Z.to_nat 0) (buffer buf ++ w_rx (env m)))
                    (mkMachine (set_commBuf b' (client m)) (set_w_rx rx' (env m)))
              /\ read_buf_ok b' /\ total b' = total buf /\ passed b' = passed buf + 0
              /\ buffer b' ++ rx' = drop (Z.to_nat 0) (buffer buf ++ w_rx (env m))).
  { intros fuel0 data m buf Hok. exists buf, (w_rx (env m)).
    split.
    { destruct fuel0; cbn; rewrite app_nil_r; destruct m as [[] []]; reflexivity. }
    split; [exact Hok|]. split; [reflexivity|]. split; [lia | reflexivity]. }
  induction fuel as [|fuel IH]; intros len data m Hfuel Hlen buf stream Hok Hfit Hrx.
  - assert (len = 0) by lia. subst len. apply Hzero. exact Hok.
  - destruct (Z.eq_dec len 0) as [-> | Hpos]; [apply Hzero; exact Hok|].
    destruct Hok as (Hp & Hin & Ht64 & Hcap). unfold UAMP_IO_BUFFER_SIZE in *.
    cbn [socketReadRaw_loop]. destruct (Z.leb_spec len 0); [lia|].
    unfold getBuf at 1. unfold bind at 1 2. unfold getClient at 1. unfold ret at 1.
    cbn beta iota. fold buf.
    (* the refill, when the buffer is empty *)
    assert (Hfill : exists chunk rx1,
              (if inBuffer buf =? 0
               then
                 let remaining := to_u64 (total buf - passed buf) in
                 let thisTime := if remaining <? 2048 then remaining else 2048 in
                 r <- socketRead sock (to_u32 thisTime) ;;
                 ERROR_CHECK (fst r) ;;
                 setBuf (mkIOBuffer (total buf) (passed buf) (snd r))
               else ret tt) m
              = Val tt (mkMachine (set_commBuf (mkIOBuffer (total buf) (passed buf) chunk)
                                               (client m))
                                  (set_w_rx rx1 (env m)))
              /\ chunk ++ rx1 = stream /\ chunk <> []
              /\ passed buf + Z.of_nat (length chunk) <= total buf
              /\ Z.of_nat (length chunk) <= 2048).
    { destruct (Z.eqb_spec (inBuffer buf) 0) as [Hempty | Hfull].
      - assert (Hb : buffer buf = []).
        { unfold inBuffer in Hempty. destruct (buffer buf); [reflexivity | simpl in Hempty; lia]. }
        cbv zeta. rewrite to_u64_small by lia.
        set (n := if total buf - passed buf <? 2048 then total buf - passed buf else 2048).
        assert (Hn : 0 < n <= 2048 /\ n <= total buf - passed buf).
        { subst n. destruct (Z.ltb_spec (total buf - passed buf) 2048); lia. }
        rewrite Hempty in Hrx.
        exists (take (Z.to_nat n) (w_rx (env m))), (drop (Z.to_nat n) (w_rx (env m))).
        split.
        { unfold bind at 1.
          rewrite (socketRead_ok sock (to_u32 n) (take (Z.to_nat n) (w_rx (env m)))
                     (drop (Z.to_nat n) (w_rx (env m))) m Hsock);
            [| rewrite take_drop; reflexivity
             | rewrite length_take; unfold to_u32; rewrite Z.mod_small by lia; lia].
          reflexivity. }
        split; [subst stream; rewrite Hb, take_drop; reflexivity|].
        split.
        { intros E. apply (f_equal length) in E. rewrite length_take in E. simpl in E. lia. }
        rewrite length_take. lia.
      - exists (buffer buf), (w_rx (env m)).
        split; [unfold ret; destruct m as [[? []] []]; reflexivity|].
        split; [reflexivity|].
        split; [intros E; unfold inBuffer in Hfull; rewrite E in Hfull; simpl in Hfull; lia|].
        unfold inBuffer in *. lia. }
    destruct Hfill as (chunk & rx1 & Hrun & Hstream & Hne & Hroom & Hsize).
    unfold UAMP_IO_BUFFER_SIZE. unfold bind at 1. cbv zeta in Hrun. rewrite Hrun.
    (* the copy out of the buffer *)
    unfold getBuf at 1. unfold bind at 1 2. unfold getClient at 1. unfold ret at 1.
    cbn beta iota. cbn [client commBuf set_commBuf].
    change (inBuffer (mkIOBuffer (total buf) (passed buf) chunk)) with (Z.of_nat (length chunk)).
    cbn [buffer total passed].
    set (t := if len <? Z.of_nat (length chunk) then len else Z.of_nat (length chunk)).
    assert (Ht : 0 < t <= len /\ t <= Z.of_nat (length chunk)).
    { subst t. assert (0 < length chunk)%nat by (destruct chunk; [congruence | simpl; lia]).
      destruct (Z.ltb_spec len (Z.of_nat (length chunk))); lia. }
    rewrite to_u64_small by lia.
    unfold bind at 1. unfold setBuf at 1, modClient at 1. cbn beta iota. cbn [client env].
    set (m2 := mkMachine _ _).
    destruct (IH (len - t) (data ++ take (Z.to_nat t) chunk) m2)
      as (b' & rx' & Hrun2 & Hok2 & Ht2 & Hp2 & Hcat2).
    { lia. }
    { lia. }
    { unfold m2, read_buf_ok, inBuffer. cbn. rewrite length_drop.
      unfold UAMP_IO_BUFFER_SIZE. lia. }
    { unfold m2. cbn. lia. }
    { unfold m2, inBuffer. cbn. rewrite length_drop.
      apply (f_equal length) in Hstream. subst stream. rewrite !length_app in Hstream.
      unfold inBuffer in Hrx. lia. }
    exists b', rx'. rewrite Hrun2.
    destruct (take_drop_split (Z.to_nat t) (Z.to_nat (len - t)) chunk rx1 ltac:(lia))
      as [Htake Hdrop].
    replace (Z.to_nat t + Z.to_nat (len - t))%nat with (Z.to_nat len) in Htake, Hdrop by lia.
    split.
    { unfold m2. cbn [client env commBuf set_commBuf buffer w_rx set_w_rx].
      rewrite <- app_assoc, Htake, Hstream. reflexivity. }
    split; [exact Hok2|].
    split; [rewrite Ht2; reflexivity|].
    split; [rewrite Hp2; unfold m2; cbn; lia|].
    rewrite Hcat2. unfold m2. cbn [client env commBuf set_commBuf buffer w_rx set_w_rx].
    rewrite Hdrop, Hstream. reflexivity.
Qed.

Lemma socketReadRaw_stream sock len m :
  0 <= sock -> 0 <= len ->
  let buf := commBuf (client m) in
  let stream := buffer buf ++ w_rx (env m) in
  read_buf_ok buf -> passed buf + len <= total buf ->
  total buf - passed buf - inBuffer buf <= Z.of_nat (length (w_rx (env m))) ->
  exists b' rx',
    socketReadRaw sock len m
    = Val (0, take (Z.to_nat len) stream)
          (mkMachine (set_commBuf b' (client m)) (set_w_rx rx' (env m)))
    /\ read_buf_ok b' /\ total b' = total buf /\ passed b' = passed buf + len
    /\ buffer b' ++ rx' = drop (Z.to_nat len) stream.
Proof.
  intros Hsock Hlen buf stream Hok Hfit Hrx.
  destruct (socketReadRaw_loop_stream sock (Z.to_nat len) Hsock len [] m (le_n _) Hlen
              Hok Hfit Hrx) as (b' & rx' & Hrun & H).
  exists b', rx'. split; [| exact H].
  unfold socketReadRaw, getBuf. unfold bind, getClient, ret. cbn beta iota. fold buf.
  destruct Hok as (Hp & Hin & Ht64 & _).
  rewrite to_u64_small by lia.
  replace ((passed buf <=? passed buf + len) && (len <=? passed buf + len)
           && (passed buf + len <=? total buf)) with true
    by (symmetry; rewrite !andb_true_iff; repeat split; lia).
  cbn [ASSERT]. unfold ret, function_with. rewrite Hrun. reflexivity.
Qed.

(** A frame taken from the buffer piece by piece, the way every caller does
    it: [ret = socketReadRaw(...); ERROR_CHECK(isErr, wasErr, ret);]. *)
Fixpoint reads (sock : Z) (lens : list Z) : M (list (list byte)) :=
  match lens with
  | [] => ret []
  | l :: ls =>
      p <- checked_with (socketReadRaw sock l) ;;
      ps <- reads sock ls ;;
      ret (p :: ps)
  end.

Lemma take_add_drop {A} (a b : nat) : forall s : list A,
  take (a + b) s = take a s ++ take b (drop a s).
Proof.
  induction a as [|a IH]; intros s; [reflexivity|].
  destruct s as [|x s]; [simpl; rewrite take_nil; reflexivity|].
  cbn. f_equal. apply IH.
Qed.

Lemma reads_stream sock : 0 <= sock -> forall lens m,
  Forall (fun l => 0 <= l) lens ->
  let n := foldr Z.add 0 lens in
  let buf := commBuf (client m) in
  let stream := buffer buf ++ w_rx (env m) in
  read_buf_ok buf -> passed buf + n <= total buf ->
  total buf - passed buf - inBuffer buf <= Z.of_nat (length (w_rx (env m))) ->
  exists pieces b' rx',
    reads sock lens m
    = Val pieces (mkMachine (set_commBuf b' (client m)) (set_w_rx rx' (env m)))
    /\ read_buf_ok b' /\ total b' = total buf /\ passed b' = passed buf + n
    /\ buffer b' ++ rx' = drop (Z.to_nat n) stream
    /\ concat pieces = take (Z.to_nat n) stream
    /\ map (fun p => Z.of_nat (length p)) pieces = lens.
Proof.
  intros Hsock. induction lens as [|l ls IH]; intros m Hpos n buf stream Hok Hfit Hrx.
  - exists [], buf, (w_rx (env m)). subst n. cbn [foldr reads concat map].
    split; [unfold ret; destruct m as [[] []]; reflexivity|].
    split; [exact Hok|]. split; [reflexivity|]. split; [lia|].
    split; [reflexivity|]. split; reflexivity.
  - inversion Hpos as [|? ? Hl Hls]; subst. cbn [foldr] in n.
    assert (Hn : 0 <= foldr Z.add 0 ls).
    { clear -Hls. induction Hls; simpl; lia. }
    destruct (socketReadRaw_stream sock l m Hsock Hl Hok ltac:(fold buf; lia) Hrx)
      as (b1 & rx1 & Hrun1 & Hok1 & Ht1 & Hp1 & Hcat1).
    fold buf in Ht1, Hp1, Hcat1, Hrun1. fold stream in Hcat1, Hrun1.
    set (m1 := mkMachine (set_commBuf b1 (client m)) (set_w_rx rx1 (env m))) in *.
    assert (Hstream : (length stream = length (buffer buf) + length (w_rx (env m)))%nat)
      by (subst stream; apply length_app).
    assert (Hlen1 : (length (buffer b1) + length rx1 = length stream - Z.to_nat l)%nat).
    { rewrite <- length_app, Hcat1, length_drop. reflexivity. }
    destruct Hok as (Hp & Hin & Ht64 & Hcap). unfold inBuffer in *.
    destruct (IH m1 Hls) as (ps & b2 & rx2 & Hrun2 & Hok2 & Ht2 & Hp2 & Hcat2 & Hps & Hmap).
    { exact Hok1. }
    { unfold m1. cbn [client commBuf set_commBuf]. subst n. lia. }
    { unfold m1, inBuffer. cbn [client env commBuf set_commBuf w_rx set_w_rx]. subst n. lia. }
    unfold m1 in Ht2, Hp2, Hcat2, Hps.
    cbn [client env commBuf set_commBuf w_rx set_w_rx] in Ht2, Hp2, Hcat2, Hps.
    exists (take (Z.to_nat l) stream :: ps), b2, rx2.
    split.
    { cbn [reads]. unfold checked_with. unfold bind at 1 2. rewrite Hrun1.
      cbn [fst snd]. unfold ERROR_CHECK. cbn [Z.ltb Z.compare]. unfold bind at 1.
      unfold ret at 1. cbn beta iota. unfold ret at 1. cbn beta iota.
      fold m1. unfold bind at 1. rewrite Hrun2. reflexivity. }
    split; [exact Hok2|]. split; [lia|]. split; [subst n; lia|].
    replace (Z.to_nat n) with (Z.to_nat l + Z.to_nat (foldr Z.add 0%Z ls))%nat
      by (subst n; lia).
    split; [rewrite Hcat2, Hcat1, drop_drop; reflexivity|].
    split.
    { cbn [concat]. rewrite Hps, Hcat1. symmetry. apply take_add_drop. }
    cbn [map]. rewrite Hmap, length_take. f_equal. subst n. lia.
Qed.

(** X15.  A frame of any size that is announced with beginRead and asked
    from socketReadRaw piece by piece arrives whole and in order: every call
    returns 0, the pieces are the next bytes of the stream in the sizes
    that were asked for, the buffer ends empty, and the bytes that follow
    the frame in the stream are still in the socket: the buffer never reads
    ahead of the frame. *)
Theorem socketReadRaw_takes_the_frame sock lens frame rest m :
  0 <= sock -> Forall (fun l => 0 <= l) lens ->
  let size := foldr Z.add 0 lens in
  Z.of_nat (length frame) = size -> size < 2 ^ 64 ->
  w_rx (env m) = frame ++ rest ->
  exists pieces,
    (beginRead size ;; reads sock lens) m
    = Val pieces (mkMachine (set_commBuf (mkIOBuffer size size []) (client m))
                            (set_w_rx rest (env m)))
    /\ concat pieces = frame
    /\ map (fun p => Z.of_nat (length p)) pieces = lens.
Proof.
  intros Hsock Hpos size Hframe Hsize Hrx.
  set (m0 := with_buf m (mkIOBuffer size 0 [])).
  destruct (reads_stream sock Hsock lens m0 Hpos)
    as (pieces & b' & rx' & Hrun & Hok & Ht & Hp & Hcat & Hps & Hmap).
  { unfold m0, read_buf_ok, inBuffer. cbn. unfold UAMP_IO_BUFFER_SIZE. lia. }
  { unfold m0. cbn. fold size. lia. }
  { unfold m0, inBuffer. cbn. rewrite Hrx, length_app. fold size. lia. }
  unfold m0 in Ht, Hp, Hcat, Hps.
  cbn [with_buf client env commBuf set_commBuf total passed buffer app] in Ht, Hp, Hcat, Hps.
  fold size in Hp, Hcat, Hps. rewrite Hrx in Hcat, Hps.
  replace (Z.to_nat size) with (length frame) in Hcat, Hps by lia.
  rewrite drop_app_length in Hcat. rewrite take_app_length in Hps.
  destruct Hok as (_ & Hin & _ & _). unfold inBuffer in Hin.
  assert (Hb : b' = mkIOBuffer size size []).
  { destruct b' as [t p b]. cbn in *. subst t.
    destruct b; [f_equal; lia | simpl in Hin; lia]. }
  subst b'. cbn [buffer app] in Hcat. subst rx'.
  exists pieces. split; [| split; [exact Hps | exact Hmap]].
  unfold bind. change (beginRead size m) with (Val tt m0). cbv beta iota.
  rewrite Hrun. reflexivity.
Qed.

Lemma socketReadRaw_takes_witness :
  exists pieces,
    (beginRead 12 ;; reads 3 [4; 4; 4]) sample_connected
    = Val pieces
          (mkMachine (set_commBuf (mkIOBuffer 12 12 []) (client sample_connected))
                     (set_w_rx (sample_reply 700 1 1 ++ sample_reply 1000 1 1
                                ++ sample_reply 1000 1 1 ++ sample_reply 1000 1 1)
                               (env sample_connected)))
    /\ concat pieces = sample_reply 600 1 1
    /\ map (fun p => Z.of_nat (length p)) pieces = [4; 4; 4].
Proof.
  apply (socketReadRaw_takes_the_frame 3 [4; 4; 4] (sample_reply 600 1 1)
           (sample_reply 700 1 1 ++ sample_reply 1000 1 1
            ++ sample_reply 1000 1 1 ++ sample_reply 1000 1 1) sample_connected);
    [lia | repeat constructor; lia | reflexivity | reflexivity | vm_compute; reflexivity].
Defined.

(* ===================================================================== *)
(** ** The frames of states.c *)
(* ===================================================================== *)

Lemma bind_ext_at {A B} (x : M A) (f g : A -> M B) m :
  (forall a m', f a m' = g a m') -> bind x f m = bind x g m.
Proof. intros H. unfold bind. destruct (x m); auto. Qed.

Lemma bind_cong_at {A B} (x y : M A) (f : A -> M B) m :
  x m = y m -> bind x f m = bind y f m.
Proof. intros H. unfold bind. rewrite H. reflexivity. Qed.

(** A frame that fits the buffer and is not empty goes out in one write. *)
Lemma writes_one_frame sock pieces m :
  0 <= sock ->
  let frame := concat pieces in
  let size := Z.of_nat (length frame) in
  frame <> [] -> size < UAMP_IO_BUFFER_SIZE -> can_send (env m) (length frame) ->
  (beginWrite size ;; writes sock pieces) m
  = Val tt (mkMachine (set_commBuf (mkIOBuffer size size []) (client m))
                      (sent sock frame (env m))).
Proof.
  intros Hsock frame size Hne Hsize Hroom. unfold UAMP_IO_BUFFER_SIZE in Hsize.
  destruct (writes_frame sock pieces m Hsock ltac:(fold frame; fold size; lia) Hroom)
    as (chunks & Hrun & Hcat & fulls & tail & -> & Hf & Htail).
  fold frame in Hrun, Hcat. fold size in Hrun. rewrite Hrun.
  assert (Hfulls : fulls = []).
  { destruct fulls as [|c fulls]; [reflexivity|]. inversion Hf; subst.
    apply (f_equal length) in Hcat. cbn [app concat] in Hcat. rewrite !length_app in Hcat.
    unfold UAMP_IO_BUFFER_SIZE in *. subst size. lia. }
  subst fulls. cbn [app] in *.
  destruct Htail as [-> | (c & -> & _)].
  - cbn in Hcat. congruence.
  - cbn [concat] in Hcat. rewrite app_nil_r in Hcat. subst c. reflexivity.
Qed.

(** The twelve bytes of one state change on the wire. *)
Definition change_bytes (ch : uampState) : list byte :=
  encode32 (s_agentID ch) ++ encode32 (s_time ch) ++ encode32 (s_newState ch).

(** The state changes that wait in the buffer, oldest first. *)
Definition pending (c : uampClient) : list uampState :=
  take (Z.to_nat (numChanges c)) (changes c).

Lemma flushStateChanges_loop sock (chs : list uampState) n : forall i m,
  (i + n <= length chs)%nat ->
  for_loop n (Z.of_nat i) (fun onChange =>
    match chs !! Z.to_nat onChange with
    | Some ch =>
        checked (socketWrite32 sock (s_agentID ch)) ;;
        checked (socketWrite32 sock (s_time ch)) ;;
        checked (socketWrite32 sock (s_newState ch))
    | None => undefined "changes[onChange]"
    end) m
  = writes sock (flat_map (fun ch => [encode32 (s_agentID ch); encode32 (s_time ch);
                                        encode32 (s_newState ch)])
                          (take n (drop i chs))) m.
Proof.
  induction n as [|n IH]; intros i m Hi; [reflexivity|].
  destruct (lookup_lt_is_Some_2 chs i ltac:(lia)) as [ch Hch].
  rewrite (drop_S _ _ _ Hch). cbn [take flat_map app writes for_loop].
  rewrite Nat2Z.id, Hch.
  rewrite bind_assoc_at. apply bind_ext_at. intros _ m1.
  rewrite bind_assoc_at. apply bind_ext_at. intros _ m2.
  apply bind_ext_at. intros _ m3.
  replace (Z.of_nat i + 1) with (Z.of_nat (S i)) by lia.
  apply IH. lia.
Qed.

Lemma concat_flat_map_words (chs : list uampState) :
  concat (flat_map (fun ch => [encode32 (s_agentID ch); encode32 (s_time ch);
                                encode32 (s_newState ch)]) chs)
  = flat_map change_bytes chs.
Proof.
  induction chs as [|ch chs IH]; [reflexivity|].
  cbn [flat_map app concat]. rewrite IH. unfold change_bytes.
  rewrite <- !app_assoc. reflexivity.
Qed.

Lemma flat_map_change_bytes_length (chs : list uampState) :
  length (flat_map change_bytes chs) = (12 * length chs)%nat.
Proof.
  induction chs as [|ch chs IH]; [reflexivity|].
  cbn [flat_map]. rewrite length_app, IH. unfold change_bytes.
  rewrite !length_app. cbn [encode32 length]. lia.
Qed.

Lemma take_S_insert {A} (l : list A) : forall i x,
  (i < length l)%nat -> take (S i) (<[i := x]> l) = take i l ++ [x].
Proof.
  induction l as [|a l IH]; intros [|i] x H; simpl in *; try lia; [reflexivity|].
  f_equal. apply IH. lia.
Qed.

(** The frame of flushStateChanges: u8 0x02, the number of changes, and
    agent, time and state of each change. *)
Definition change_frame (c : uampClient) : list byte :=
  to_byte 0x02 :: encode32 (numChanges c) ++ flat_map change_bytes (pending c).

Lemma flushStateChanges_run m :
  let c := client m in
  let k := numChanges c in
  0 <= fd c -> 0 <= k <= UAMP_STATE_BUFFER_SIZE -> k <= Z.of_nat (length (changes c)) ->
  can_send (env m) (length (change_frame c)) ->
  Z.of_nat (length (change_frame c)) = 5 + 12 * k
  /\ flushStateChanges m
     = Val 0 (mkMachine (set_numChanges 0
                           (set_commBuf (mkIOBuffer (5 + 12 * k) (5 + 12 * k) []) c))
                        (sent (fd c) (change_frame c) (env m))).
Proof.
  intros c k Hfd Hk Hlen Hroom. unfold UAMP_STATE_BUFFER_SIZE in Hk.
  assert (Hpend : length (pending c) = Z.to_nat k).
  { unfold pending. rewrite length_take. fold k. lia. }
  assert (Hsize : Z.of_nat (length (change_frame c)) = 5 + 12 * k).
  { unfold change_frame. cbn [length]. rewrite length_app, flat_map_change_bytes_length, Hpend.
    cbn [encode32 length]. lia. }
  split; [exact Hsize|].
  set (pieces := [to_byte 0x02] :: encode32 k
                 :: flat_map (fun ch => [encode32 (s_agentID ch); encode32 (s_time ch);
                                          encode32 (s_newState ch)]) (pending c)).
  assert (Hframe : concat pieces = change_frame c).
  { unfold pieces, change_frame. cbn [concat app]. rewrite concat_flat_map_words. reflexivity. }
  assert (Hbody : forall k', k' = 5 + 12 * k ->
            (beginWrite k' ;;
             checked (socketWrite8 (fd c) 0x02) ;;
             checked (socketWrite32 (fd c) (to_u32 k)) ;;
             for_loop (Z.to_nat k) 0 (fun onChange =>
               match changes c !! Z.to_nat onChange with
               | Some ch =>
                   checked (socketWrite32 (fd c) (s_agentID ch)) ;;
                   checked (socketWrite32 (fd c) (s_time ch)) ;;
                   checked (socketWrite32 (fd c) (s_newState ch))
               | None => undefined "changes[onChange]"
               end) ;;
             modClient (set_numChanges 0)) m
            = ((beginWrite (Z.of_nat (length (concat pieces))) ;; writes (fd c) pieces) ;;
               modClient (set_numChanges 0)) m).
  { intros k' ->. rewrite Hframe, Hsize. rewrite bind_assoc_at. apply bind_ext_at. intros _ m1.
    unfold pieces. cbn [writes]. rewrite to_u32_small by lia.
    rewrite bind_assoc_at. apply bind_ext_at. intros _ m2.
    rewrite bind_assoc_at. apply bind_ext_at. intros _ m3.
    pose proof (flushStateChanges_loop (fd c) (changes c) (Z.to_nat k) O m3
                  ltac:(simpl; lia)) as Hloop.
    change (Z.of_nat 0) with 0 in Hloop. cbn [drop] in Hloop.
    apply bind_cong_at. exact Hloop. }
  unfold flushStateChanges, function, returning.
  unfold bind at 1. unfold getClient at 1. cbn beta iota zeta. fold c. fold k.
  rewrite Hbody by (rewrite (to_u64_small k) by lia; rewrite to_u64_small by lia; reflexivity).
  unfold bind at 1.
  rewrite (writes_one_frame (fd c) pieces m Hfd);
    [| rewrite Hframe; discriminate
     | rewrite Hframe, Hsize; unfold UAMP_IO_BUFFER_SIZE; lia
     | rewrite Hframe; exact Hroom].
  rewrite Hframe, Hsize. reflexivity.
Qed.

(** X16.  flushStateChanges sends the pending state changes as one frame in
    one write: the byte 0x02, the number of changes, and for each change,
    oldest first, its agent, time and state as 32-bit words in network byte
    order, 5 + 12n bytes in all; it then returns 0 with the buffer of
    changes empty.  A change that uampChangeState stores becomes the last
    one of the pending changes. *)
Theorem flushStateChanges_sends_one_frame m :
  let c := client m in
  let k := numChanges c in
  0 <= fd c -> 0 <= k <= UAMP_STATE_BUFFER_SIZE -> k <= Z.of_nat (length (changes c)) ->
  can_send (env m) (length (change_frame c)) ->
  Z.of_nat (length (change_frame c)) = 5 + 12 * k
  /\ flushStateChanges m
     = Val 0 (mkMachine (set_numChanges 0
                           (set_commBuf (mkIOBuffer (5 + 12 * k) (5 + 12 * k) []) c))
                        (sent (fd c) (change_frame c) (env m)))
  /\ pending (set_numChanges 0 c) = []
  /\ (forall agent time state,
        k < Z.of_nat (length (changes c)) ->
        pending (enqueued c agent time state) = pending c ++ [mkState agent time state]).
Proof.
  intros c k Hfd Hk Hlen Hroom.
  destruct (flushStateChanges_run m Hfd Hk Hlen Hroom) as [Hsize Hrun].
  split; [exact Hsize|]. split; [exact Hrun|]. split; [reflexivity|].
  intros agent time state Hfree. unfold pending, enqueued.
  cbn [numChanges changes set_numChanges set_changes]. fold k.
  replace (Z.to_nat (k + 1)) with (S (Z.to_nat k)) by lia.
  apply take_S_insert. lia.
Qed.

(** The MVISP session with one state change waiting. *)
Definition sample_changed : machine :=
  after (uampChangeState 0 0.5%float 1) sample_mvisp_connected.

Lemma flushStateChanges_frame_witness :
  flushStateChanges sample_changed
  = Val 0 (mkMachine
             (set_numChanges 0
                (set_commBuf (mkIOBuffer (5 + 12 * numChanges (client sample_changed))
                                         (5 + 12 * numChanges (client sample_changed)) [])
                             (client sample_changed)))
             (sent (fd (client sample_changed)) (change_frame (client sample_changed))
                   (env sample_changed)))
  /\ change_frame (client sample_changed)
     = to_byte 0x02 :: encode32 1 ++ encode32 0 ++ encode32 500 ++ encode32 1.
Proof.
  destruct (flushStateChanges_sends_one_frame sample_changed) as (_ & H & _);
    [vm_compute; discriminate | vm_compute; split; discriminate | vm_compute; discriminate
     | exact I |].
  split; [exact H | vm_compute; reflexivity].
Defined.

(** What a jump to [isErr] leaves of the machine. *)
Definition on_jump (R : machine -> machine -> Prop) {A} (x : M A) : Prop :=
  forall m e m', x m = Err e m' -> R m m'.

Lemma on_jump_bind (R : machine -> machine -> Prop) `{!PreOrder R} {A B}
    (x : M A) (f : A -> M B) :
  eff R x -> (forall a, on_jump R (f a)) -> on_jump R (bind x f).
Proof.
  intros Hx Hf m e m' H. unfold bind in H. specialize (Hx m).
  destruct (x m) as [a m1 | e1 m1 | ft]; try discriminate.
  - etransitivity; [exact Hx | eapply Hf; exact H].
  - injection H as <- <-. apply Hx.
Qed.

(** A flush that fails has changed the I/O buffer only. *)
Lemma flushStateChanges_failed m r m' :
  flushStateChanges m = Val r m' -> r <> 0 ->
  r < 0 /\ exists b, client m' = set_commBuf b (client m).
Proof.
  intros H Hr. unfold flushStateChanges in H.
  apply (function_result batch_rel) in H; [| apply eff_flushStateChanges_body].
  destruct H as [[-> _] | [Hneg H]]; [contradiction|].
  split; [exact Hneg|].
  assert (Hjump : on_jump io_rel (
    c <- getClient ;;
    let totalLen := to_u64 (5 + 12 * to_u64 (numChanges c)) in
    beginWrite totalLen ;;
    checked (socketWrite8 (fd c) 0x02) ;;
    checked (socketWrite32 (fd c) (to_u32 (numChanges c))) ;;
    for_loop (Z.to_nat (numChanges c)) 0 (fun onChange =>
      match changes c !! Z.to_nat onChange with
      | Some ch =>
          checked (socketWrite32 (fd c) (s_agentID ch)) ;;
          checked (socketWrite32 (fd c) (s_time ch)) ;;
          checked (socketWrite32 (fd c) (s_newState ch))
      | None => undefined "changes[onChange]"
      end) ;;
    modClient (set_numChanges 0))).
  { apply on_jump_bind; [typeclasses eauto | auto with eff |]. intros c. cbv zeta.
    apply on_jump_bind; [typeclasses eauto | auto with eff |]. intros _.
    apply on_jump_bind; [typeclasses eauto | eff_auto |]. intros _.
    apply on_jump_bind; [typeclasses eauto | eff_auto |]. intros _.
    apply on_jump_bind; [typeclasses eauto | eff_auto |]. intros _.
    intros m1 e m2 Hm. discriminate. }
  destruct (Hjump _ _ _ H) as [Hb _]. exact Hb.
Qed.

(** uampChangeState on an MVISP session, with arguments that pass its
    checks, is addStateChange. *)
Lemma uampChangeState_stores m agentID atTime newState ms :
  let c := client m in
  numStates c <> 0 -> time_out_of_range atTime = false ->
  llround (PrimFloat.mul atTime 1000%float) = Some ms ->
  valid_agentID c agentID = true ->
  to_u32 ms <= timeLimit c -> 0 <= newState < numStates c ->
  uampChangeState agentID atTime newState m
  = addStateChange (to_u32 agentID) (to_u32 ms) (to_u32 newState) m.
Proof.
  intros c Hs Ht Hl Hv Hle Hst.
  rewrite <- (function_checked (addStateChange (to_u32 agentID) (to_u32 ms) (to_u32 newState)) m).
  - unfold uampChangeState. unfold bind at 1. unfold getClient at 1. cbn beta iota. fold c.
    destruct (Z.eqb_spec (numStates c) 0); [contradiction|].
    unfold function, returning, bind. unfold time_out_of_range in Ht. rewrite Ht.
    simpl. unfold to_millis. rewrite Hl. simpl. rewrite Hv. simpl.
    destruct (Z.ltb_spec (timeLimit c) (to_u32 ms)); [lia |]. simpl.
    replace ((newState <? 0) || (numStates c <=? newState)) with false
      by (symmetry; rewrite orb_false_iff; lia).
    reflexivity.
  - intros r m1 H1. unfold addStateChange in H1.
    apply (function_result batch_rel) in H1; [lia |].
    eff_auto.
  - intros e m1. apply function_no_jump.
Qed.

(** X17.  A flush that fails keeps the pending changes.  So when the change
    that fills the buffer of 128 is stored and the automatic flush fails,
    uampChangeState returns the error with all 128 changes still pending,
    the new one last; and the next change that passes the checks is stored
    at changes[128], past the end of the array. *)
Theorem uampChangeState_after_a_failed_flush m agentID atTime newState ms r m' :
  let c := client m in
  numStates c <> 0 -> time_out_of_range atTime = false ->
  llround (PrimFloat.mul atTime 1000%float) = Some ms ->
  valid_agentID c agentID = true ->
  to_u32 ms <= timeLimit c -> 0 <= newState < numStates c ->
  numChanges c = UAMP_STATE_BUFFER_SIZE - 1 ->
  Z.of_nat (length (changes c)) = UAMP_STATE_BUFFER_SIZE ->
  uampChangeState agentID atTime newState m = Val r m' -> r <> 0 ->
  r < 0
  /\ numChanges (client m') = UAMP_STATE_BUFFER_SIZE
  /\ pending (client m')
     = pending c ++ [mkState (to_u32 agentID) (to_u32 ms) (to_u32 newState)]
  /\ uampChangeState agentID atTime newState m'
     = Fault (UndefinedBehaviour "changes[numChanges]").
Proof.
  intros c Hs Ht Hl Hv Hle Hst Hfull Hlen Hrun Hr.
  rewrite (uampChangeState_stores m agentID atTime newState ms Hs Ht Hl Hv Hle Hst) in Hrun.
  rewrite addStateChange_run in Hrun by (fold c; unfold UAMP_STATE_BUFFER_SIZE in *; lia).
  fold c in Hrun.
  destruct (Z.eqb_spec (numChanges c + 1) UAMP_STATE_BUFFER_SIZE) as [_ | Hne]; [| lia].
  destruct (flushStateChanges_failed _ _ _ Hrun Hr) as (Hneg & b & Hc).
  cbn [client] in Hc.
  split; [exact Hneg|].
  split; [rewrite Hc; unfold enqueued; cbn; lia|].
  split.
  { rewrite Hc. unfold pending, enqueued.
    cbn [numChanges changes set_numChanges set_changes set_commBuf].
    replace (Z.to_nat (numChanges c + 1)) with (S (Z.to_nat (numChanges c)))
      by (unfold UAMP_STATE_BUFFER_SIZE in *; lia).
    apply take_S_insert. unfold UAMP_STATE_BUFFER_SIZE in *. lia. }
  assert (Hsame : numStates (client m') = numStates c /\ timeLimit (client m') = timeLimit c
                  /\ numAgents (client m') = numAgents c)
    by (rewrite Hc; repeat split; reflexivity).
  destruct Hsame as (Hns & Htl & Hna).
  rewrite (uampChangeState_stores m' agentID atTime newState ms);
    [| rewrite Hns; exact Hs | exact Ht | exact Hl
     | unfold valid_agentID in *; rewrite Hna; exact Hv
     | rewrite Htl; exact Hle | rewrite Hns; exact Hst].
  unfold addStateChange, function, returning.
  unfold bind at 1 2. unfold getClient at 1. cbn beta iota.
  replace (numChanges (client m')) with UAMP_STATE_BUFFER_SIZE
    by (rewrite Hc; unfold enqueued; cbn; lia).
  rewrite Z.ltb_irrefl, andb_false_r. reflexivity.
Qed.

(** The MVISP session with 127 changes pending and a socket that accepts no
    more bytes. *)
Definition sample_full : machine :=
  mkMachine (set_numChanges 127 (client sample_mvisp_connected))
            (set_w_tx_room (Some O) (env sample_mvisp_connected)).

Lemma uampChangeState_failed_flush_witness :
  uampChangeState 0 0.5%float 1 sample_full
  = Val ERROR_SOCKET_WRITE (after (uampChangeState 0 0.5%float 1) sample_full)
  /\ uampChangeState 0 0.5%float 1 (after (uampChangeState 0 0.5%float 1) sample_full)
     = Fault (UndefinedBehaviour "changes[numChanges]").
Proof.
  assert (Hrun : uampChangeState 0 0.5%float 1 sample_full
                 = Val ERROR_SOCKET_WRITE (after (uampChangeState 0 0.5%float 1) sample_full))
    by (vm_compute; reflexivity).
  split; [exact Hrun|].
  destruct (uampChangeState_after_a_failed_flush sample_full 0 0.5%float 1 500
              ERROR_SOCKET_WRITE (after (uampChangeState 0 0.5%float 1) sample_full))
    as (_ & _ & _ & H);
    [vm_compute; discriminate | vm_compute; reflexivity | vm_compute; reflexivity
     | vm_compute; reflexivity | vm_compute; discriminate
     | vm_compute; split; [discriminate | reflexivity]
     | vm_compute; reflexivity | vm_compute; reflexivity | exact Hrun
     | vm_compute; discriminate |].
  exact H.
Defined.

Lemma writes_app sock p1 : forall p2 m,
  writes sock (p1 ++ p2) m = (writes sock p1 ;; writes sock p2) m.
Proof.
  induction p1 as [|p p1 IH]; intros p2 m; [reflexivity|].
  cbn [app writes]. rewrite bind_assoc_at. apply bind_ext_at. intros _ m1. apply IH.
Qed.

Lemma writeStates_lengths sock (lens : list Z) n : forall i m,
  (i + n <= length lens)%nat ->
  for_loop n (Z.of_nat i) (fun onState =>
    match lens !! Z.to_nat onState with
    | Some len => checked (socketWrite32 sock len)
    | None => undefined "nameLengths[onState]"
    end) m
  = writes sock (map encode32 (take n (drop i lens))) m.
Proof.
  induction n as [|n IH]; intros i m Hi; [reflexivity|].
  destruct (lookup_lt_is_Some_2 lens i ltac:(lia)) as [len Hlen].
  rewrite (drop_S _ _ _ Hlen). cbn [take map writes for_loop].
  rewrite Nat2Z.id, Hlen. apply bind_ext_at. intros _ m1.
  replace (Z.of_nat i + 1) with (Z.of_nat (S i)) by lia.
  apply IH. lia.
Qed.

Lemma writeStates_names sock (names : list (list byte)) n0 n : forall i m,
  (i + n <= n0)%nat -> (n0 <= length names)%nat ->
  for_loop n (Z.of_nat i) (fun onState =>
    match map strlenZ (take n0 names) !! Z.to_nat onState, names !! Z.to_nat onState with
    | Some len, Some name => checked (socketWriteRaw sock (take (Z.to_nat len) name))
    | _, _ => undefined "stateNames[onState]"
    end) m
  = writes sock (map c_str (take n (drop i names))) m.
Proof.
  induction n as [|n IH]; intros i m Hi Hn0; [reflexivity|].
  destruct (lookup_lt_is_Some_2 names i ltac:(lia)) as [name Hname].
  rewrite (drop_S _ _ _ Hname). cbn [take map writes for_loop].
  rewrite Nat2Z.id, list_lookup_fmap, lookup_take_lt, Hname by lia.
  cbn [fmap option_fmap option_map].
  unfold strlenZ at 1. rewrite Nat2Z.id. fold (c_str name).
  apply bind_ext_at. intros _ m1.
  replace (Z.of_nat i + 1) with (Z.of_nat (S i)) by lia.
  apply IH; lia.
Qed.

(** The frame of writeStates: the number of states, the length of every
    name, and the characters of every name, without the final zero byte. *)
Definition states_frame (names : list (list byte)) : list byte :=
  encode32 (Z.of_nat (length names))
  ++ flat_map (fun s => encode32 (strlenZ s)) names ++ flat_map c_str names.

Lemma states_frame_length names :
  Z.of_nat (length (states_frame names))
  = 4 + 4 * Z.of_nat (length names) + foldr Z.add 0 (map strlenZ names).
Proof.
  unfold states_frame. rewrite !length_app. cbn [encode32 length].
  induction names as [|s names IH]; [reflexivity|].
  cbn [flat_map map foldr length]. rewrite !length_app. cbn [encode32 length].
  unfold strlenZ at 2. unfold c_str at 1. rewrite length_take.
  pose proof (c_strlen_le s). lia.
Qed.

Lemma states_frame_bound names :
  Forall (fun s => (c_strlen s <= 1024)%nat) names ->
  foldr Z.add 0 (map strlenZ names) <= 1024 * Z.of_nat (length names).
Proof.
  induction 1 as [|s names Hs _ IH]; [simpl; lia|].
  cbn [map foldr length]. unfold strlenZ at 1. lia.
Qed.

Lemma concat_map_flat_map {A} (f : A -> list byte) (l : list A) :
  concat (map f l) = flat_map f l.
Proof. induction l as [|a l IH]; [reflexivity|]. cbn. rewrite IH. reflexivity. Qed.

(** X18.  writeStates sends the names that verifyStates accepted as one
    frame: the number of states, then the length of every name, then the
    characters of every name without their final zero byte, all 32-bit
    words in network byte order; the frame is buffered like every other
    and the function returns 0. *)
Theorem writeStates_sends_the_names names numStates m :
  let sock := fd (client m) in
  let accepted := take (Z.to_nat numStates) names in
  let frame := states_frame accepted in
  let size := Z.of_nat (length frame) in
  0 <= sock -> 0 < numStates <= INT_MAX -> (Z.to_nat numStates <= length names)%nat ->
  Forall (fun s => (c_strlen s <= 1024)%nat) accepted ->
  can_send (env m) (length frame) ->
  size = 4 + 4 * numStates + foldr Z.add 0 (map strlenZ accepted)
  /\ exists chunks,
       writeStates names numStates (map strlenZ accepted) m
       = Val 0 (mkMachine (set_commBuf (mkIOBuffer size size []) (client m))
                          (sent_all sock chunks (env m)))
       /\ concat chunks = frame
       /\ frame_chunks chunks True.
Proof.
  intros sock accepted frame size Hsock Hn Hnames Hshort Hroom. unfold INT_MAX in Hn.
  assert (Hlen : length accepted = Z.to_nat numStates).
  { unfold accepted. rewrite length_take. lia. }
  assert (Hsize : size = 4 + 4 * numStates + foldr Z.add 0 (map strlenZ accepted)).
  { unfold size, frame. rewrite states_frame_length, Hlen. lia. }
  split; [exact Hsize|].
  pose proof (states_frame_bound accepted Hshort) as Hbound. rewrite Hlen in Hbound.
  assert (Hsum : 0 <= foldr Z.add 0 (map strlenZ accepted)).
  { clear. induction accepted as [|s l IH]; simpl; [lia|]. unfold strlenZ at 1. lia. }
  set (pieces := [encode32 numStates] ++ map encode32 (map strlenZ accepted)
                 ++ map c_str accepted).
  assert (Hframe : concat pieces = frame).
  { unfold pieces, frame, states_frame. rewrite !concat_app, map_map, !concat_map_flat_map.
    cbn [concat]. rewrite app_nil_r, Hlen, Z2Nat.id by lia. reflexivity. }
  destruct (writes_frame sock pieces m Hsock) as (chunks & Hrun & Hcat & Hch).
  { rewrite Hframe. fold size. lia. }
  { rewrite Hframe. exact Hroom. }
  rewrite Hframe in Hrun, Hcat. fold size in Hrun.
  exists chunks. split; [| split; [exact Hcat | exact Hch]].
  unfold writeStates, function, returning.
  unfold bind at 1. unfold getClient at 1. cbn beta iota zeta. fold sock.
  assert (Htake : take (Z.to_nat numStates) (map strlenZ accepted) = map strlenZ accepted).
  { apply take_ge. rewrite length_map. lia. }
  rewrite Htake, (to_u64_small numStates), to_u64_small, <- Hsize by lia.
  assert (Hbody :
    (beginWrite size ;;
     checked (socketWrite32 sock (to_u32 numStates)) ;;
     for_loop (Z.to_nat numStates) 0 (fun onState =>
       match map strlenZ accepted !! Z.to_nat onState with
       | Some len => checked (socketWrite32 sock len)
       | None => undefined "nameLengths[onState]"
       end) ;;
     for_loop (Z.to_nat numStates) 0 (fun onState =>
       match map strlenZ accepted !! Z.to_nat onState, names !! Z.to_nat onState with
       | Some len, Some name => checked (socketWriteRaw sock (take (Z.to_nat len) name))
       | _, _ => undefined "stateNames[onState]"
       end)) m
    = (beginWrite size ;; writes sock pieces) m).
  { apply bind_ext_at. intros _ m1. unfold pieces. cbn [app writes].
    rewrite to_u32_small by lia. apply bind_ext_at. intros _ m2.
    rewrite writes_app.
    pose proof (writeStates_lengths sock (map strlenZ accepted) (Z.to_nat numStates) O m2
                  ltac:(rewrite length_map; simpl; lia)) as H1.
    change (Z.of_nat 0) with 0 in H1. rewrite drop_0, Htake in H1.
    rewrite (bind_cong_at _ _ _ _ H1). apply bind_ext_at. intros _ m3.
    pose proof (writeStates_names sock names (Z.to_nat numStates) (Z.to_nat numStates) O m3
                  ltac:(simpl; lia) Hnames) as H2.
    change (Z.of_nat 0) with 0 in H2. rewrite drop_0 in H2. exact H2. }
  rewrite Hbody, Hrun. reflexivity.
Qed.

Lemma writeStates_witness :
  exists chunks,
    writeStates sample_names 2 (map strlenZ (take (Z.to_nat 2) sample_names))
                sample_mvisp_connected
    = Val 0 (mkMachine
               (set_commBuf
                  (mkIOBuffer
                     (Z.of_nat (length (states_frame (take (Z.to_nat 2) sample_names))))
                     (Z.of_nat (length (states_frame (take (Z.to_nat 2) sample_names)))) [])
                  (client sample_mvisp_connected))
               (sent_all (fd (client sample_mvisp_connected)) chunks
                         (env sample_mvisp_connected)))
    /\ concat chunks = encode32 2 ++ encode32 1 ++ encode32 1 ++ ["a"%byte; "b"%byte].
Proof.
  destruct (writeStates_sends_the_names sample_names 2 sample_mvisp_connected)
    as (_ & chunks & Hrun & Hcat & _);
    [vm_compute; discriminate | unfold INT_MAX; lia | simpl; lia
     | repeat constructor | exact I |].
  exists chunks. split; [exact Hrun|]. rewrite Hcat. reflexivity.
Defined.

(* ===================================================================== *)
(** ** Progress of the cursors *)
(* ===================================================================== *)

(** Replies are strictly later than the one before, until the time limit
    is reached. *)
Lemma hist_ok_strict tl h rf :
  hist_ok tl h rf ->
  forall i u v, h !! i = Some u -> h !! S i = Some v ->
                u_time u < u_time v \/ u_time u = tl.
Proof.
  induction 1 as [| u Hu | h u v Hh IH Hv | h u Hh IH]; intros i x y Hx Hy.
  - rewrite lookup_nil in Hx. discriminate.
  - apply lookup_lt_Some in Hy. simpl in Hy. lia.
  - destruct (Nat.lt_ge_cases (S i) (length (h ++ [u]))) as [Hlt | Hge].
    + rewrite lookup_app_l in Hx, Hy by lia. eapply IH; eauto.
    + assert (Hi : S i = length (h ++ [u])).
      { apply lookup_lt_Some in Hy. rewrite !length_app in *. simpl in *. lia. }
      rewrite Hi in Hy. rewrite list_lookup_middle in Hy by reflexivity.
      injection Hy as <-.
      rewrite lookup_app_l in Hx by lia.
      rewrite length_app in Hi. simpl in Hi.
      replace i with (length h) in Hx by lia.
      rewrite list_lookup_middle in Hx by reflexivity. injection Hx as <-.
      left. lia.
  - destruct (Nat.lt_ge_cases (S i) (length (h ++ [u]))) as [Hlt | Hge].
    + rewrite lookup_app_l in Hx, Hy by lia. eapply IH; eauto.
    + assert (Hi : S i = length (h ++ [u])).
      { apply lookup_lt_Some in Hy. rewrite !length_app in *. simpl in *. lia. }
      rewrite lookup_app_l in Hx by lia.
      rewrite length_app in Hi. simpl in Hi.
      replace i with (length h) in Hx by lia.
      rewrite list_lookup_middle in Hx by reflexivity. injection Hx as <-.
      right. destruct (hist_ok_facts _ _ _ Hh) as (_ & Hfin & _).
      destruct (Hfin eq_refl) as (_ & w & Hlast & Hw).
      rewrite last_snoc in Hlast. injection Hlast as <-. exact Hw.
Qed.

Lemma agent_inv_strict tl a a' h h' A :
  agent_inv tl a h A -> (A < length h)%nat -> agent_inv tl a' (h ++ h') (S A) ->
  (S A < length (h ++ h'))%nat -> cur_time a <> tl ->
  cur_time a < cur_time a'.
Proof.
  intros Hinv HA Hinv' HA' Hnot.
  pose proof (agent_inv_current _ _ _ _ Hinv HA) as Hcur.
  pose proof (agent_inv_current _ _ _ _ Hinv' HA') as Hcur'.
  destruct (hist_ok_strict _ _ _ (inv_hist _ _ _ _ Hinv') A _ _
              ltac:(rewrite lookup_app_l by lia; exact Hcur) Hcur') as [Hlt | Heq].
  - exact Hlt.
  - contradiction.
Qed.

(** What a successful uampAdvance does to the agents: the one that was
    asked for moves to a later update, the others stay where they are. *)
Lemma uampAdvance_times m ags j m' :
  session_inv (client m) ags -> uampAdvance j m = Val 0 m' ->
  exists pre a post pre' a' post',
    ags = pre ++ a :: post /\ j = Z.of_nat (length pre)
    /\ session_inv (client m') (pre' ++ a' :: post')
    /\ timeLimit (client m') = timeLimit (client m)
    /\ map cur_time pre' = map cur_time pre /\ map cur_time post' = map cur_time post
    /\ cur_time a < cur_time a'
    /\ slot a' (ring_pred (currentIndex a')) = slot a (currentIndex a).
Proof.
  intros Hses H.
  unfold uampAdvance in H. apply (function_result cursor_rel) in H; [| eff_auto].
  destruct H as [[_ H] | [Hneg _]]; [| lia].
  destruct Hses as [Hags Hcount Hsome Hlimit Hqueues Hsmall Hlarge].
  set (tl := timeLimit (client m)) in *.
  unfold bind at 1 in H. unfold getClient at 1 in H. cbn beta iota in H.
  unfold bind at 1 in H. unfold ASSERT at 1 in H.
  destruct (valid_agentID (client m) j) eqn:Hvalid; [| discriminate].
  unfold ret at 1 in H. cbn beta iota in H.
  unfold valid_agentID in Hvalid. apply andb_true_iff in Hvalid.
  destruct Hvalid as [Hj0 Hj1]. apply Z.leb_le in Hj0. apply Z.ltb_lt in Hj1.
  destruct (lookup_lt_is_Some_2 ags (Z.to_nat j)) as [a Ha]; [lia|].
  pose proof (take_drop_middle ags (Z.to_nat j) a Ha) as Hsplit.
  set (pre := take (Z.to_nat j) ags) in *. set (post := drop (S (Z.to_nat j)) ags) in *.
  assert (Hpre : length pre = Z.to_nat j) by (subst pre; rewrite length_take; lia).
  assert (Hj : j = Z.of_nat (length pre)) by lia.
  clearbody pre post. subst ags. clear Ha.
  apply Forall_app in Hqueues. destruct Hqueues as [Hqpre Hq].
  inversion Hq as [|? ? Hqa Hqpost]; subst. clear Hq.
  destruct Hqa as (h & A & Hinv & HA).
  pose proof (agent_inv_bounded _ _ _ _ Hinv) as (Hlen & Hcur & _ & _).
  unfold UAMP_UPDATE_QUEUE_SIZE in Hcur.
  unfold bind at 1 in H.
  rewrite (getCurrentUpdate_run m (pre ++ a :: post) _ a) in H;
    [| exact Hags | apply at_index_middle].
  unfold bind at 1 in H.
  rewrite (deref_run m (pre ++ a :: post) _ a) in H;
    [| exact Hags | apply at_index_middle | lia].
  fold (cur_time a) in H. unfold bind at 1 in H. fold tl in H.
  destruct (Z.eqb_spec (cur_time a) tl) as [| Hnot]; [discriminate|].
  unfold ret at 1 in H. cbn beta iota in H.
  unfold bind at 1 in H. unfold checked at 1 in H. unfold bind at 1 in H.
  destruct (advanceAgent (Z.of_nat (length pre)) m) as [r m1 | |] eqn:Eadv;
    try discriminate.
  destruct (advanceAgent_session m pre a post h A r m1 Hags Hcount Hqpre Hqpost Hinv HA
              Hnot Eadv) as [Hr Hdone].
  unfold ERROR_CHECK in H. destruct (Z.ltb_spec r 0); [discriminate|].
  unfold ret at 1 in H. cbn beta iota in H.
  destruct (Hdone ltac:(lia)) as
    (pre' & a' & post' & b & h' & Hc1 & Hw1 & Hqpre' & Hqpost' & Htpre & Htpost
     & Hinv' & HA').
  fold tl in Hqpre', Hqpost', Hinv'.
  destruct (agent_inv_previous _ _ _ _ _ _ Hinv HA Hinv') as (Hprev & Hlen' & Hup).
  specialize (Hup HA').
  pose proof (agent_inv_strict _ _ _ _ _ _ Hinv HA Hinv' HA' Hnot) as Hstrict.
  assert (Hback : slot a' (ring_pred (currentIndex a')) = slot a (currentIndex a)).
  { rewrite (inv_cur _ _ _ _ Hinv'), ring_pred_mod, <- (inv_cur _ _ _ _ Hinv). exact Hprev. }
  assert (Hpre' : length pre' = length pre).
  { apply (f_equal length) in Htpre. rewrite !length_map in Htpre. exact Htpre. }
  assert (Hpost' : length post' = length post).
  { apply (f_equal length) in Htpost. rewrite !length_map in Htpost. exact Htpost. }
  assert (Hags1 : agents (client m1) = Some (pre' ++ a' :: post'))
    by (rewrite Hc1; reflexivity).
  unfold bind at 1 in H.
  rewrite (deref_run m1 (pre' ++ a' :: post') _ a') in H;
    [| exact Hags1 | rewrite <- Hpre'; apply at_index_middle | lia].
  rewrite Hprev in H. fold (cur_time a) in H.
  unfold bind at 1 in H. unfold getClient at 1 in H. cbn beta iota in H.
  assert (Hok' : agent_ok tl a') by (exists (h ++ h'), (S A); auto).
  assert (Hall : Forall (agent_ok tl) (pre' ++ a' :: post')).
  { apply Forall_app. split; auto. }
  assert (Htimes : map cur_time (pre' ++ a' :: post')
                   = map cur_time pre ++ cur_time a' :: map cur_time post).
  { rewrite map_app. simpl. congruence. }
  rewrite map_app in Hsmall. simpl in Hsmall.
  assert (Hcount' : numAgents (client m1) = Z.of_nat (length (pre' ++ a' :: post'))).
  { rewrite Hc1. cbn. rewrite Hcount, !length_app. simpl. lia. }
  assert (Hmin : smallestCurrentTime (client m) <= cur_time a).
  { destruct Hsmall as [Hle _]. apply Forall_app in Hle. destruct Hle as [_ Hle].
    inversion Hle; auto. }
  set (l' := if largestLastTime (client m1) <? cur_time a
             then cur_time a else largestLastTime (client m1)).
  assert (Hl' : largestLastTime (client m) <= l' /\ 0 <= l').
  { subst l'. rewrite Hc1. cbn [largestLastTime set_agents set_commBuf].
    destruct (Z.ltb_spec (largestLastTime (client m)) (cur_time a)); lia. }
  set (m2 := mkMachine (set_largestLastTime l' (client m1)) (env m1)).
  assert (Hm2 : (if largestLastTime (client m1) <? cur_time a
                 then modClient (set_largestLastTime (cur_time a)) else ret tt) m1
                = Val tt m2).
  { subst m2 l'. destruct (largestLastTime (client m1) <? cur_time a); cbn; [reflexivity|].
    destruct m1 as [[] ?]; reflexivity. }
  unfold bind at 1 in H. rewrite Hm2 in H.
  unfold bind at 1 in H. unfold getClient at 1 in H. cbn beta iota in H.
  assert (Hs2 : smallestCurrentTime (client m2) = smallestCurrentTime (client m)).
  { subst m2. cbn. rewrite Hc1. reflexivity. }
  rewrite Hs2 in H.
  assert (Hbase : forall s,
            min_of (map cur_time (pre' ++ a' :: post')) s ->
            session_inv (set_smallestCurrentTime s (client m2)) (pre' ++ a' :: post')).
  { intros s Hs. subst m2. split; cbn; rewrite ?Hc1; cbn; auto; try lia.
    - rewrite Hcount, !length_app. simpl. lia. }
  destruct (Z.eqb_spec (cur_time a) (smallestCurrentTime (client m))) as [Heq | Hne].
  - unfold bind at 1 in H.
    replace (Z.to_nat (numAgents (client m2))) with (length (pre' ++ a' :: post')) in H
      by (subst m2; cbn; rewrite Hcount'; rewrite Nat2Z.id; reflexivity).
    assert (Hloop : uampAdvance_loop (length (pre' ++ a' :: post')) 0 UINT32_MAX m2
                    = Val (least UINT32_MAX (map cur_time (pre' ++ a' :: post'))) m2).
    { apply (uampAdvance_loop_run (pre' ++ a' :: post') [] UINT32_MAX m2).
      - subst m2. cbn. rewrite Hc1. reflexivity.
      - eapply Forall_impl; [exact Hall | apply agent_ok_bounded]. }
    rewrite Hloop in H. unfold modClient in H. injection H as <-.
    cbn [client env].
    assert (Hleast : min_of (map cur_time (pre' ++ a' :: post'))
                       (least UINT32_MAX (map cur_time (pre' ++ a' :: post')))).
    { apply least_min.
      - destruct pre'; discriminate.
      - apply Forall_map. eapply Forall_impl; [exact Hall|].
        intros x Hx. apply agent_ok_cur_time in Hx. cbn. lia. }
    exists pre, a, post, pre', a', post'.
    split; [reflexivity|]. split; [reflexivity|].
    split; [apply Hbase; exact Hleast|].
    split; [cbn; rewrite Hc1; reflexivity|].
    split; [exact Htpre|]. split; [exact Htpost|]. split; [exact Hstrict | exact Hback].
  - injection H as <-.
    exists pre, a, post, pre', a', post'.
    split; [reflexivity|]. split; [reflexivity|].
    split.
    { replace (client m2) with (set_smallestCurrentTime (smallestCurrentTime (client m))
                                  (client m2)).
      * apply Hbase. rewrite Htimes.
        apply (min_of_raise _ (cur_time a)); auto. lia.
      * rewrite <- Hs2. destruct (client m2); reflexivity. }
    split; [cbn; rewrite Hc1; reflexivity|].
    split; [exact Htpre|]. split; [exact Htpost|]. split; [exact Hstrict | exact Hback].
Qed.

Lemma lookup_beside {A} (xs zs : list A) (y y' : A) i :
  i <> length xs -> (xs ++ y :: zs) !! i = (xs ++ y' :: zs) !! i.
Proof.
  intros Hi. destruct (Nat.lt_ge_cases i (length xs)) as [Hlt | Hge].
  - rewrite !lookup_app_l by lia. reflexivity.
  - rewrite !lookup_app_r by lia.
    destruct (i - length xs)%nat as [|k] eqn:E; [lia | reflexivity].
Qed.

(** The current update times before and after a successful uampAdvance. *)
Lemma uampAdvance_cur_times m ags j m' :
  session_inv (client m) ags -> uampAdvance j m = Val 0 m' ->
  exists ags' t t',
    session_inv (client m') ags'
    /\ timeLimit (client m') = timeLimit (client m)
    /\ length ags' = length ags /\ 0 <= j
    /\ map cur_time ags !! Z.to_nat j = Some t
    /\ map cur_time ags' !! Z.to_nat j = Some t'
    /\ t < t'
    /\ (forall i, i <> Z.to_nat j -> map cur_time ags' !! i = map cur_time ags !! i).
Proof.
  intros Hses H.
  destruct (uampAdvance_times m ags j m' Hses H)
    as (pre & a & post & pre' & a' & post' & -> & -> & Hses' & Htl & Hpre & Hpost & Hlt & _).
  assert (Hlen : length pre' = length pre).
  { apply (f_equal length) in Hpre. rewrite !length_map in Hpre. exact Hpre. }
  assert (Hlen2 : length post' = length post).
  { apply (f_equal length) in Hpost. rewrite !length_map in Hpost. exact Hpost. }
  exists (pre' ++ a' :: post'), (cur_time a), (cur_time a').
  split; [exact Hses'|]. split; [exact Htl|].
  split; [rewrite !length_app; simpl; lia|]. split; [lia|].
  rewrite Nat2Z.id, !map_app. cbn [map]. rewrite Hpre, Hpost.
  split; [apply list_lookup_middle; rewrite length_map; reflexivity|].
  split; [apply list_lookup_middle; rewrite length_map; reflexivity|].
  split; [exact Hlt|].
  intros i Hi. apply lookup_beside. rewrite length_map. exact Hi.
Qed.

(** X19.  A successful uampAdvance moves the agent it was asked for, and
    only that one: the agent's current update is strictly later than the
    one before and not later than the time limit, the update that was
    current is now its previous update, and the current updates of all
    other agents are at the times they were. *)
Theorem uampAdvance_moves_the_agent_forward m j m' :
  reachable m -> uampAdvance j m = Val 0 m' ->
  exists ags ags' a a',
    agents (client m) = Some ags /\ agents (client m') = Some ags'
    /\ length ags' = length ags
    /\ at_index ags j = Some a /\ at_index ags' j = Some a'
    /\ cur_time a < cur_time a' <= timeLimit (client m)
    /\ slot a' (ring_pred (currentIndex a')) = slot a (currentIndex a)
    /\ (forall i b b',
          i <> j -> at_index ags i = Some b -> at_index ags' i = Some b' ->
          cur_time b' = cur_time b).
Proof.
  intros Hreach H. destruct (reachable_session m Hreach) as [ags Hses].
  destruct (uampAdvance_times m ags j m' Hses H)
    as (pre & a & post & pre' & a' & post' & -> & -> & Hses' & Htl & Hpre & Hpost & Hlt
        & Hback).
  assert (Hlen : length pre' = length pre).
  { apply (f_equal length) in Hpre. rewrite !length_map in Hpre. exact Hpre. }
  assert (Hlen2 : length post' = length post).
  { apply (f_equal length) in Hpost. rewrite !length_map in Hpost. exact Hpost. }
  exists (pre ++ a :: post), (pre' ++ a' :: post'), a, a'.
  split; [apply (ses_agents _ _ Hses)|]. split; [apply (ses_agents _ _ Hses')|].
  split; [rewrite !length_app; simpl; lia|].
  split; [apply at_index_middle|].
  split; [rewrite <- Hlen; apply at_index_middle|].
  split.
  { split; [exact Hlt|].
    pose proof (ses_queues _ _ Hses') as Hq. rewrite Forall_forall in Hq.
    pose proof (agent_ok_cur_time _ _ (Hq a' ltac:(apply elem_of_app; right; constructor))).
    pose proof (ses_limit _ _ Hses'). rewrite Htl in *. lia. }
  split; [exact Hback|].
  intros i b b' Hi Hb Hb'.
  apply at_index_Some in Hb. destruct Hb as [Hi0 Hb].
  apply at_index_Some in Hb'. destruct Hb' as [_ Hb'].
  assert (Hn : Z.to_nat i <> length pre) by lia.
  assert (H1 : map cur_time (pre ++ a :: post) !! Z.to_nat i = Some (cur_time b))
    by (rewrite list_lookup_fmap, Hb; reflexivity).
  assert (H2 : map cur_time (pre' ++ a' :: post') !! Z.to_nat i = Some (cur_time b'))
    by (rewrite list_lookup_fmap, Hb'; reflexivity).
  rewrite !map_app in H1, H2. cbn [map] in H1, H2. rewrite Hpre, Hpost in H2.
  rewrite (lookup_beside _ _ _ (cur_time a)) in H2 by (rewrite length_map; exact Hn).
  congruence.
Qed.

Lemma uampAdvance_forward_witness :
  exists a a',
    at_index (agents_of sample_connected) 0 = Some a
    /\ at_index (agents_of (after (uampAdvance 0) sample_connected)) 0 = Some a'
    /\ cur_time a < cur_time a' <= timeLimit (client sample_connected).
Proof.
  destruct (uampAdvance_moves_the_agent_forward sample_connected 0
              (after (uampAdvance 0) sample_connected))
    as (ags & ags' & a & a' & Hags & Hags' & _ & Ha & Ha' & Ht & _).
  - apply reach_connected. exact sample_is_connected.
  - vm_compute. reflexivity.
  - exists a, a'. unfold agents_of. rewrite Hags, Hags'. auto.
Defined.

(** What uampAdvanceOldest has done to a current update time [t]: moved it
    on if it was the oldest, left it otherwise. *)
Definition moved_on (oldest t t' : Z) : Prop :=
  if t =? oldest then t < t' else t' = t.

(** The loop of uampAdvanceOldest from agent [k] on. *)
Lemma uampAdvanceOldest_loop_times oldest n : forall k m ags m',
  session_inv (client m) ags -> (k + n = length ags)%nat ->
  for_loop n (Z.of_nat k) (fun i =>
    p <- getCurrentUpdate i ;;
    current <- deref p ;;
    if u_time current =? oldest then checked (uampAdvance (to_int i)) else ret tt) m
  = Val tt m' ->
  exists ags',
    session_inv (client m') ags'
    /\ timeLimit (client m') = timeLimit (client m)
    /\ length ags' = length ags
    /\ forall i t t',
         map cur_time ags !! i = Some t -> map cur_time ags' !! i = Some t' ->
         ((i < k)%nat -> t' = t) /\ ((k <= i)%nat -> moved_on oldest t t').
Proof.
  induction n as [|n IH]; intros k m ags m' Hses Hk H.
  - injection H as <-. exists ags. split; [exact Hses|]. split; [reflexivity|].
    split; [reflexivity|]. intros i t t' Ht Ht'.
    pose proof (lookup_lt_Some _ _ _ Ht) as Hi. rewrite length_map in Hi.
    split; [intros _; congruence | intros; lia].
  - cbn [for_loop] in H. apply bind_val_inv in H. destruct H as ([] & m1 & H1 & H2).
    destruct (lookup_lt_is_Some_2 ags k ltac:(lia)) as [a Ha].
    assert (Hat : at_index ags (Z.of_nat k) = Some a).
    { rewrite at_index_lookup by lia. rewrite Nat2Z.id. exact Ha. }
    pose proof (ses_queues _ _ Hses) as Hq. rewrite Forall_forall in Hq.
    pose proof (agent_ok_bounded _ _ (Hq a ltac:(eapply list_elem_of_lookup_2; eauto)))
      as (Hlen & Hcur & _).
    unfold UAMP_UPDATE_QUEUE_SIZE in Hcur.
    unfold bind at 1 in H1.
    rewrite (getCurrentUpdate_run m ags _ a (ses_agents _ _ Hses) Hat) in H1.
    unfold bind at 1 in H1.
    rewrite (deref_run m ags _ a) in H1 by (auto using ses_agents; lia).
    fold (cur_time a) in H1.
    assert (Hta : map cur_time ags !! k = Some (cur_time a))
      by (rewrite list_lookup_fmap, Ha; reflexivity).
    replace (Z.of_nat k + 1) with (Z.of_nat (S k)) in H2 by lia.
    destruct (Z.eqb_spec (cur_time a) oldest) as [Hold | Hyoung].
    + apply checked_inv in H1. destruct H1 as (r & H1 & Hr).
      pose proof (uampAdvance_result _ _ _ _ H1).
      assert (r = 0) by lia. subst r.
      rewrite to_int_small in H1.
      2:{ pose proof (ses_some _ _ Hses). pose proof (ses_count _ _ Hses). lia. }
      destruct (uampAdvance_cur_times m ags _ m1 Hses H1)
        as (ags1 & t & t1 & Hses1 & Htl1 & Hlen1 & _ & Ht & Ht1 & Hlt & Hsame).
      rewrite Nat2Z.id in Ht, Ht1, Hsame.
      rewrite Hta in Ht. injection Ht as <-.
      destruct (IH (S k) m1 ags1 m' Hses1 ltac:(lia) H2) as (ags' & Hses' & Htl' & Hlen' & Hall).
      exists ags'. split; [exact Hses'|]. split; [congruence|]. split; [congruence|].
      intros i t t' Hi Hi'.
      destruct (Nat.eq_dec i k) as [-> | Hne].
      * rewrite Hta in Hi. injection Hi as <-.
        destruct (Hall k t1 t' Ht1 Hi') as [Hkeep _].
        split; [lia|]. intros _. unfold moved_on.
        rewrite (proj2 (Z.eqb_eq _ _) Hold). rewrite Hkeep by lia. exact Hlt.
      * rewrite <- (Hsame i Hne) in Hi.
        destruct (Hall i t t' Hi Hi') as [Hkeep Hmoved].
        split; intros Hik; [apply Hkeep | apply Hmoved]; lia.
    + injection H1 as <-.
      destruct (IH (S k) m ags m' Hses ltac:(lia) H2) as (ags' & Hses' & Htl' & Hlen' & Hall).
      exists ags'. split; [exact Hses'|]. split; [exact Htl'|]. split; [exact Hlen'|].
      intros i t t' Hi Hi'. destruct (Hall i t t' Hi Hi') as [Hkeep Hmoved].
      split; intros Hik; [apply Hkeep; lia|].
      destruct (Nat.eq_dec i k) as [-> | Hne]; [| apply Hmoved; lia].
      rewrite Hta in Hi. injection Hi as <-. unfold moved_on.
      rewrite (proj2 (Z.eqb_neq _ _) Hyoung). apply Hkeep. lia.
Qed.

(** X20.  A successful uampAdvanceOldest moves every agent whose current
    update is at the oldest time to a strictly later update and leaves the
    current updates of the others alone, so the oldest current time of the
    session, smallestCurrentTime, grows strictly with every call and stays
    within the time limit: a loop that calls uampAdvanceOldest while
    uampIsAnyMore returns 1 ends. *)
Theorem uampAdvanceOldest_raises_the_oldest_time m m' :
  reachable m -> uampAdvanceOldest m = Val 0 m' ->
  smallestCurrentTime (client m) < smallestCurrentTime (client m') <= timeLimit (client m)
  /\ timeLimit (client m') = timeLimit (client m)
  /\ exists ags ags',
       agents (client m) = Some ags /\ agents (client m') = Some ags'
       /\ length ags' = length ags
       /\ forall i a a',
            at_index ags i = Some a -> at_index ags' i = Some a' ->
            moved_on (smallestCurrentTime (client m)) (cur_time a) (cur_time a').
Proof.
  intros Hreach H. destruct (reachable_session m Hreach) as [ags Hses].
  unfold uampAdvanceOldest in H.
  apply (function_result cursor_rel) in H; [| eff_auto].
  destruct H as [[_ H] | [Hneg _]]; [| lia].
  unfold bind at 1 in H. unfold getClient at 1 in H. cbn beta iota zeta in H.
  apply bind_val_inv in H. destruct H as ([] & m1 & H1 & H).
  destruct (smallestCurrentTime (client m) =? timeLimit (client m)); [discriminate|].
  injection H1 as <-.
  replace (Z.to_nat (numAgents (client m))) with (length ags) in H
    by (rewrite (ses_count _ _ Hses), Nat2Z.id; reflexivity).
  destruct (uampAdvanceOldest_loop_times (smallestCurrentTime (client m)) (length ags) O m ags m'
              Hses eq_refl H)
    as (ags' & Hses' & Htl & Hlen & Hall).
  set (oldest := smallestCurrentTime (client m)) in *.
  assert (Hmoved : forall i a a',
            ags !! i = Some a -> ags' !! i = Some a' ->
            moved_on oldest (cur_time a) (cur_time a')).
  { intros i a a' Ha Ha'.
    apply (Hall i (cur_time a) (cur_time a')); [| | lia];
      rewrite list_lookup_fmap; [rewrite Ha | rewrite Ha']; reflexivity. }
  split; [| split; [exact Htl|]].
  - pose proof (ses_smallest _ _ Hses) as [Hmin _].
    pose proof (ses_smallest _ _ Hses') as [_ Hin'].
    pose proof (ses_queues _ _ Hses') as Hq'. rewrite Forall_forall in Hq'.
    pose proof (ses_limit _ _ Hses') as Hlimit. rewrite Htl in Hlimit, Hq'.
    apply list_elem_of_fmap in Hin'. destruct Hin' as (a' & Hs' & Ha').
    pose proof (agent_ok_cur_time _ _ (Hq' a' Ha')) as Hrange.
    apply list_elem_of_lookup in Ha'. destruct Ha' as [i Ha'].
    destruct (lookup_lt_is_Some_2 ags i) as [a Ha].
    { apply lookup_lt_Some in Ha'. lia. }
    specialize (Hmoved i a a' Ha Ha'). unfold moved_on in Hmoved.
    rewrite Forall_forall in Hmin.
    assert (Hge : oldest <= cur_time a).
    { apply Hmin. apply list_elem_of_fmap. exists a. split; [reflexivity|].
      eapply list_elem_of_lookup_2; eauto. }
    rewrite Hs'. destruct (Z.eqb_spec (cur_time a) oldest); lia.
  - exists ags, ags'. split; [apply (ses_agents _ _ Hses)|].
    split; [apply (ses_agents _ _ Hses')|]. split; [exact Hlen|].
    intros i a a' Ha Ha'.
    apply at_index_Some in Ha. destruct Ha as [_ Ha].
    apply at_index_Some in Ha'. destruct Ha' as [_ Ha'].
    apply (Hmoved _ _ _ Ha Ha').
Qed.

Lemma uampAdvanceOldest_raises_witness :
  smallestCurrentTime (client sample_connected)
  < smallestCurrentTime (client sample_advanced) <= timeLimit (client sample_connected).
Proof.
  apply (uampAdvanceOldest_raises_the_oldest_time sample_connected sample_advanced).
  - apply reach_connected. exact sample_is_connected.
  - exact sample_advanced_run.
Defined.

(* ===================================================================== *)
(** ** A reply on the wire *)
(* ===================================================================== *)

(** The size of one location reply: time, x and y, z from a 3D server, the
    present flag from a server with add/remove data. *)
Definition reply_size (feats : Z) : Z :=
  12 + (if has_feature feats UAMP_SUPPORTS_3D then 4 else 0)
  + (if has_feature feats UAMP_SUPPORTS_ADD_REMOVE then 1 else 0).

(** The update that the bytes of a reply stand for. *)
Definition decode_reply (feats : Z) (s : list byte) : uampUpdate :=
  let wide := has_feature feats UAMP_SUPPORTS_3D in
  mkUpdate (decode32 (take 4 s)) (decode32 (take 4 (drop 4 s)))
           (decode32 (take 4 (drop 8 s)))
           (if wide then decode32 (take 4 (drop 12 s)) else 0)
           (if has_feature feats UAMP_SUPPORTS_ADD_REMOVE
            then match take 1 (drop (if wide then 16 else 12) s) with
                 | b :: _ => byte_val b
                 | [] => 0
                 end
            else 0x01).

Section ReadingAReply.
Variable m0 : machine.
Variable j : Z.
Variable ags : list uampAgent.
Variable a : uampAgent.
Hypothesis agents_m0 : agents (client m0) = Some ags.
Hypothesis agent_j : at_index ags j = Some a.
Hypothesis recv_ok : 0 <= recvIndex a < Z.of_nat (length (updates a)).
Hypothesis sock_open : 0 <= fd (client m0).
Hypothesis buf_ok : read_buf_ok (commBuf (client m0)).
Hypothesis frame_there :
  total (commBuf (client m0)) - passed (commBuf (client m0))
  <= Z.of_nat (length (buffer (commBuf (client m0)) ++ w_rx (env m0))).

(** The machine while a reply is read: [k] bytes of it are consumed, and
    the slot at recvIndex holds [u]. *)
Definition reading (u : uampUpdate) (k : Z) (m : machine) : Prop :=
  exists b rx,
    m = mkMachine (set_agents (Some (<[Z.to_nat j := store_reply a u]> ags))
                              (set_commBuf b (client m0)))
                  (set_w_rx rx (env m0))
    /\ read_buf_ok b /\ total b = total (commBuf (client m0))
    /\ passed b = passed (commBuf (client m0)) + k
    /\ buffer b ++ rx = drop (Z.to_nat k) (buffer (commBuf (client m0)) ++ w_rx (env m0)).

Lemma reading_start : reading (slot a (recvIndex a)) 0 m0.
Proof.
  exists (commBuf (client m0)), (w_rx (env m0)).
  rewrite store_reply_same by exact recv_ok.
  rewrite (insert_agent_id ags j a agent_j).
  split.
  { destruct m0 as [c w]. cbn [client env] in *. rewrite set_w_rx_id.
    rewrite set_commBuf_id, set_agents_id; auto. }
  split; [exact buf_ok|]. split; [reflexivity|]. split; [lia | reflexivity].
Qed.

Lemma reading_store u k m f :
  reading u k m ->
  exists m', storeReply_set j f m = Val tt m' /\ reading (f u) k m'.
Proof.
  intros (b & rx & -> & Hok & Ht & Hp & Hs).
  set (ags' := <[Z.to_nat j := store_reply a u]> ags).
  assert (Hj : at_index ags' j = Some (store_reply a u))
    by (apply at_index_insert with (y := a); exact agent_j).
  assert (Hr : 0 <= recvIndex (store_reply a u)
               < Z.of_nat (length (updates (store_reply a u)))).
  { unfold store_reply. cbn. rewrite length_insert. exact recv_ok. }
  assert (Hslot : slot (store_reply a u) (recvIndex a) = u).
  { unfold slot, store_reply. cbn [updates set_updates].
    rewrite at_index_lookup by lia. rewrite list_lookup_insert_eq by lia. reflexivity. }
  eexists. split.
  - unfold storeReply_set. unfold bind at 1.
    rewrite (getAgent_run _ ags' j (store_reply a u)); [| reflexivity | exact Hj].
    unfold bind at 1. rewrite getUpdate_run by exact Hr.
    rewrite (setAgent_run _ ags') by reflexivity. reflexivity.
  - exists b, rx. split; [| auto].
    cbn [client env]. f_equal.
    change (recvIndex (store_reply a u)) with (recvIndex a). rewrite Hslot.
    unfold ags'. rewrite list_insert_insert_eq.
    change (updates (store_reply a u)) with (<[Z.to_nat (recvIndex a) := u]> (updates a)).
    rewrite list_insert_insert_eq.
    destruct (client m0); reflexivity.
Qed.

Lemma reading_bytes u k m n :
  reading u k m -> 0 <= k -> 0 <= n ->
  passed (commBuf (client m0)) + k + n <= total (commBuf (client m0)) ->
  exists m',
    socketReadRaw (fd (client m0)) n m
    = Val (0, take (Z.to_nat n)
                   (drop (Z.to_nat k) (buffer (commBuf (client m0)) ++ w_rx (env m0)))) m'
    /\ reading u (k + n) m'.
Proof.
  intros (b & rx & -> & Hok & Ht & Hp & Hs) Hk Hn Hfit.
  set (m := mkMachine _ _).
  destruct (socketReadRaw_stream (fd (client m0)) n m sock_open Hn)
    as (b' & rx' & Hrun & Hok' & Ht' & Hp' & Hs').
  { exact Hok. }
  { unfold m. cbn [client commBuf set_agents set_commBuf]. lia. }
  { unfold m. cbn [client env commBuf set_agents set_commBuf w_rx set_w_rx].
    apply (f_equal length) in Hs. rewrite length_app, length_drop in Hs.
    unfold inBuffer. lia. }
  unfold m in Hrun, Ht', Hp', Hs'.
  cbn [client env commBuf set_agents set_commBuf w_rx set_w_rx] in Hrun, Ht', Hp', Hs'.
  rewrite Hs in Hrun, Hs'. rewrite drop_drop in Hs'.
  eexists. split; [exact Hrun|].
  exists b', rx'. split; [destruct (client m0); reflexivity|].
  split; [exact Hok'|]. split; [congruence|]. split; [lia|].
  rewrite Hs'. f_equal. lia.
Qed.

Lemma reading_u32 u k m :
  reading u k m -> 0 <= k ->
  passed (commBuf (client m0)) + k + 4 <= total (commBuf (client m0)) ->
  exists m',
    checked_with (socketRead32 (fd (client m0))) m
    = Val (decode32 (take 4 (drop (Z.to_nat k)
                                  (buffer (commBuf (client m0)) ++ w_rx (env m0))))) m'
    /\ reading u (k + 4) m'.
Proof.
  intros Hr Hk Hfit.
  destruct (reading_bytes u k m 4 Hr Hk ltac:(lia) Hfit) as (m' & Hrun & Hr').
  exists m'. split; [| exact Hr'].
  unfold checked_with, socketRead32. unfold bind at 1 2. rewrite Hrun.
  reflexivity.
Qed.

Lemma reading_u8 u k m :
  reading u k m -> 0 <= k ->
  passed (commBuf (client m0)) + k + 1 <= total (commBuf (client m0)) ->
  exists m',
    checked_with (socketRead8 (fd (client m0))) m
    = Val (match take 1 (drop (Z.to_nat k)
                              (buffer (commBuf (client m0)) ++ w_rx (env m0))) with
           | b :: _ => byte_val b
           | [] => 0
           end) m'
    /\ reading u (k + 1) m'.
Proof.
  intros Hr Hk Hfit.
  destruct (reading_bytes u k m 1 Hr Hk ltac:(lia) Hfit) as (m' & Hrun & Hr').
  exists m'. split; [| exact Hr'].
  unfold checked_with, socketRead8. unfold bind at 1 2. rewrite Hrun.
  reflexivity.
Qed.

Lemma reading_client u k m :
  reading u k m ->
  fd (client m) = fd (client m0) /\ serverFeatures (client m) = serverFeatures (client m0).
Proof. intros (b & rx & -> & _). split; reflexivity. Qed.

Lemma receiveReply_read_run :
  let feats := serverFeatures (client m0) in
  let stream := buffer (commBuf (client m0)) ++ w_rx (env m0) in
  passed (commBuf (client m0)) + reply_size feats <= total (commBuf (client m0)) ->
  exists m',
    receiveReply_read j m0 = Val tt m'
    /\ reading (decode_reply feats stream) (reply_size feats) m'.
Proof.
  intros feats stream Hfit.
  assert (Hsize : 12 <= reply_size feats <= 17).
  { unfold reply_size. destruct (has_feature feats UAMP_SUPPORTS_3D);
      destruct (has_feature feats UAMP_SUPPORTS_ADD_REMOVE); lia. }
  unfold receiveReply_read.
  unfold bind at 1. unfold getClient at 1. cbn beta iota.
  destruct (reading_u32 _ 0 m0 reading_start ltac:(lia) ltac:(lia)) as (m1 & E1 & R1).
  unfold bind at 1. rewrite E1.
  destruct (reading_store _ _ _ (set_u_time (decode32 (take 4 (drop (Z.to_nat 0) stream)))) R1)
    as (m2 & E2 & R2).
  unfold bind at 1. fold stream. rewrite E2.
  destruct (reading_u32 _ _ m2 R2 ltac:(lia) ltac:(lia)) as (m3 & E3 & R3).
  unfold bind at 1. rewrite E3.
  destruct (reading_store _ _ _ (set_u_x (decode32 (take 4 (drop (Z.to_nat (0 + 4)) stream)))) R3)
    as (m4 & E4 & R4).
  unfold bind at 1. fold stream. rewrite E4.
  destruct (reading_u32 _ _ m4 R4 ltac:(lia) ltac:(lia)) as (m5 & E5 & R5).
  unfold bind at 1. rewrite E5.
  destruct (reading_store _ _ _
              (set_u_y (decode32 (take 4 (drop (Z.to_nat (0 + 4 + 4)) stream)))) R5)
    as (m6 & E6 & R6).
  unfold bind at 1. fold stream. rewrite E6.
  fold feats. unfold reply_size in Hfit. unfold decode_reply, reply_size.
  assert (Har : 0 <= (if has_feature feats UAMP_SUPPORTS_ADD_REMOVE then 1 else 0) <= 1)
    by (destruct (has_feature feats UAMP_SUPPORTS_ADD_REMOVE); lia).
  destruct (has_feature feats UAMP_SUPPORTS_3D) eqn:F3.
  - destruct (reading_u32 _ _ m6 R6 ltac:(lia) ltac:(lia)) as (m7 & E7 & R7).
    unfold bind at 1 2. rewrite E7.
    destruct (reading_store _ _ _
                (set_u_z (decode32 (take 4 (drop (Z.to_nat (0 + 4 + 4 + 4)) stream)))) R7)
      as (m8 & E8 & R8).
    fold stream. rewrite E8.
    destruct (has_feature feats UAMP_SUPPORTS_ADD_REMOVE) eqn:FA.
    + destruct (reading_u8 _ _ m8 R8 ltac:(lia) ltac:(lia)) as (m9 & E9 & R9).
      unfold bind at 1. rewrite E9.
      destruct (reading_store _ _ _
                  (set_u_present
                     (match take 1 (drop (Z.to_nat (0 + 4 + 4 + 4 + 4)) stream) with
                      | b :: _ => byte_val b
                      | [] => 0
                      end)) R9) as (m10 & E10 & R10).
      fold stream. rewrite E10. exists m10. split; [reflexivity|]. exact R10.
    + destruct (reading_store _ _ _ (set_u_present 0x01) R8) as (m9 & E9 & R9).
      rewrite E9. exists m9. split; [reflexivity|].
      replace (12 + 4 + 0) with (0 + 4 + 4 + 4 + 4) by lia. exact R9.
  - destruct (reading_store _ _ _ (set_u_z 0) R6) as (m7 & E7 & R7).
    unfold bind at 1. rewrite E7.
    destruct (has_feature feats UAMP_SUPPORTS_ADD_REMOVE) eqn:FA.
    + destruct (reading_u8 _ _ m7 R7 ltac:(lia) ltac:(lia)) as (m8 & E8 & R8).
      unfold bind at 1. rewrite E8.
      destruct (reading_store _ _ _
                  (set_u_present
                     (match take 1 (drop (Z.to_nat (0 + 4 + 4 + 4)) stream) with
                      | b :: _ => byte_val b
                      | [] => 0
                      end)) R8) as (m9 & E9 & R9).
      fold stream. rewrite E9. exists m9. split; [reflexivity|].
      replace (12 + 0 + 1) with (0 + 4 + 4 + 4 + 1) by lia. exact R9.
    + destruct (reading_store _ _ _ (set_u_present 0x01) R7) as (m8 & E8 & R8).
      rewrite E8. exists m8. split; [reflexivity|].
      replace (12 + 0 + 0) with (0 + 4 + 4 + 4) by lia. exact R8.
Qed.
End ReadingAReply.

(** X21.  receiveReply takes exactly one reply off the wire and verifies
    that one: the next bytes of the frame are the time, x and y, then z if
    the server sends 3D data, then the present flag if the server sends
    add/remove data, numbers in network byte order; a 2D server's reply
    gets z = 0 and a server without add/remove data present = 1.  The reply
    is stored in the slot at recvIndex and the result is that of the
    verification of this reply; the bytes after it are left for the next
    call. *)
Theorem receiveReply_takes_the_reply_off_the_wire j m ags a :
  agents (client m) = Some ags -> at_index ags j = Some a ->
  0 <= recvIndex a < UAMP_UPDATE_QUEUE_SIZE ->
  Z.of_nat (length (updates a)) = UAMP_UPDATE_QUEUE_SIZE ->
  0 <= fd (client m) ->
  let buf := commBuf (client m) in
  let feats := serverFeatures (client m) in
  let stream := buffer buf ++ w_rx (env m) in
  let reply := decode_reply feats stream in
  let v := verified (timeLimit (client m)) (store_reply a reply) in
  read_buf_ok buf -> passed buf + reply_size feats <= total buf ->
  total buf - passed buf <= Z.of_nat (length stream) ->
  (has_feature feats UAMP_SUPPORTS_3D = false -> u_z reply = 0)
  /\ (has_feature feats UAMP_SUPPORTS_ADD_REMOVE = false -> u_present reply = 1)
  /\ exists b' rx',
       receiveReply j m
       = Val (fst v)
             (mkMachine (set_agents (Some (<[Z.to_nat j := snd v]> ags))
                                    (set_commBuf b' (client m)))
                        (set_w_rx rx' (env m)))
       /\ buffer b' ++ rx' = drop (Z.to_nat (reply_size feats)) stream
       /\ total b' = total buf /\ passed b' = passed buf + reply_size feats
       /\ read_buf_ok b'.
Proof.
  intros Hags Hj Hr Hlen Hfd buf feats stream reply v Hok Hfit Havail.
  split; [intros F; unfold reply, decode_reply; rewrite F; reflexivity|].
  split; [intros F; unfold reply, decode_reply; rewrite F; reflexivity|].
  destruct (receiveReply_read_run m j ags a Hags Hj ltac:(lia) Hfd Hok Havail Hfit)
    as (m1 & Hread & b' & rx' & -> & Hok' & Ht' & Hp' & Hs').
  exists b', rx'.
  split; [| auto].
  rewrite (receiveReply_after_read j m _ Hread).
  rewrite (receiveReply_verify_run j _ (<[Z.to_nat j := store_reply a reply]> ags)
             (store_reply a reply)).
  - cbn [client env]. rewrite list_insert_insert_eq.
    destruct (client m); reflexivity.
  - reflexivity.
  - apply at_index_insert with (y := a). exact Hj.
  - exact Hr.
  - unfold store_reply. cbn. rewrite length_insert. exact Hlen.
Qed.

(** The UAMP session with the frame of one reply announced. *)
Definition sample_expecting : machine := with_buf sample_connected (mkIOBuffer 12 0 []).

Lemma receiveReply_wire_witness :
  decode_reply 0 (w_rx (env sample_expecting)) = mkUpdate 600 1 1 0 1
  /\ value (receiveReply 0) sample_expecting 7 = 0.
Proof.
  split; [vm_compute; reflexivity|].
  destruct (receiveReply_takes_the_reply_off_the_wire 0 sample_expecting
              (agents_of sample_expecting) (agent_of sample_expecting 0))
    as (_ & _ & b' & rx' & Hrun & _);
    [vm_compute; reflexivity | vm_compute; reflexivity
     | vm_compute; split; [discriminate | reflexivity] | vm_compute; reflexivity
     | vm_compute; discriminate
     | vm_compute; repeat split; discriminate | vm_compute; discriminate
     | vm_compute; discriminate |].
  unfold value. rewrite Hrun. vm_compute. reflexivity.
Defined.

(* ===================================================================== *)
(** ** The request of requestUpdates *)
(* ===================================================================== *)

(** Receiving leaves what was sent alone. *)
Definition recv_rel (m m' : machine) : Prop :=
  w_log (env m') = w_log (env m) /\ w_tx_room (env m') = w_tx_room (env m).

#[global] Instance recv_rel_preorder : PreOrder recv_rel.
Proof.
  split.
  - intros m. split; reflexivity.
  - intros m1 m2 m3 [L1 R1] [L2 R2]. split; congruence.
Qed.

Lemma eff_recv_modClient f : eff recv_rel (modClient f).
Proof. intros m. cbn. split; reflexivity. Qed.

Lemma eff_recv_getBuf : eff recv_rel getBuf.
Proof. intros m. cbn. split; reflexivity. Qed.

Lemma eff_recv_setBuf b : eff recv_rel (setBuf b).
Proof. apply eff_recv_modClient. Qed.

Lemma eff_recv_beginRead n : eff recv_rel (beginRead n).
Proof. apply eff_recv_modClient. Qed.

Lemma eff_recv_setAgent j a : eff recv_rel (setAgent j a).
Proof. apply eff_recv_modClient. Qed.

Lemma eff_recv_socketRead sock n : eff recv_rel (socketRead sock n).
Proof.
  intros m. unfold socketRead, bind, getWorld, modWorld, ret.
  destruct (n <=? 0); [split; reflexivity|].
  destruct (sock <? 0); [split; reflexivity|].
  destruct (_ <? _)%nat; split; reflexivity.
Qed.
#[global] Hint Resolve eff_recv_modClient eff_recv_getBuf eff_recv_setBuf eff_recv_beginRead
  eff_recv_setAgent eff_recv_socketRead : eff.

Lemma eff_recv_socketReadRaw_loop fuel sock len data :
  eff recv_rel (socketReadRaw_loop fuel sock len data).
Proof.
  revert len data. induction fuel as [|fuel IH]; intros len data; simpl; eff_auto.
Qed.
#[global] Hint Resolve eff_recv_socketReadRaw_loop : eff.

Lemma eff_recv_socketReadRaw sock len : eff recv_rel (socketReadRaw sock len).
Proof. unfold socketReadRaw. eff_auto. Qed.
#[global] Hint Resolve eff_recv_socketReadRaw : eff.

Lemma eff_recv_socketRead8 sock : eff recv_rel (socketRead8 sock).
Proof. unfold socketRead8. eff_auto. Qed.

Lemma eff_recv_socketRead32 sock : eff recv_rel (socketRead32 sock).
Proof. unfold socketRead32. eff_auto. Qed.
#[global] Hint Resolve eff_recv_socketRead8 eff_recv_socketRead32 : eff.

Lemma eff_recv_storeReply_set j f : eff recv_rel (storeReply_set j f).
Proof. unfold storeReply_set. eff_auto. Qed.
#[global] Hint Resolve eff_recv_storeReply_set : eff.

Lemma eff_recv_receiveReply j : eff recv_rel (receiveReply j).
Proof. unfold receiveReply, receiveReply_read, receiveReply_verify. eff_auto. Qed.
#[global] Hint Resolve eff_recv_receiveReply : eff.

Lemma eff_recv_requestUpdates_recv fuel : forall onAgent onRequest totalRequests,
  eff recv_rel (requestUpdates_recv fuel onAgent onRequest totalRequests).
Proof.
  induction fuel as [|fuel IH]; intros onAgent onRequest totalRequests; simpl; eff_auto.
Qed.

(** The agent ids of a request: every agent of the batch as often as it
    needs updates. *)
Fixpoint request_ids (start : Z) (batch : list uampAgent) : list (list byte) :=
  match batch with
  | [] => []
  | a :: rest => replicate (Z.to_nat (need a)) (encode32 (to_u32 start))
                 ++ request_ids (start + 1) rest
  end.

(** The request frame: u8 0x01, the number of requests, the agent ids. *)
Definition request_frame (start : Z) (batch : list uampAgent) : list byte :=
  to_byte 0x01 :: encode32 (total_need batch) ++ concat (request_ids start batch).

Lemma request_ids_length batch : forall start,
  Forall agent_bounded batch ->
  Z.of_nat (length (concat (request_ids start batch))) = 4 * total_need batch.
Proof.
  induction batch as [|a batch IH]; intros start Hb; [reflexivity|].
  inversion Hb as [|? ? Ha Hb']; subst. pose proof (need_bounds a Ha).
  cbn [request_ids total_need foldr]. fold (total_need batch).
  rewrite concat_app, length_app, Nat2Z.inj_add, IH by assumption.
  assert (Hrep : forall n (w : list byte), length w = 4%nat ->
            length (concat (replicate n w)) = (4 * n)%nat).
  { intros n w Hw. induction n as [|n IHn]; [reflexivity|].
    cbn [replicate concat]. rewrite length_app, IHn, Hw. lia. }
  rewrite Hrep by reflexivity. lia.
Qed.

Lemma request_ids_nothing batch : forall start,
  Forall agent_bounded batch -> total_need batch <= 0 -> request_ids start batch = [].
Proof.
  induction batch as [|a batch IH]; intros start Hb Hz; [reflexivity|].
  inversion Hb as [|? ? Ha Hb']; subst.
  pose proof (need_bounds a Ha). pose proof (total_need_nonneg batch Hb').
  cbn [total_need foldr] in Hz. fold (total_need batch) in Hz.
  cbn [request_ids]. replace (need a) with 0 by lia. rewrite IH by (auto; lia). reflexivity.
Qed.

Lemma bind_ext_val {A B} (x : M A) (f g : A -> M B) m :
  (forall a m', x m = Val a m' -> f a m' = g a m') -> bind x f m = bind x g m.
Proof. intros H. unfold bind. destruct (x m) eqn:E; auto. Qed.

Lemma writes_replicate sock v n : forall i m,
  for_loop n i (fun _ => checked (socketWrite32 sock v)) m
  = writes sock (replicate n (encode32 v)) m.
Proof.
  induction n as [|n IH]; intros i m; [reflexivity|].
  cbn [for_loop replicate writes]. apply bind_ext_at. intros _ m1. apply IH.
Qed.

Lemma eff_io_writes sock pieces : eff io_rel (writes sock pieces).
Proof. induction pieces as [|p ps IH]; simpl; eff_auto. Qed.

(** The first [while] loop of requestUpdates over the agents [batch]. *)
Lemma requestUpdates_send_batch batch : forall pre post fuel onRequest t m,
  agents (client m) = Some (pre ++ batch ++ post) ->
  Forall agent_bounded batch ->
  0 <= onRequest -> onRequest + total_need batch = t -> t < 2 ^ 32 ->
  (length batch < fuel)%nat ->
  requestUpdates_send fuel (Z.of_nat (length pre)) onRequest t m
  = writes (fd (client m)) (request_ids (Z.of_nat (length pre)) batch) m.
Proof.
  induction batch as [|a batch IH]; intros pre post fuel onRequest t m Hags Hb H0 Ht H32 Hf.
  - destruct fuel as [|fuel]; [lia|]. simpl in Ht. cbn [requestUpdates_send request_ids writes].
    destruct (Z.ltb_spec onRequest t); [lia | reflexivity].
  - destruct fuel as [|fuel]; [lia|]. cbn [requestUpdates_send].
    inversion Hb as [|? ? Ha Hb']; subst.
    pose proof (need_bounds a Ha) as Hna. pose proof (total_need_nonneg batch Hb') as Hnb.
    cbn [total_need foldr] in H32 |- *. fold (total_need batch) in H32 |- *.
    destruct (Z.ltb_spec onRequest (onRequest + (need a + total_need batch))) as [Hlt|Hge].
    + unfold bind at 1.
      rewrite (numToRequest_run m (pre ++ (a :: batch) ++ post) _ a); auto.
      2:{ apply at_index_middle. }
      unfold bind at 1. unfold getClient at 1. cbn beta iota.
      cbn [request_ids]. rewrite writes_app.
      rewrite (bind_cong_at _ _ _ _ (writes_replicate _ _ _ _ _)).
      apply bind_ext_val. intros [] m1 Hm1.
      apply (eff_val io_rel) in Hm1; [| apply eff_io_writes].
      destruct Hm1 as [[b1 Hc1] _].
      rewrite to_u32_small by lia.
      replace (Z.of_nat (length pre) + 1) with (Z.of_nat (length (pre ++ [a])))
        by (rewrite length_app; simpl; lia).
      replace (fd (client m)) with (fd (client m1)) by (rewrite Hc1; reflexivity).
      apply (IH (pre ++ [a]) post); auto; try lia.
      { rewrite Hc1. cbn. rewrite <- app_assoc. exact Hags. }
      { simpl in Hf. lia. }
    + rewrite (request_ids_nothing (a :: batch)); [reflexivity | exact Hb |].
      cbn [total_need foldr]. fold (total_need batch). lia.
Qed.

Lemma w_log_sent_all sock chunks : forall w,
  w_log (sent_all sock chunks w) = w_log w ++ map (EvWrite sock) chunks.
Proof.
  induction chunks as [|c chunks IH]; intros w; [cbn; rewrite app_nil_r; reflexivity|].
  cbn [sent_all foldl map]. fold (sent_all sock chunks (sent sock c w)).
  rewrite IH. unfold sent, log_event. destruct (w_tx_room w); cbn; rewrite <- app_assoc;
    reflexivity.
Qed.

(** X22.  requestUpdates sends one request frame for the agents of its
    batch before it reads any reply: the byte 0x01, the number of requests,
    and then the id of every agent, in ascending order, once for each update
    numToRequest asks for it, all 32-bit words in network byte order, 5 + 4n
    bytes.  Reading the replies sends nothing more, whatever becomes of
    them, and the result is 0 or a negative error. *)
Theorem requestUpdates_sends_the_request pre batch post m r m' :
  let start := Z.of_nat (length pre) in
  let t := total_need batch in
  agents (client m) = Some (pre ++ batch ++ post) -> Forall agent_bounded batch ->
  t < 2 ^ 32 -> 0 <= fd (client m) ->
  can_send (env m) (length (request_frame start batch)) ->
  requestUpdates start t m = Val r m' ->
  Z.of_nat (length (request_frame start batch)) = 5 + 4 * t
  /\ r <= 0
  /\ exists chunks,
       w_log (env m') = w_log (env m) ++ map (EvWrite (fd (client m))) chunks
       /\ concat chunks = request_frame start batch
       /\ frame_chunks chunks True.
Proof.
  intros start t Hags Hb H32 Hfd Hroom H.
  pose proof (total_need_nonneg batch Hb) as Ht0. fold t in Ht0.
  assert (Hsize : Z.of_nat (length (request_frame start batch)) = 5 + 4 * t).
  { unfold request_frame. cbn [length]. rewrite length_app, Nat2Z.inj_succ, Nat2Z.inj_add.
    rewrite request_ids_length by assumption. cbn [encode32 length]. fold t. lia. }
  split; [exact Hsize|]. split; [exact (requestUpdates_result _ _ _ _ _ H)|].
  set (pieces := [to_byte 0x01] :: encode32 t :: request_ids start batch).
  assert (Hframe : concat pieces = request_frame start batch) by reflexivity.
  destruct (writes_frame (fd (client m)) pieces m Hfd) as (chunks & Hrun & Hcat & Hch).
  { rewrite Hframe, Hsize. lia. }
  { rewrite Hframe. exact Hroom. }
  rewrite Hframe in Hrun, Hcat. rewrite Hsize in Hrun.
  exists chunks. split; [| split; [exact Hcat | exact Hch]].
  set (m1 := mkMachine (set_commBuf (mkIOBuffer (5 + 4 * t) (5 + 4 * t) []) (client m))
                       (sent_all (fd (client m)) chunks (env m))) in *.
  assert (Hsend :
    (beginWrite (to_u64 (5 + 4 * t)) ;;
     checked (socketWrite8 (fd (client m)) 0x01) ;;
     checked (socketWrite32 (fd (client m)) t) ;;
     requestUpdates_send (S (agentCount (client m))) start 0 t) m = Val tt m1).
  { rewrite <- Hrun. rewrite to_u64_small by lia.
    apply bind_ext_val. intros [] ma Hma. injection Hma as <-.
    unfold pieces. cbn [writes].
    apply bind_ext_val. intros [] mb Hmb.
    apply (eff_val io_rel) in Hmb; [| eff_auto]. destruct Hmb as [[bb Hcb] _].
    apply bind_ext_val. intros [] mc Hmc.
    apply (eff_val io_rel) in Hmc; [| eff_auto]. destruct Hmc as [[bc Hcc] _].
    assert (Hc : client mc = set_commBuf bc (client m)) by (rewrite Hcc, Hcb; reflexivity).
    replace (fd (client m)) with (fd (client mc)) by (rewrite Hc; reflexivity).
    replace (agentCount (client m)) with (agentCount (client mc))
      by (rewrite Hc; reflexivity).
    apply (requestUpdates_send_batch batch pre post); auto; try lia.
    - rewrite Hc. exact Hags.
    - unfold agentCount. rewrite Hc. cbn [agents set_commBuf]. rewrite Hags, !length_app. lia. }
  assert (Hsplit : forall (Q : M unit),
    (beginWrite (to_u64 (5 + 4 * t)) ;;
     checked (socketWrite8 (fd (client m)) 0x01) ;;
     checked (socketWrite32 (fd (client m)) t) ;;
     requestUpdates_send (S (agentCount (client m))) start 0 t ;;
     Q) m
    = ((beginWrite (to_u64 (5 + 4 * t)) ;;
        checked (socketWrite8 (fd (client m)) 0x01) ;;
        checked (socketWrite32 (fd (client m)) t) ;;
        requestUpdates_send (S (agentCount (client m))) start 0 t) ;;
       Q) m).
  { intros Q. symmetry. rewrite bind_assoc_at. apply bind_ext_at. intros _ ma.
    rewrite bind_assoc_at. apply bind_ext_at. intros _ mb.
    rewrite bind_assoc_at. reflexivity. }
  unfold requestUpdates, function, returning in H.
  unfold bind at 1 in H. unfold getClient at 1 in H. cbn beta iota zeta in H.
  rewrite Hsplit in H. unfold bind at 1 in H. rewrite Hsend in H.
  match type of H with
  | match ?Q m1 with _ => _ end = _ =>
      assert (He : eff recv_rel Q)
        by (apply eff_bind;
            [typeclasses eauto | apply eff_recv_beginRead
             | intros; apply eff_recv_requestUpdates_recv]);
      specialize (He m1); destruct (Q m1) as [[] m2 | e m2 |] eqn:EQ
  end.
  - injection H as <- <-. destruct He as [Hlog _]. rewrite Hlog. apply w_log_sent_all.
  - injection H as <- <-. destruct He as [_ [Hlog _]]. rewrite Hlog. apply w_log_sent_all.
  - discriminate.
Qed.

Lemma requestUpdates_request_witness :
  requestUpdates 0 12 sample_allocated
  = Val ERROR_SOCKET_DRY (after (requestUpdates 0 12) sample_allocated)
  /\ exists chunks,
       w_log (env (after (requestUpdates 0 12) sample_allocated))
       = w_log (env sample_allocated) ++ map (EvWrite (fd (client sample_allocated))) chunks
       /\ concat chunks
          = to_byte 0x01 :: encode32 12
            ++ concat (replicate 6 (encode32 0) ++ replicate 6 (encode32 1)).
Proof.
  assert (Hrun : requestUpdates 0 12 sample_allocated
                 = Val ERROR_SOCKET_DRY (after (requestUpdates 0 12) sample_allocated))
    by (vm_compute; reflexivity).
  split; [exact Hrun|].
  destruct (requestUpdates_sends_the_request [] [zeroAgent; zeroAgent] [] sample_allocated
              ERROR_SOCKET_DRY (after (requestUpdates 0 12) sample_allocated))
    as (_ & _ & chunks & Hlog & Hcat & _);
    [reflexivity | repeat constructor; vm_compute; discriminate | reflexivity
     | vm_compute; discriminate | exact I | exact Hrun |].
  exists chunks. split; [exact Hlog|]. rewrite Hcat. reflexivity.
Defined.

(* ===================================================================== *)
(** ** The simulation request of uampConnect *)
(* ===================================================================== *)

(** uampConnect from the handshake on (lines 99-112). *)
Definition uampConnect_session_start (seed supportedFeatures : Z) : M unit :=
  checked (performHandshake true supportedFeatures) ;;
  c <- getClient ;;
  beginWrite 12 ;;
  checked (socketWrite32 (fd c) (numAgents c)) ;;
  checked (socketWrite32 (fd c) (timeLimit c)) ;;
  checked (socketWrite32 (fd c) (to_u32 seed)) ;;
  r <- checked_with (socketRead (fd c) 1) ;;
  let response := match r with b :: _ => byte_val b | [] => 0 end in
  (if response =? 0x01 then ERROR ERROR_SIMULATION_DENIED
   else if negb (response =? 0x00) then ERROR ERROR_SIMULATION_RESPONSE_BAD
   else ret tt) ;;
  modClient (fun c => set_smallestCurrentTime 0 (set_largestLastTime 0 c)) ;;
  checked initializeQueues.

(** The client when the socket is connected (lines 66-97). *)
Definition prepared (nAgents ms sock : Z) (c : uampClient) : uampClient :=
  set_fd sock
    (set_numStates 0
       (set_timeLimit ms
          (set_numAgents (to_u32 nAgents)
             (set_agents (Some (replicate (Z.to_nat nAgents) zeroAgent))
                (set_numChanges 0 (set_agents None (set_fd (-1) c))))))).

Lemma uampConnect_prepared hostname port nAgents tLimit seed features m v s :
  port <> 0 -> w_resolves (env m) = true -> w_socket (env m) = Some s ->
  w_connects (env m) = true -> w_calloc (env m) = [] ->
  0 < nAgents <= INT_MAX -> time_out_of_range tLimit = false ->
  llround (PrimFloat.mul tLimit 1000%float) = Some v ->
  uampConnect hostname port nAgents tLimit seed features m
  = returning (uampConnect_session_start seed features) connect_cleanup
      (mkMachine (prepared nAgents (to_u32 v) (Z.of_N s) (client m)) (env m)).
Proof.
  intros Hport Hres Hsock Hconn Hmem Hn Ht Hl.
  assert (Hsmall : (nAgents <=? 0) || (UINT32_MAX <? to_u32 nAgents) = false).
  { unfold INT_MAX in Hn. rewrite to_u32_small by lia.
    apply orb_false_iff. split; [apply Z.leb_gt | apply Z.ltb_ge]; unfold UINT32_MAX; lia. }
  unfold uampConnect, returning.
  unfold bind at 1. unfold uampInitialize at 1, modClient at 1. cbn beta iota.
  unfold bind at 1. rewrite Hsmall. unfold ret at 1. cbn beta iota.
  unfold bind at 1. unfold time_out_of_range in Ht. rewrite Ht.
  unfold ret at 1. cbn beta iota.
  unfold bind at 1. unfold calloc at 1, bind at 1, getWorld at 1. cbn beta iota.
  cbn [env]. rewrite Hmem. unfold ret at 1. cbn beta iota.
  unfold bind at 1. unfold modClient at 1. cbn beta iota.
  unfold bind at 1. unfold modClient at 1. cbn beta iota.
  unfold bind at 1. unfold to_millis. rewrite Hl. unfold ret at 1. cbn beta iota.
  unfold bind at 1. unfold modClient at 1. cbn beta iota.
  unfold bind at 1. unfold modClient at 1. cbn beta iota.
  unfold bind at 1. unfold callSocket at 1, bind at 1, getWorld at 1. cbn beta iota.
  cbn [env client]. destruct (Z.eqb_spec port 0); [contradiction|].
  rewrite Hres, Hsock, Hconn. cbn [negb]. unfold ret at 1. cbn beta iota.
  unfold bind at 1. unfold modClient at 1. cbn beta iota.
  unfold bind at 1. unfold ERROR_CHECK at 1.
  destruct (Z.ltb_spec (Z.of_N s) 0); [lia|]. unfold ret at 1. cbn beta iota.
  reflexivity.
Qed.

(** The simulation request: the number of agents, the time limit in
    milliseconds and the seed. *)
Definition simulation_request (nAgents ms seed : Z) : list byte :=
  encode32 (to_u32 nAgents) ++ encode32 ms ++ encode32 (to_u32 seed).

(** X23.  uampConnect against a UAMP server that completes the handshake:
    the client sends its nine handshake bytes, its version choice, and
    then the simulation request in one write: number of agents, time limit
    in milliseconds and seed as 32-bit words in network byte order.  A
    server that answers with a byte other than 0x00 refuses: the result is
    ERROR_SIMULATION_DENIED for 0x01 and ERROR_SIMULATION_RESPONSE_BAD for
    any other byte, and the client is released before the call returns:
    the socket is closed and fd is -1, the agents are freed, and nothing
    after the answer has been read. *)
Theorem uampConnect_refused_by_the_server
    hostname port nAgents tLimit seed features m v s ver f0 f1 f2 f3 ack resp rest :
  port <> 0 -> w_resolves (env m) = true -> w_socket (env m) = Some s ->
  w_connects (env m) = true -> w_calloc (env m) = [] -> can_send (env m) 22 ->
  0 < nAgents <= INT_MAX -> time_out_of_range tLimit = false ->
  llround (PrimFloat.mul tLimit 1000%float) = Some v ->
  valid_features features ->
  w_rx (env m) = tag_UAMP ++ [ver] ++ [f0; f1; f2; f3] ++ [ack] ++ [resp] ++ rest ->
  handshake_verdict (byte_val ver) (decode32 [f0; f1; f2; f3]) features = None ->
  byte_val ack = SUPPORTED_VERSION -> byte_val resp <> 0 ->
  exists m',
    uampConnect hostname port nAgents tLimit seed features m
    = Val (if byte_val resp =? 0x01 then ERROR_SIMULATION_DENIED
           else ERROR_SIMULATION_RESPONSE_BAD) m'
    /\ fd (client m') = -1 /\ agents (client m') = None
    /\ w_rx (env m') = rest
    /\ w_log (env m')
       = w_log (env m)
         ++ [EvWrite (Z.of_N s) (client_hello true features);
             EvWrite (Z.of_N s) [to_byte SUPPORTED_VERSION];
             EvWrite (Z.of_N s) (simulation_request nAgents (to_u32 v) seed);
             EvClose (Z.of_N s); EvFree AgentStorage].
Proof.
  intros Hport Hres Hsock Hconn Hmem Hroom Hn Ht Hl Hf Hrx Hverdict Hack Hresp.
  rewrite (uampConnect_prepared hostname port nAgents tLimit seed features m v s)
    by assumption.
  set (sock := Z.of_N s).
  set (mP := mkMachine (prepared nAgents (to_u32 v) sock (client m)) (env m)).
  assert (Hsock0 : 0 <= sock) by (subst sock; lia).
  (* the handshake *)
  destruct (performHandshake_matching_run true features mP ver f0 f1 f2 f3 ack
              ([resp] ++ rest) Hf Hsock0) as [_ Hhs].
  { eapply can_send_less; [| exact Hroom]. lia. }
  { exact Hrx. }
  cbv zeta in Hhs. rewrite Hverdict in Hhs.
  unfold choice_result in Hhs. rewrite Hack in Hhs.
  change (SUPPORTED_VERSION =? 0) with false in Hhs.
  change (negb (SUPPORTED_VERSION =? SUPPORTED_VERSION)) with false in Hhs.
  cbv iota in Hhs.
  set (m1 := exchanged true features [f0; f1; f2; f3] ([ack] ++ [resp] ++ rest) mP) in *.
  set (mH := mkMachine (client m1)
               (set_w_rx ([resp] ++ rest)
                  (sent (fd (client mP)) [to_byte SUPPORTED_VERSION] (env m1)))) in *.
  assert (HcH : client mH
                = set_serverFeatures (decode32 [f0; f1; f2; f3])
                    (set_commBuf (mkIOBuffer 9 9 []) (client mP))) by reflexivity.
  assert (HfdH : fd (client mH) = sock) by reflexivity.
  assert (HroomH : can_send (env mH) 12).
  { unfold mH, m1, exchanged. cbn [env client].
    apply can_send_after. apply can_send_after.
    eapply can_send_less; [| exact Hroom]. cbn. lia. }
  (* the request *)
  set (pieces := [encode32 (numAgents (client mH)); encode32 (timeLimit (client mH));
                  encode32 (to_u32 seed)]).
  pose proof (writes_one_frame sock pieces mH Hsock0 ltac:(discriminate)
                ltac:(unfold UAMP_IO_BUFFER_SIZE; cbn; lia) HroomH) as Hreq.
  change (Z.of_nat (length (concat pieces))) with 12 in Hreq.
  set (mR := mkMachine (set_commBuf (mkIOBuffer 12 12 []) (client mH))
                       (sent sock (concat pieces) (env mH))) in *.
  assert (Hread : checked_with (socketRead sock 1) mR
                  = Val [resp] (mkMachine (client mR) (set_w_rx rest (env mR)))).
  { unfold checked_with. unfold bind at 1.
    rewrite (socketRead_ok sock 1 [resp] rest mR Hsock0); [reflexivity | | reflexivity].
    unfold mR. cbn [env]. rewrite w_rx_sent. reflexivity. }
  set (mA := mkMachine (client mR) (set_w_rx rest (env mR))) in *.
  set (e := if byte_val resp =? 0x01 then ERROR_SIMULATION_DENIED
            else ERROR_SIMULATION_RESPONSE_BAD).
  assert (Hbody : uampConnect_session_start seed features mP = Err e mA).
  { unfold uampConnect_session_start.
    unfold bind at 1. unfold checked at 1. unfold bind at 1. rewrite Hhs.
    change (ERROR_CHECK 0) with (@ret unit tt). unfold ret at 1. cbn beta iota.
    unfold bind at 1. unfold getClient at 1. cbn beta iota. rewrite HfdH.
    transitivity
      (((beginWrite 12 ;; writes sock pieces) ;;
        r <- checked_with (socketRead sock 1) ;;
        let response := match r with b :: _ => byte_val b | [] => 0 end in
        (if response =? 0x01 then ERROR ERROR_SIMULATION_DENIED
         else if negb (response =? 0x00) then ERROR ERROR_SIMULATION_RESPONSE_BAD
         else ret tt) ;;
        modClient (fun c => set_smallestCurrentTime 0 (set_largestLastTime 0 c)) ;;
        checked initializeQueues) mH).
    { symmetry. rewrite bind_assoc_at. apply bind_ext_at. intros _ ma.
      unfold pieces. cbn [writes].
      rewrite bind_assoc_at. apply bind_ext_at. intros _ mb.
      rewrite bind_assoc_at. apply bind_ext_at. intros _ mc.
      rewrite bind_assoc_at. apply bind_ext_at. intros _ md. reflexivity. }
    unfold bind at 1. rewrite Hreq.
    unfold bind at 1. rewrite Hread. cbv zeta.
    unfold bind at 1. subst e.
    destruct (Z.eqb_spec (byte_val resp) 1); [reflexivity|].
    destruct (Z.eqb_spec (byte_val resp) 0); [contradiction | reflexivity]. }
  assert (He : e <> 0) by (subst e; destruct (byte_val resp =? 1); discriminate).
  unfold returning. rewrite Hbody.
  assert (Hclean : connect_cleanup e mA
                   = Val tt (mkMachine (set_agents None (set_fd (-1) (client mA)))
                               (log_event (EvFree AgentStorage)
                                  (log_event (EvClose sock) (env mA))))).
  { unfold connect_cleanup.
    destruct (Z.eqb_spec e 0); [contradiction|]. cbn [negb].
    unfold bind at 1. unfold getClient at 1. cbn beta iota.
    replace (fd (client mA)) with sock by reflexivity.
    destruct (Z.leb_spec 0 sock); [| lia].
    reflexivity. }
  unfold bind at 1. rewrite Hclean. unfold ret.
  eexists. split; [reflexivity|].
  split; [reflexivity|]. split; [reflexivity|].
  split.
  { cbn [env w_rx log_event set_w_log]. unfold mA. cbn [env w_rx set_w_rx]. reflexivity. }
  cbn [env w_log log_event set_w_log]. unfold mA. cbn [env w_log set_w_rx].
  unfold mR. cbn [env]. rewrite w_log_sent.
  unfold mH. cbn [env w_log set_w_rx]. rewrite w_log_sent.
  unfold m1, exchanged. cbn [env w_log set_w_rx]. rewrite w_log_sent.
  rewrite <- !app_assoc. cbn [app]. unfold mP. cbn [env client].
  replace (fd (prepared nAgents (to_u32 v) sock (client m))) with sock by reflexivity.
  unfold pieces, simulation_request. cbn [concat]. rewrite app_nil_r.
  replace (numAgents (client mH)) with (to_u32 nAgents) by reflexivity.
  replace (timeLimit (client mH)) with (to_u32 v) by reflexivity.
  reflexivity.
Qed.

(** The UAMP server of the sample, denying the simulation. *)
Definition sample_refusing : machine :=
  mkMachine sample_client
            (sample_world (tag_UAMP ++ [to_byte 0x80] ++ encode32 0 ++ [to_byte 0x80]
                           ++ [to_byte 0x01])).

Lemma uampConnect_refused_witness :
  exists m',
    uampConnect "h" 80 2 1%float 42 0 sample_refusing = Val ERROR_SIMULATION_DENIED m'
    /\ fd (client m') = -1 /\ agents (client m') = None
    /\ w_log (env m')
       = [EvWrite 3 (client_hello true 0); EvWrite 3 [to_byte 0x80];
          EvWrite 3 (simulation_request 2 1000 42); EvClose 3; EvFree AgentStorage].
Proof.
  destruct (uampConnect_refused_by_the_server "h" 80 2 1%float 42 0 sample_refusing 1000 3%N
              (to_byte 0x80) x00 x00 x00 x00 (to_byte 0x80) (to_byte 0x01) [])
    as (m' & Hrun & Hfd & Hags & _ & Hlog);
    [discriminate | reflexivity | reflexivity | reflexivity | reflexivity | exact I
     | unfold INT_MAX; lia | vm_compute; reflexivity | vm_compute; reflexivity
     | reflexivity | reflexivity | vm_compute; reflexivity | reflexivity
     | vm_compute; discriminate |].
  exists m'. split; [exact Hrun|]. split; [exact Hfd|]. split; [exact Hags | exact Hlog].
Defined.

(* ===================================================================== *)
(** ** The session mvispConnect sets up *)
(* ===================================================================== *)

Lemma mvispConnect_settings hostname port naPtr tlPtr names nStates accept features m0 m :
  nStates <= INT_MAX ->
  mvispConnect hostname port naPtr tlPtr names nStates accept features m0 = Val 0 m ->
  numStates (client m) = nStates /\ 0 < nStates.
Proof.
  intros Hmax H. unfold mvispConnect in H.
  peel_skip H. peel H as vs mb Hvs.
  apply returning_inv in H. destruct H as (mz & Hclean & [[_ H] | H]).
  2:{ exfalso. revert H. apply eff_not_zero. eff_auto. }
  assert (Hm : client m = client mz).
  { cbn in Hclean. destruct (snd vs); injection Hclean as <-; reflexivity. }
  rewrite Hm. clear Hclean Hm m.
  peel H as u0 my H0.
  assert (Hpos : 0 < nStates).
  { unfold verifyStates in Hvs.
    destruct (Z.leb_spec nStates 0) as [Hle | Hgt]; [| exact Hgt].
    cbn [orb] in Hvs. injection Hvs as <- <-. discriminate. }
  clear Hvs H0.
  peel_skip H. peel_skip H. peel_skip H. peel_skip H.
  peel H as c mc Hc. clear Hc.
  peel_skip H.
  peel H as naInput md Hna. apply socketRead32_range in Hna.
  peel H as tlInput me Htl. apply socketRead32_range in Htl.
  peel H as u1 mf H1. destruct (Z.eqb_spec naInput 0) as [|Hna0]; [discriminate|]. clear H1.
  peel_skip H. peel_skip H.
  peel H as denied mg Hd.
  peel H as u2 mh Hden.
  assert (Hok : denied = false).
  { destruct denied; [| reflexivity].
    exfalso. peel_skip Hden. peel_skip Hden. discriminate. }
  subst denied. clear Hd Hden.
  peel H as ok mo Hcalloc. clear Hcalloc.
  peel H as u3 mi H3. destruct ok; [| discriminate]. inversion H3; subst u3 mi; clear H3.
  peel H as u4 mj H4. inversion H4; subst u4 mj; clear H4.
  peel H as u5 mk H5. inversion H5; subst u5 mk; clear H5.
  peel H as u6 ml H6. inversion H6; subst u6 ml; clear H6.
  match type of H with _ ?x = _ => set (mset := x) in * end.
  assert (Hf : numStates (client mset) = nStates).
  { subst mset. cbn. apply to_u32_small. unfold INT_MAX in Hmax. lia. }
  clearbody mset.
  assert (Hrel : conn_rel mset mset) by reflexivity.
  peel_conn H Hrel.
  peel H as v12 mk H1. destruct v12.
  apply conn_rel_fields in Hrel. destruct Hrel as (_ & _ & _ & Rs).
  injection H1 as <-.
  apply (eff_val queue_rel) in H; [| unfold checked; eff_auto].
  destruct H as [(b & ags & Hc) _].
  split; [| exact Hpos]. rewrite Hc. cbn.
  match goal with |- numStates (client ?x) = _ => fold (numStates (client x)) end.
  rewrite Rs. exact Hf.
Qed.

(** X24.  A successful mvispConnect leaves an MVISP session: numStates is
    the number of state names, which is positive, so that uampChangeState
    checks its arguments instead of returning 0 at once; the number of
    agents is between 1 and INT_MAX and that many agents are allocated, the
    time limit is at least one millisecond, and every agent has a full
    queue of six updates with the current one the first, at time 0, so
    that uampIsAnyMore returns 1. *)
Theorem mvispConnect_sets_up_the_session
    hostname port naPtr tlPtr names nStates accept features m0 m :
  nStates <= INT_MAX ->
  mvispConnect hostname port naPtr tlPtr names nStates accept features m0 = Val 0 m ->
  numStates (client m) = nStates /\ 0 < nStates
  /\ (forall agentID newState,
        uampChangeState agentID (-1)%float newState m = Val ERROR_INVALID_CHANGE_TIME m)
  /\ exists ags,
       agents (client m) = Some ags
       /\ numAgents (client m) = Z.of_nat (length ags)
       /\ 1 <= numAgents (client m) <= INT_MAX
       /\ 1 <= timeLimit (client m)
       /\ Forall (fun a => currentIndex a = 0 /\ recvIndex a = 0 /\ aliveInQueue a = 6
                           /\ cur_time a = 0) ags
       /\ uampIsAnyMore m = Val 1 m.
Proof.
  intros Hmax H.
  destruct (mvispConnect_settings _ _ _ _ _ _ _ _ _ _ Hmax H) as [Hns Hpos].
  destruct (mvispConnect_session _ _ _ _ _ _ _ _ _ _ H) as (ags & Hs & Hfresh & _ & Hsm).
  split; [exact Hns|]. split; [exact Hpos|]. split.
  { intros agentID newState. unfold uampChangeState, bind, getClient.
    destruct (Z.eqb_spec (numStates (client m)) 0); [lia|].
    unfold function, returning, bind.
    replace (PrimFloat.ltb (-1) 0 || PrimFloat.ltb UAMP_MAX_TIME (-1)) with true
      by (vm_compute; reflexivity).
    destruct m; reflexivity. }
  assert (Hone : 1 <= timeLimit (client m)).
  { pose proof (ses_count _ _ Hs) as Hc. pose proof (ses_queues _ _ Hs) as Hq.
    pose proof (ses_some _ _ Hs) as Hsome.
    destruct ags as [|a ags]; [simpl in Hc; lia|].
    inversion Hq; subst. inversion Hfresh; subst.
    eapply agent_fresh_limit; eauto. }
  exists ags. split; [apply (ses_agents _ _ Hs)|].
  split; [apply (ses_count _ _ Hs)|]. split; [apply (ses_some _ _ Hs)|].
  split; [exact Hone|]. split.
  - eapply Forall_impl; [exact Hfresh|]. intros a (H1 & H2 & H3 & H4). auto.
  - unfold uampIsAnyMore, bind, getClient. rewrite Hsm.
    destruct (Z.ltb_spec 0 (timeLimit (client m))); [reflexivity | lia].
Qed.

Lemma mvispConnect_session_witness :
  numStates (client sample_mvisp_connected) = 2
  /\ uampChangeState 0 (-1)%float 0 sample_mvisp_connected
     = Val ERROR_INVALID_CHANGE_TIME sample_mvisp_connected
  /\ uampIsAnyMore sample_mvisp_connected = Val 1 sample_mvisp_connected.
Proof.
  destruct (mvispConnect_sets_up_the_session "h" 80 true true sample_names 2 sample_accept 0
              sample_mvisp_start sample_mvisp_connected)
    as (Hns & _ & Hchange & ags & _ & _ & _ & _ & _ & Hany);
    [unfold INT_MAX; lia | exact sample_mvisp_connected_run |].
  split; [exact Hns|]. split; [apply Hchange | exact Hany].
Defined.
